(* ===== verification/_CoqProject ===== *)
-Q . S2P
Prelude.v
Carray.v
Quorum.v
Messages.v
Storage.v
StorageMem.v
Acceptor.v
Proposer.v
ProposerRun.v
Learner.v
Synod.v
System.v
SystemRuns.v
Wire.v
SystemWire.v
Net.v
Config.v
EvAcceptor.v
EvProposer.v
Ordered.v
Timeouts.v
EvLearner.v
StorageBdb.v
Limits.v
Storages.v
Progress.v
Heap.v
Memory.v
MemCarray.v
MemQueue.v
MemProposer.v
MemTimeouts.v
ProposerLife.v
EvProposerRun.v
MemRuns.v
MemLearner.v
MemLearnerRuns.v
MemConns.v
MemConfig.v
MemConfigRead.v
MemEvLearner.v
MemAcceptor.v
MemEvAcceptor.v
Restart.v
Startup.v
MemEvProposer.v
MemPrograms.v
EvCluster.v
ClusterRun.v
UnitTests.v
Samples.v
EchoServer.v
