(* ===== verification/Prelude.v ===== *)
(** * LibPaxos 3, a verification in Rocq

** The program

LibPaxos is a replicated log: for each instance number (iid) the nodes agree on
one value with the Paxos protocol.  Proposers collect client values, run phase
1 (prepare) for a window of instances ahead of time and phase 2 (accept) for
the values; acceptors record promises and votes in a storage; learners count
votes and deliver the decided values in order.  src/paxos holds the state
machines of the three roles and the storages, src/evpaxos connects them with
libevent: messages as C structures on TCP connections, timers, the
configuration file.

** The files

- [Prelude] (this file): outcomes of C code ([res], with faults for assertions,
  [exit] and undefined behaviour), machine integers, arrays and counted loops,
  the tactics [inv_res], [case_Z], [loop_total] and shared list lemmas.
- [Carray] (paxos/carray.c): the circular array.  [carray_rep] relates it to
  the list it holds.
- [Quorum] (paxos/quorum.c, [paxos_quorum] of paxos.c): the flags of the
  acceptors that have answered.  [quorum_rep] relates it to a set.
- [Messages] (libpaxos_messages.h, paxos.h, paxos.c): messages, sizes,
  configuration, log lines.
- [Storage] (storage.h): the class [Storage] of the operations an acceptor uses
  and its contract [StorageSpec]; [StorageMem] (storage_mem.c) and [StorageBdb]
  (storage_bdb.c) are the implementations; [Storages]: that they are
  interchangeable.
- [Acceptor] (acceptor.c): both phases and repeats over any [Storage].
- [Proposer] (proposer.c): the queues, phases 1 and 2, preemption, timeouts, one
  function after another; [ProposerRun]: its operations as moves [pmove] on what
  its queues hold, and runs.
- [Learner] (learner.c): the window of instances and delivery.
- [Progress]: rounds of a proposer without competition, composed from the
  functions of the three roles.
- [Synod]: the abstract single-decree protocol and its agreement, no code.
- [System]: acceptors, proposers and the messages ever sent as a transition
  system [sys_step] whose steps are the functions of [Acceptor] and [Proposer];
  [SystemRuns]: concrete runs and the witnesses of [System]; [Restart]:
  restarted nodes, and empty values.
- [Wire] (tcp_sendbuf.c and the receiving loops): bytes of the messages, the
  framing of the stream; [SystemWire]: the messages of [System] on the wire.
- [Net] (tcp_receiver.c, peers.c): accepted and opened connections.
- [Config] (config_reader.c): the configuration file.
- [EvAcceptor], [EvProposer], [EvLearner] (evacceptor.c, evproposer.c,
  evlearner.c): initialisation and handlers, returning what they send or
  deliver; [Timeouts]: the timeout handler of the proposer, against what is [due]
  on the clock; [Startup]: nodes started from one configuration file;
  [EvCluster]: all nodes of a cluster, one callback of an event loop at a time;
  [Ordered]: a proposer and an acceptor over connections that keep order;
  [ClusterRun]: that the handlers of a cluster on such connections return;
  [Limits]: the largest value an acceptor on Berkeley DB survives.
- [Heap]: programs on a heap of blocks with [malloc] and [free], and a
  separation logic for them (an instance of the Iris proof mode); [Memory]: the
  structures of libpaxos as blocks.  The functions that handle pointers are
  there a second time, with the prefix [c_], as programs on the heap:
  [MemCarray] and [MemQueue] (carray.c), [MemProposer] and [MemTimeouts]
  (quorum.c, proposer.c), [MemLearner] (learner.c), [MemAcceptor]
  (storage_mem.c, acceptor.c).  Each has a triple that
  relates it to the function of the same name without the prefix, by a
  representation predicate ([queue], [at_proposer], [at_learner], [at_table]).
  [ProposerLife] and [MemRuns] are programs that use a proposer from
  proposer_new to proposer_free, [MemLearnerRuns] those that use a learner.
  [MemConns] (tcp_receiver.c, peers.c), [MemConfig] (free_config),
  [MemEvLearner], [MemEvAcceptor] and [MemEvProposer] (evlearner.c, evacceptor.c,
  evproposer.c) are whole nodes on the heap, from their initialisation to their
  freeing; [MemConfigRead] (config_reader.c, the global [paxos_config]) is the
  reader on the heap, which [follows] the one of [Config], errors included, and
  [MemPrograms] are the programs of src/sample from the file to the end of the
  node; [EvProposerRun] shows that each event of such a proposer returns.
- [UnitTests] (src/unit): the unit tests, run on the model; [Samples]
  (src/sample): the programs around the nodes; [EchoServer] (src/test.c).

C functions keep their names; the state a function works on is passed and
returned, and a pointer into an array is the index it was made from.  A
function that may fail returns [res].

** What is shown

- Safety of the whole system ([System]).  Whatever messages are lost,
  duplicated or reordered, every reachable state refines the abstract protocol
  ([system_refines_synod]), so no two values are chosen in an instance
  ([system_agreement]), chosen values were submitted ([system_validity]) and
  stay chosen ([system_chosen_stable]), and learners fed with votes deliver the
  same values ([learners_agree]).  The storage is any that meets its contract,
  and an acceptor may be restarted on it ([acceptor_restart_safe]).  Nodes
  started from one configuration file are such a system ([nodes_start],
  [cluster_agreement]), and its messages fit their C types
  ([system_messages_typed]).
- The contract of the library ([EvCluster]).  In a cluster started from one
  configuration file whose clients submit no empty values and whose learners are
  given only votes, whatever else the network does to messages and connections,
  and whichever acceptors restart, every learner hands its callback consecutive
  instances, each with the value every other learner hands for it, which a
  client submitted ([cluster_delivers]).  When connections keep the order of
  requests the assertion of a proposer about the answers it gets holds
  ([ordered_answers_accepted]); with in-memory acceptors, values of at most 8160
  bytes and instances of one window of the tables no handler of such a cluster
  fails at all ([cluster_keeps_running]).
- Memory.  A proposer and a learner never touch an object they have freed or do
  not own, free nothing twice and leak nothing, from their creation to their
  end, while they compute what the value model computes
  ([proposer_memory_safe], [learner_memory_safe]).  So do whole programs, acceptors
  on the in-memory table included, from any configuration file that the reader
  accepts, with their connections, timers and configuration, whatever messages
  and connection events they handle ([learner_program_safe],
  [acceptor_program_safe], [proposer_program_leaks_timer]); but a proposer leaves
  its timer behind, and the reader the strings that it replaces
  ([config_read_and_freed]).
- Progress ([Progress]).  A proposer without competition gets all the values of
  its clients delivered, in order, one round each ([lone_proposer_delivers]).
- Each role.  The acceptor computes its specification and keeps its promises;
  the proposer requests one value per ballot, adopts the value of the highest
  ballot promised, loses no client value and never fails while its queues have
  room; the learner delivers in order, without gaps, what a majority voted.
- The event-driven layer.  The handlers of [EvAcceptor] and [EvProposer] are
  sequences of transitions of [System], so its safety is that of the running
  nodes; [EvLearner] delivers everything it can after each message; the timeout
  handler resends exactly what no majority has answered within the timeout
  ([check_timeouts_resends]); the loops terminate.  Messages
  survive encoding, a stream is cut into its messages however it arrives, and
  peers are reconnected to for ever.
- Data structures and storage.  The circular array is a queue, a quorum counts
  distinct acceptors, both storages keep to the contract (the in-memory one
  answers as a map or stops the process, [mem_answers_as_map]) and cannot be told
  apart ([storages_interchangeable]), Berkeley DB records survive a restart, the
  configuration reader implements its grammar.  The unit tests pass but one.
- What is wrong.  [learner_repeat_unsafe] (a learner that asks for repeats can
  deliver a value nobody voted for), [proposer_restart_unsafe] (a proposer
  started again, whatever its id, uses its ballots again, and two learners
  disagree), [empty_value_unsafe] (a chosen empty value is not seen by the next
  proposer, and two learners disagree), [quorum_clear_keeps_high_ids] (flags of
  the last acceptors are not reset; [high_id_stalls_proposer] is what comes of
  it), [mem_save_accept_overflow], [bdb_save_accept_overflow] and
  [bdb_value_limit] (record buffers are smaller than the messages that are let
  in), [bdb_max_iid_not_max], [config_missing_value_faults] and
  [config_eleventh_address_faults], [prepare_already_closed_fails] (a unit test
  that the code does not pass).

** Assumptions

[System] assumes that proposers have distinct ids below [MAX_N_OF_PROPOSERS]
and are not restarted, that a ballot or an instance number does not wrap around
2^32 ([no_wrap], also a hypothesis of a step), that client values are not empty
(an empty value is taken for no value), and that acceptors are restarted only
on the records they had.  [learners_agree] is about learners that receive votes; replies to
repeat requests are excluded, and [learner_repeat_unsafe] shows why.  libevent
and Berkeley DB are classes ([Evbuffer], [Bdb]) with their documented behaviour
([EvbufferSpec], [BdbSpec]); [BdbReads] says that reading does not fail.  The
ABI is LP64, little-endian.  [lone_proposer_delivers] is about the acceptors
below the quorum size, whose flags [quorum_clear] does reset, with the in-memory
storage and client values that fit in the proposer's first array.
[cluster_delivers] makes the same assumptions, each named in [cl_step]: a message
arrives only if it was sent and an acceptor restarts on its records
([possible]), submitted values are not empty ([nonempty_values]), a learner is
given votes ([votes_only]), a proposer handles an event while its counters are
below 2^28 ([counters_fit]).  Without the second and the third agreement fails
([empty_value_unsafe], [learner_repeat_unsafe]).
A proposer node on the heap handles fewer than 2^26 / (2 * window + 3) messages
and timeouts, within 2000 seconds; an acceptor node is asked for instances of
one window of [MAX_RECORDS], with values that fit its buffers.
[cluster_keeps_running] is about runs in which every event [may_happen]: the
requests of a proposer reach an acceptor in the order they were sent, on
connections that belong to it, and accept acknowledgements reach a proposer from
its own connections only ([arrives]); submitted values have 1 to 8160 bytes
([small_values]), instances are in one window of [MAX_RECORDS] ([in_table]),
clocks stay within 2000 seconds ([on_time]), learners are given votes
([learnable]), and acceptors do not restart.  That accept acknowledgements are
votes where the proposer asserts it is derived from the order; over a network
that reorders requests the assertion fails ([stale_refusal_aborts]).
[malloc] returns a new block; a block holds a value of its type, so that
reading one as another type is a fault.

** Bounds

Runs of a proposer have fewer than 2^28 operations, so that neither ballots nor
sizes overflow; circular arrays are indexable up to 2^30 entries.  Loops whose
end depends on the data carry fuel: the reading loop the number of buffered
bytes, the accept loop the number of prepared instances, the timeout loops the
lengths of the queues, the delivery loop the size of the window, the
configuration reader the length of the file.
Theorems show that the fuel is enough, so [StackOverflow] does not occur; the
walk of [bdb_get_max_iid] takes its fuel as an argument, any above the number
of records.

** What is not modelled

libevent itself: its event loop is the choice of the next handler, a timer is a
call of its handler, and what it does with sockets is an argument (whether a
listener could be bound, which connection was made).  The memory of the Berkeley
DB storage, the [FILE] and the line buffer of the configuration reader, and the
buffers of connections: a message is handed to a node on the heap as a value.
What is printed, except log lines and the learner's values.  on_listener_error, handle_sigint and the connection events of
the clients, which only print or end the event loop; the vendored db.h and the
build output. *)

From Stdlib Require Export ZArith Lia.
From stdpp Require Export base tactics numbers option sets gmap list.

#[export] Set Default Proof Using "Type".
Open Scope Z_scope.

(** ** Outcomes of C code

A modelled C function either returns or stops the process: by an assertion,
by [exit], or by doing something the C standard leaves undefined.  Undefined
behaviour is made a [Fault] so that its absence can be stated and proved. *)

Inductive fault : Set :=
  | AssertFailed       (** a false [assert] *)
  | Exit (code : Z)    (** a call of [exit] *)
  | OutOfBounds        (** access outside an allocated block *)
  | SignedOverflow     (** overflow of signed arithmetic or of a conversion *)
  | DivByZero
  | UninitRead         (** use of an uninitialised pointer *)
  | NullDeref
  | StackOverflow.     (** the recursion bound of a model is exhausted *)

Inductive res (A : Type) : Type :=
  | Ret (a : A)
  | Fault (e : fault).
Arguments Ret {A} _.
Arguments Fault {A} _.

#[export] Instance fault_eq_dec : EqDecision fault.
Proof. solve_decision. Defined.

#[export] Instance res_ret : MRet res := fun A => @Ret A.
#[export] Instance res_bind : MBind res := fun A B f m =>
  match m with Ret a => f a | Fault e => Fault e end.

Definition is_ret {A} (m : res A) : bool :=
  match m with Ret _ => true | Fault _ => false end.

(** The result of a computation that is known to return. *)
Definition from_ret {A} (d : A) (m : res A) : A :=
  match m with Ret a => a | Fault _ => d end.

Definition assert_that (b : bool) : res unit :=
  if b then Ret tt else Fault AssertFailed.

(** Dereferencing a pointer that may be NULL. *)
Definition deref {A} (p : option A) : res A :=
  match p with Some a => Ret a | None => Fault NullDeref end.

Lemma bind_Ret {A B} (a : A) (f : A → res B) : Ret a ≫= f = f a.
Proof. reflexivity. Qed.

Lemma bind_Fault {A B} (e : fault) (f : A → res B) : Fault e ≫= f = Fault e.
Proof. reflexivity. Qed.

Lemma bind_inv {A B} (m : res A) (f : A → res B) (b : B) :
  m ≫= f = Ret b → ∃ a, m = Ret a ∧ f a = Ret b.
Proof. destruct m; [eauto|discriminate]. Qed.

Lemma bind_assoc {A B C} (m : res A) (f : A → res B) (g : B → res C) :
  (m ≫= f) ≫= g = m ≫= (λ a, f a ≫= g).
Proof. by destruct m. Qed.

Lemma bind_ext {A B} (m : res A) (f g : A → res B) : (∀ a, f a = g a) → m ≫= f = m ≫= g.
Proof. intros E. destruct m; [apply E|done]. Qed.

Lemma bind_ext_ret {A B} (m : res A) (f g : A → res B) :
  (∀ a, m = Ret a → f a = g a) → m ≫= f = m ≫= g.
Proof. intros E. destruct m; [by apply E|done]. Qed.

Lemma assert_that_inv b u : assert_that b = Ret u → b = true.
Proof. by destruct b. Qed.

Lemma deref_inv {A} (p : option A) a : deref p = Ret a → p = Some a.
Proof. destruct p; simpl; congruence. Qed.

(** ** Machine integers (ILP32/LP64 model: 32-bit [int], 64-bit [size_t]) *)

Definition INT_MAX : Z := 2147483647.
Definition INT_MIN : Z := -2147483648.
Definition UINT32_MOD : Z := 4294967296.

(** Result of signed 32-bit arithmetic: overflow is undefined behaviour. *)
Definition cint (z : Z) : res Z :=
  if (INT_MIN <=? z) && (z <=? INT_MAX) then Ret z else Fault SignedOverflow.

(** Unsigned 32-bit arithmetic wraps around. *)
Definition u32 (z : Z) : Z := z mod UINT32_MOD.

(** Conversion of a wider or unsigned integer to [int] (two's complement). *)
Definition to_int (z : Z) : Z := (z - INT_MIN) mod UINT32_MOD + INT_MIN.

Definition is_u32 (z : Z) : Prop := 0 ≤ z < UINT32_MOD.

#[export] Instance is_u32_dec z : Decision (is_u32 z).
Proof. unfold is_u32. apply _. Defined.

(** The C remainder truncates towards zero. *)
Definition crem (a b : Z) : res Z :=
  if b =? 0 then Fault DivByZero else Ret (Z.rem a b).

(** C comparisons and [!] yield 0 or 1. *)
Definition cbool (b : bool) : Z := if b then 1 else 0.

Lemma cint_ok z : INT_MIN ≤ z ≤ INT_MAX → cint z = Ret z.
Proof. intros H. unfold cint. by rewrite (proj2 (andb_true_iff _ _)); [|lia]. Qed.

Lemma cint_over z : INT_MAX < z → cint z = Fault SignedOverflow.
Proof.
  intros H. unfold cint. destruct (Z.leb_spec z INT_MAX); [lia|].
  by rewrite andb_false_r.
Qed.

Lemma cint_inv z y : cint z = Ret y → y = z ∧ INT_MIN ≤ z ≤ INT_MAX.
Proof.
  unfold cint. destruct (Z.leb_spec INT_MIN z), (Z.leb_spec z INT_MAX);
    simpl; intros [=]; lia.
Qed.

Lemma u32_small z : is_u32 z → u32 z = z.
Proof. intros H. apply Z.mod_small, H. Qed.

Lemma u32_range z : is_u32 (u32 z).
Proof. apply Z.mod_pos_bound. reflexivity. Qed.

Lemma to_int_small z : INT_MIN ≤ z ≤ INT_MAX → to_int z = z.
Proof. unfold to_int, UINT32_MOD, INT_MIN, INT_MAX. intros H. rewrite Z.mod_small; lia. Qed.

Lemma crem_pos a b : 0 ≤ a → 0 < b → crem a b = Ret (a mod b).
Proof.
  intros Ha Hb. unfold crem. destruct (Z.eqb_spec b 0); [lia|].
  f_equal. by apply Z.rem_mod_nonneg.
Qed.

Lemma mod_minus_one i s : 0 ≤ i < 2 * s → i mod s = if i <? s then i else i - s.
Proof.
  intros H. destruct (Z.ltb_spec i s); [apply Z.mod_small; lia|].
  symmetry. apply (Z.mod_unique_pos i s 1); lia.
Qed.

Lemma mod_add_inj h i j s :
  0 < s → 0 ≤ i < s → 0 ≤ j < s → (h + i) mod s = (h + j) mod s → i = j.
Proof.
  intros Hs Hi Hj H.
  assert ((i - j) mod s = 0) as Hd.
  { replace (i - j) with ((h + i) - (h + j)) by lia.
    rewrite Zminus_mod, H, Z.sub_diag. done. }
  apply Z.mod_divide in Hd as [k Hk]; [|lia].
  destruct (Z.lt_trichotomy k 0) as [?|[->|?]]; [nia|lia|nia].
Qed.

(** ** Arrays *)

Definition arr_get {A} (l : list A) (i : Z) : res A :=
  if i <? 0 then Fault OutOfBounds else
  match l !! Z.to_nat i with Some a => Ret a | None => Fault OutOfBounds end.

Definition arr_set {A} (l : list A) (i : Z) (a : A) : res (list A) :=
  if (i <? 0) || (Z.of_nat (length l) <=? i) then Fault OutOfBounds
  else Ret (<[Z.to_nat i := a]> l).

Lemma arr_get_ok {A} (l : list A) i a :
  0 ≤ i → l !! Z.to_nat i = Some a → arr_get l i = Ret a.
Proof. intros Hi Hl. unfold arr_get. destruct (Z.ltb_spec i 0); [lia|]. by rewrite Hl. Qed.

Lemma arr_get_inv {A} (l : list A) i a :
  arr_get l i = Ret a → 0 ≤ i ∧ l !! Z.to_nat i = Some a.
Proof.
  unfold arr_get. destruct (Z.ltb_spec i 0); [done|].
  destruct (l !! Z.to_nat i) eqn:E; intros [=]; subst; auto.
Qed.

Lemma arr_get_total {A} (l : list A) i :
  0 ≤ i < Z.of_nat (length l) → ∃ a, arr_get l i = Ret a.
Proof.
  intros Hi. destruct (lookup_lt_is_Some_2 l (Z.to_nat i)) as [a Ha]; [lia|].
  exists a. apply arr_get_ok; [lia|done].
Qed.

Lemma arr_set_ok {A} (l : list A) i a :
  0 ≤ i < Z.of_nat (length l) → arr_set l i a = Ret (<[Z.to_nat i := a]> l).
Proof.
  intros Hi. unfold arr_set.
  destruct (Z.ltb_spec i 0), (Z.leb_spec (Z.of_nat (length l)) i); simpl; lia || done.
Qed.

Lemma arr_set_out {A} (l : list A) i a :
  Z.of_nat (length l) ≤ i → arr_set l i a = Fault OutOfBounds.
Proof. intros Hi. unfold arr_set. destruct (Z.leb_spec (Z.of_nat (length l)) i); [|lia]. by rewrite orb_true_r. Qed.

Lemma arr_set_inv {A} (l l' : list A) i a :
  arr_set l i a = Ret l' →
  0 ≤ i < Z.of_nat (length l) ∧ l' = <[Z.to_nat i := a]> l.
Proof.
  unfold arr_set.
  destruct (Z.ltb_spec i 0), (Z.leb_spec (Z.of_nat (length l)) i); simpl; intros [=]; auto.
Qed.

(** ** Counted loops: [for (i = from; ...; i++)], [n] iterations *)

Fixpoint for_range {S} (n : nat) (i : Z) (body : Z → S → res S) (s : S) : res S :=
  match n with
  | O => Ret s
  | S n' => s' ← body i s; for_range n' (i + 1) body s'
  end.

(** [for (i = 0; i < bound; i++)] *)
Definition for_to {S} (bound : Z) (body : Z → S → res S) (s : S) : res S :=
  for_range (Z.to_nat bound) 0 body s.

Lemma for_range_total {S} (I : Z → S → Prop) n i body (s : S) :
  (∀ k s, i ≤ k < i + Z.of_nat n → I k s → ∃ s', body k s = Ret s' ∧ I (k + 1) s') →
  I i s → ∃ s', for_range n i body s = Ret s' ∧ I (i + Z.of_nat n) s'.
Proof.
  revert i s. induction n as [|n IH]; intros i s Hb HI; simpl.
  { exists s. split; [done|]. by rewrite Z.add_0_r. }
  destruct (Hb i s) as (s1 & -> & H1); [lia|done|]. simpl.
  destruct (IH (i + 1) s1) as (s2 & H2 & HI2); [|done|].
  { intros k s' Hk. apply Hb. lia. }
  exists s2. split; [done|]. by replace (i + Z.of_nat (Datatypes.S n)) with (i + 1 + Z.of_nat n) by lia.
Qed.

Lemma for_range_partial {S} (I : Z → S → Prop) n i body (s s' : S) :
  (∀ k s s', i ≤ k < i + Z.of_nat n → I k s → body k s = Ret s' → I (k + 1) s') →
  I i s → for_range n i body s = Ret s' → I (i + Z.of_nat n) s'.
Proof.
  revert i s. induction n as [|n IH]; intros i s Hb HI; simpl.
  { intros [=<-]. by rewrite Z.add_0_r. }
  intros (s1 & H1 & H2)%bind_inv.
  replace (i + Z.of_nat (Datatypes.S n)) with (i + 1 + Z.of_nat n) by lia.
  apply (IH (i + 1) s1); [|by apply (Hb i s s1); [lia|..]|done].
  intros k t t' Hk. apply Hb. lia.
Qed.

(** The loop invariant rule for [for_to], in its total and partial form. *)
Lemma for_to_total {S} (I : Z → S → Prop) b body (s : S) :
  0 ≤ b →
  (∀ k s, 0 ≤ k < b → I k s → ∃ s', body k s = Ret s' ∧ I (k + 1) s') →
  I 0 s → ∃ s', for_to b body s = Ret s' ∧ I b s'.
Proof.
  intros Hb Hbody HI.
  destruct (for_range_total I (Z.to_nat b) 0 body s) as (s' & H & HI'); [|done|].
  { intros k t Hk. apply Hbody. lia. }
  exists s'. split; [done|]. by replace b with (0 + Z.of_nat (Z.to_nat b)) by lia.
Qed.

Lemma for_to_partial {S} (I : Z → S → Prop) b body (s s' : S) :
  0 ≤ b →
  (∀ k s s', 0 ≤ k < b → I k s → body k s = Ret s' → I (k + 1) s') →
  I 0 s → for_to b body s = Ret s' → I b s'.
Proof.
  intros Hb Hbody HI H. replace b with (0 + Z.of_nat (Z.to_nat b)) by lia.
  apply (for_range_partial I _ 0 body s); [|done|done]. intros k t t' Hk. apply Hbody. lia.
Qed.

(** ** Lists *)

Lemma list_eq_lookup_lt {A} (l1 l2 : list A) :
  length l1 = length l2 →
  (∀ i : nat, (i < length l1)%nat → l1 !! i = l2 !! i) → l1 = l2.
Proof.
  intros Hlen H. apply list_eq. intros i.
  destruct (decide (i < length l1)%nat); [auto|].
  rewrite !lookup_ge_None_2; [done|lia|lia].
Qed.

Lemma Forall_filter {A} (Q P : A → Prop) `{∀ x, Decision (P x)} (l : list A) :
  Forall Q l → Forall Q (filter P l).
Proof.
  intros HF. apply Forall_forall. intros x [_ Hx]%list_elem_of_filter.
  by eapply Forall_forall in HF.
Qed.

(** Changing an element that the filter drops, to another that it drops. *)
Lemma filter_insert_out {A} (P : A → Prop) `{∀ x, Decision (P x)} (l : list A) k x y :
  l !! k = Some x → ¬ P x → ¬ P y → filter P (<[k := y]> l) = filter P l.
Proof.
  intros Hk Hx Hy. revert k Hk. induction l as [|z l IH]; intros [|k] Hk; simplify_eq/=.
  - by rewrite !filter_cons_False.
  - destruct (decide (P z)); [rewrite !filter_cons_True by done|rewrite !filter_cons_False by done];
      by rewrite IH.
Qed.

Lemma elem_of_list_insert_inv {A} (l : list A) k x y :
  x ∈ <[k := y]> l → x = y ∨ x ∈ l.
Proof.
  intros [j [(-> & <- & _)|[_ Hj]]%list_lookup_insert_Some]%list_elem_of_lookup; [by left|right].
  by eapply list_elem_of_lookup_2.
Qed.

Lemma filter_all {A} (P : A → Prop) `{∀ x, Decision (P x)} (l : list A) :
  Forall P l → filter P l = l.
Proof.
  induction 1 as [|x l Hx _ IH]; [done|]. by rewrite filter_cons_True, IH by done.
Qed.

(** An element whose key no other element has, and the rest. *)
Lemma filter_key {A B} `{EqDecision B} (f : A → B) (l : list A) k x :
  NoDup (f <$> l) → l !! k = Some x → l ≡ₚ x :: filter (λ y, f y ≠ f x) l.
Proof.
  intros U Hk. destruct (list_elem_of_split l x) as (l1 & l2 & ->); [by eapply list_elem_of_lookup_2|].
  rewrite fmap_app in U. apply NoDup_app in U as (_ & Hd & U). simpl in U.
  apply NoDup_cons in U as [Hi _].
  assert (∀ l0 : list A, f x ∉ (f <$> l0) → filter (λ y, f y ≠ f x) l0 = l0) as Hid.
  { intros l0 H. apply filter_all, Forall_forall. intros z Hz E. apply H.
    rewrite <-E. by apply list_elem_of_fmap_2. }
  rewrite filter_app, filter_cons_False by tauto. rewrite !Hid.
  - by rewrite Permutation_middle.
  - done.
  - intros H. apply (Hd _ H). by left.
Qed.

Lemma sublist_fmap {A B} (f : A → B) (l1 l2 : list A) :
  l1 `sublist_of` l2 → (f <$> l1) `sublist_of` (f <$> l2).
Proof. induction 1; simpl; [done|by apply sublist_skip|by apply sublist_cons]. Qed.

(** ** Automation *)

#[global] Arguments cint : simpl never.
#[global] Arguments crem : simpl never.
#[global] Arguments u32 : simpl never.
#[global] Arguments to_int : simpl never.
#[global] Arguments arr_get : simpl never.
#[global] Arguments arr_set : simpl never.
#[global] Arguments for_to : simpl never.

Create HintDb paxos.

(** Turns every [m = Ret _] hypothesis built from binds and checks into facts. *)
Ltac inv_res :=
  repeat match goal with
  | H : Ret _ = Ret _ |- _ => injection H as H; try subst
  | H : Fault _ = Ret _ |- _ => discriminate H
  | H : (_ ≫= _) = Ret _ |- _ =>
      let a := fresh "r" in let E := fresh "E" in
      apply bind_inv in H as (a & E & H); simpl in H
  | H : mret _ = Ret _ |- _ => unfold mret, res_ret in H
  | H : assert_that _ = Ret _ |- _ => apply assert_that_inv in H
  | H : deref _ = Ret _ |- _ => apply deref_inv in H
  | H : cint _ = Ret _ |- _ => apply cint_inv in H as [? ?]; try subst
  | H : arr_get _ _ = Ret _ |- _ => apply arr_get_inv in H as [? ?]
  | H : arr_set _ _ _ = Ret _ |- _ => apply arr_set_inv in H as [? ?]; try subst
  | p : (_ * _)%type |- _ => destruct p
  end.

(** Splits the conditionals of a model on the comparison they test. *)
Ltac case_Z :=
  match goal with
  | |- context [Z.eqb ?a ?b] => destruct (Z.eqb_spec a b)
  | |- context [Z.ltb ?a ?b] => destruct (Z.ltb_spec a b)
  | |- context [Z.leb ?a ?b] => destruct (Z.leb_spec a b)
  | H : context [Z.eqb ?a ?b] |- _ => destruct (Z.eqb_spec a b)
  | H : context [Z.ltb ?a ?b] |- _ => destruct (Z.ltb_spec a b)
  | H : context [Z.leb ?a ?b] |- _ => destruct (Z.leb_spec a b)
  end.

(** Establishes the invariant [I] for the loop of the goal: subgoals for the
bound, the body, the start, and the goal with the loop's result. *)
Ltac loop_total I :=
  match goal with
  | |- context [for_to ?b ?f ?s] =>
      let H := fresh "Hloop" in
      assert (∃ s', for_to b f s = Ret s' ∧ I b s') as H;
      [apply (for_to_total I)|destruct H as (? & -> & H); simpl]
  end.

(** Two results of the same computation are equal. *)
Ltac same_ret :=
  repeat match goal with
  | H1 : ?m = Ret ?a, H2 : ?m = Ret ?b |- _ =>
      rewrite H1 in H2; injection H2 as ?; try subst
  end.
