(* ===== verification/Carray.v ===== *)
(** * The growable ring buffer (src/paxos/carray.c)

[carray] is the queue used by the proposer (client values, prepare and accept
instances), by the learner (its window of instances) and by the TCP receiver
(its connections).  The record keeps the C fields; [array] is the malloc'ed
block, with [None] for a slot that was never written.  Elements are non-NULL
pointers of the C code, so an element type [A] stands for what they point to
and [option A] for a pointer result that may be NULL.

[carray_rep a l] says that the ring buffer [a] holds the list [l]; [contents]
computes that list.  The theorems show that every operation acts on the list
as the queue operation it implements, and say exactly when [int] arithmetic
on the indices overflows. *)

From S2P Require Import Prelude.

Record carray (A : Type) : Type := Carray {
  ca_head : Z;
  ca_tail : Z;
  ca_size : Z;
  ca_count : Z;
  ca_array : list (option A);
}.
Arguments Carray {A} _ _ _ _ _.
Arguments ca_head {A} _.
Arguments ca_tail {A} _.
Arguments ca_size {A} _.
Arguments ca_count {A} _.
Arguments ca_array {A} _.

Section operations.
Context {A : Type}.
Implicit Types (a : carray A) (p : A).

(** A negative size becomes a huge [size_t], so [malloc] fails. *)
Definition carray_new (size : Z) : res (carray A) :=
  if size <? 0 then Fault AssertFailed
  else Ret (Carray 0 0 size 0 (replicate (Z.to_nat size) None)).

Definition carray_full a : bool := ca_count a =? ca_size a.

Definition carray_empty a : bool := ca_count a =? 0.

Definition carray_size a : Z := ca_size a.

Definition carray_count a : Z := ca_count a.

Definition read_slot (x : option A) : res A :=
  match x with Some v => Ret v | None => Fault UninitRead end.

Definition carray_at a (i : Z) : res (option A) :=
  if carray_empty a then Ret None
  else
    j ← cint (ca_head a + i);
    k ← crem j (ca_size a);
    x ← arr_get (ca_array a) k;
    v ← read_slot x;
    Ret (Some v).

(** [carray_grow] and [carray_push_back] call each other; the inner push is
into a buffer of twice the size and does not grow again, so a recursion depth
of two is enough ([push_back_n_total] below holds at every depth from two on). *)
Definition carray_grow_with (push : carray A → A → res (carray A)) a : res (carray A) :=
  sz ← cint (ca_size a * 2);
  tmp ← carray_new sz;
  tmp ← for_to (carray_count a) (λ i tmp,
          x ← carray_at a i;
          v ← deref x;
          push tmp v) tmp;
  Ret (Carray 0 (ca_tail tmp) (ca_size tmp) (ca_count a) (ca_array tmp)).

(** The body of [carray_push_back] after the buffer has room. *)
Definition push_slot a p : res (carray A) :=
  arr ← arr_set (ca_array a) (ca_tail a) (Some p);
  t ← cint (ca_tail a + 1);
  t ← crem t (ca_size a);
  c ← cint (ca_count a + 1);
  Ret (Carray (ca_head a) t (ca_size a) c arr).

Fixpoint carray_push_back_n (depth : nat) a p : res (carray A) :=
  match depth with
  | O => Fault StackOverflow
  | S depth' =>
      a ← (if carray_full a then carray_grow_with (carray_push_back_n depth') a
           else Ret a);
      push_slot a p
  end.

Definition carray_push_back : carray A → A → res (carray A) := carray_push_back_n 2.

Definition carray_grow a : res (carray A) := carray_grow_with carray_push_back a.

(** The slot before the head, and the body of [carray_push_front] after the
buffer has room. *)
Definition prev_head a : Z :=
  if 0 <=? ca_head a - 1 then ca_head a - 1 else ca_size a - 1.

Definition push_head a p : res (carray A) :=
  if carray_empty a then carray_push_back a p
  else
    arr ← arr_set (ca_array a) (prev_head a) (Some p);
    c ← cint (ca_count a + 1);
    Ret (Carray (prev_head a) (ca_tail a) (ca_size a) c arr).

Definition carray_push_front a p : res (carray A) :=
  a ← (if carray_full a then carray_grow a else Ret a);
  push_head a p.

Definition carray_front a : res (option A) :=
  if carray_empty a then Ret None
  else
    x ← arr_get (ca_array a) (ca_head a);
    v ← read_slot x;
    Ret (Some v).

Definition carray_pop_front a : res (option A * carray A) :=
  if carray_empty a then Ret (None, a)
  else
    x ← arr_get (ca_array a) (ca_head a);
    v ← read_slot x;
    h ← cint (ca_head a + 1);
    h ← crem h (ca_size a);
    Ret (Some v, Carray h (ca_tail a) (ca_size a) (ca_count a - 1) (ca_array a)).

(** The loop of [carray_first_match] from index [i], [n] iterations left. *)
Fixpoint first_match_from {B} (n : nat) (i : Z) a (match_fn : B → A → Z) (arg : B)
    : res (option A) :=
  match n with
  | O => Ret None
  | S n' =>
      x ← carray_at a i;
      p ← deref x;
      if match_fn arg p =? 0 then first_match_from n' (i + 1) a match_fn arg
      else Ret (Some p)
  end.

Definition carray_first_match {B} a (match_fn : B → A → Z) (arg : B) : res (option A) :=
  first_match_from (Z.to_nat (carray_count a)) 0 a match_fn arg.

Definition carray_count_match {B} a (match_fn : B → A → Z) (arg : B) : res Z :=
  for_to (carray_count a) (λ i cnt,
    x ← carray_at a i;
    p ← deref x;
    Ret (if match_fn arg p =? 0 then cnt else cnt + 1)) 0.

(** [_carray_map] *)
Definition carray_map {B} a (match_fn : B → A → Z) (arg : B) (mtch : Z) : res (carray A) :=
  new ← carray_new (ca_size a);
  for_to (carray_count a) (λ i new,
    x ← carray_at a i;
    p ← deref x;
    if match_fn arg p =? mtch then carray_push_back new p else Ret new) new.

Definition carray_collect {B} a (match_fn : B → A → Z) (arg : B) : res (carray A) :=
  carray_map a match_fn arg 1.

Definition carray_reject {B} a (match_fn : B → A → Z) (arg : B) : res (carray A) :=
  carray_map a match_fn arg 0.

(** A store through the pointer [carray_at a i]: the element of the buffer
changes, the buffer does not. *)
Definition carray_poke a (i : Z) (p : A) : carray A :=
  Carray (ca_head a) (ca_tail a) (ca_size a) (ca_count a)
    (<[Z.to_nat ((ca_head a + i) mod ca_size a) := Some p]> (ca_array a)).

(** ** The list a buffer holds *)

Definition contents a : list A :=
  omap (λ i, mjoin (ca_array a !! Z.to_nat ((ca_head a + Z.of_nat i) mod ca_size a)))
       (seq 0 (Z.to_nat (ca_count a))).

Record carray_rep a (l : list A) : Prop := {
  rep_size : 0 < ca_size a ≤ INT_MAX;
  rep_head : 0 ≤ ca_head a < ca_size a;
  rep_count : ca_count a = Z.of_nat (length l);
  rep_fits : ca_count a ≤ ca_size a;
  rep_tail : ca_tail a = (ca_head a + ca_count a) mod ca_size a;
  rep_len : Z.of_nat (length (ca_array a)) = ca_size a;
  rep_live : ∀ i x, l !! i = Some x →
    ca_array a !! Z.to_nat ((ca_head a + Z.of_nat i) mod ca_size a) = Some (Some x);
}.

End operations.

(** ** Representation lemmas *)

Section representation.
Context {A : Type}.
Implicit Types (a : carray A) (l : list A) (p : A).

Lemma omap_seq_lookup (f : nat → option A) l k :
  (∀ i x, l !! i = Some x → f (k + i)%nat = Some x) →
  omap f (seq k (length l)) = l.
Proof.
  revert k. induction l as [|x l IH]; intros k H; simpl; [done|].
  rewrite <-(Nat.add_0_r k) at 1. rewrite (H 0%nat x eq_refl). f_equal.
  apply IH. intros i y Hi. replace (S k + i)%nat with (k + S i)%nat by lia. by apply H.
Qed.

Lemma rep_contents a l : carray_rep a l → contents a = l.
Proof.
  intros R. unfold contents. rewrite (rep_count _ _ R), Nat2Z.id.
  apply (omap_seq_lookup _ l 0%nat). intros i x Hi. simpl.
  by rewrite (rep_live _ _ R i x Hi).
Qed.

Lemma rep_new (sz : Z) a : 0 < sz ≤ INT_MAX → carray_new sz = Ret a →
  carray_rep a [] ∧ ca_size a = sz ∧ ca_head a = 0.
Proof.
  intros Hsz. unfold carray_new. case_Z; [lia|]. intros [= <-].
  split; [|done]. split; simpl; try lia; [rewrite Z.mod_small; lia| |].
  - rewrite length_replicate. lia.
  - done.
Qed.

Lemma carray_new_ret (sz : Z) : 0 ≤ sz → ∃ a : carray A, carray_new sz = Ret a.
Proof. intros H. unfold carray_new. case_Z; [lia|eauto]. Qed.

Lemma rep_slot_range a l i :
  carray_rep a l → 0 ≤ (ca_head a + i) mod ca_size a < ca_size a.
Proof. intros R. apply Z.mod_pos_bound, (rep_size _ _ R). Qed.

Lemma rep_empty a l : carray_rep a l → carray_empty a = bool_decide (l = []).
Proof.
  intros R. unfold carray_empty. rewrite (rep_count _ _ R).
  destruct l; case_bool_decide; (done || discriminate).
Qed.

(** Exact behaviour of the indexed read, overflow of [head + i] included. *)
Lemma carray_at_eq a l i :
  carray_rep a l → 0 ≤ i < Z.of_nat (length l) →
  carray_at a i = if ca_head a + i <=? INT_MAX then Ret (l !! Z.to_nat i)
                  else Fault SignedOverflow.
Proof.
  intros R Hi. unfold carray_at, carray_empty.
  pose proof (rep_count _ _ R); pose proof (rep_head _ _ R); pose proof (rep_size _ _ R).
  case_Z; [lia|]. destruct (lookup_lt_is_Some_2 l (Z.to_nat i)) as [x Hx]; [lia|].
  rewrite Hx. case_Z; [|by rewrite cint_over by lia].
  rewrite cint_ok by (unfold INT_MIN in *; lia). simpl. rewrite crem_pos by lia. simpl.
  pose proof (rep_slot_range _ _ i R).
  rewrite (arr_get_ok _ _ (Some x)); [done|lia|].
  pose proof (rep_live _ _ R (Z.to_nat i) x Hx) as L. by rewrite Z2Nat.id in L by lia.
Qed.

Lemma carray_at_inv a l i r :
  carray_rep a l → 0 ≤ i < Z.of_nat (length l) → carray_at a i = Ret r →
  r = l !! Z.to_nat i.
Proof. intros R Hi. rewrite (carray_at_eq _ _ _ R Hi). case_Z; congruence. Qed.

(** The buffer is small enough for its indices never to overflow. *)
Definition indexable a : Prop := ca_size a ≤ 2 ^ 30.

Lemma carray_at_ok a l i :
  carray_rep a l → indexable a → 0 ≤ i < Z.of_nat (length l) →
  carray_at a i = Ret (l !! Z.to_nat i).
Proof.
  intros R Hb Hi. rewrite (carray_at_eq _ _ _ R Hi).
  pose proof (rep_head _ _ R); pose proof (rep_count _ _ R); pose proof (rep_fits _ _ R).
  unfold indexable, INT_MAX in *. case_Z; [done|lia].
Qed.

(** Writing the slot after the last one appends. *)
Lemma rep_write_tail a l p t :
  carray_rep a l → Z.of_nat (length l) < ca_size a →
  t = (ca_tail a + 1) mod ca_size a →
  carray_rep (Carray (ca_head a) t (ca_size a) (ca_count a + 1)
                (<[Z.to_nat (ca_tail a) := Some p]> (ca_array a))) (l ++ [p]).
Proof.
  intros R Hlt ->. pose proof (rep_size _ _ R); pose proof (rep_count _ _ R).
  pose proof (rep_head _ _ R). pose proof (rep_tail _ _ R) as Ht.
  pose proof (rep_slot_range _ _ (ca_count a) R) as Hr.
  pose proof (rep_len _ _ R) as Hlen.
  split; simpl; try done; try lia.
  - rewrite length_app. simpl. lia.
  - rewrite Ht, Zplus_mod_idemp_l. f_equal. lia.
  - by rewrite length_insert.
  - intros i x [Hi|[Hi Hx]]%lookup_app_Some.
    + pose proof (lookup_lt_Some _ _ _ Hi).
      rewrite list_lookup_insert_ne; [by apply (rep_live _ _ R)|].
      intros E%Z2Nat.inj; [|lia|by apply Z.mod_pos_bound; lia].
      rewrite Ht in E. apply mod_add_inj in E; lia.
    + apply list_lookup_singleton_Some in Hx as [Hx ->].
      replace (Z.of_nat i) with (ca_count a) by lia. rewrite <-Ht.
      rewrite list_lookup_insert_eq; [done|lia].
Qed.

Lemma push_slot_ok a l p :
  carray_rep a l → Z.of_nat (length l) < ca_size a →
  ∃ a', push_slot a p = Ret a' ∧ carray_rep a' (l ++ [p]) ∧
        ca_size a' = ca_size a ∧ ca_head a' = ca_head a.
Proof.
  intros R Hlt. unfold push_slot.
  pose proof (rep_size _ _ R); pose proof (rep_count _ _ R).
  pose proof (rep_tail _ _ R) as Ht; pose proof (rep_slot_range _ _ (ca_count a) R).
  pose proof (rep_len _ _ R).
  rewrite arr_set_ok by lia. simpl.
  rewrite !cint_ok by (unfold INT_MIN, INT_MAX in *; lia). simpl.
  rewrite crem_pos by lia. simpl.
  eexists. split; [reflexivity|]. split; [|done]. by apply rep_write_tail.
Qed.

Lemma rep_full a l : carray_rep a l → carray_full a = (Z.of_nat (length l) =? ca_size a).
Proof. intros R. unfold carray_full. by rewrite (rep_count _ _ R). Qed.

Lemma push_back_n_room d a l p :
  carray_rep a l → Z.of_nat (length l) < ca_size a →
  ∃ a', carray_push_back_n (S d) a p = Ret a' ∧ carray_rep a' (l ++ [p]) ∧
        ca_size a' = ca_size a ∧ ca_head a' = ca_head a.
Proof.
  intros R Hlt. simpl. rewrite (rep_full _ _ R). case_Z; [lia|]. by apply push_slot_ok.
Qed.

Lemma grow_with_ok d a l :
  carray_rep a l → ca_size a < 2 ^ 30 →
  ∃ a', carray_grow_with (carray_push_back_n (S d)) a = Ret a' ∧ carray_rep a' l ∧
        ca_size a' = ca_size a * 2.
Proof.
  intros R Hs. unfold carray_grow_with.
  pose proof (rep_size _ _ R); pose proof (rep_count _ _ R); pose proof (rep_fits _ _ R).
  assert (indexable a) as Hx by (unfold indexable; lia).
  rewrite cint_ok by (unfold INT_MIN, INT_MAX; lia). simpl.
  destruct (carray_new_ret (ca_size a * 2)) as [tmp Htmp]; [lia|].
  rewrite Htmp. simpl. apply rep_new in Htmp as (Rt & St & Ht); [|unfold INT_MAX; lia].
  loop_total (λ k t, carray_rep t (take (Z.to_nat k) l) ∧
      ca_size t = ca_size a * 2 ∧ ca_head t = 0).
  - unfold carray_count. lia.
  - intros k t Hk (Rk & Sk & Hk0). unfold carray_count in Hk.
    rewrite (carray_at_ok _ _ _ R Hx) by lia. simpl.
    destruct (lookup_lt_is_Some_2 l (Z.to_nat k)) as [x Hkx]; [lia|]. rewrite Hkx. simpl.
    destruct (push_back_n_room d t _ x Rk) as (t' & Ht' & R' & Sz' & Hd').
    { rewrite length_take. lia. }
    simpl in Ht'. rewrite Ht'. eexists. split; [reflexivity|].
    rewrite Z2Nat.inj_add, Nat.add_1_r, (take_S_r _ _ x Hkx) by lia. split; [done|].
    split; congruence.
  - simpl. rewrite take_0. done.
  - destruct Hloop as (R' & S' & H'). eexists. split; [reflexivity|]. simpl. split; [|done].
    rewrite take_ge in R' by (unfold carray_count; lia).
    destruct R' as [? ? Hc ? Htl ? Hlive].
    split; simpl; try lia; try done; [congruence|].
    intros i y Hi. rewrite <-H'. auto.
Qed.

Lemma grow_with_over d a l :
  carray_rep a l → 2 ^ 30 ≤ ca_size a →
  carray_grow_with (carray_push_back_n d) a = Fault SignedOverflow.
Proof.
  intros R Hs. unfold carray_grow_with. by rewrite cint_over by (unfold INT_MAX; lia).
Qed.

(** The size after a push: doubled when the buffer was full. *)
Definition next_size a l : Z :=
  if Z.of_nat (length l) =? ca_size a then ca_size a * 2 else ca_size a.

Lemma push_back_n_total d a l p :
  carray_rep a l → (Z.of_nat (length l) = ca_size a → ca_size a < 2 ^ 30) →
  ∃ a', carray_push_back_n (S (S d)) a p = Ret a' ∧ carray_rep a' (l ++ [p]) ∧
        ca_size a' = next_size a l.
Proof.
  intros R Hfull. unfold next_size. pose proof (rep_count _ _ R) as Hc; pose proof (rep_fits _ _ R).
  pose proof (rep_size _ _ R).
  destruct (decide (Z.of_nat (length l) = ca_size a)) as [E|E].
  - destruct (grow_with_ok d a l R (Hfull E)) as (g & Hg & Rg & Sg).
    destruct (push_slot_ok g l p Rg) as (a' & Ha' & R' & S' & _); [lia|].
    exists a'. split; [|split; [done|case_Z; congruence]].
    change (carray_push_back_n (S (S d)) a p) with
      ((if carray_full a then carray_grow_with (carray_push_back_n (S d)) a else Ret a)
         ≫= λ a, push_slot a p).
    by rewrite (rep_full _ _ R), E, Z.eqb_refl, Hg.
  - destruct (push_back_n_room (S d) a l p R) as (a' & ? & ? & ? & ?); [lia|].
    exists a'. case_Z; done.
Qed.

End representation.

(** ** The queue specification *)

Section specification.
Context {A : Type}.
Implicit Types (a : carray A) (l : list A) (p : A).

(** The next push does not overflow the doubling of the size. *)
Definition growable a l : Prop := Z.of_nat (length l) = ca_size a → ca_size a < 2 ^ 30.

Lemma push_back_ok a l p :
  carray_rep a l → growable a l →
  ∃ a', carray_push_back a p = Ret a' ∧ carray_rep a' (l ++ [p]) ∧
        ca_size a' = next_size a l.
Proof. apply (push_back_n_total 0). Qed.

Lemma push_back_over a l p :
  carray_rep a l → ¬ growable a l → carray_push_back a p = Fault SignedOverflow.
Proof.
  intros R G. unfold growable in G. unfold carray_push_back.
  change (carray_push_back_n 2 a p) with
    ((if carray_full a then carray_grow_with (carray_push_back_n 1) a else Ret a)
       ≫= λ a, push_slot a p).
  rewrite (rep_full _ _ R). case_Z; [|tauto].
  by rewrite (grow_with_over _ _ _ R) by lia.
Qed.

Lemma growable_dec a l : growable a l ∨ ¬ growable a l.
Proof. unfold growable. destruct (decide (Z.of_nat (length l) = ca_size a)); lia. Qed.

Lemma push_back_inv a a' l p :
  carray_rep a l → carray_push_back a p = Ret a' → carray_rep a' (l ++ [p]).
Proof.
  intros R H. destruct (growable_dec a l) as [G|G].
  - destruct (push_back_ok a l p R G) as (? & E & ? & _). congruence.
  - rewrite (push_back_over _ _ _ R G) in H. discriminate.
Qed.

(** Filling a buffer up to its size keeps the size (no growth). *)
Lemma push_back_room a l p :
  carray_rep a l → Z.of_nat (length l) < ca_size a →
  ∃ a', carray_push_back a p = Ret a' ∧ carray_rep a' (l ++ [p]) ∧
        ca_size a' = ca_size a ∧ ca_head a' = ca_head a.
Proof. apply (push_back_n_room 1). Qed.

(** Moving the head one slot back and writing it prepends. *)
Lemma rep_write_head a l p :
  carray_rep a l → Z.of_nat (length l) < ca_size a → l ≠ [] →
  carray_rep (Carray (prev_head a) (ca_tail a) (ca_size a) (ca_count a + 1)
                (<[Z.to_nat (prev_head a) := Some p]> (ca_array a))) (p :: l).
Proof.
  intros R Hlt Hne. set (h := prev_head a). pose proof (rep_size _ _ R); pose proof (rep_count _ _ R).
  pose proof (rep_head _ _ R). pose proof (rep_tail _ _ R) as Ht. pose proof (rep_len _ _ R).
  assert (0 ≤ h < ca_size a) as Hh by (unfold h, prev_head; case_Z; lia).
  assert (∀ i, (h + (i + 1)) mod ca_size a = (ca_head a + i) mod ca_size a) as Hmod.
  { intros i. unfold h, prev_head. case_Z; [f_equal; lia|].
    replace (ca_size a - 1 + (i + 1)) with (ca_head a + i + 1 * ca_size a) by lia.
    by rewrite Z.mod_add by lia. }
  split; simpl; try done; try lia.
  - by rewrite Hmod.
  - by rewrite length_insert.
  - intros [|i] x Hi; simpl in Hi.
    + rewrite Z.add_0_r, Z.mod_small by lia. simplify_eq.
      rewrite list_lookup_insert_eq by lia. done.
    + pose proof (lookup_lt_Some _ _ _ Hi). rewrite list_lookup_insert_ne.
      * rewrite Nat2Z.inj_succ. unfold Z.succ. rewrite Hmod. by apply (rep_live _ _ R).
      * intros E%Z2Nat.inj; [|lia|by apply Z.mod_pos_bound; lia].
        rewrite <-(Z.mod_small h (ca_size a)), <-(Z.add_0_r h) in E at 1 by lia.
        apply mod_add_inj in E; lia.
Qed.

Lemma push_head_ok a l p :
  carray_rep a l → Z.of_nat (length l) < ca_size a →
  ∃ a', push_head a p = Ret a' ∧ carray_rep a' (p :: l) ∧ ca_size a' = ca_size a.
Proof.
  intros R Hlt. unfold push_head. rewrite (rep_empty _ _ R). case_bool_decide as Hl.
  - subst. destruct (push_back_room _ _ p R Hlt) as (a' & ? & ? & ? & _). eauto.
  - pose proof (rep_size _ _ R); pose proof (rep_count _ _ R); pose proof (rep_len _ _ R).
    pose proof (rep_head _ _ R).
    rewrite arr_set_ok by (unfold prev_head; case_Z; lia). simpl.
    rewrite cint_ok by (unfold INT_MIN, INT_MAX in *; lia). simpl.
    eexists. split; [done|]. split; [|done]. by apply rep_write_head.
Qed.

Lemma push_front_ok a l p :
  carray_rep a l → growable a l →
  ∃ a', carray_push_front a p = Ret a' ∧ carray_rep a' (p :: l) ∧
        ca_size a' = next_size a l.
Proof.
  intros R G. unfold carray_push_front, next_size. rewrite (rep_full _ _ R).
  pose proof (rep_count _ _ R); pose proof (rep_fits _ _ R); pose proof (rep_size _ _ R).
  case_Z.
  - destruct (grow_with_ok 1 a l R (G ltac:(done))) as (g & Hg & Rg & Sg).
    unfold carray_grow, carray_push_back. rewrite Hg. simpl.
    rewrite <-Sg. apply push_head_ok; [done|lia].
  - simpl. apply push_head_ok; [done|lia].
Qed.

Lemma push_front_over a l p :
  carray_rep a l → ¬ growable a l → carray_push_front a p = Fault SignedOverflow.
Proof.
  intros R G. unfold growable in G. unfold carray_push_front.
  rewrite (rep_full _ _ R). case_Z; [|tauto].
  unfold carray_grow, carray_push_back. by rewrite (grow_with_over _ _ _ R) by lia.
Qed.

Lemma push_front_inv a a' l p :
  carray_rep a l → carray_push_front a p = Ret a' → carray_rep a' (p :: l).
Proof.
  intros R H. destruct (growable_dec a l) as [G|G].
  - destruct (push_front_ok a l p R G) as (? & E & ? & _). congruence.
  - rewrite (push_front_over _ _ _ R G) in H. discriminate.
Qed.

(** The head slot holds the first element. *)
Lemma rep_head_slot a x l :
  carray_rep a (x :: l) → arr_get (ca_array a) (ca_head a) = Ret (Some x).
Proof.
  intros R. pose proof (rep_head _ _ R). apply arr_get_ok; [lia|].
  pose proof (rep_live _ _ R 0%nat x eq_refl) as L.
  by rewrite Z.add_0_r, Z.mod_small in L by lia.
Qed.

Lemma front_ok a l : carray_rep a l → carray_front a = Ret (head l).
Proof.
  intros R. unfold carray_front. rewrite (rep_empty _ _ R).
  destruct l as [|x l]; [done|]. rewrite bool_decide_eq_false_2 by done.
  by rewrite (rep_head_slot _ _ _ R).
Qed.

Lemma pop_front_ok a l :
  carray_rep a l →
  ∃ a', carray_pop_front a = Ret (head l, a') ∧ carray_rep a' (tail l) ∧
        ca_size a' = ca_size a.
Proof.
  intros R. unfold carray_pop_front. rewrite (rep_empty _ _ R).
  destruct l as [|x l]; [eauto|]. rewrite bool_decide_eq_false_2 by done.
  rewrite (rep_head_slot _ _ _ R). simpl.
  pose proof (rep_size _ _ R); pose proof (rep_head _ _ R). pose proof (rep_fits _ _ R).
  pose proof (rep_count _ _ R) as Hc. simpl in Hc.
  rewrite cint_ok by (unfold INT_MIN, INT_MAX in *; lia). simpl. rewrite crem_pos by lia.
  simpl. eexists. split; [reflexivity|]. split; [|done].
  assert (∀ i, ((ca_head a + 1) mod ca_size a + i) mod ca_size a =
               (ca_head a + (i + 1)) mod ca_size a) as Hmod.
  { intros i. rewrite Zplus_mod_idemp_l. f_equal. lia. }
  split; simpl; try lia; try apply R.
  - apply Z.mod_pos_bound. lia.
  - rewrite Hmod, (rep_tail _ _ R). f_equal. lia.
  - intros i y Hi. rewrite Hmod.
    replace (Z.of_nat i + 1) with (Z.of_nat (S i)) by lia. by apply (rep_live _ _ R).
Qed.

Lemma poke_ok a l i p :
  carray_rep a l → 0 ≤ i < Z.of_nat (length l) →
  carray_rep (carray_poke a i p) (<[Z.to_nat i := p]> l).
Proof.
  intros R Hi. pose proof (rep_slot_range _ _ i R) as Hr. pose proof (rep_len _ _ R).
  pose proof (rep_fits _ _ R). pose proof (rep_count _ _ R). pose proof (rep_size _ _ R).
  split; simpl; rewrite ?length_insert; try apply R.
  intros j x Hj. destruct (decide (j = Z.to_nat i)) as [->|Hne].
  - rewrite list_lookup_insert_eq in Hj by lia. simplify_eq.
    rewrite Z2Nat.id by lia. rewrite list_lookup_insert_eq by lia. done.
  - rewrite list_lookup_insert_ne in Hj by done. pose proof (lookup_lt_Some _ _ _ Hj).
    rewrite list_lookup_insert_ne; [by apply (rep_live _ _ R)|].
    intros E%Z2Nat.inj; [|lia|by apply Z.mod_pos_bound; lia].
    apply mod_add_inj in E; lia.
Qed.

End specification.

(** ** Matching *)

Section matching.
Context {A B : Type} (match_fn : B → A → Z) (arg : B).
Implicit Types (a : carray A) (l : list A).

Lemma map_step (m k : Z) a l new x :
  carray_rep a l → 0 ≤ k < Z.of_nat (length l) → l !! Z.to_nat k = Some x →
  carray_rep new (filter (λ y, match_fn arg y = m) (take (Z.to_nat k) l)) →
  ca_size new = ca_size a →
  ∃ new', (if match_fn arg x =? m then carray_push_back new x else Ret new) = Ret new' ∧
    carray_rep new' (filter (λ y, match_fn arg y = m) (take (Z.to_nat (k + 1)) l)) ∧
    ca_size new' = ca_size a.
Proof.
  intros R Hk Hx Rn Sn.
  rewrite Z2Nat.inj_add, Nat.add_1_r, (take_S_r _ _ x Hx), filter_app by lia.
  assert (Z.of_nat (length (filter (λ y, match_fn arg y = m) (take (Z.to_nat k) l)))
          < ca_size new).
  { pose proof (length_filter (λ y, match_fn arg y = m) (take (Z.to_nat k) l)) as Hf.
    rewrite length_take in Hf.
    pose proof (rep_count _ _ R); pose proof (rep_fits _ _ R). lia. }
  case_Z.
  - rewrite filter_cons_True, filter_nil by done.
    destruct (push_back_room new _ x Rn) as (new' & ? & ? & ? & ?); [done|].
    exists new'. split; [done|]. split; [done|congruence].
  - rewrite filter_cons_False, filter_nil, app_nil_r by done. eauto.
Qed.

Lemma carray_map_ok m a l :
  carray_rep a l → indexable a →
  ∃ a', carray_map a match_fn arg m = Ret a' ∧
        carray_rep a' (filter (λ y, match_fn arg y = m) l) ∧ ca_size a' = ca_size a.
Proof.
  intros R Hx. unfold carray_map.
  pose proof (rep_size _ _ R); pose proof (rep_count _ _ R) as Hc.
  destruct (carray_new_ret (A:=A) (ca_size a)) as [new Hn]; [lia|].
  rewrite Hn. simpl. apply rep_new in Hn as (Rn & Sn & _); [|lia].
  loop_total (λ k new, carray_rep new (filter (λ y, match_fn arg y = m)
                          (take (Z.to_nat k) l)) ∧ ca_size new = ca_size a).
  - unfold carray_count. lia.
  - intros k new' Hk [Rk Sk]. unfold carray_count in Hk.
    rewrite (carray_at_ok _ _ _ R Hx) by lia. simpl.
    destruct (lookup_lt_is_Some_2 l (Z.to_nat k)) as [x Hkx]; [lia|]. rewrite Hkx. simpl.
    apply (map_step m k a l new' x); auto. lia.
  - simpl. rewrite take_0. done.
  - destruct Hloop as [R' S']. rewrite take_ge in R' by (unfold carray_count; lia). eauto.
Qed.

Lemma carray_map_inv m a l a' :
  carray_rep a l → carray_map a match_fn arg m = Ret a' →
  carray_rep a' (filter (λ y, match_fn arg y = m) l).
Proof.
  intros R. unfold carray_map.
  pose proof (rep_size _ _ R); pose proof (rep_count _ _ R) as Hc.
  destruct (carray_new_ret (A:=A) (ca_size a)) as [new Hn]; [lia|].
  rewrite Hn. simpl. apply rep_new in Hn as (Rn & Sn & _); [|lia].
  intros HL. apply (for_to_partial (λ k new, carray_rep new (filter (λ y, match_fn arg y = m)
                          (take (Z.to_nat k) l)) ∧ ca_size new = ca_size a)) in HL.
  - destruct HL as [R' _]. by rewrite take_ge in R' by (unfold carray_count; lia).
  - unfold carray_count. lia.
  - intros k t t' Hk [Rk Sk] Hb. unfold carray_count in Hk. inv_res.
    apply (carray_at_inv _ _ _ _ R) in E; [|lia].
    destruct (map_step m k a l t r0) as (t'' & Ht & ?); [done|lia|congruence|done|done|]. congruence.
  - simpl. rewrite take_0. done.
Qed.

Lemma first_match_from_ok n i a l :
  carray_rep a l → indexable a → 0 ≤ i → i + Z.of_nat n = Z.of_nat (length l) →
  first_match_from n i a match_fn arg =
    Ret (head (filter (λ y, match_fn arg y ≠ 0) (drop (Z.to_nat i) l))).
Proof.
  intros R Hx. revert i. induction n as [|n IH]; intros i Hi Hn; simpl.
  { by rewrite drop_ge by lia. }
  rewrite (carray_at_ok _ _ _ R Hx) by lia. simpl.
  destruct (lookup_lt_is_Some_2 l (Z.to_nat i)) as [x Hix]; [lia|].
  rewrite Hix. simpl. rewrite (drop_S _ _ _ Hix). case_Z.
  - rewrite filter_cons_False by (intros K; by apply K). rewrite IH by lia.
    by replace (Z.to_nat (i + 1)) with (S (Z.to_nat i)) by lia.
  - by rewrite filter_cons_True.
Qed.

Lemma first_match_ok a l :
  carray_rep a l → indexable a →
  carray_first_match a match_fn arg = Ret (head (filter (λ y, match_fn arg y ≠ 0) l)).
Proof.
  intros R Hx. unfold carray_first_match, carray_count. pose proof (rep_count _ _ R).
  rewrite (first_match_from_ok _ _ _ l R Hx) by lia. done.
Qed.

Lemma count_match_ok a l :
  carray_rep a l → indexable a →
  carray_count_match a match_fn arg =
    Ret (Z.of_nat (length (filter (λ y, match_fn arg y ≠ 0) l))).
Proof.
  intros R Hx. unfold carray_count_match, carray_count. pose proof (rep_count _ _ R).
  loop_total (λ k c, c = Z.of_nat (length
                (filter (λ y, match_fn arg y ≠ 0) (take (Z.to_nat k) l)))).
  - lia.
  - intros k c Hk ->. rewrite (carray_at_ok _ _ _ R Hx) by lia. simpl.
    destruct (lookup_lt_is_Some_2 l (Z.to_nat k)) as [x Hkx]; [lia|]. rewrite Hkx. simpl.
    eexists. split; [done|].
    rewrite Z2Nat.inj_add, Nat.add_1_r, (take_S_r _ _ x Hkx), filter_app, length_app by lia.
    case_Z; [rewrite filter_cons_False by (intros K; by apply K)|rewrite filter_cons_True by done];
      rewrite filter_nil; simpl; lia.
  - done.
  - rewrite take_ge in Hloop by lia. by subst.
Qed.

End matching.

(** ** Sequences of operations against the list queue *)

Section queue_runs.
Context {A : Type}.

Inductive queue_op : Type :=
  | OpPushBack (p : A)
  | OpPushFront (p : A)
  | OpFront
  | OpPopFront
  | OpCount
  | OpReject (f : A → bool)
  | OpCollect (f : A → bool).

Inductive queue_obs : Type :=
  | ObsDone
  | ObsPtr (p : option A)
  | ObsInt (n : Z).

Definition bool_match (f : A → bool) (x : A) : Z := cbool (f x).

Definition run_op (a : carray A) (o : queue_op) : res (queue_obs * carray A) :=
  match o with
  | OpPushBack p => a' ← carray_push_back a p; Ret (ObsDone, a')
  | OpPushFront p => a' ← carray_push_front a p; Ret (ObsDone, a')
  | OpFront => x ← carray_front a; Ret (ObsPtr x, a)
  | OpPopFront => '(x, a') ← carray_pop_front a; Ret (ObsPtr x, a')
  | OpCount => Ret (ObsInt (carray_count a), a)
  | OpReject f => a' ← carray_reject a (λ _ : unit, bool_match f) tt; Ret (ObsDone, a')
  | OpCollect f => a' ← carray_collect a (λ _ : unit, bool_match f) tt; Ret (ObsDone, a')
  end.

Fixpoint run_ops (a : carray A) (os : list queue_op) : res (list queue_obs * carray A) :=
  match os with
  | [] => Ret ([], a)
  | o :: os' =>
      '(b, a1) ← run_op a o;
      '(bs, a2) ← run_ops a1 os';
      Ret (b :: bs, a2)
  end.

(** The specification: a queue is a list. *)
Definition spec_op (l : list A) (o : queue_op) : queue_obs * list A :=
  match o with
  | OpPushBack p => (ObsDone, l ++ [p])
  | OpPushFront p => (ObsDone, p :: l)
  | OpFront => (ObsPtr (head l), l)
  | OpPopFront => (ObsPtr (head l), tail l)
  | OpCount => (ObsInt (Z.of_nat (length l)), l)
  | OpReject f => (ObsDone, filter (λ x, f x = false) l)
  | OpCollect f => (ObsDone, filter (λ x, f x = true) l)
  end.

Fixpoint spec_ops (l : list A) (os : list queue_op) : list queue_obs * list A :=
  match os with
  | [] => ([], l)
  | o :: os' =>
      let '(b, l1) := spec_op l o in
      let '(bs, l2) := spec_ops l1 os' in (b :: bs, l2)
  end.

Definition is_push (o : queue_op) : bool :=
  match o with OpPushBack _ | OpPushFront _ => true | _ => false end.

Definition pushes (os : list queue_op) : Z := Z.of_nat (length (filter is_push os)).

Lemma filter_bool_match (f : A → bool) (b : bool) (l : list A) :
  filter (λ y, bool_match f y = cbool b) l = filter (λ x, f x = b) l.
Proof.
  apply list_filter_iff. intros x. unfold bool_match.
  destruct (f x), b; simpl; split; congruence.
Qed.

(** One operation: [n] bounds the pushes made so far. *)
Lemma run_op_refines a l o (n sz : Z) :
  carray_rep a l → Z.of_nat (length l) ≤ n → ca_size a ≤ sz + 2 * n →
  sz + 2 * (n + cbool (is_push o)) ≤ 2 ^ 30 → 0 < sz →
  ∃ a', run_op a o = Ret ((spec_op l o).1, a') ∧ carray_rep a' (spec_op l o).2 ∧
        Z.of_nat (length (spec_op l o).2) ≤ n + cbool (is_push o) ∧
        ca_size a' ≤ sz + 2 * (n + cbool (is_push o)).
Proof.
  intros R Hl Hs Hb Hsz.
  assert (indexable a) as Hx by (unfold indexable; destruct o; simpl in *; lia).
  pose proof (rep_count _ _ R); pose proof (rep_fits _ _ R); pose proof (rep_size _ _ R).
  assert (next_size a l ≤ sz + 2 * (n + 1)) by (unfold next_size; case_Z; lia).
  destruct o as [p|p| | | |f|f]; simpl in *.
  - destruct (push_back_ok a l p R) as (a' & -> & R' & S'); [unfold growable; lia|]. simpl.
    eexists. split; [done|]. rewrite length_app. simpl. split; [done|lia].
  - destruct (push_front_ok a l p R) as (a' & -> & R' & S'); [unfold growable; lia|]. simpl.
    eexists. split; [done|]. split; [done|lia].
  - rewrite (front_ok _ _ R). simpl. eexists. split; [done|]. split; [done|lia].
  - destruct (pop_front_ok a l R) as (a' & -> & R' & S'). simpl.
    eexists. split; [done|]. split; [done|]. destruct l; simpl in *; lia.
  - eexists. unfold carray_count. rewrite (rep_count _ _ R). split; [done|]. split; [done|lia].
  - destruct (carray_map_ok (λ _, bool_match f) tt 0 a l R Hx) as (a' & E & R' & S').
    unfold carray_reject. rewrite E. simpl. rewrite (filter_bool_match f false) in R'.
    eexists. split; [done|]. pose proof (length_filter (λ x, f x = false) l).
    split; [done|lia].
  - destruct (carray_map_ok (λ _, bool_match f) tt 1 a l R Hx) as (a' & E & R' & S').
    unfold carray_collect. rewrite E. simpl. rewrite (filter_bool_match f true) in R'.
    eexists. split; [done|]. pose proof (length_filter (λ x, f x = true) l).
    split; [done|lia].
Qed.

Lemma pushes_cons o os : pushes (o :: os) = cbool (is_push o) + pushes os.
Proof. unfold pushes. rewrite filter_cons. case_decide; destruct (is_push o); simpl; done || lia. Qed.

Lemma run_ops_refines os a l (n sz : Z) :
  carray_rep a l → Z.of_nat (length l) ≤ n → ca_size a ≤ sz + 2 * n →
  sz + 2 * (n + pushes os) ≤ 2 ^ 30 → 0 < sz →
  ∃ a', run_ops a os = Ret ((spec_ops l os).1, a') ∧ carray_rep a' (spec_ops l os).2.
Proof.
  revert a l n. induction os as [|o os IH]; intros a l n R Hl Hs Hb Hsz; [eauto|].
  rewrite pushes_cons in Hb.
  assert (0 ≤ pushes os) by (unfold pushes; lia).
  destruct (run_op_refines a l o n sz) as (a1 & E1 & R1 & Hl1 & Hs1); [done..|lia|done|].
  simpl. rewrite E1. simpl. destruct (spec_op l o) as [b l1]. simpl in *.
  destruct (IH a1 l1 _ R1 Hl1 Hs1) as (a2 & E2 & R2); [lia|done|].
  rewrite E2. simpl. destruct (spec_ops l1 os). eauto.
Qed.

End queue_runs.
Arguments queue_op : clear implicits.
Arguments queue_obs : clear implicits.

(** ** Properties *)

(** C33: starting from an empty buffer of any positive size, every sequence of
push_back, push_front, front, pop_front, count, reject and collect runs
without a fault (through any number of growths and wrap-arounds of the ring)
and returns exactly what the list queue returns, as long as the initial size
plus twice the number of pushes stays within 2^30; the final buffer holds the
list of the specification. *)
Theorem carray_refines_queue {A} (sz : Z) (os : list (queue_op A)) :
  0 < sz → sz + 2 * pushes os ≤ 2 ^ 30 →
  ∃ a0 a', carray_new sz = Ret a0 ∧
    run_ops a0 os = Ret ((spec_ops [] os).1, a') ∧ contents a' = (spec_ops [] os).2.
Proof.
  intros Hsz Hb. assert (0 ≤ pushes os) by (unfold pushes; lia).
  destruct (carray_new_ret (A:=A) sz) as [a0 H0]; [lia|].
  destruct (rep_new sz a0) as (R0 & S0 & _); [unfold INT_MAX; lia|done|].
  destruct (run_ops_refines os a0 [] 0 sz) as (a' & ? & R'); [done|simpl; lia..|].
  exists a0, a'. split; [done|]. split; [done|]. by apply rep_contents.
Qed.

Lemma carray_refines_queue_witness :
  ∃ a0 a' : carray Z, carray_new 1 = Ret a0 ∧
    run_ops a0 [OpPushBack 1; OpPushBack 2; OpPopFront; OpPushFront 3; OpPushFront 4;
                OpReject (Z.eqb 3); OpCount; OpFront]
      = Ret ([ObsDone; ObsDone; ObsPtr (Some 1); ObsDone; ObsDone; ObsDone; ObsInt 2;
              ObsPtr (Some 4)], a') ∧ contents a' = [4; 2].
Proof.
  apply (carray_refines_queue 1 [OpPushBack 1; OpPushBack 2; OpPopFront; OpPushFront 3;
    OpPushFront 4; OpReject (Z.eqb 3); OpCount; OpFront]); vm_compute; congruence.
Defined.

(** The doubling of a full buffer is the only place where a push can
overflow [int]: with the buffer holding [l], [carray_push_back] faults exactly
when the buffer is full and already has 2^30 slots or more, and otherwise
appends. *)
Lemma carray_push_back_exact {A} (a : carray A) (l : list A) (p : A) :
  carray_rep a l →
  (is_ret (carray_push_back a p) = false ↔
     Z.of_nat (length l) = ca_size a ∧ 2 ^ 30 ≤ ca_size a) ∧
  (∀ a', carray_push_back a p = Ret a' → carray_rep a' (l ++ [p])).
Proof.
  intros R. split; [|intros a'; by apply push_back_inv].
  destruct (growable_dec a l) as [G|G].
  - destruct (push_back_ok a l p R G) as (a' & -> & _). unfold growable in G. simpl.
    split; [done|lia].
  - rewrite (push_back_over _ _ _ R G). unfold growable in G. simpl. split; [|done].
    intros _. destruct (decide (Z.of_nat (length l) = ca_size a)); [lia|]. exfalso. tauto.
Qed.

Lemma carray_push_back_exact_witness :
  let a := Carray 1 1 2 2 [Some 7; Some 8] in
  carray_rep a [8; 7] ∧ is_ret (carray_push_back a 9) = true ∧
  ((is_ret (carray_push_back a 9) = false ↔ 2 = 2 ∧ 2 ^ 30 ≤ 2) ∧
   (∀ a', carray_push_back a 9 = Ret a' → carray_rep a' ([8; 7] ++ [9]))).
Proof.
  intros a. assert (carray_rep a [8; 7]) as R.
  { split; try (vm_compute; intuition congruence).
    intros [|[|i]] x Hx; [injection Hx as <-; reflexivity| |discriminate Hx].
    injection Hx as <-. reflexivity. }
  split; [exact R|]. split; [reflexivity|].
  apply (carray_push_back_exact a [8; 7] 9 R).
Defined.

(** ** A full buffer as a table

The learner fills its buffer once and then addresses it with indices beyond
the count: on a full buffer with head 0, index [i] is the slot [i mod size]. *)

Section table.
Context {A : Type}.
Implicit Types (a : carray A) (l : list A).

Record table_rep a l : Prop := {
  tr_rep : carray_rep a l;
  tr_head : ca_head a = 0;
  tr_full : Z.of_nat (length l) = ca_size a;
}.

Lemma table_at a l i :
  table_rep a l → 0 ≤ i ≤ INT_MAX → carray_at a i = Ret (l !! Z.to_nat (i mod ca_size a)).
Proof.
  intros [R Hh Hf] Hi. unfold carray_at. pose proof (rep_size _ _ R).
  rewrite (rep_empty _ _ R), bool_decide_eq_false_2 by (intros ->; simpl in Hf; lia).
  rewrite Hh, Z.add_0_l, cint_ok by (unfold INT_MIN; lia). simpl. rewrite crem_pos by lia. simpl.
  pose proof (Z.mod_pos_bound i (ca_size a) ltac:(lia)).
  destruct (lookup_lt_is_Some_2 l (Z.to_nat (i mod ca_size a))) as [x Hx]; [lia|].
  pose proof (rep_live _ _ R _ _ Hx) as L.
  rewrite Hh, Z2Nat.id, Z.add_0_l, Z.mod_mod in L by lia.
  rewrite (arr_get_ok _ _ (Some x)) by (done || lia). simpl. by rewrite Hx.
Qed.

Lemma table_poke a l i p :
  table_rep a l → table_rep (carray_poke a i p) (<[Z.to_nat (i mod ca_size a) := p]> l).
Proof.
  intros [R Hh Hf]. pose proof (rep_size _ _ R).
  pose proof (Z.mod_pos_bound i (ca_size a) ltac:(lia)).
  split; [|done|by rewrite length_insert].
  replace (carray_poke a i p) with (carray_poke a (i mod ca_size a) p).
  - apply poke_ok; [done|lia].
  - unfold carray_poke. rewrite Hh, !Z.add_0_l, Z.mod_mod by lia. done.
Qed.

(** Filling an empty buffer to its size. *)
Lemma fill_ok (f : Z → A) (sz : Z) :
  0 < sz ≤ INT_MAX →
  ∃ a0 a, carray_new sz = Ret a0 ∧
    for_to sz (λ i c, carray_push_back c (f i)) a0 = Ret a ∧
    table_rep a (f <$> seqZ 0 sz) ∧ ca_size a = sz.
Proof.
  intros Hsz. destruct (carray_new_ret (A:=A) sz) as [a0 H0]; [lia|].
  destruct (rep_new sz a0 Hsz H0) as (R0 & S0 & Hd0). exists a0.
  loop_total (λ k c, carray_rep c (f <$> seqZ 0 k) ∧ ca_size c = sz ∧ ca_head c = 0).
  - lia.
  - intros k c Hk (Rk & Sk & Hdk).
    destruct (push_back_room c _ (f k) Rk) as (c' & -> & R' & S' & Hd').
    { rewrite length_fmap, length_seqZ. lia. }
    eexists. split; [done|]. rewrite seqZ_app, fmap_app by lia.
    rewrite Z.add_0_l. simpl. split; [exact R'|split; congruence].
  - done.
  - destruct Hloop as (R & Sa & Hd). eexists. split; [done|]. split; [done|].
    split; [split; [done|done|]|done]. rewrite length_fmap, length_seqZ. lia.
Qed.

End table.
