(* ===== verification/Quorum.v ===== *)
(** * Quorums of acceptors (src/paxos/quorum.c, [paxos_quorum] of src/paxos/paxos.c)

A [quorum] counts the acceptors that answered a request, with one flag per
acceptor so that a duplicate answer is not counted twice.  The flags live in a
malloc'ed block whose initial contents are arbitrary: [quorum_init] takes them
as the argument [junk].

[quorum_rep q n S] relates the C structure to the abstract one, the set [S]
of acceptors counted since the last [quorum_clear]. *)

From S2P Require Import Prelude.

(** [(acceptors/2)+1] *)
Definition paxos_quorum (acceptors : Z) : Z := Z.quot acceptors 2 + 1.

Record quorum : Type := Quorum {
  q_count : Z;
  q_quorum : Z;
  q_acceptors : Z;
  q_acceptor_ids : list Z;
}.

(** The loop stops at [q->quorum], not at [q->acceptors]. *)
Definition quorum_clear (q : quorum) : res quorum :=
  ids ← for_to (q_quorum q) (λ i ids, arr_set ids i 0) (q_acceptor_ids q);
  Ret (Quorum 0 (q_quorum q) (q_acceptors q) ids).

Definition quorum_init (acceptors : Z) (junk : nat → Z) : res quorum :=
  quorum_clear (Quorum 0 (paxos_quorum acceptors) acceptors
                  (junk <$> seq 0 (Z.to_nat acceptors))).

(** Returns 1 when the acceptor is counted, 0 when its flag was set. *)
Definition quorum_add (q : quorum) (id : Z) : res (Z * quorum) :=
  x ← arr_get (q_acceptor_ids q) id;
  if x =? 0 then
    c ← cint (q_count q + 1);
    ids ← arr_set (q_acceptor_ids q) id 1;
    Ret (1, Quorum c (q_quorum q) (q_acceptors q) ids)
  else Ret (0, q).

Definition quorum_reached (q : quorum) : bool := q_quorum q <=? q_count q.

(** ** The counted set *)

Record quorum_rep (q : quorum) (n : Z) (S : gset Z) : Prop := {
  qr_bound : 1 ≤ n ≤ INT_MAX;
  qr_acceptors : q_acceptors q = n;
  qr_quorum : q_quorum q = paxos_quorum n;
  qr_len : Z.of_nat (length (q_acceptor_ids q)) = n;
  qr_count : q_count q = Z.of_nat (size S);
  qr_flag : ∀ id, id ∈ S → 0 ≤ id < n ∧ q_acceptor_ids q !! Z.to_nat id = Some 1;
}.

(** The ids [0 .. n-1] as a set. *)
Definition acceptor_set (n : Z) : gset Z := list_to_set (seqZ 0 n).

Lemma elem_of_acceptor_set n id : id ∈ acceptor_set n ↔ 0 ≤ id < n.
Proof. unfold acceptor_set. rewrite elem_of_list_to_set, elem_of_seqZ. lia. Qed.

Lemma size_acceptor_set n : 0 ≤ n → Z.of_nat (size (acceptor_set n)) = n.
Proof.
  intros H. unfold acceptor_set. rewrite size_list_to_set by apply NoDup_seqZ.
  rewrite length_seqZ. lia.
Qed.

Lemma paxos_quorum_div n : 0 ≤ n → paxos_quorum n = n / 2 + 1.
Proof. intros H. unfold paxos_quorum. by rewrite Z.quot_div_nonneg by lia. Qed.

Lemma paxos_quorum_bounds n : 1 ≤ n → 1 ≤ paxos_quorum n ≤ n ∧ n < 2 * paxos_quorum n.
Proof.
  intros H. rewrite paxos_quorum_div by lia.
  pose proof (Z.div_mod n 2 ltac:(lia)); pose proof (Z.mod_pos_bound n 2 ltac:(lia)). lia.
Qed.

Lemma quorum_rep_subset q n S : quorum_rep q n S → S ⊆ acceptor_set n.
Proof. intros R id Hid. apply elem_of_acceptor_set. by apply (qr_flag _ _ _ R). Qed.

(** Two majorities of the same acceptors share one. *)
Lemma quorums_meet n (S1 S2 : gset Z) :
  1 ≤ n → S1 ⊆ acceptor_set n → S2 ⊆ acceptor_set n →
  paxos_quorum n ≤ Z.of_nat (size S1) → paxos_quorum n ≤ Z.of_nat (size S2) →
  ∃ a, a ∈ S1 ∧ a ∈ S2.
Proof.
  intros Hn H1 H2 Q1 Q2. pose proof (paxos_quorum_bounds n Hn).
  destruct (decide (S1 ## S2)) as [D|D].
  - pose proof (subseteq_size (S1 ∪ S2) (acceptor_set n) ltac:(set_solver)).
    rewrite size_union in * by done. pose proof (size_acceptor_set n). lia.
  - destruct (decide (S1 ∩ S2 = ∅)) as [E|E]; [set_solver|].
    apply set_choose_L in E as [a Ha]. exists a. set_solver.
Qed.

Lemma quorum_clear_ok q n S :
  quorum_rep q n S →
  ∃ q', quorum_clear q = Ret q' ∧ quorum_rep q' n ∅ ∧
    (∀ i, 0 ≤ i < n → q_acceptor_ids q' !! Z.to_nat i =
       if i <? paxos_quorum n then Some 0 else q_acceptor_ids q !! Z.to_nat i).
Proof.
  intros R. unfold quorum_clear. pose proof (qr_len _ _ _ R) as Hlen.
  pose proof (qr_bound _ _ _ R). pose proof (paxos_quorum_bounds n ltac:(lia)).
  rewrite (qr_quorum _ _ _ R).
  loop_total (λ k ids, Z.of_nat (length ids) = n ∧ ∀ i, 0 ≤ i < n → ids !! Z.to_nat i =
       if i <? k then Some 0 else q_acceptor_ids q !! Z.to_nat i).
  - lia.
  - intros k ids Hk [Hl Hi]. rewrite arr_set_ok by lia. eexists. split; [done|].
    rewrite length_insert. split; [done|]. intros i Hin.
    destruct (decide (i = k)) as [->|Hne].
    + rewrite list_lookup_insert_eq by lia. case_Z; [done|lia].
    + rewrite list_lookup_insert_ne by lia. rewrite Hi by done. do 2 case_Z; done || lia.
  - split; [done|]. intros i Hi. case_Z; [lia|done].
  - destruct Hloop as [Hl Hi]. eexists. split; [done|]. split; [|done].
    split; simpl; try done; apply R.
Qed.

Lemma quorum_init_ok n junk :
  1 ≤ n ≤ INT_MAX → ∃ q, quorum_init n junk = Ret q ∧ quorum_rep q n ∅.
Proof.
  intros Hn. unfold quorum_init.
  destruct (quorum_clear_ok (Quorum 0 (paxos_quorum n) n (junk <$> seq 0 (Z.to_nat n))) n ∅)
    as (q & -> & R & _); [|eauto].
  split; simpl; try done. rewrite length_fmap, length_seq. lia.
Qed.

(** The flags that [quorum_clear] resets. *)
Definition low_flags_clear (n : Z) (q : quorum) : Prop :=
  ∀ id, 0 ≤ id < paxos_quorum n → q_acceptor_ids q !! Z.to_nat id = Some 0.

Lemma quorum_clear_low q n S q' :
  quorum_rep q n S → quorum_clear q = Ret q' → low_flags_clear n q'.
Proof.
  intros R E id Hid. destruct (quorum_clear_ok _ _ _ R) as (q0 & E0 & _ & F). same_ret.
  pose proof (qr_bound _ _ _ R). pose proof (paxos_quorum_bounds n ltac:(lia)).
  rewrite F by lia. case_Z; [done|lia].
Qed.

Lemma quorum_init_low n junk q :
  1 ≤ n ≤ INT_MAX → quorum_init n junk = Ret q → low_flags_clear n q.
Proof.
  intros Hn. apply (quorum_clear_low _ _ ∅). split; simpl; try done.
  rewrite length_fmap, length_seq. lia.
Qed.

Lemma quorum_add_inv q n S id r q' :
  quorum_rep q n S → quorum_add q id = Ret (r, q') →
  0 ≤ id < n ∧
  ((r = 1 ∧ id ∉ S ∧ q_acceptor_ids q !! Z.to_nat id = Some 0 ∧
    q_acceptor_ids q' = <[Z.to_nat id := 1]> (q_acceptor_ids q) ∧
    quorum_rep q' n ({[id]} ∪ S)) ∨
   (r = 0 ∧ q' = q ∧ ∃ x, q_acceptor_ids q !! Z.to_nat id = Some x ∧ x ≠ 0)).
Proof.
  intros R. unfold quorum_add. intros H. inv_res.
  pose proof (qr_len _ _ _ R) as Hlen. pose proof (lookup_lt_Some _ _ _ H1).
  split; [lia|]. case_Z; inv_res; [left|right; eauto].
  subst. assert (id ∉ S) as Hn.
  { intros Hin. destruct (qr_flag _ _ _ R id Hin) as [_ Hf]. congruence. }
  split; [congruence|]. split; [done|]. split; [done|]. simplify_eq. split; [done|].
  pose proof (qr_count _ _ _ R).
  split; simpl; try apply R.
  - by rewrite length_insert.
  - rewrite size_union, size_singleton by set_solver. lia.
  - intros j [->%elem_of_singleton|Hj]%elem_of_union.
    + split; [lia|]. by rewrite list_lookup_insert_eq by lia.
    + destruct (qr_flag _ _ _ R j Hj) as [? Hf]. split; [done|].
      rewrite list_lookup_insert_ne; [done|]. intros E%Z2Nat.inj; [congruence|lia|lia].
Qed.

Lemma quorum_add_fresh q n S id :
  quorum_rep q n S → 0 ≤ id < n → q_acceptor_ids q !! Z.to_nat id = Some 0 →
  ∃ q', quorum_add q id = Ret (1, q') ∧ quorum_rep q' n ({[id]} ∪ S) ∧
        q_acceptor_ids q' = <[Z.to_nat id := 1]> (q_acceptor_ids q).
Proof.
  intros R Hid Hf. pose proof (qr_bound _ _ _ R).
  assert (size S ≤ size (acceptor_set n))%nat by (by apply subseteq_size, (quorum_rep_subset q)).
  assert (id ∉ S) as Hn.
  { intros Hin. destruct (qr_flag _ _ _ R id Hin). congruence. }
  assert (size ({[id]} ∪ S) ≤ size (acceptor_set n))%nat as Hs.
  { apply subseteq_size. pose proof (quorum_rep_subset _ _ _ R).
    apply union_subseteq. split; [|done]. by apply singleton_subseteq_l, elem_of_acceptor_set. }
  rewrite size_union, size_singleton in Hs by set_solver.
  pose proof (size_acceptor_set n ltac:(lia)). pose proof (qr_count _ _ _ R).
  assert (∃ q', quorum_add q id = Ret (1, q')) as [q' Hq'].
  { unfold quorum_add. rewrite (arr_get_ok _ _ 0) by (done || lia). simpl.
    rewrite cint_ok by (unfold INT_MIN, INT_MAX in *; lia). simpl.
    rewrite arr_set_ok by (rewrite (qr_len _ _ _ R); lia). simpl. eauto. }
  exists q'. split; [done|].
  destruct (quorum_add_inv _ _ _ _ _ _ R Hq') as [_ [(_ & _ & _ & E & R')|(? & _)]]; done.
Qed.

Lemma quorum_add_total q n S id :
  quorum_rep q n S → 0 ≤ id < n → ∃ r q', quorum_add q id = Ret (r, q').
Proof.
  intros R Hid. destruct (arr_get_total (q_acceptor_ids q) id) as [x Hx].
  { rewrite (qr_len _ _ _ R). lia. }
  destruct (decide (x = 0)) as [->|Hne].
  - apply arr_get_inv in Hx as [_ Hx].
    destruct (quorum_add_fresh q n S id R Hid Hx) as (q' & ? & _). eauto.
  - unfold quorum_add. rewrite Hx. simpl. case_Z; [done|eauto].
Qed.

Lemma quorum_reached_iff q n S :
  quorum_rep q n S → quorum_reached q = true ↔ paxos_quorum n ≤ Z.of_nat (size S).
Proof.
  intros R. unfold quorum_reached. rewrite (qr_quorum _ _ _ R), (qr_count _ _ _ R).
  apply Z.leb_le.
Qed.

(** ** Sequences of answers *)

(** The acceptors counted by a run of [quorum_add], in the order of the calls. *)
Fixpoint quorum_adds (q : quorum) (ids : list Z) : res (list Z * quorum) :=
  match ids with
  | [] => Ret ([], q)
  | id :: ids' =>
      '(r, q1) ← quorum_add q id;
      '(counted, q2) ← quorum_adds q1 ids';
      Ret (if r =? 1 then id :: counted else counted, q2)
  end.

Lemma quorum_adds_inv ids q n S counted q' :
  quorum_rep q n S → quorum_adds q ids = Ret (counted, q') →
  NoDup counted ∧ counted ⊆ ids ∧ list_to_set counted ## S ∧
  quorum_rep q' n (list_to_set counted ∪ S).
Proof.
  revert q S counted. induction ids as [|id ids IH]; intros q S counted R H; simpl in H.
  { inv_res. split; [constructor|]. split; [set_solver|]. split; [set_solver|].
    by replace (list_to_set [] ∪ S) with S by set_solver. }
  inv_res.
  destruct (quorum_add_inv _ _ _ _ _ _ R E) as [Hid [(-> & Hn & _ & _ & R1)|(-> & -> & _)]].
  - destruct (IH _ _ _ R1 E0) as (ND & Sub & Dis & R2). simpl.
    split; [constructor; [set_solver|done]|]. split; [set_solver|].
    split; [set_solver|].
    by replace ({[id]} ∪ list_to_set l ∪ S) with (list_to_set l ∪ ({[id]} ∪ S)) by set_solver.
  - destruct (IH _ _ _ R E0) as (ND & Sub & Dis & R2). simpl. set_solver.
Qed.

Lemma quorum_adds_fresh ids q n S :
  quorum_rep q n S → NoDup ids →
  (∀ id, id ∈ ids → 0 ≤ id < n ∧ q_acceptor_ids q !! Z.to_nat id = Some 0) →
  ∃ q', quorum_adds q ids = Ret (ids, q') ∧ quorum_rep q' n (list_to_set ids ∪ S).
Proof.
  revert q S. induction ids as [|id ids IH]; intros q S R ND Hz; simpl.
  { exists q. split; [done|]. by replace (∅ ∪ S) with S by set_solver. }
  apply NoDup_cons in ND as [Hn ND].
  destruct (Hz id) as [Hid Hf]; [set_solver|].
  destruct (quorum_add_fresh q n S id R Hid Hf) as (q1 & -> & R1 & E1). simpl.
  destruct (IH q1 ({[id]} ∪ S) R1 ND) as (q2 & -> & R2).
  { intros j Hj. destruct (Hz j) as [? Hfj]; [set_solver|]. split; [done|].
    rewrite E1, list_lookup_insert_ne; [done|].
    intros E%Z2Nat.inj; [subst; done|lia|lia]. }
  simpl. exists q2. split; [done|].
  by replace ({[id]} ∪ list_to_set ids ∪ S) with (list_to_set ids ∪ ({[id]} ∪ S)) by set_solver.
Qed.

(** ** Properties *)

(** Two sets of acceptors that each reach [paxos_quorum] intersect, for
every number of acceptors, odd or even. *)
Lemma paxos_quorum_intersect (n : Z) (S1 S2 : gset Z) :
  1 ≤ n → S1 ⊆ acceptor_set n → S2 ⊆ acceptor_set n →
  paxos_quorum n ≤ Z.of_nat (size S1) → paxos_quorum n ≤ Z.of_nat (size S2) →
  ∃ a, a ∈ S1 ∧ a ∈ S2.
Proof. apply quorums_meet. Qed.

Lemma paxos_quorum_intersect_witness :
  ∃ a : Z, a ∈ ({[0; 1; 2]} : gset Z) ∧ a ∈ ({[1; 2; 3]} : gset Z).
Proof.
  apply (paxos_quorum_intersect 4 {[0; 1; 2]} {[1; 2; 3]}); try (vm_compute; congruence).
  - intros x Hx. apply elem_of_acceptor_set. set_unfold in Hx. lia.
  - intros x Hx. apply elem_of_acceptor_set. set_unfold in Hx. lia.
Defined.

(** After [quorum_clear], whatever sequence of answers is added
(duplicates and stale flags included), the count is the number of distinct
acceptors for which [quorum_add] returned 1, all of them valid ids, and
[quorum_reached] holds exactly when these acceptors are a majority. *)
Theorem quorum_counts_distinct q n S q0 ids counted q' :
  quorum_rep q n S → quorum_clear q = Ret q0 → quorum_adds q0 ids = Ret (counted, q') →
  NoDup counted ∧ counted ⊆ ids ∧ (∀ id, id ∈ counted → 0 ≤ id < n) ∧
  q_count q' = Z.of_nat (length counted) ∧
  (quorum_reached q' = true ↔ paxos_quorum n ≤ Z.of_nat (length counted)).
Proof.
  intros R H0 Ha. destruct (quorum_clear_ok _ _ _ R) as (q0' & E & R0 & _). same_ret.
  destruct (quorum_adds_inv _ _ _ _ _ _ R0 Ha) as (ND & Sub & _ & R').
  rewrite (right_id_L ∅ (∪)) in R'.
  assert (size (list_to_set counted : gset Z) = length counted) as Hs
    by (by apply size_list_to_set).
  split; [done|]. split; [done|]. split; [|split].
  - intros id Hid. apply (qr_flag _ _ _ R'). set_solver.
  - by rewrite (qr_count _ _ _ R'), Hs.
  - by rewrite (quorum_reached_iff _ _ _ R'), Hs.
Qed.

(** A quorum structure for three acceptors in which acceptor 2 was counted. *)
Definition quorum3_seen2 : quorum := Quorum 1 2 3 [0; 0; 1].

Lemma quorum3_seen2_rep : quorum_rep quorum3_seen2 3 {[2]}.
Proof.
  split; try (vm_compute; intuition congruence).
  intros id ->%elem_of_singleton. vm_compute. intuition congruence.
Qed.

Lemma quorum_counts_distinct_witness :
  ∃ q0 counted q', quorum_clear quorum3_seen2 = Ret q0 ∧
    quorum_adds q0 [1; 1; 0] = Ret (counted, q') ∧ quorum_reached q' = true ∧
    (NoDup counted ∧ counted ⊆ [1; 1; 0] ∧ (∀ id, id ∈ counted → 0 ≤ id < 3) ∧
     q_count q' = Z.of_nat (length counted) ∧
     (quorum_reached q' = true ↔ paxos_quorum 3 ≤ Z.of_nat (length counted))).
Proof.
  do 3 eexists. split; [reflexivity|]. split; [reflexivity|]. split; [reflexivity|].
  eapply (quorum_counts_distinct quorum3_seen2 3 {[2]}); [apply quorum3_seen2_rep| |];
    reflexivity.
Defined.

(** Whatever the state of the flags before, after [quorum_clear] the
answers of acceptors [0 .. quorum-1], in any order, reach the quorum. *)
Lemma quorum_low_ids_reach q n S ids :
  quorum_rep q n S → ids ≡ₚ seqZ 0 (paxos_quorum n) →
  ∃ q0 q', quorum_clear q = Ret q0 ∧ quorum_adds q0 ids = Ret (ids, q') ∧
           quorum_reached q' = true.
Proof.
  intros R HP. pose proof (qr_bound _ _ _ R).
  pose proof (paxos_quorum_bounds n ltac:(lia)) as Hq.
  destruct (quorum_clear_ok _ _ _ R) as (q0 & H0 & R0 & F0).
  assert (NoDup ids) as ND by (rewrite HP; apply NoDup_seqZ).
  destruct (quorum_adds_fresh ids q0 n ∅ R0) as (q' & Ha & R'); [done| |].
  { intros id Hid. rewrite HP, elem_of_seqZ in Hid. split; [lia|].
    rewrite F0 by lia. case_Z; [done|lia]. }
  exists q0, q'. split; [done|]. split; [done|].
  rewrite (right_id_L ∅ (∪)) in R'. apply (quorum_reached_iff _ _ _ R').
  rewrite size_list_to_set, HP, length_seqZ by done. lia.
Qed.

Lemma quorum_low_ids_reach_witness :
  ∃ q0 q', quorum_clear quorum3_seen2 = Ret q0 ∧
    quorum_adds q0 [1; 0] = Ret ([1; 0], q') ∧ quorum_reached q' = true.
Proof.
  apply (quorum_low_ids_reach quorum3_seen2 3 {[2]} [1; 0]); [apply quorum3_seen2_rep|].
  vm_compute. constructor.
Defined.

(** [quorum_clear] resets only the flags below the quorum size, so an
acceptor with a higher id that was counted before the clear is never counted
after it: its answers are dropped as duplicates although the count is zero. *)
Lemma quorum_clear_keeps_high_ids q n S id q0 :
  quorum_rep q n S → id ∈ S → paxos_quorum n ≤ id → quorum_clear q = Ret q0 →
  q_count q0 = 0 ∧ quorum_add q0 id = Ret (0, q0).
Proof.
  intros R Hid Hhigh H0. destruct (quorum_clear_ok _ _ _ R) as (q0' & E & R0 & F0).
  same_ret. split; [apply R0|]. destruct (qr_flag _ _ _ R id Hid) as [Hr Hf].
  unfold quorum_add. rewrite (arr_get_ok _ _ 1); [done|lia|].
  rewrite F0 by done. case_Z; [lia|done].
Qed.

Lemma quorum_clear_keeps_high_ids_witness :
  ∃ q0, quorum_clear quorum3_seen2 = Ret q0 ∧
    q_count q0 = 0 ∧ quorum_add q0 2 = Ret (0, q0).
Proof.
  eexists. split; [reflexivity|].
  apply (quorum_clear_keeps_high_ids quorum3_seen2 3 {[2]} 2);
    [apply quorum3_seen2_rep|set_solver|vm_compute; congruence|reflexivity].
Defined.
