(* ===== verification/Messages.v ===== *)
(** * Protocol messages, records and configuration
(src/paxos/include/libpaxos_messages.h, src/paxos/include/paxos.h, src/paxos/paxos.c)

The C messages end in a flexible array [value] of [value_size] bytes; the
model keeps the bytes and [value_size] is their number.  [iid_t] and
[ballot_t] are 32-bit unsigned, [acceptor_id] is an [int]. *)

From Stdlib Require Export Strings.Byte.
From stdpp Require Export strings.
From S2P Require Import Prelude.
#[local] Open Scope Z_scope.

#[export] Instance byte_eq_dec : EqDecision byte := Byte.byte_eq_dec.

Definition bytes : Type := list byte.

(** [typedef enum paxos_msg_code] *)
Inductive paxos_msg_code : Set :=
  | prepare_reqs | prepare_acks | accept_reqs | accept_acks
  | repeat_reqs | submit | leader_announce | alive_ping.

Definition msg_code (c : paxos_msg_code) : Z :=
  match c with
  | prepare_reqs => 1 | prepare_acks => 2 | accept_reqs => 4 | accept_acks => 8
  | repeat_reqs => 16 | submit => 32 | leader_announce => 64 | alive_ping => 65
  end.

(** [paxos_msg]: a typed block of bytes; [data_size] is their number. *)
Record paxos_msg : Type := PaxosMsg {
  m_type : paxos_msg_code;
  m_data : bytes;
}.

Record prepare_req : Type := PrepareReq { pr_iid : Z; pr_ballot : Z }.

Record prepare_ack : Type := PrepareAck {
  pa_acceptor_id : Z;
  pa_iid : Z;
  pa_ballot : Z;
  pa_value_ballot : Z;
  pa_value : bytes;
}.

Record accept_req : Type := AcceptReq { ar_iid : Z; ar_ballot : Z; ar_value : bytes }.

Record accept_ack : Type := AcceptAck {
  aa_acceptor_id : Z;
  aa_iid : Z;
  aa_ballot : Z;
  aa_value_ballot : Z;
  aa_is_final : Z;
  aa_value : bytes;
}.

(** [typedef accept_ack acceptor_record] *)
Notation acceptor_record := accept_ack.

#[export] Instance paxos_msg_code_eq_dec : EqDecision paxos_msg_code.
Proof. solve_decision. Defined.
#[export] Instance paxos_msg_eq_dec : EqDecision paxos_msg.
Proof. solve_decision. Defined.
#[export] Instance prepare_req_eq_dec : EqDecision prepare_req.
Proof. solve_decision. Defined.
#[export] Instance prepare_ack_eq_dec : EqDecision prepare_ack.
Proof. solve_decision. Defined.
#[export] Instance accept_req_eq_dec : EqDecision accept_req.
Proof. solve_decision. Defined.
#[export] Instance accept_ack_eq_dec : EqDecision accept_ack.
Proof. solve_decision. Defined.

(** A message as a value: a code and the structure it goes with. *)
Inductive message : Type :=
  | MPrepareReq (m : prepare_req)
  | MPrepareAck (m : prepare_ack)
  | MAcceptReq (m : accept_req)
  | MAcceptAck (m : accept_ack)
  | MRepeatReq (iid : Z)
  | MSubmit (value : bytes).

#[export] Instance message_eq_dec : EqDecision message.
Proof. solve_decision. Defined.

Definition value_size (v : bytes) : Z := Z.of_nat (length v).

(** The acknowledgement [sendbuf_add_prepare_ack] makes of a record. *)
Definition prepare_ack_of (rec : acceptor_record) : prepare_ack :=
  PrepareAck (aa_acceptor_id rec) (aa_iid rec) (aa_ballot rec) (aa_value_ballot rec) (aa_value rec).

(** [sizeof] of the structures on the LP64 ABI; [paxos_msg] is packed. *)
Definition sizeof_paxos_msg : Z := 12.
Definition sizeof_prepare_req : Z := 8.
Definition sizeof_prepare_ack : Z := 24.
Definition sizeof_accept_req : Z := 16.
Definition sizeof_accept_ack : Z := 32.

Definition PREPARE_ACK_SIZE (m : prepare_ack) : Z := value_size (pa_value m) + sizeof_prepare_ack.
Definition ACCEPT_REQ_SIZE (m : accept_req) : Z := value_size (ar_value m) + sizeof_accept_req.
Definition ACCEPT_ACK_SIZE (m : accept_ack) : Z := value_size (aa_value m) + sizeof_accept_ack.

(** The maximum message size accepted, [(256*1000)]. *)
Definition PAXOS_MAX_VALUE_SIZE : Z := 256 * 1000.

Definition MAX_N_OF_PROPOSERS : Z := 10.

Definition PAXOS_LOG_QUIET : Z := 0.
Definition PAXOS_LOG_ERROR : Z := 1.
Definition PAXOS_LOG_INFO : Z := 2.
Definition PAXOS_LOG_DEBUG : Z := 3.

(** [struct paxos_config] and its initial value in paxos.c. *)
Record paxos_config : Type := PaxosConfig {
  verbosity : Z;
  learner_instances : Z;
  learner_catch_up : Z;
  proposer_timeout : Z;
  proposer_preexec_window : Z;
  bdb_sync : Z;
  bdb_cachesize : Z;
  bdb_env_path : string;
  bdb_db_filename : string;
  bdb_trash_files : Z;
}.

Definition default_config : paxos_config :=
  PaxosConfig PAXOS_LOG_INFO 2048 1 1 128 0 (32 * 1024 * 1024)
    "/tmp/acceptor" "acc.bdb" 0.

(** What [paxos_log] prints: [stamp] is the time [strftime] wrote to the array of
1024 characters, the message follows it, cut to what is left with its NUL. *)
Definition paxos_log (cfg : paxos_config) (level : Z) (stamp msg : bytes) : list bytes :=
  if verbosity cfg <? level then [] else [stamp ++ take (1023 - length stamp) msg].

Definition paxos_log_error (cfg : paxos_config) : bytes → bytes → list bytes :=
  paxos_log cfg PAXOS_LOG_ERROR.
Definition paxos_log_info (cfg : paxos_config) : bytes → bytes → list bytes :=
  paxos_log cfg PAXOS_LOG_INFO.
Definition paxos_log_debug (cfg : paxos_config) : bytes → bytes → list bytes :=
  paxos_log cfg PAXOS_LOG_DEBUG.

(** [struct timeval] *)
Record timeval : Type := Timeval { tv_sec : Z; tv_usec : Z }.

#[export] Instance timeval_eq_dec : EqDecision timeval.
Proof. solve_decision. Defined.
