(* ===== verification/Storage.v ===== *)
(** * The storage interface of the acceptor (src/paxos/include/storage.h)

Acceptors keep their records in one of two interchangeable implementations,
in memory ([StorageMem]) or in Berkeley DB ([StorageBdb]).  Both return
pointers into a buffer they own, which the next call overwrites: [rec_ptr] is
the type of such pointers and [rec_load] reads through one.

[StorageSpec] is the contract: the store stands for a map [h] from instance to
record that is never forgotten.  An operation may stop the process, but when
it returns, what it returns and what it stores agree with [h]. *)

From S2P Require Import Prelude Messages.
#[local] Open Scope Z_scope.

Class Storage (S : Type) : Type := {
  rec_ptr : Type;
  rec_load : S → rec_ptr → res acceptor_record;
  storage_tx_begin : S → res S;
  storage_tx_commit : S → res S;
  storage_get_record : S → Z → res (S * option rec_ptr);
  storage_save_accept : S → accept_req → res (S * rec_ptr);
  storage_save_prepare : S → prepare_req → option rec_ptr → res (S * rec_ptr);
}.

(** The record an accept request leaves behind. *)
Definition accepted_record (aid : Z) (ar : accept_req) : acceptor_record :=
  AcceptAck aid (ar_iid ar) (ar_ballot ar) (ar_ballot ar) 0 (ar_value ar).

(** The record a prepare request leaves behind, given the earlier one. *)
Definition prepared_record (aid : Z) (pr : prepare_req) (old : option acceptor_record)
    : acceptor_record :=
  match old with
  | None => AcceptAck aid (pr_iid pr) (pr_ballot pr) 0 0 []
  | Some r => AcceptAck (aa_acceptor_id r) (aa_iid r) (pr_ballot pr)
                (aa_value_ballot r) (aa_is_final r) (aa_value r)
  end.

(** The contract covers the instance ids from 1 up (0 marks an empty record);
[current s iid p] says that [p] is what the last [storage_get_record] for
[iid] returned, the precondition of the two save operations. *)
Class StorageSpec (S : Type) `{Storage S} : Type := {
  store_rep : Z → S → gmap Z acceptor_record → Prop;
  current : S → Z → option rec_ptr → Prop;
  tx_begin_spec aid s h s' :
    store_rep aid s h → storage_tx_begin s = Ret s' → store_rep aid s' h;
  tx_commit_spec aid s h s' :
    store_rep aid s h → storage_tx_commit s = Ret s' →
    store_rep aid s' h ∧ ∀ p, rec_load s' p = rec_load s p;
  get_record_spec aid s h iid s' p :
    store_rep aid s h → 0 < iid < UINT32_MOD →
    storage_get_record s iid = Ret (s', p) →
    store_rep aid s' h ∧ current s' iid p ∧
    match p with
    | None => h !! iid = None
    | Some q => ∃ r, h !! iid = Some r ∧ rec_load s' q = Ret r
    end;
  save_accept_spec aid s h ar p s' q :
    store_rep aid s h → 0 < ar_iid ar < UINT32_MOD → is_u32 (ar_ballot ar) →
    current s (ar_iid ar) p →
    storage_save_accept s ar = Ret (s', q) →
    store_rep aid s' (<[ar_iid ar := accepted_record aid ar]> h) ∧
    rec_load s' q = Ret (accepted_record aid ar);
  save_prepare_spec aid s h pr p s' q :
    store_rep aid s h → 0 < pr_iid pr < UINT32_MOD → is_u32 (pr_ballot pr) →
    current s (pr_iid pr) p →
    match p with
    | None => h !! pr_iid pr = None
    | Some q => ∃ r, h !! pr_iid pr = Some r ∧ rec_load s q = Ret r
    end →
    storage_save_prepare s pr p = Ret (s', q) →
    store_rep aid s' (<[pr_iid pr := prepared_record aid pr (h !! pr_iid pr)]> h) ∧
    rec_load s' q = Ret (prepared_record aid pr (h !! pr_iid pr));
}.
