(* ===== verification/StorageMem.v ===== *)
(** * In-memory storage (src/paxos/storage_mem.c)

A table of [MAX_RECORDS] malloc'ed buffers of [MAX_SIZE_RECORD] bytes indexed
by [iid % MAX_RECORDS].  A pointer to a record is its index in the table.
The instance at the end shows that the table implements the storage contract:
a record overwritten by a later instance of the same slot is never answered
again, because the process exits when the older instance is asked for. *)

From S2P Require Import Prelude Messages Storage.
#[local] Open Scope Z_scope.

Definition MAX_SIZE_RECORD : Z := 8 * 1024.
Definition MAX_RECORDS : Z := 4 * 1024.

Record storage_mem : Type := StorageMem {
  sm_acceptor_id : Z;
  sm_records : list acceptor_record;
}.

(** [junk] is what [malloc] left in the buffers. *)
Definition storage_mem_open (acceptor_id : Z) (junk : nat → acceptor_record) : storage_mem :=
  StorageMem acceptor_id
    ((λ i, let r := junk i in
           AcceptAck (aa_acceptor_id r) 0 (aa_ballot r) (aa_value_ballot r)
             (aa_is_final r) (aa_value r)) <$> seq 0 (Z.to_nat MAX_RECORDS)).

(** [storage_close] frees everything and returns 0. *)
Definition storage_mem_close (s : storage_mem) : Z := 0.

Definition mem_slot (iid : Z) : Z := iid mod MAX_RECORDS.

Definition mem_load (s : storage_mem) (p : Z) : res acceptor_record :=
  arr_get (sm_records s) p.

Definition mem_store (s : storage_mem) (p : Z) (r : acceptor_record) : res storage_mem :=
  recs ← arr_set (sm_records s) p r;
  Ret (StorageMem (sm_acceptor_id s) recs).

Definition mem_tx_begin (s : storage_mem) : res storage_mem := Ret s.

Definition mem_tx_commit (s : storage_mem) : res storage_mem := Ret s.

Definition mem_get_record (s : storage_mem) (iid : Z) : res (storage_mem * option Z) :=
  record_buffer ← mem_load s (mem_slot iid);
  if iid <? aa_iid record_buffer then Fault (Exit 1)
  else if iid =? aa_iid record_buffer then Ret (s, Some (mem_slot iid))
  else Ret (s, None).

(** [memcpy] into the flexible array of a buffer of [MAX_SIZE_RECORD] bytes. *)
Definition mem_fits (v : bytes) : bool := value_size v + sizeof_accept_ack <=? MAX_SIZE_RECORD.

Definition mem_save_accept (s : storage_mem) (ar : accept_req) : res (storage_mem * Z) :=
  if mem_fits (ar_value ar) then
    s' ← mem_store s (mem_slot (ar_iid ar))
           (AcceptAck (sm_acceptor_id s) (ar_iid ar) (ar_ballot ar) (ar_ballot ar) 0
              (ar_value ar));
    Ret (s', mem_slot (ar_iid ar))
  else Fault OutOfBounds.

Definition mem_save_prepare (s : storage_mem) (pr : prepare_req) (rec : option Z)
    : res (storage_mem * Z) :=
  match rec with
  | None =>
      s' ← mem_store s (mem_slot (pr_iid pr))
             (AcceptAck (sm_acceptor_id s) (pr_iid pr) (pr_ballot pr) 0 0 []);
      Ret (s', mem_slot (pr_iid pr))
  | Some p =>
      r ← mem_load s p;
      s' ← mem_store s p (AcceptAck (aa_acceptor_id r) (aa_iid r) (pr_ballot pr)
                            (aa_value_ballot r) (aa_is_final r) (aa_value r));
      Ret (s', mem_slot (pr_iid pr))
  end.

Definition mem_save_final_value (s : storage_mem) (value : bytes) (iid b : Z)
    : res (storage_mem * Z) :=
  if mem_fits value then
    r ← mem_load s (mem_slot iid);
    s' ← mem_store s (mem_slot iid) (AcceptAck (aa_acceptor_id r) iid b b 1 value);
    Ret (s', mem_slot iid)
  else Fault OutOfBounds.

#[export] Instance mem_storage : Storage storage_mem := {|
  rec_ptr := Z;
  rec_load := mem_load;
  storage_tx_begin := mem_tx_begin;
  storage_tx_commit := mem_tx_commit;
  storage_get_record := mem_get_record;
  storage_save_accept := mem_save_accept;
  storage_save_prepare := mem_save_prepare;
|}.

(** ** The contract *)

(** The slot [k] holds the latest instance of its residue class. *)
Record slot_rep (h : gmap Z acceptor_record) (k : Z) (r : acceptor_record) : Prop := {
  slot_iid : 0 ≤ aa_iid r;
  slot_known : 0 < aa_iid r → aa_iid r mod MAX_RECORDS = k ∧ h !! aa_iid r = Some r;
  slot_last : ∀ iid, is_Some (h !! iid) → iid mod MAX_RECORDS = k → iid ≤ aa_iid r;
}.

Record mem_rep (aid : Z) (s : storage_mem) (h : gmap Z acceptor_record) : Prop := {
  mr_aid : sm_acceptor_id s = aid;
  mr_len : Z.of_nat (length (sm_records s)) = MAX_RECORDS;
  mr_slot : ∀ k r, 0 ≤ k → sm_records s !! Z.to_nat k = Some r → slot_rep h k r;
  mr_pos : ∀ iid, is_Some (h !! iid) → 0 < iid;
}.

Definition mem_current (s : storage_mem) (iid : Z) (p : option Z) : Prop :=
  ∃ r, mem_load s (mem_slot iid) = Ret r ∧
  match p with
  | None => aa_iid r < iid
  | Some q => q = mem_slot iid ∧ aa_iid r = iid
  end.

Lemma mem_slot_range iid : 0 ≤ mem_slot iid < MAX_RECORDS.
Proof. apply Z.mod_pos_bound. reflexivity. Qed.

Lemma mem_store_ok aid s h r :
  mem_rep aid s h → ∃ s', mem_store s (mem_slot (aa_iid r)) r = Ret s' ∧
    sm_acceptor_id s' = sm_acceptor_id s ∧
    sm_records s' = <[Z.to_nat (mem_slot (aa_iid r)) := r]> (sm_records s).
Proof.
  intros R. unfold mem_store. pose proof (mem_slot_range (aa_iid r)).
  rewrite arr_set_ok by (rewrite (mr_len _ _ _ R); lia). simpl. eauto.
Qed.

(** Overwriting the slot of an instance at least as recent extends the history. *)
Lemma mem_store_rep aid s h iid r old s' :
  mem_rep aid s h → aa_iid r = iid → 0 < iid → mem_load s (mem_slot iid) = Ret old →
  aa_iid old ≤ iid → mem_store s (mem_slot iid) r = Ret s' →
  mem_rep aid s' (<[iid := r]> h) ∧ mem_load s' (mem_slot iid) = Ret r.
Proof.
  intros R <- Hpos Hold Hle Hst. pose proof (mem_slot_range (aa_iid r)) as Hsl.
  destruct (mem_store_ok aid s h r R) as (s1 & E & Ha & Hr). same_ret.
  unfold mem_load in *. inv_res. pose proof (mr_len _ _ _ R) as Hlen.
  assert (slot_rep h (mem_slot (aa_iid r)) old) as Ho by (by apply (mr_slot _ _ _ R)).
  split; [split|].
  - rewrite Ha. apply R.
  - by rewrite Hr, length_insert.
  - intros k r' Hk Hr'. rewrite Hr in Hr'.
    destruct (decide (k = mem_slot (aa_iid r))) as [->|Hne].
    + rewrite list_lookup_insert_eq in Hr' by lia. simplify_eq. split; [lia| |].
      * intros _. split; [done|]. apply lookup_insert_eq.
      * intros iid Hin Hmod. destruct (decide (iid = aa_iid r')) as [->|Hd]; [lia|].
        rewrite lookup_insert_ne in Hin by done.
        pose proof (slot_last _ _ _ Ho iid Hin Hmod). lia.
    + rewrite list_lookup_insert_ne in Hr' by (intros E'%Z2Nat.inj; [congruence|lia|done]).
      destruct (mr_slot _ _ _ R k r' Hk Hr') as [Hi Hkn Hl]. split; [done| |].
      * intros Hp. destruct (Hkn Hp) as [Hm Hh]. split; [done|].
        rewrite lookup_insert_ne; [done|]. intros E'. apply Hne. by rewrite <-Hm, <-E'.
      * intros iid Hin Hmod. destruct (decide (iid = aa_iid r)) as [->|Hd].
        { by destruct Hne. }
        rewrite lookup_insert_ne in Hin by done. auto.
  - intros iid Hin. destruct (decide (iid = aa_iid r)) as [->|Hd]; [done|].
    rewrite lookup_insert_ne in Hin by done. by apply (mr_pos _ _ _ R).
  - apply arr_get_ok; [lia|]. rewrite Hr. by rewrite list_lookup_insert_eq by lia.
Qed.

Lemma mem_get_record_spec aid s h iid s' p :
  mem_rep aid s h → 0 < iid → mem_get_record s iid = Ret (s', p) →
  s' = s ∧ mem_current s iid p ∧
  match p with
  | None => h !! iid = None
  | Some q => ∃ r, h !! iid = Some r ∧ mem_load s q = Ret r
  end.
Proof.
  intros R Hpos Hg. unfold mem_get_record in Hg. inv_res.
  pose proof (mem_slot_range iid). pose proof E as L. unfold mem_load in L. inv_res.
  pose proof (mr_slot _ _ _ R _ _ H0 H1) as [Hi Hkn Hl].
  repeat case_Z; inv_res.
  - split; [done|]. split; [exists r; auto|]. exists r. split; [|done].
    by destruct (Hkn ltac:(lia)) as [_ Hh].
  - split; [done|]. split; [exists r; split; [done|lia]|].
    destruct (h !! iid) eqn:Hh; [|done].
    pose proof (Hl iid ltac:(eauto) eq_refl). lia.
Qed.

#[export] Instance mem_storage_spec : StorageSpec storage_mem.
Proof.
  refine {| store_rep := mem_rep; current := mem_current |}.
  - intros aid s h s' R [= <-]. done.
  - intros aid s h s' R [= <-]. done.
  - intros aid s h iid s' p R Hiid Hg.
    destruct (mem_get_record_spec aid s h iid s' p R) as (-> & ? & ?); [lia|done|done].
  - intros aid s h ar p s' q R Hiid _ (old & Hold & Hp) Hs.
    unfold storage_save_accept in Hs; simpl in Hs. unfold mem_save_accept in Hs.
    destruct (mem_fits (ar_value ar)); [|done]. inv_res.
    rewrite (mr_aid _ _ _ R) in E. fold (accepted_record aid ar) in E.
    apply (mem_store_rep aid s h _ _ old); [done|done|lia|done| |done]. destruct p; lia.
  - intros aid s h pr p s' q R Hiid _ (old & Hold & Hp) Hh Hs.
    unfold storage_save_prepare in Hs; simpl in Hs. unfold mem_save_prepare in Hs.
    destruct p as [p|]; inv_res.
    + destruct Hp as [-> Hiq]. simpl in Hh. destruct Hh as (r' & Hh & Hl). same_ret.
      rewrite Hh. apply (mem_store_rep aid s h _ _ r); [done|done|lia|done|lia|done].
    + rewrite (mr_aid _ _ _ R) in E. rewrite Hh.
      apply (mem_store_rep aid s h _ _ old); [done|done|lia|done|lia|done].
Defined.

Lemma mem_open_rep aid junk : mem_rep aid (storage_mem_open aid junk) ∅.
Proof.
  unfold storage_mem_open. split; cbn [sm_acceptor_id sm_records]; [done| |..].
  - rewrite length_fmap, length_seq. reflexivity.
  - intros k r _ Hr. apply list_lookup_fmap_Some in Hr as (i & -> & _).
    split; simpl; [lia|lia|]. intros iid [? H]. by rewrite lookup_empty in H.
  - intros iid [? H]. by rewrite lookup_empty in H.
Qed.

(** ** Any sequence of operations

The table as the acceptor uses it: every operation looks the record up first. *)
Inductive mem_op : Type :=
  | OpGet (iid : Z)
  | OpAccept (ar : accept_req)
  | OpPrepare (pr : prepare_req).

Definition op_iid (op : mem_op) : Z :=
  match op with OpGet iid => iid | OpAccept ar => ar_iid ar | OpPrepare pr => pr_iid pr end.

Definition op_ok (op : mem_op) : Prop :=
  0 < op_iid op < UINT32_MOD ∧
  match op with
  | OpGet _ => True
  | OpAccept ar => is_u32 (ar_ballot ar)
  | OpPrepare pr => is_u32 (pr_ballot pr)
  end.

(** An operation, with the record its answer points to. *)
Definition mem_do (s : storage_mem) (op : mem_op) : res (storage_mem * option acceptor_record) :=
  '(s, p) ← mem_get_record s (op_iid op);
  match op with
  | OpGet _ =>
      match p with
      | None => Ret (s, None)
      | Some q => r ← mem_load s q; Ret (s, Some r)
      end
  | OpAccept ar => '(s, q) ← mem_save_accept s ar; r ← mem_load s q; Ret (s, Some r)
  | OpPrepare pr => '(s, q) ← mem_save_prepare s pr p; r ← mem_load s q; Ret (s, Some r)
  end.

Fixpoint mem_run (s : storage_mem) (ops : list mem_op)
    : res (storage_mem * list (option acceptor_record)) :=
  match ops with
  | [] => Ret (s, [])
  | op :: ops => '(s, r) ← mem_do s op; '(s, rs) ← mem_run s ops; Ret (s, r :: rs)
  end.

(** The same on a map without limits. *)
Definition map_do (aid : Z) (h : gmap Z acceptor_record) (op : mem_op)
    : gmap Z acceptor_record * option acceptor_record :=
  match op with
  | OpGet iid => (h, h !! iid)
  | OpAccept ar => let r := accepted_record aid ar in (<[ar_iid ar := r]> h, Some r)
  | OpPrepare pr =>
      let r := prepared_record aid pr (h !! pr_iid pr) in (<[pr_iid pr := r]> h, Some r)
  end.

Fixpoint map_run (aid : Z) (h : gmap Z acceptor_record) (ops : list mem_op)
    : gmap Z acceptor_record * list (option acceptor_record) :=
  match ops with
  | [] => (h, [])
  | op :: ops =>
      let '(h, r) := map_do aid h op in
      let '(h, rs) := map_run aid h ops in (h, r :: rs)
  end.

(** Why an operation on a table that stands for [h] may stop the process. *)
Definition mem_fails (h : gmap Z acceptor_record) (op : mem_op) (e : fault) : Prop :=
  (e = Exit 1 ∧ ∃ iid', op_iid op < iid' ∧ mem_slot iid' = mem_slot (op_iid op) ∧ is_Some (h !! iid')) ∨
  (e = OutOfBounds ∧ ∃ ar, op = OpAccept ar ∧ 8160 < value_size (ar_value ar)).

(** The lookup returns, or a later instance has the slot. *)
Lemma mem_get_total aid s h iid :
  mem_rep aid s h → 0 < iid →
  (∃ p, mem_get_record s iid = Ret (s, p)) ∨
  (mem_get_record s iid = Fault (Exit 1) ∧
   ∃ iid', iid < iid' ∧ mem_slot iid' = mem_slot iid ∧ is_Some (h !! iid')).
Proof.
  intros R Hpos. destruct (arr_get_total (sm_records s) (mem_slot iid)) as [b Hb].
  { rewrite (mr_len _ _ _ R). apply mem_slot_range. }
  pose proof Hb as Hl. apply arr_get_inv in Hl as [Hs Hl].
  destruct (mr_slot _ _ _ R _ _ Hs Hl) as [Hi Hkn _].
  unfold mem_get_record, mem_load. rewrite Hb. simpl.
  destruct (Z.ltb_spec iid (aa_iid b)); [right|case_Z; eauto].
  split; [done|]. destruct (Hkn ltac:(lia)) as [Hm Hk]. eauto.
Qed.

Lemma mem_load_slot aid s h iid : mem_rep aid s h → ∃ r, mem_load s (mem_slot iid) = Ret r.
Proof. intros R. apply arr_get_total. rewrite (mr_len _ _ _ R). apply mem_slot_range. Qed.

Lemma mem_do_ok aid s h op :
  mem_rep aid s h → op_ok op →
  match mem_do s op with
  | Ret (s', r) => mem_rep aid s' (map_do aid h op).1 ∧ r = (map_do aid h op).2
  | Fault e => mem_fails h op e
  end.
Proof.
  intros R [Hi Hb]. unfold mem_do.
  destruct (mem_get_total aid s h (op_iid op) R ltac:(lia)) as [[p E]|[-> H]]; [|by left].
  rewrite E, bind_Ret. cbv beta iota.
  destruct (mem_get_record_spec aid s h (op_iid op) s p R ltac:(lia) E) as (_ & Hc & Hp).
  destruct op as [iid|ar|pr]; simpl in *.
  - destruct p as [q|]; [|done]. destruct Hp as (r & -> & ->). done.
  - unfold mem_save_accept. destruct (mem_fits (ar_value ar)) eqn:Hf.
    + destruct (mem_store_ok aid s h (AcceptAck (sm_acceptor_id s) (ar_iid ar) (ar_ballot ar)
        (ar_ballot ar) 0 (ar_value ar)) R) as (s' & Es & _). simpl in Es. rewrite Es, bind_Ret.
      destruct (@save_accept_spec storage_mem _ mem_storage_spec aid s h ar p s' (mem_slot (ar_iid ar)) R Hi Hb Hc) as [R' Hl].
      { simpl. unfold mem_save_accept. by rewrite Hf, Es. }
      cbn in Hl. cbn. by rewrite Hl.
    + right. split; [done|]. exists ar. split; [done|]. apply Z.leb_gt in Hf.
      unfold MAX_SIZE_RECORD, sizeof_accept_ack in Hf. lia.
  - assert (∃ s' q, mem_save_prepare s pr p = Ret (s', q)) as (s' & q & Es).
    { unfold mem_save_prepare. destruct p as [q|].
      - destruct Hp as (r & Hh & Hl), Hc as (r0 & Hl0 & -> & Hr0). rewrite Hl, bind_Ret.
        rewrite Hl in Hl0. injection Hl0 as ->. rewrite <-Hr0.
        destruct (mem_store_ok aid s h (AcceptAck (aa_acceptor_id r0) (aa_iid r0) (pr_ballot pr)
          (aa_value_ballot r0) (aa_is_final r0) (aa_value r0)) R) as (s' & Es & _).
        cbn [aa_iid] in Es. rewrite Es. by eexists _, _.
      - destruct (mem_store_ok aid s h (AcceptAck (sm_acceptor_id s) (pr_iid pr) (pr_ballot pr) 0 0 []) R)
          as (s' & Es & _). cbn [aa_iid] in Es. rewrite Es. by eexists _, _. }
    rewrite Es, bind_Ret. destruct (@save_prepare_spec storage_mem _ mem_storage_spec aid s h pr p s' q R Hi Hb Hc Hp Es) as [R' Hl].
    cbn in Hl. cbn. by rewrite Hl.
Qed.

Lemma mem_run_ok aid s h ops s' outs :
  mem_rep aid s h → Forall op_ok ops → mem_run s ops = Ret (s', outs) →
  mem_rep aid s' (map_run aid h ops).1 ∧ outs = (map_run aid h ops).2.
Proof.
  intros R HF. revert s h outs R. induction HF as [|op ops Hop _ IH]; intros s h outs R E; simpl in E.
  { by injection E as <- <-. }
  pose proof (mem_do_ok aid s h op R Hop) as H1. destruct (mem_do s op) as [[s1 r]|]; [|done].
  destruct H1 as [R1 ->]. rewrite bind_Ret in E. cbv beta iota in E.
  apply bind_inv in E as ([s2 rs] & E2 & [= -> <-]). destruct (IH _ _ _ R1 E2) as [R2 ->]. simpl.
  destruct (map_do aid h op), (map_run aid _ ops). done.
Qed.

(** ** Properties *)

(** C37: the in-memory table never forgets.  After any sequence of lookups, saved
promises and saved votes from its creation on, with anything in fresh memory, a
table that is still running has answered every one of them as a map without
limits does; and the next operation does so too, unless it stops the process, in
one of two ways: a later instance has taken over the slot, or a vote with a
value of more than 8160 bytes is saved. *)
Theorem mem_answers_as_map aid junk ops s outs :
  Forall op_ok ops → mem_run (storage_mem_open aid junk) ops = Ret (s, outs) →
  outs = (map_run aid ∅ ops).2 ∧
  ∀ op, op_ok op →
    match mem_do s op with
    | Ret (_, r) => r = (map_do aid (map_run aid ∅ ops).1 op).2
    | Fault e => mem_fails (map_run aid ∅ ops).1 op e
    end.
Proof.
  intros HF E. destruct (mem_run_ok aid _ ∅ ops s outs (mem_open_rep aid junk) HF E) as [R ->].
  split; [done|]. intros op Hop. pose proof (mem_do_ok aid s _ op R Hop) as H.
  destruct (mem_do s op) as [[s' r]|]; [by destruct H|done].
Qed.

Definition zero_record : acceptor_record := AcceptAck 0 0 0 0 0 [].

(** A promise, a vote, an instance of another slot, and a lookup. *)
Definition demo_ops : list mem_op :=
  [OpPrepare (PrepareReq 5 10); OpAccept (AcceptReq 5 10 [x41]); OpPrepare (PrepareReq 6 10); OpGet 5].

Lemma mem_answers_as_map_witness :
  ∃ s, mem_run (storage_mem_open 1 (λ _, zero_record)) demo_ops =
    Ret (s, [Some (AcceptAck 1 5 10 0 0 []); Some (AcceptAck 1 5 10 10 0 [x41]);
             Some (AcceptAck 1 6 10 0 0 []); Some (AcceptAck 1 5 10 10 0 [x41])]) ∧
    mem_fails (map_run 1 ∅ demo_ops).1 (OpAccept (AcceptReq 5 20 (replicate 8161 x41))) OutOfBounds.
Proof.
  assert (Forall op_ok demo_ops) as HF
    by (unfold demo_ops; repeat (apply Forall_cons_2; [by vm_compute|]); apply Forall_nil_2).
  destruct (mem_run (storage_mem_open 1 (λ _, zero_record)) demo_ops) as [[s outs]|] eqn:E;
    [|by vm_compute in E].
  destruct (mem_answers_as_map 1 (λ _, zero_record) demo_ops s outs HF E) as [Ho Hn].
  exists s. split; [by rewrite Ho|].
  specialize (Hn (OpAccept (AcceptReq 5 20 (replicate 8161 x41))) ltac:(by vm_compute)).
  revert Hn. vm_compute in E. injection E as <- _. vm_compute (mem_do _ _). done.
Defined.

(** The record buffers are smaller than the values the system lets through:
saving an accept request writes past its buffer exactly when the value has
more than 8160 bytes, while messages of up to [PAXOS_MAX_VALUE_SIZE] bytes
are accepted. *)
Lemma mem_save_accept_overflow aid s h ar :
  mem_rep aid s h →
  (mem_save_accept s ar = Fault OutOfBounds ↔ 8160 < value_size (ar_value ar)) ∧
  8160 < PAXOS_MAX_VALUE_SIZE - sizeof_accept_req.
Proof.
  intros R. split; [|reflexivity].
  unfold mem_save_accept, mem_fits, MAX_SIZE_RECORD, sizeof_accept_ack. case_Z; [|split; [lia|done]].
  destruct (mem_store_ok aid s h (AcceptAck (sm_acceptor_id s) (ar_iid ar) (ar_ballot ar)
    (ar_ballot ar) 0 (ar_value ar)) R) as (s' & E & _). simpl in E. rewrite E. simpl.
  split; [done|lia].
Qed.

Lemma mem_save_accept_overflow_witness :
  let s0 := storage_mem_open 1 (λ _, zero_record) in
  let ar := AcceptReq 1 10 (replicate 8161 x41) in
  (mem_save_accept s0 ar = Fault OutOfBounds ↔ 8160 < value_size (ar_value ar)) ∧
  8160 < PAXOS_MAX_VALUE_SIZE - sizeof_accept_req.
Proof.
  intros s0 ar. apply (mem_save_accept_overflow 1 s0 ∅ ar). apply mem_open_rep.
Defined.
