(* ===== verification/Acceptor.v ===== *)
(** * The acceptor (src/paxos/acceptor.c)

The acceptor is written once against the storage interface.  [spec_prepare],
[spec_accept] and [spec_repeat] are what it promises, as functions on the map
of records; the refinement lemmas show that the C functions compute them over
any storage that meets the contract, and the properties are proved for runs
of the C functions. *)

From S2P Require Import Prelude Messages Storage StorageMem.
#[local] Open Scope Z_scope.

Section acceptor.
Context {S : Type} `{Storage S}.

(** [struct acceptor] *)
Record acceptor : Type := Acceptor { store : S }.

(** [opened] is the result of [storage_open(id)]. *)
Definition acceptor_new (opened : option S) : option acceptor :=
  match opened with Some s => Some (Acceptor s) | None => None end.

(** [close] is [storage_close]. *)
Definition acceptor_free (close : S → Z) (a : acceptor) : Z := close (store a).

Definition apply_prepare (s : S) (pr : prepare_req) (rec : option rec_ptr)
    : res (S * rec_ptr) :=
  match rec with
  | Some p =>
      r ← rec_load s p;
      if pr_ballot pr <=? aa_ballot r then Ret (s, p)
      else if negb (aa_is_final r =? 0) then Ret (s, p)
      else storage_save_prepare s pr rec
  | None => storage_save_prepare s pr rec
  end.

Definition apply_accept (s : S) (ar : accept_req) (rec : option rec_ptr)
    : res (S * rec_ptr) :=
  match rec with
  | Some p =>
      r ← rec_load s p;
      if ar_ballot ar <? aa_ballot r then Ret (s, p)
      else storage_save_accept s ar
  | None => storage_save_accept s ar
  end.

Definition acceptor_receive_prepare (a : acceptor) (req : prepare_req)
    : res (acceptor * rec_ptr) :=
  s ← storage_tx_begin (store a);
  '(s, rec) ← storage_get_record s (pr_iid req);
  '(s, rec) ← apply_prepare s req rec;
  s ← storage_tx_commit s;
  Ret (Acceptor s, rec).

Definition acceptor_receive_accept (a : acceptor) (req : accept_req)
    : res (acceptor * rec_ptr) :=
  s ← storage_tx_begin (store a);
  '(s, rec) ← storage_get_record s (ar_iid req);
  '(s, rec) ← apply_accept s req rec;
  s ← storage_tx_commit s;
  Ret (Acceptor s, rec).

Definition acceptor_receive_repeat (a : acceptor) (iid : Z)
    : res (acceptor * option rec_ptr) :=
  s ← storage_tx_begin (store a);
  '(s, rec) ← storage_get_record s iid;
  s ← storage_tx_commit s;
  Ret (Acceptor s, rec).

End acceptor.
Arguments acceptor : clear implicits.

(** ** What the acceptor promises *)

Section specification.
Context (aid : Z).
Implicit Types h : gmap Z acceptor_record.

Definition spec_prepare h (pr : prepare_req) : gmap Z acceptor_record * acceptor_record :=
  match h !! pr_iid pr with
  | Some r =>
      if (pr_ballot pr <=? aa_ballot r) || negb (aa_is_final r =? 0) then (h, r)
      else let r' := prepared_record aid pr (Some r) in (<[pr_iid pr := r']> h, r')
  | None => let r' := prepared_record aid pr None in (<[pr_iid pr := r']> h, r')
  end.

Definition spec_accept h (ar : accept_req) : gmap Z acceptor_record * acceptor_record :=
  match h !! ar_iid ar with
  | Some r =>
      if ar_ballot ar <? aa_ballot r then (h, r)
      else (<[ar_iid ar := accepted_record aid ar]> h, accepted_record aid ar)
  | None => (<[ar_iid ar := accepted_record aid ar]> h, accepted_record aid ar)
  end.

(** Every record is filed under its own instance, by this acceptor; the value
it holds was accepted at a ballot no higher than the promised one. *)
Record record_wf (iid : Z) (r : acceptor_record) : Prop := {
  rw_iid : aa_iid r = iid;
  rw_aid : aa_acceptor_id r = aid;
  rw_final : aa_is_final r = 0;
  rw_ballot : 0 ≤ aa_value_ballot r ≤ aa_ballot r;
  rw_none : aa_value_ballot r = 0 → aa_value r = [];
}.

Definition history_wf h : Prop := ∀ iid r, h !! iid = Some r → record_wf iid r.

Lemma accepted_record_wf ar : 0 < ar_ballot ar → record_wf (ar_iid ar) (accepted_record aid ar).
Proof. intros Hb. split; simpl; done || lia. Qed.

Lemma prepared_record_wf pr old :
  0 ≤ pr_ballot pr → (∀ r, old = Some r → record_wf (pr_iid pr) r ∧ aa_ballot r ≤ pr_ballot pr) →
  record_wf (pr_iid pr) (prepared_record aid pr old).
Proof.
  intros Hb Hold. destruct old as [r|]; [|split; simpl; done || lia].
  destruct (Hold r eq_refl) as [[] Hle]. split; simpl; done || lia.
Qed.

Lemma history_wf_insert h iid r :
  history_wf h → record_wf iid r → history_wf (<[iid := r]> h).
Proof.
  intros Hh Hr j r' Hj. destruct (decide (iid = j)) as [->|Hne].
  - rewrite lookup_insert_eq in Hj. by simplify_eq.
  - rewrite lookup_insert_ne in Hj by done. auto.
Qed.

(** The two outcomes of a prepare request. *)
Lemma spec_prepare_cases h pr :
  (∃ r, h !! pr_iid pr = Some r ∧ spec_prepare h pr = (h, r) ∧
        (pr_ballot pr ≤ aa_ballot r ∨ aa_is_final r ≠ 0)) ∨
  (let r' := prepared_record aid pr (h !! pr_iid pr) in
   spec_prepare h pr = (<[pr_iid pr := r']> h, r') ∧
   ∀ r, h !! pr_iid pr = Some r → aa_ballot r < pr_ballot pr).
Proof.
  unfold spec_prepare. destruct (h !! pr_iid pr) as [r|] eqn:E; [|by right].
  destruct (Z.leb_spec (pr_ballot pr) (aa_ballot r)), (Z.eqb_spec (aa_is_final r) 0);
    simpl; [left; eauto 6..|right|left; eauto 6].
  split; [done|]. intros ? [= <-]. done.
Qed.

(** The two outcomes of an accept request. *)
Lemma spec_accept_cases h ar :
  (∃ r, h !! ar_iid ar = Some r ∧ spec_accept h ar = (h, r) ∧ ar_ballot ar < aa_ballot r) ∨
  (spec_accept h ar = (<[ar_iid ar := accepted_record aid ar]> h, accepted_record aid ar) ∧
   ∀ r, h !! ar_iid ar = Some r → aa_ballot r ≤ ar_ballot ar).
Proof.
  unfold spec_accept. destruct (h !! ar_iid ar) as [r|] eqn:E; [|by right].
  case_Z; [left; eauto|right]. split; [done|]. intros ? [= <-]. done.
Qed.

Lemma spec_prepare_wf h pr :
  0 ≤ pr_ballot pr → history_wf h → history_wf (spec_prepare h pr).1.
Proof.
  intros Hb Hh. destruct (spec_prepare_cases h pr) as [(r & _ & -> & _)|[-> Hlt]]; [done|].
  apply history_wf_insert; [done|]. apply prepared_record_wf; [done|].
  intros r Hr. split; [by apply Hh|]. by apply Z.lt_le_incl, Hlt.
Qed.

Lemma spec_accept_wf h ar :
  0 < ar_ballot ar → history_wf h → history_wf (spec_accept h ar).1.
Proof.
  intros Hb Hh. destruct (spec_accept_cases h ar) as [(r & _ & -> & _)|[-> _]]; [done|].
  apply history_wf_insert; [done|]. by apply accepted_record_wf.
Qed.

(** [h2] knows everything [h1] knows, with ballots no lower. *)
Definition history_le h1 h2 : Prop :=
  ∀ iid r1, h1 !! iid = Some r1 → ∃ r2, h2 !! iid = Some r2 ∧ aa_ballot r1 ≤ aa_ballot r2.

#[export] Instance history_le_preorder : PreOrder history_le.
Proof.
  split; [intros h iid r ?; eauto with lia|].
  intros h1 h2 h3 H12 H23 iid r1 E1. destruct (H12 _ _ E1) as (r2 & E2 & ?).
  destruct (H23 _ _ E2) as (r3 & E3 & ?). eauto with lia.
Qed.

Lemma history_le_insert h iid r :
  (∀ r0, h !! iid = Some r0 → aa_ballot r0 ≤ aa_ballot r) → history_le h (<[iid := r]> h).
Proof.
  intros Hr j r1 Hj. destruct (decide (iid = j)) as [->|Hne].
  - rewrite lookup_insert_eq. eauto.
  - rewrite lookup_insert_ne by done. eauto with lia.
Qed.

Lemma spec_prepare_le h pr : history_le h (spec_prepare h pr).1.
Proof.
  destruct (spec_prepare_cases h pr) as [(r & _ & -> & _)|[-> Hlt]]; [reflexivity|].
  apply history_le_insert. intros r Hr. simpl. rewrite Hr. simpl.
  by apply Z.lt_le_incl, Hlt.
Qed.

Lemma spec_accept_le h ar : history_le h (spec_accept h ar).1.
Proof.
  destruct (spec_accept_cases h ar) as [(r & _ & -> & _)|[-> Hle]]; [reflexivity|].
  apply history_le_insert. intros r Hr. simpl. auto.
Qed.

End specification.

(** ** Refinement, over any storage that meets the contract *)

Section refinement.
Context {S : Type} `{SS : StorageSpec S}.
Implicit Types (a : acceptor S) (h : gmap Z acceptor_record).

Lemma receive_prepare_refines aid a h pr a' p :
  store_rep aid (store a) h → 0 < pr_iid pr < UINT32_MOD → is_u32 (pr_ballot pr) →
  acceptor_receive_prepare a pr = Ret (a', p) →
  store_rep aid (store a') (spec_prepare aid h pr).1 ∧
  rec_load (store a') p = Ret (spec_prepare aid h pr).2.
Proof.
  intros R Hi Hb Hr. unfold acceptor_receive_prepare in Hr. inv_res. simpl.
  apply (tx_begin_spec aid _ h) in E; [|done].
  apply (get_record_spec aid _ h) in E0 as (R1 & Hc & Hp); [|done|done].
  unfold spec_prepare. unfold apply_prepare in E1. destruct o as [q|].
  - destruct Hp as (r0 & Hh & Hl). rewrite Hh. rewrite Hl in E1. simpl in E1.
    destruct (pr_ballot pr <=? aa_ballot r0) eqn:Eb; simpl.
    { inv_res. apply (tx_commit_spec aid _ h) in E2 as [? Hk]; [|done]. by rewrite Hk. }
    destruct (aa_is_final r0 =? 0) eqn:Ef; simpl in E1 |- *.
    + apply (save_prepare_spec aid _ h) in E1 as [R2 Hl2]; [|done|done|done|done|eauto].
      rewrite Hh in R2, Hl2. eapply tx_commit_spec in E2 as [? Hk]; [|done]. by rewrite Hk.
    + inv_res. apply (tx_commit_spec aid _ h) in E2 as [? Hk]; [|done]. by rewrite Hk.
  - rewrite Hp. simpl. apply (save_prepare_spec aid _ h) in E1 as [R2 Hl2]; [|done..].
    rewrite Hp in R2, Hl2. eapply tx_commit_spec in E2 as [? Hk]; [|done]. by rewrite Hk.
Qed.

Lemma receive_accept_refines aid a h ar a' p :
  store_rep aid (store a) h → 0 < ar_iid ar < UINT32_MOD → is_u32 (ar_ballot ar) →
  acceptor_receive_accept a ar = Ret (a', p) →
  store_rep aid (store a') (spec_accept aid h ar).1 ∧
  rec_load (store a') p = Ret (spec_accept aid h ar).2.
Proof.
  intros R Hi Hb Hr. unfold acceptor_receive_accept in Hr. inv_res. simpl.
  apply (tx_begin_spec aid _ h) in E; [|done].
  apply (get_record_spec aid _ h) in E0 as (R1 & Hc & Hp); [|done|done].
  unfold spec_accept. unfold apply_accept in E1. destruct o as [q|].
  - destruct Hp as (r0 & Hh & Hl). rewrite Hh. rewrite Hl in E1. simpl in E1.
    destruct (ar_ballot ar <? aa_ballot r0); simpl.
    { inv_res. apply (tx_commit_spec aid _ h) in E2 as [? Hk]; [|done]. by rewrite Hk. }
    eapply (save_accept_spec aid _ h) in E1 as [R2 Hl2]; [|done..].
    eapply tx_commit_spec in E2 as [? Hk]; [|done]. by rewrite Hk.
  - rewrite Hp. simpl. eapply (save_accept_spec aid _ h) in E1 as [R2 Hl2]; [|done..].
    eapply tx_commit_spec in E2 as [? Hk]; [|done]. by rewrite Hk.
Qed.

Lemma receive_repeat_refines aid a h iid a' p :
  store_rep aid (store a) h → 0 < iid < UINT32_MOD →
  acceptor_receive_repeat a iid = Ret (a', p) →
  store_rep aid (store a') h ∧
  match p with
  | None => h !! iid = None
  | Some q => ∃ r, h !! iid = Some r ∧ rec_load (store a') q = Ret r
  end.
Proof.
  intros R Hi Hr. unfold acceptor_receive_repeat in Hr. inv_res. simpl.
  apply (tx_begin_spec aid _ h) in E; [|done].
  apply (get_record_spec aid _ h) in E0 as (R1 & Hc & Hp); [|done|done].
  apply (tx_commit_spec aid _ h) in E1 as [R2 Hk]; [|done]. split; [done|].
  destruct p as [q|]; [|done]. rewrite Hk. done.
Qed.

(** ** Runs of an acceptor *)

Inductive acceptor_step : acceptor S → acceptor S → Prop :=
  | step_prepare a pr a' p :
      0 < pr_iid pr < UINT32_MOD → is_u32 (pr_ballot pr) →
      acceptor_receive_prepare a pr = Ret (a', p) → acceptor_step a a'
  | step_accept a ar a' p :
      0 < ar_iid ar < UINT32_MOD → 0 < ar_ballot ar < UINT32_MOD →
      acceptor_receive_accept a ar = Ret (a', p) → acceptor_step a a'
  | step_repeat a iid a' p :
      0 < iid < UINT32_MOD →
      acceptor_receive_repeat a iid = Ret (a', p) → acceptor_step a a'.

Lemma acceptor_step_refines aid a h a' :
  store_rep aid (store a) h → history_wf aid h → acceptor_step a a' →
  ∃ h', store_rep aid (store a') h' ∧ history_wf aid h' ∧ history_le h h'.
Proof.
  intros R Hw Hs. destruct Hs as [a pr a' p Hi Hb E|a ar a' p Hi Hb E|a iid a' p Hi E].
  - destruct (receive_prepare_refines aid a h pr a' p R Hi Hb E) as [R' _].
    destruct Hb. eauto using spec_prepare_wf, spec_prepare_le.
  - destruct (receive_accept_refines aid a h ar a' p R Hi ltac:(unfold is_u32; lia) E) as [R' _].
    destruct Hb. eauto using spec_accept_wf, spec_accept_le.
  - destruct (receive_repeat_refines aid a h iid a' p R Hi E) as [R' _].
    exists h. split; [done|]. split; [done|reflexivity].
Qed.

Lemma acceptor_run_refines aid a h a' :
  store_rep aid (store a) h → history_wf aid h → rtc acceptor_step a a' →
  ∃ h', store_rep aid (store a') h' ∧ history_wf aid h' ∧ history_le h h'.
Proof.
  intros R Hw Hs. revert h R Hw. induction Hs as [a|a a1 a2 H1 _ IH]; intros h R Hw.
  { exists h. split; [done|]. split; [done|reflexivity]. }
  destruct (acceptor_step_refines aid a h a1 R Hw H1) as (h1 & R1 & W1 & L1).
  destruct (IH h1 R1 W1) as (h2 & R2 & W2 & L2).
  exists h2. split; [done|]. split; [done|]. by transitivity h1.
Qed.

(** ** Properties *)

(** C19: over any storage that meets the contract, the acceptor's handlers
compute the specification: a prepare is granted (ballot raised, accepted value
kept) exactly when its ballot is above the recorded one and the record is not
final, an accept is recorded exactly when its ballot is at least the recorded
one, a repeat changes nothing; the reply is the resulting record. *)
Theorem acceptor_refines_spec aid a h :
  store_rep aid (store a) h →
  (∀ pr a' p, 0 < pr_iid pr < UINT32_MOD → is_u32 (pr_ballot pr) →
     acceptor_receive_prepare a pr = Ret (a', p) →
     store_rep aid (store a') (spec_prepare aid h pr).1 ∧
     rec_load (store a') p = Ret (spec_prepare aid h pr).2) ∧
  (∀ ar a' p, 0 < ar_iid ar < UINT32_MOD → is_u32 (ar_ballot ar) →
     acceptor_receive_accept a ar = Ret (a', p) →
     store_rep aid (store a') (spec_accept aid h ar).1 ∧
     rec_load (store a') p = Ret (spec_accept aid h ar).2) ∧
  (∀ iid a' p, 0 < iid < UINT32_MOD → acceptor_receive_repeat a iid = Ret (a', p) →
     store_rep aid (store a') h ∧
     match p with
     | None => h !! iid = None
     | Some q => ∃ r, h !! iid = Some r ∧ rec_load (store a') q = Ret r
     end).
Proof.
  intros R. split; [|split]; intros.
  - by apply (receive_prepare_refines aid a).
  - by apply (receive_accept_refines aid a).
  - by apply (receive_repeat_refines aid a).
Qed.

(** C20: a promise is kept: once the acceptor has answered a prepare request
with a record of ballot [b], then after any run of further requests an accept
request of the same instance with a ballot below [b] is refused: the reply
carries a higher ballot and the stored history does not change. *)
Theorem acceptor_promise_kept aid a h pr a1 p r a2 ar a3 q :
  store_rep aid (store a) h → history_wf aid h →
  0 < pr_iid pr < UINT32_MOD → is_u32 (pr_ballot pr) →
  acceptor_receive_prepare a pr = Ret (a1, p) → rec_load (store a1) p = Ret r →
  rtc acceptor_step a1 a2 →
  ar_iid ar = pr_iid pr → is_u32 (ar_ballot ar) → ar_ballot ar < aa_ballot r →
  acceptor_receive_accept a2 ar = Ret (a3, q) →
  ∃ h2 r3, store_rep aid (store a2) h2 ∧ store_rep aid (store a3) h2 ∧
    rec_load (store a3) q = Ret r3 ∧ h2 !! ar_iid ar = Some r3 ∧
    ar_ballot ar < aa_ballot r3.
Proof.
  intros R Hw Hi Hb Hp Hr Hrun Hiid Hba Hlt Ha.
  destruct (receive_prepare_refines aid a h pr a1 p R Hi Hb Hp) as [R1 Hl1].
  rewrite Hl1 in Hr. injection Hr as <-.
  pose proof (spec_prepare_wf aid h pr (proj1 Hb) Hw) as W1.
  destruct (acceptor_run_refines aid a1 _ a2 R1 W1 Hrun) as (h2 & R2 & W2 & L2).
  assert ((spec_prepare aid h pr).1 !! ar_iid ar = Some (spec_prepare aid h pr).2) as Hh.
  { rewrite Hiid. destruct (spec_prepare_cases aid h pr) as [(r & E & -> & _)|[-> _]];
      [done|apply lookup_insert_eq]. }
  destruct (L2 _ _ Hh) as (r2 & E2 & Hle).
  destruct (receive_accept_refines aid a2 h2 ar a3 q R2) as [R3 Hl3]; [by rewrite Hiid|done|done|].
  destruct (spec_accept_cases aid h2 ar) as [(r3 & E3 & Es & Hl)|[_ Hge]].
  - rewrite Es in R3, Hl3. eauto 10.
  - pose proof (Hge _ E2). lia.
Qed.

End refinement.

(** ** Witnesses, on the in-memory storage *)

Definition acc0 : acceptor storage_mem := Acceptor (storage_mem_open 2 (λ _, zero_record)).

Lemma acc0_rep : store_rep 2 (store acc0) ∅.
Proof. apply mem_open_rep. Qed.

Lemma history_wf_empty aid : history_wf aid ∅.
Proof. intros iid r Hr. by rewrite lookup_empty in Hr. Qed.

Lemma acceptor_refines_spec_witness :
  (∀ pr a' p, 0 < pr_iid pr < UINT32_MOD → is_u32 (pr_ballot pr) →
     acceptor_receive_prepare acc0 pr = Ret (a', p) →
     store_rep 2 (store a') (spec_prepare 2 ∅ pr).1 ∧
     rec_load (store a') p = Ret (spec_prepare 2 ∅ pr).2) ∧
  (∀ ar a' p, 0 < ar_iid ar < UINT32_MOD → is_u32 (ar_ballot ar) →
     acceptor_receive_accept acc0 ar = Ret (a', p) →
     store_rep 2 (store a') (spec_accept 2 ∅ ar).1 ∧
     rec_load (store a') p = Ret (spec_accept 2 ∅ ar).2) ∧
  (∀ iid a' p, 0 < iid < UINT32_MOD → acceptor_receive_repeat acc0 iid = Ret (a', p) →
     store_rep 2 (store a') ∅ ∧
     match p with
     | None => (∅ : gmap Z acceptor_record) !! iid = None
     | Some q => ∃ r, (∅ : gmap Z acceptor_record) !! iid = Some r ∧
                      rec_load (store a') q = Ret r
     end).
Proof. apply (acceptor_refines_spec 2 acc0 ∅ acc0_rep). Defined.

Definition acc1 : acceptor storage_mem :=
  (from_ret (acc0, 0) (acceptor_receive_prepare acc0 (PrepareReq 1 101))).1.

Definition acc2 : acceptor storage_mem :=
  (from_ret (acc0, 0) (acceptor_receive_accept acc1 (AcceptReq 1 11 [x41]))).1.

Lemma acceptor_promise_kept_witness :
  acceptor_receive_prepare acc0 (PrepareReq 1 101) = Ret (acc1, 1) ∧
  ∃ h2 r3, store_rep 2 (store acc1) h2 ∧ store_rep 2 (store acc2) h2 ∧
    rec_load (store acc2) 1 = Ret r3 ∧ h2 !! 1 = Some r3 ∧ 11 < aa_ballot r3.
Proof.
  assert (acceptor_receive_prepare acc0 (PrepareReq 1 101) = Ret (acc1, 1)) as E
    by (vm_compute; reflexivity).
  split; [exact E|].
  apply (acceptor_promise_kept (S:=storage_mem) (H:=mem_storage) 2 acc0 ∅ (PrepareReq 1 101) acc1 1
           (AcceptAck 2 1 101 0 0 []) acc1 (AcceptReq 1 11 [x41]) acc2 1).
  - exact acc0_rep.
  - apply history_wf_empty.
  - vm_compute. split; reflexivity.
  - vm_compute. split; [discriminate|reflexivity].
  - exact E.
  - vm_compute. reflexivity.
  - apply rtc_refl.
  - reflexivity.
  - vm_compute. split; [discriminate|reflexivity].
  - reflexivity.
  - vm_compute. reflexivity.
Defined.
