(* ===== verification/Proposer.v ===== *)
(** * The proposer (src/paxos/proposer.c)

The proposer keeps a queue of client values and two queues of instances, those
waiting for promises and those waiting for accept acknowledgements.  An
instance object is in exactly one queue at a time, so the queues hold the
objects themselves; the pointer returned by [instance_find] is the index of
the object in its queue and a store through it is [carray_poke].  Time is an
argument ([now], what [gettimeofday] returns) and so are the contents of
freshly allocated memory ([junk]).  Logging calls and [free] have no effect on
the state and are left out. *)

From S2P Require Import Prelude Carray Quorum Messages.
#[local] Open Scope Z_scope.

(** [struct instance] *)
Record instance : Type := Instance {
  i_iid : Z;
  i_ballot : Z;
  i_value_ballot : Z;
  i_value : option paxos_msg;
  i_closed : Z;
  i_quorum : quorum;
  i_created_at : timeval;
}.

Definition set_ballot (b : Z) (i : instance) : instance :=
  Instance (i_iid i) b (i_value_ballot i) (i_value i) (i_closed i) (i_quorum i) (i_created_at i).
Definition set_value (vb : Z) (v : option paxos_msg) (i : instance) : instance :=
  Instance (i_iid i) (i_ballot i) vb v (i_closed i) (i_quorum i) (i_created_at i).
Definition set_quorum (q : quorum) (i : instance) : instance :=
  Instance (i_iid i) (i_ballot i) (i_value_ballot i) (i_value i) (i_closed i) q (i_created_at i).
Definition set_created_at (t : timeval) (i : instance) : instance :=
  Instance (i_iid i) (i_ballot i) (i_value_ballot i) (i_value i) (i_closed i) (i_quorum i) t.

(** [struct proposer] *)
Record proposer : Type := Proposer {
  p_id : Z;
  p_acceptors : Z;
  p_values : carray paxos_msg;
  p_next_prepare_iid : Z;
  p_prepare_instances : carray instance;
  p_accept_instances : carray instance;
}.

Definition set_values (c : carray paxos_msg) (p : proposer) : proposer :=
  Proposer (p_id p) (p_acceptors p) c (p_next_prepare_iid p)
    (p_prepare_instances p) (p_accept_instances p).
Definition set_prepare (c : carray instance) (p : proposer) : proposer :=
  Proposer (p_id p) (p_acceptors p) (p_values p) (p_next_prepare_iid p) c
    (p_accept_instances p).
Definition set_accept (c : carray instance) (p : proposer) : proposer :=
  Proposer (p_id p) (p_acceptors p) (p_values p) (p_next_prepare_iid p)
    (p_prepare_instances p) c.

(** [struct timeout_iterator]; the proposer it points to is passed along. *)
Record timeout_iterator : Type := TimeoutIterator {
  ti_pi : Z;
  ti_ai : Z;
  ti_timeout : timeval;
}.

Definition wrap_value (value : bytes) : paxos_msg := PaxosMsg submit value.

(** [MAX_N_OF_PROPOSERS + b] or [MAX_N_OF_PROPOSERS + p->id], as a [ballot_t]. *)
Definition proposer_next_ballot (p : proposer) (b : Z) : Z :=
  if 0 <? b then u32 (MAX_N_OF_PROPOSERS + b) else u32 (MAX_N_OF_PROPOSERS + p_id p).

Definition instance_new (iid ballot acceptors : Z) (now : timeval) (junk : nat → Z)
    : res instance :=
  q ← quorum_init acceptors junk;
  Ret (Instance iid ballot 0 None 0 q now).

Definition proposer_new (id acceptors : Z) : res proposer :=
  values ← carray_new 128;
  prepare_instances ← carray_new 128;
  accept_instances ← carray_new 128;
  Ret (Proposer id acceptors values 0 prepare_instances accept_instances).

Definition proposer_propose (p : proposer) (value : bytes) : res proposer :=
  vs ← carray_push_back (p_values p) (wrap_value value);
  Ret (set_values vs p).

Definition proposer_prepared_count (p : proposer) : Z :=
  carray_count (p_prepare_instances p).

Definition proposer_prepare (p : proposer) (now : timeval) (junk : nat → Z)
    : res (proposer * prepare_req) :=
  let iid := u32 (p_next_prepare_iid p + 1) in
  inst ← instance_new iid (proposer_next_ballot p 0) (p_acceptors p) now junk;
  c ← carray_push_back (p_prepare_instances p) inst;
  Ret (Proposer (p_id p) (p_acceptors p) (p_values p) iid c (p_accept_instances p),
       PrepareReq (i_iid inst) (i_ballot inst)).

Definition instance_at (c : carray instance) (i : Z) : res instance :=
  x ← carray_at c i;
  deref x.

(** The loop of [instance_find] from index [i], [n] iterations left. *)
Fixpoint instance_find_from (n : nat) (i : Z) (c : carray instance) (iid : Z)
    : res (option Z) :=
  match n with
  | O => Ret None
  | S n' =>
      inst ← instance_at c i;
      if i_iid inst =? iid then Ret (Some i) else instance_find_from n' (i + 1) c iid
  end.

Definition instance_find (c : carray instance) (iid : Z) : res (option Z) :=
  instance_find_from (Z.to_nat (carray_count c)) 0 c iid.

Definition instance_match (a b : instance) : Z := cbool (i_iid a =? i_iid b).

Definition instance_remove (c : carray instance) (inst : instance) : res (carray instance) :=
  carray_reject c instance_match inst.

Definition prepare_preempt (p : proposer) (inst : instance) (now : timeval)
    : res (instance * prepare_req) :=
  let inst := set_ballot (proposer_next_ballot p (i_ballot inst)) inst in
  q ← quorum_clear (i_quorum inst);
  let inst := set_quorum q inst in
  Ret (set_created_at now inst, PrepareReq (i_iid inst) (i_ballot inst)).

(** The value a promise carries: kept when the instance has none or an older
one; a replaced value goes back to the queue of client values. *)
Definition promise_value (p : proposer) (inst : instance) (ack : prepare_ack)
    : res (proposer * instance) :=
  if 0 <? value_size (pa_value ack) then
    match i_value inst with
    | None => Ret (p, set_value (pa_value_ballot ack) (Some (wrap_value (pa_value ack))) inst)
    | Some old =>
        if i_value_ballot inst <? pa_value_ballot ack then
          vs ← carray_push_back (p_values p) old;
          Ret (set_values vs p,
               set_value (pa_value_ballot ack) (Some (wrap_value (pa_value ack))) inst)
        else Ret (p, inst)
    end
  else Ret (p, inst).

(** Returns [Some out] for the return value 1 (preempted), [None] for 0. *)
Definition proposer_receive_prepare_ack (p : proposer) (ack : prepare_ack) (now : timeval)
    : res (proposer * option prepare_req) :=
  found ← instance_find (p_prepare_instances p) (pa_iid ack);
  match found with
  | None => Ret (p, None)
  | Some i =>
      inst ← instance_at (p_prepare_instances p) i;
      if pa_ballot ack <? i_ballot inst then Ret (p, None)
      else if pa_ballot ack =? i_ballot inst then
        '(added, q) ← quorum_add (i_quorum inst) (pa_acceptor_id ack);
        if added =? 0 then Ret (p, None)
        else
          '(p, inst) ← promise_value p (set_quorum q inst) ack;
          Ret (set_prepare (carray_poke (p_prepare_instances p) i inst) p, None)
      else
        '(inst, out) ← prepare_preempt p inst now;
        Ret (set_prepare (carray_poke (p_prepare_instances p) i inst) p, Some out)
  end.

(** The loop at the top of [proposer_accept]: drops closed instances, then
returns the first one if it is prepared. *)
Fixpoint accept_front (n : nat) (c : carray instance) : res (carray instance * option instance) :=
  match n with
  | O => Fault StackOverflow
  | S n' =>
      x ← carray_front c;
      match x with
      | None => Ret (c, None)
      | Some inst =>
          if negb (i_closed inst =? 0) then
            '(_, c) ← carray_pop_front c;
            accept_front n' c
          else if negb (quorum_reached (i_quorum inst)) then Ret (c, None)
          else Ret (c, Some inst)
      end
  end.

(** [inst->value = carray_pop_front(p->values)] when the instance has no value. *)
Definition take_value (p : proposer) (inst : instance) : res (proposer * option paxos_msg) :=
  match i_value inst with
  | Some v => Ret (p, Some v)
  | None =>
      '(v, vs) ← carray_pop_front (p_values p);
      Ret (set_values vs p, v)
  end.

Definition proposer_accept (p : proposer) : res (proposer * option accept_req) :=
  '(c, front) ← accept_front (S (Z.to_nat (carray_count (p_prepare_instances p))))
                  (p_prepare_instances p);
  let p := set_prepare c p in
  match front with
  | None => Ret (p, None)
  | Some inst =>
      '(p, value) ← take_value p inst;
      match value with
      | None => Ret (p, None)
      | Some v =>
          let c := carray_poke (p_prepare_instances p) 0
                     (set_value (i_value_ballot inst) (Some v) inst) in
          '(x, c) ← carray_pop_front c;
          inst ← deref x;
          q ← quorum_clear (i_quorum inst);
          let inst := set_quorum q inst in
          acc ← carray_push_back (p_accept_instances p) inst;
          v ← deref (i_value inst);
          Ret (set_accept acc (set_prepare c p),
               Some (AcceptReq (i_iid inst) (i_ballot inst) (m_data v)))
      end
  end.

Definition proposer_receive_accept_ack (p : proposer) (ack : accept_ack) (now : timeval)
    : res (proposer * option prepare_req) :=
  found ← instance_find (p_accept_instances p) (aa_iid ack);
  match found with
  | None => Ret (p, None)
  | Some i =>
      inst ← instance_at (p_accept_instances p) i;
      if aa_ballot ack =? i_ballot inst then
        assert_that (aa_value_ballot ack =? i_ballot inst) ;;
        '(added, q) ← quorum_add (i_quorum inst) (aa_acceptor_id ack);
        if added =? 0 then Ret (p, None)
        else
          let inst := set_quorum q inst in
          let c := carray_poke (p_accept_instances p) i inst in
          if quorum_reached q then
            c ← instance_remove c inst;
            Ret (set_accept c p, None)
          else Ret (set_accept c p, None)
      else
        acc ← instance_remove (p_accept_instances p) inst;
        prep ← carray_push_front (p_prepare_instances p) inst;
        let p := set_prepare prep (set_accept acc p) in
        '(inst, out) ← prepare_preempt p inst now;
        Ret (set_prepare (carray_poke prep 0 inst) p, Some out)
  end.

(** ** Timeouts *)

(** [(t2->tv_sec - t1->tv_sec) * 1e6] is computed in [double] and converted to
[int], which is undefined when it does not fit. *)
Definition timeval_diff (t1 t2 : timeval) : res Z :=
  us ← cint ((tv_sec t2 - tv_sec t1) * 1000000);
  if us <? 0 then Ret 0
  else Ret (to_int (us + (tv_usec t2 - tv_usec t1))).

Definition instance_has_timedout (cfg : paxos_config) (inst : instance) (now : timeval)
    : res bool :=
  diff ← timeval_diff (i_created_at inst) now;
  Ret (proposer_timeout cfg <=? diff).

Definition proposer_timeout_iterator (now : timeval) : timeout_iterator :=
  TimeoutIterator 0 0 now.

(** The loop of [next_timedout]: the new index and the instance found. *)
Fixpoint next_timedout_from (n : nat) (cfg : paxos_config) (c : carray instance) (i : Z)
    (t : timeval) : res (Z * option Z) :=
  match n with
  | O => Ret (i, None)
  | S n' =>
      inst ← instance_at c i;
      if quorum_reached (i_quorum inst) then next_timedout_from n' cfg c (i + 1) t
      else
        timedout ← instance_has_timedout cfg inst t;
        if (timedout : bool) then Ret (i + 1, Some i)
        else next_timedout_from n' cfg c (i + 1) t
  end.

Definition next_timedout (cfg : paxos_config) (c : carray instance) (i : Z) (t : timeval)
    : res (Z * option Z) :=
  next_timedout_from (Z.to_nat (carray_count c - i)) cfg c i t.

Definition timeout_iterator_prepare (cfg : paxos_config) (p : proposer) (iter : timeout_iterator)
    : res (proposer * timeout_iterator * option prepare_req) :=
  '(i, found) ← next_timedout cfg (p_prepare_instances p) (ti_pi iter) (ti_timeout iter);
  let iter := TimeoutIterator i (ti_ai iter) (ti_timeout iter) in
  match found with
  | None => Ret (p, iter, None)
  | Some k =>
      inst ← instance_at (p_prepare_instances p) k;
      Ret (set_prepare (carray_poke (p_prepare_instances p) k
                          (set_created_at (ti_timeout iter) inst)) p,
           iter, Some (PrepareReq (i_iid inst) (i_ballot inst)))
  end.

Definition timeout_iterator_accept (cfg : paxos_config) (p : proposer) (iter : timeout_iterator)
    : res (proposer * timeout_iterator * option accept_req) :=
  '(i, found) ← next_timedout cfg (p_accept_instances p) (ti_ai iter) (ti_timeout iter);
  let iter := TimeoutIterator (ti_pi iter) i (ti_timeout iter) in
  match found with
  | None => Ret (p, iter, None)
  | Some k =>
      inst ← instance_at (p_accept_instances p) k;
      v ← deref (i_value inst);
      Ret (set_accept (carray_poke (p_accept_instances p) k
                         (set_created_at (ti_timeout iter) inst)) p,
           iter, Some (AcceptReq (i_iid inst) (i_ballot inst) (m_data v)))
  end.

(** ** The queues as lists *)

Record proposer_rep (p : proposer) (vs : list paxos_msg) (ps acs : list instance) : Prop := {
  pr_values : carray_rep (p_values p) vs;
  pr_prepare : carray_rep (p_prepare_instances p) ps;
  pr_accept : carray_rep (p_accept_instances p) acs;
}.

(** The fields no message handler changes. *)
Definition same_ids (p p' : proposer) : Prop :=
  p_id p' = p_id p ∧ p_acceptors p' = p_acceptors p ∧
  p_next_prepare_iid p' = p_next_prepare_iid p.

Lemma same_ids_trans p1 p2 p3 : same_ids p1 p2 → same_ids p2 p3 → same_ids p1 p3.
Proof. intros (? & ? & ?) (? & ? & ?). split; [congruence|split; congruence]. Qed.

Definition promise_inst (q : quorum) (ack : prepare_ack) (inst : instance) : instance :=
  let inst := set_quorum q inst in
  if (0 <? value_size (pa_value ack)) &&
     (match i_value inst with None => true
      | Some _ => i_value_ballot inst <? pa_value_ballot ack end)
  then set_value (pa_value_ballot ack) (Some (wrap_value (pa_value ack))) inst
  else inst.

Definition promise_values (ack : prepare_ack) (inst : instance) (vs : list paxos_msg)
    : list paxos_msg :=
  match i_value inst with
  | Some old =>
      if (0 <? value_size (pa_value ack)) && (i_value_ballot inst <? pa_value_ballot ack)
      then vs ++ [old] else vs
  | None => vs
  end.

Definition preempt_inst (p : proposer) (q : quorum) (now : timeval) (inst : instance)
    : instance :=
  set_created_at now (set_quorum q (set_ballot (proposer_next_ballot p (i_ballot inst)) inst)).

Section lists.
Implicit Types (c : carray instance) (l : list instance).

Lemma instance_at_inv c l i inst :
  carray_rep c l → 0 ≤ i < Z.of_nat (length l) → instance_at c i = Ret inst →
  l !! Z.to_nat i = Some inst.
Proof.
  intros R Hi H. unfold instance_at in H. inv_res.
  apply (carray_at_inv _ _ _ _ R) in E; [congruence|done].
Qed.

Lemma instance_at_ok c l i inst :
  carray_rep c l → indexable c → 0 ≤ i → l !! Z.to_nat i = Some inst →
  instance_at c i = Ret inst.
Proof.
  intros R Hx Hi Hl. pose proof (lookup_lt_Some _ _ _ Hl). unfold instance_at.
  rewrite (carray_at_ok _ _ _ R Hx) by lia. by rewrite Hl.
Qed.

Lemma instance_find_from_inv n i c l iid o :
  carray_rep c l → 0 ≤ i → i + Z.of_nat n = Z.of_nat (length l) →
  instance_find_from n i c iid = Ret o →
  match o with
  | Some k => i ≤ k ∧ ∃ inst, l !! Z.to_nat k = Some inst ∧ i_iid inst = iid
  | None => ∀ k inst, i ≤ Z.of_nat k → l !! k = Some inst → i_iid inst ≠ iid
  end.
Proof.
  intros R. revert i. induction n as [|n IH]; intros i Hi Hn H; simpl in H.
  { inv_res. intros k inst Hk Hl. pose proof (lookup_lt_Some _ _ _ Hl). lia. }
  inv_res. apply (instance_at_inv _ _ _ _ R) in E; [|lia].
  case_Z; inv_res; [split; [lia|by eauto]|]. apply IH in H; [|lia..].
  destruct o as [k|]; [destruct H; split; [lia|done]|].
  intros k inst Hk Hl. destruct (decide (Z.of_nat k = i)) as [<-|Hne].
  - rewrite Nat2Z.id in E. by simplify_eq.
  - apply (H k); [lia|done].
Qed.

Lemma instance_find_inv c l iid o :
  carray_rep c l → instance_find c iid = Ret o →
  match o with
  | Some k => 0 ≤ k ∧ ∃ inst, l !! Z.to_nat k = Some inst ∧ i_iid inst = iid
  | None => ∀ inst, inst ∈ l → i_iid inst ≠ iid
  end.
Proof.
  intros R H. unfold instance_find, carray_count in H.
  pose proof (rep_count _ _ R). apply (instance_find_from_inv _ _ _ l) in H; [|done|lia..].
  destruct o as [k|]; [done|]. intros inst [k Hk]%list_elem_of_lookup. apply (H k); [lia|done].
Qed.

Lemma instance_find_total n i c l iid :
  carray_rep c l → indexable c → 0 ≤ i → i + Z.of_nat n = Z.of_nat (length l) →
  ∃ o, instance_find_from n i c iid = Ret o.
Proof.
  intros R Hx. revert i. induction n as [|n IH]; intros i Hi Hn; simpl; [eauto|].
  destruct (lookup_lt_is_Some_2 l (Z.to_nat i)) as [x Hix]; [lia|].
  rewrite (instance_at_ok _ _ _ _ R Hx Hi Hix). simpl. case_Z; [eauto|]. apply IH; lia.
Qed.

Lemma instance_remove_inv c l inst c' :
  carray_rep c l → instance_remove c inst = Ret c' →
  carray_rep c' (filter (λ y, i_iid y ≠ i_iid inst) l).
Proof.
  intros R H. apply (carray_map_inv instance_match inst 0 _ _ _ R) in H.
  erewrite list_filter_iff; [exact H|]. intros x. unfold instance_match. simpl.
  case_Z; simpl; split; congruence.
Qed.

Lemma accept_front_inv n c l c' o :
  carray_rep c l → Forall (λ i, i_closed i = 0) l → accept_front (S n) c = Ret (c', o) →
  c' = c ∧ (∀ inst, o = Some inst → head l = Some inst ∧ quorum_reached (i_quorum inst) = true) ∧
  (∀ inst, head l = Some inst → quorum_reached (i_quorum inst) = true → o = Some inst).
Proof.
  intros R Hcl H. simpl in H. rewrite (front_ok _ _ R) in H. simpl in H.
  destruct l as [|inst l]; simpl in H; [by inv_res|].
  apply Forall_cons in Hcl as [Hc _]. rewrite Hc in H. simpl in H.
  destruct (quorum_reached (i_quorum inst)) eqn:Hq; simpl in H; inv_res; (split; [done|]).
  - by split; intros ? [= <-].
  - split; [done|]. intros ? [= <-]. congruence.
Qed.

End lists.

(** ** What each operation does to the lists, when it returns *)

Section cases.
Context (p : proposer) (vs : list paxos_msg) (ps acs : list instance).
Hypothesis R : proposer_rep p vs ps acs.

Lemma propose_inv value p' :
  proposer_propose p value = Ret p' →
  proposer_rep p' (vs ++ [wrap_value value]) ps acs ∧ same_ids p p'.
Proof using R.
  destruct R as [Rv Rp Ra]. unfold proposer_propose. intros H. inv_res.
  split; [|done]. split; simpl; try done. by apply (push_back_inv (p_values p)).
Qed.

Lemma prepare_inv now junk p' out :
  proposer_prepare p now junk = Ret (p', out) →
  ∃ q, quorum_init (p_acceptors p) junk = Ret q ∧
    let iid := u32 (p_next_prepare_iid p + 1) in
    let inst := Instance iid (proposer_next_ballot p 0) 0 None 0 q now in
    proposer_rep p' vs (ps ++ [inst]) acs ∧
    out = PrepareReq iid (proposer_next_ballot p 0) ∧
    p_id p' = p_id p ∧ p_acceptors p' = p_acceptors p ∧ p_next_prepare_iid p' = iid.
Proof using R.
  destruct R as [Rv Rp Ra]. unfold proposer_prepare, instance_new. intros H. inv_res.
  eexists. split; [done|]. split; [|done]. split; simpl; try done.
  by apply (push_back_inv (p_prepare_instances p)).
Qed.

Lemma prepare_preempt_inv p0 inst now inst' out :
  prepare_preempt p0 inst now = Ret (inst', out) →
  ∃ q, quorum_clear (i_quorum inst) = Ret q ∧ inst' = preempt_inst p0 q now inst ∧
       out = PrepareReq (i_iid inst) (proposer_next_ballot p0 (i_ballot inst)).
Proof. unfold prepare_preempt. intros H. inv_res. eauto. Qed.

Lemma promise_value_inv inst q ack p' inst' :
  promise_value p (set_quorum q inst) ack = Ret (p', inst') →
  inst' = promise_inst q ack inst ∧
  proposer_rep p' (promise_values ack inst vs) ps acs ∧ same_ids p p' ∧
  p_prepare_instances p' = p_prepare_instances p.
Proof using R.
  unfold promise_value, promise_inst, promise_values. simpl. intros H.
  destruct (0 <? value_size (pa_value ack)); simpl in *; [|inv_res; by destruct (i_value inst)].
  destruct (i_value inst) as [old|]; simpl in *; [|by inv_res].
  case_Z; inv_res; [|done]. split; [done|]. split; [|done].
  destruct R as [Rv Rp Ra]. split; simpl; try done. by apply (push_back_inv (p_values p)).
Qed.

Lemma receive_prepare_ack_inv ack now p' out :
  proposer_receive_prepare_ack p ack now = Ret (p', out) →
  ∃ vs' ps', proposer_rep p' vs' ps' acs ∧ same_ids p p' ∧
  ((vs' = vs ∧ ps' = ps ∧ out = None) ∨
   (∃ k inst r q, ps !! k = Some inst ∧ i_iid inst = pa_iid ack ∧
      i_ballot inst = pa_ballot ack ∧
      quorum_add (i_quorum inst) (pa_acceptor_id ack) = Ret (r, q) ∧ r ≠ 0 ∧
      vs' = promise_values ack inst vs ∧ ps' = <[k := promise_inst q ack inst]> ps ∧
      out = None) ∨
   (∃ k inst q, ps !! k = Some inst ∧ i_iid inst = pa_iid ack ∧
      i_ballot inst < pa_ballot ack ∧ quorum_clear (i_quorum inst) = Ret q ∧
      vs' = vs ∧ ps' = <[k := preempt_inst p q now inst]> ps ∧
      out = Some (PrepareReq (i_iid inst) (proposer_next_ballot p (i_ballot inst))))).
Proof using R.
  unfold proposer_receive_prepare_ack. intros H. inv_res.
  apply (instance_find_inv _ ps) in E; [|apply R].
  destruct r as [i|]; [|inv_res; exists vs, ps; split; [done|]; split; [done|]; by left].
  destruct E as [Hi (inst & Hl & Hiid)]. pose proof (lookup_lt_Some _ _ _ Hl). inv_res.
  apply (instance_at_inv _ ps) in E; [|apply R|lia]. simplify_eq.
  destruct (Z.ltb_spec (pa_ballot ack) (i_ballot inst)).
  { inv_res. exists vs, ps. split; [done|]. split; [done|]. by left. }
  destruct (Z.eqb_spec (pa_ballot ack) (i_ballot inst)).
  - inv_res. destruct (Z.eqb_spec z 0).
    { inv_res. exists vs, ps. split; [done|]. split; [done|]. by left. }
    inv_res. apply promise_value_inv in E0 as (-> & [Rv Rp Ra] & Hs & Hp).
    eexists _, _. split; [|split; [exact Hs|right; left; eauto 12]].
    split; simpl; try done. apply poke_ok; [done|lia].
  - inv_res. apply prepare_preempt_inv in E as (q & Hq & -> & ->).
    eexists _, _. split; [|split; [done|right; right; exists (Z.to_nat i), inst, q; eauto 12 with lia]].
    destruct R as [Rv Rp Ra]. split; simpl; try done. apply poke_ok; [done|lia].
Qed.

Lemma take_value_inv inst p' v :
  take_value p inst = Ret (p', v) →
  ∃ vs', proposer_rep p' vs' ps acs ∧ same_ids p p' ∧
    ((i_value inst ≠ None ∧ v = i_value inst ∧ vs' = vs) ∨
     (i_value inst = None ∧ v = head vs ∧ vs' = tail vs)).
Proof using R.
  unfold take_value. intros H. destruct (i_value inst) as [w|] eqn:Ew.
  - inv_res. exists vs. split; [done|]. split; [done|]. by left.
  - inv_res. destruct R as [Rv Rp Ra]. destruct (pop_front_ok _ _ Rv) as (c' & Hc & Rc & _).
    same_ret. simplify_eq. exists (tail vs). split; [by split|]. split; [done|]. by right.
Qed.

Definition accept_inst (v : paxos_msg) (q : quorum) (inst : instance) : instance :=
  set_quorum q (set_value (i_value_ballot inst) (Some v) inst).

Lemma accept_inv p' out :
  Forall (λ i, i_closed i = 0) ps → proposer_accept p = Ret (p', out) →
  ∃ vs' ps' acs', proposer_rep p' vs' ps' acs' ∧ same_ids p p' ∧
  ((vs' = vs ∧ ps' = ps ∧ acs' = acs ∧ out = None ∧
    ∀ inst, head ps = Some inst → quorum_reached (i_quorum inst) = true →
            i_value inst = None ∧ vs = []) ∨
   (∃ inst v q, ps = inst :: ps' ∧ quorum_reached (i_quorum inst) = true ∧
      ((i_value inst = Some v ∧ vs' = vs) ∨ (i_value inst = None ∧ vs = v :: vs')) ∧
      quorum_clear (i_quorum inst) = Ret q ∧ acs' = acs ++ [accept_inst v q inst] ∧
      out = Some (AcceptReq (i_iid inst) (i_ballot inst) (m_data v)))).
Proof using R.
  intros Hcl. unfold proposer_accept. intros H. apply bind_inv in H as ([c front] & Hf & H).
  apply (accept_front_inv _ _ ps) in Hf as (-> & Hfr & Hno); [|apply R|done].
  assert (set_prepare (p_prepare_instances p) p = p) as Hp by (by destruct p).
  rewrite Hp in H. clear Hp.
  destruct front as [inst|]; 
    [|inv_res; exists vs, ps, acs; split; [done|split; [done|left]]; do 4 (split; [done|]);
      intros inst Hh Hr; by pose proof (Hno inst Hh Hr)].
  destruct (Hfr inst eq_refl) as [Hh Hq]. apply bind_inv in H as ([p1 v] & Ht & H).
  apply take_value_inv in Ht as (vs' & R1 & Hs & Hv).
  destruct v as [v|].
  2: { inv_res. exists vs', ps, acs. split; [done|]. split; [done|]. left.
       destruct Hv as [(? & ? & _)|(? & ? & ->)]; [congruence|].
       destruct vs; [|done]. do 4 (split; [done|]). intros ? ? _. by simplify_eq. }
  destruct ps as [|i0 rest]; [done|]. injection Hh as ->. destruct R1 as [Rv Rp Ra].
  pose proof (poke_ok _ _ 0 (set_value (i_value_ballot inst) (Some v) inst) Rp
                ltac:(simpl; lia)) as Rk.
  destruct (pop_front_ok _ _ Rk) as (c' & Hc & Rc & _). simpl in Hc, Rc.
  rewrite Hc in H. simpl in H. inv_res. simpl in *. inv_res.
  eexists vs', rest, _. split; [|split; [exact Hs|right]].
  - split; simpl; try done. by apply (push_back_inv (p_accept_instances p1)).
  - simplify_eq. exists inst, v, r. split; [done|]. split; [done|]. split; [|done].
    destruct Hv as [(_ & ? & ->)|(? & Hh & ->)]; [by left|right; split; [done|]].
    destruct vs; simplify_eq/=. done.
Qed.

Lemma receive_accept_ack_inv ack now p' out :
  proposer_receive_accept_ack p ack now = Ret (p', out) →
  ∃ ps' acs', proposer_rep p' vs ps' acs' ∧ same_ids p p' ∧
  ((ps' = ps ∧ acs' = acs ∧ out = None) ∨
   (∃ k inst r q, acs !! k = Some inst ∧ i_iid inst = aa_iid ack ∧
      i_ballot inst = aa_ballot ack ∧ aa_value_ballot ack = aa_ballot ack ∧
      quorum_add (i_quorum inst) (aa_acceptor_id ack) = Ret (r, q) ∧ r ≠ 0 ∧
      ps' = ps ∧ out = None ∧
      acs' = (if quorum_reached q
              then filter (λ y, i_iid y ≠ i_iid inst) (<[k := set_quorum q inst]> acs)
              else <[k := set_quorum q inst]> acs)) ∨
   (∃ k inst q, acs !! k = Some inst ∧ i_iid inst = aa_iid ack ∧
      i_ballot inst ≠ aa_ballot ack ∧ quorum_clear (i_quorum inst) = Ret q ∧
      ps' = preempt_inst p q now inst :: ps ∧
      acs' = filter (λ y, i_iid y ≠ i_iid inst) acs ∧
      out = Some (PrepareReq (i_iid inst) (proposer_next_ballot p (i_ballot inst))))).
Proof using R.
  unfold proposer_receive_accept_ack. intros H. inv_res.
  apply (instance_find_inv _ acs) in E; [|apply R].
  destruct r as [i|]; [|inv_res; exists ps, acs; split; [done|]; split; [done|]; by left].
  destruct E as [Hi (inst & Hl & Hiid)]. pose proof (lookup_lt_Some _ _ _ Hl). inv_res.
  apply (instance_at_inv _ acs) in E; [|apply R|lia]. simplify_eq. destruct R as [Rv Rp Ra].
  destruct (Z.eqb_spec (aa_ballot ack) (i_ballot inst)).
  - inv_res. destruct (Z.eqb_spec z 0).
    { inv_res. exists ps, acs. split; [done|]. split; [done|]. by left. }
    pose proof (poke_ok _ _ i (set_quorum q inst) Ra ltac:(lia)) as Rk.
    apply Z.eqb_eq in E.
    destruct (quorum_reached q) eqn:Hq; inv_res.
    + apply (instance_remove_inv _ _ _ _ Rk) in E1.
      eexists ps, _. split; [|split; [done|right; left]]; [by split|].
      exists (Z.to_nat i), inst, z, q. rewrite Hq. repeat split; congruence.
    + eexists ps, _. split; [|split; [done|right; left]]; [by split|].
      exists (Z.to_nat i), inst, z, q. rewrite Hq. repeat split; congruence.
  - inv_res. apply prepare_preempt_inv in E1 as (q & Hq & -> & ->).
    apply (instance_remove_inv _ _ _ _ Ra) in E.
    apply (push_front_inv _ _ ps) in E0; [|done].
    pose proof (poke_ok _ _ 0 (preempt_inst p q now inst) E0 ltac:(simpl; lia)) as Rk.
    eexists _, _. split; [|split; [done|right; right]]; [split; simpl; [done|exact Rk|exact E]|].
    exists (Z.to_nat i), inst, q. repeat split; congruence.
Qed.

Lemma next_timedout_from_inv n cfg c l i t i' o :
  carray_rep c l → 0 ≤ i → i + Z.of_nat n = Z.of_nat (length l) →
  next_timedout_from n cfg c i t = Ret (i', o) →
  i ≤ i' ≤ Z.of_nat (length l) ∧
  ∀ k, o = Some k → i ≤ k < i' ∧ ∃ inst, l !! Z.to_nat k = Some inst ∧
     quorum_reached (i_quorum inst) = false ∧ instance_has_timedout cfg inst t = Ret true.
Proof.
  intros Rc. revert i. induction n as [|n IH]; intros i Hi Hn H; simpl in H.
  { inv_res. split; [lia|done]. }
  inv_res. apply (instance_at_inv _ _ _ _ Rc) in E; [|lia].
  destruct (quorum_reached (i_quorum r)) eqn:Hq.
  { apply IH in H as [? Hk]; [|lia..]. split; [lia|]. intros k Ek.
    destruct (Hk k Ek). split; [lia|done]. }
  inv_res. destruct r0.
  - inv_res. split; [lia|]. intros k [= <-]. split; [lia|eauto].
  - apply IH in H as [? Hk]; [|lia..]. split; [lia|]. intros k Ek.
    destruct (Hk k Ek). split; [lia|done].
Qed.

Lemma timeout_prepare_inv cfg iter p' iter' out :
  0 ≤ ti_pi iter ≤ Z.of_nat (length ps) →
  timeout_iterator_prepare cfg p iter = Ret (p', iter', out) →
  ti_timeout iter' = ti_timeout iter ∧ ti_ai iter' = ti_ai iter ∧
  ti_pi iter ≤ ti_pi iter' ≤ Z.of_nat (length ps) ∧ same_ids p p' ∧
  ((out = None ∧ p' = p) ∨
   (ti_pi iter < ti_pi iter' ∧
    ∃ k inst, ps !! k = Some inst ∧ out = Some (PrepareReq (i_iid inst) (i_ballot inst)) ∧
      quorum_reached (i_quorum inst) = false ∧
      instance_has_timedout cfg inst (ti_timeout iter) = Ret true ∧
      proposer_rep p' vs (<[k := set_created_at (ti_timeout iter) inst]> ps) acs)).
Proof using R.
  intros Hb. unfold timeout_iterator_prepare, next_timedout, carray_count. intros H.
  destruct R as [Rv Rp Ra]. pose proof (rep_count _ _ Rp). inv_res.
  apply (next_timedout_from_inv _ _ _ ps) in E as [Hi Hk]; [|done|lia..].
  destruct o as [k|]; inv_res; simpl; [|do 4 (split; [done || lia|]); by left].
  destruct (Hk k eq_refl) as (Hk1 & inst & Hl & Hq & Ht).
  pose proof (lookup_lt_Some _ _ _ Hl).
  apply (instance_at_inv _ ps) in E; [|done|lia]. simplify_eq.
  do 4 (split; [done || lia|]). right. split; [lia|]. exists (Z.to_nat k), r.
  do 4 (split; [done|]). split; simpl; try done. apply poke_ok; [done|lia].
Qed.

Lemma timeout_accept_inv cfg iter p' iter' out :
  0 ≤ ti_ai iter ≤ Z.of_nat (length acs) →
  timeout_iterator_accept cfg p iter = Ret (p', iter', out) →
  ti_timeout iter' = ti_timeout iter ∧ ti_pi iter' = ti_pi iter ∧
  ti_ai iter ≤ ti_ai iter' ≤ Z.of_nat (length acs) ∧ same_ids p p' ∧
  ((out = None ∧ p' = p) ∨
   (ti_ai iter < ti_ai iter' ∧
    ∃ k inst v, acs !! k = Some inst ∧ i_value inst = Some v ∧
      out = Some (AcceptReq (i_iid inst) (i_ballot inst) (m_data v)) ∧
      quorum_reached (i_quorum inst) = false ∧
      instance_has_timedout cfg inst (ti_timeout iter) = Ret true ∧
      proposer_rep p' vs ps (<[k := set_created_at (ti_timeout iter) inst]> acs))).
Proof using R.
  intros Hb. unfold timeout_iterator_accept, next_timedout, carray_count. intros H.
  destruct R as [Rv Rp Ra]. pose proof (rep_count _ _ Ra). inv_res.
  apply (next_timedout_from_inv _ _ _ acs) in E as [Hi Hk]; [|done|lia..].
  destruct o as [k|]; inv_res; simpl; [|do 4 (split; [done || lia|]); by left].
  destruct (Hk k eq_refl) as (Hk1 & inst & Hl & Hq & Ht).
  pose proof (lookup_lt_Some _ _ _ Hl).
  apply (instance_at_inv _ acs) in E; [|done|lia]. simplify_eq.
  do 4 (split; [done || lia|]). right. split; [lia|]. exists (Z.to_nat k), r, r0.
  do 5 (split; [done|]). split; simpl; try done. apply poke_ok; [done|lia].
Qed.

End cases.

(** ** The invariant of a proposer *)

(** An instance of proposer [id] among [n] acceptors; [next] is the last
instance id handed out. *)
Record inst_ok (n id next : Z) (i : instance) : Prop := {
  io_iid : 0 < i_iid i ≤ next;
  io_closed : i_closed i = 0;
  io_ballot : MAX_N_OF_PROPOSERS ≤ i_ballot i < UINT32_MOD;
  io_owner : i_ballot i mod MAX_N_OF_PROPOSERS = id;
  io_quorum : ∃ S, quorum_rep (i_quorum i) n S;
}.

Record proposer_inv (n : Z) (p : proposer) (vs : list paxos_msg) (ps acs : list instance)
    : Prop := {
  pi_rep : proposer_rep p vs ps acs;
  pi_id : 0 ≤ p_id p < MAX_N_OF_PROPOSERS;
  pi_acceptors : p_acceptors p = n;
  pi_n : 1 ≤ n ≤ INT_MAX;
  pi_next : 0 ≤ p_next_prepare_iid p < UINT32_MOD;
  pi_insts : Forall (inst_ok n (p_id p) (p_next_prepare_iid p)) (ps ++ acs);
  pi_unique : NoDup (i_iid <$> ps ++ acs);
  pi_value : Forall (λ i, i_value i ≠ None) acs;
}.

(** No 32-bit counter of the proposer is about to wrap. *)
Definition no_wrap (p : proposer) (ps acs : list instance) : Prop :=
  p_next_prepare_iid p + 1 < UINT32_MOD ∧
  Forall (λ i, i_ballot i + MAX_N_OF_PROPOSERS < UINT32_MOD) (ps ++ acs).

Lemma next_ballot_first p :
  0 ≤ p_id p < MAX_N_OF_PROPOSERS →
  proposer_next_ballot p 0 = MAX_N_OF_PROPOSERS + p_id p.
Proof.
  intros H. unfold proposer_next_ballot. simpl. apply u32_small.
  unfold is_u32, UINT32_MOD, MAX_N_OF_PROPOSERS in *. lia.
Qed.

Lemma next_ballot_succ p b :
  0 < b → b + MAX_N_OF_PROPOSERS < UINT32_MOD →
  proposer_next_ballot p b = b + MAX_N_OF_PROPOSERS.
Proof.
  intros H Hb. unfold proposer_next_ballot. case_Z; [|lia].
  rewrite u32_small; [lia|]. unfold is_u32, MAX_N_OF_PROPOSERS in *. lia.
Qed.

Lemma fmap_insert_same (l : list instance) k x y :
  l !! k = Some x → i_iid y = i_iid x → i_iid <$> <[k := y]> l = i_iid <$> l.
Proof.
  intros Hk Hy. rewrite list_fmap_insert, list_insert_id; [done|].
  rewrite list_lookup_fmap, Hk. by rewrite Hy.
Qed.

Lemma inst_ok_preempt n id next p q now i S :
  inst_ok n id next i → quorum_rep q n S → i_ballot i + MAX_N_OF_PROPOSERS < UINT32_MOD →
  inst_ok n id next (preempt_inst p q now i).
Proof.
  intros [? ? ? Ho ?] Hq Hb.
  split; simpl; try done; [rewrite next_ballot_succ..|by exists S];
    unfold MAX_N_OF_PROPOSERS in *; try lia.
  rewrite <-Ho. replace (i_ballot i + 10) with (i_ballot i + 1 * 10) by lia.
  by rewrite Z.mod_add by lia.
Qed.

Lemma inst_ok_promise n id next q ack i S :
  inst_ok n id next i → quorum_rep q n S → inst_ok n id next (promise_inst q ack i).
Proof.
  intros [] Hq. unfold promise_inst. case_match; split; simpl; try done; by exists S.
Qed.

Lemma inst_ok_accept n id next v q i S :
  inst_ok n id next i → quorum_rep q n S → inst_ok n id next (accept_inst v q i).
Proof. intros [] Hq. split; simpl; try done. by exists S. Qed.

Lemma inst_ok_quorum n id next q i S :
  inst_ok n id next i → quorum_rep q n S → inst_ok n id next (set_quorum q i).
Proof. intros [] Hq. split; simpl; try done. by exists S. Qed.

Lemma inst_ok_created n id next t i :
  inst_ok n id next i → inst_ok n id next (set_created_at t i).
Proof. intros []. by split. Qed.

Lemma inst_ok_next n id next next' i :
  inst_ok n id next i → next ≤ next' → inst_ok n id next' i.
Proof. intros [] ?. split; try done. lia. Qed.

Lemma promise_inst_iid q ack i : i_iid (promise_inst q ack i) = i_iid i.
Proof. unfold promise_inst. by case_match. Qed.

Lemma promise_inst_ballot q ack i : i_ballot (promise_inst q ack i) = i_ballot i.
Proof. unfold promise_inst. by case_match. Qed.

Lemma promise_inst_quorum q ack i : i_quorum (promise_inst q ack i) = q.
Proof. unfold promise_inst. by case_match. Qed.

Section invariant.
Context (n : Z) (p : proposer) (vs : list paxos_msg) (ps acs : list instance).
Hypothesis I : proposer_inv n p vs ps acs.

Lemma inv_lookup_p k i :
  ps !! k = Some i → inst_ok n (p_id p) (p_next_prepare_iid p) i.
Proof using I.
  intros Hk. pose proof (pi_insts _ _ _ _ _ I) as F. rewrite Forall_app in F.
  destruct F as [F _]. by apply (Forall_lookup_1 _ _ _ _ F Hk).
Qed.

Lemma inv_lookup_a k i :
  acs !! k = Some i → inst_ok n (p_id p) (p_next_prepare_iid p) i.
Proof using I.
  intros Hk. pose proof (pi_insts _ _ _ _ _ I) as F. rewrite Forall_app in F.
  destruct F as [_ F]. by apply (Forall_lookup_1 _ _ _ _ F Hk).
Qed.

(** An in-place change of a prepare instance. *)
Lemma inv_update_p p' vs' k i i' :
  proposer_rep p' vs' (<[k := i']> ps) acs → same_ids p p' → ps !! k = Some i →
  i_iid i' = i_iid i → inst_ok n (p_id p) (p_next_prepare_iid p) i' →
  proposer_inv n p' vs' (<[k := i']> ps) acs.
Proof using I.
  intros R' (Hid & Hacc & Hnx) Hk Hi Hok. destruct I as [? ? ? ? ? F U V].
  split; rewrite ?Hid, ?Hacc, ?Hnx; try done.
  - rewrite Forall_app in *. destruct F. split; [by apply Forall_insert|done].
  - by rewrite fmap_app, (fmap_insert_same _ _ i), <-fmap_app.
Qed.

Lemma inv_update_a p' vs' k i i' :
  proposer_rep p' vs' ps (<[k := i']> acs) → same_ids p p' → acs !! k = Some i →
  i_iid i' = i_iid i → i_value i' = i_value i →
  inst_ok n (p_id p) (p_next_prepare_iid p) i' →
  proposer_inv n p' vs' ps (<[k := i']> acs).
Proof using I.
  intros R' (Hid & Hacc & Hnx) Hk Hi Hv Hok. destruct I as [? ? ? ? ? F U V].
  split; rewrite ?Hid, ?Hacc, ?Hnx; try done.
  - rewrite Forall_app in *. destruct F. split; [done|by apply Forall_insert].
  - by rewrite fmap_app, (fmap_insert_same _ _ i), <-fmap_app.
  - apply Forall_insert; [done|]. rewrite Hv. by eapply (Forall_lookup_1 _ _ _ _ V).
Qed.

Lemma inv_same p' vs' :
  proposer_rep p' vs' ps acs → same_ids p p' → proposer_inv n p' vs' ps acs.
Proof using I.
  intros R' (Hid & Hacc & Hnx). destruct I. split; rewrite ?Hid, ?Hacc, ?Hnx; done.
Qed.

(** Dropping accept instances. *)
Lemma inv_filter_a p' (P : instance → Prop) `{∀ i, Decision (P i)} :
  proposer_rep p' vs ps (filter P acs) → same_ids p p' →
  proposer_inv n p' vs ps (filter P acs).
Proof using I.
  intros R' (Hid & Hacc & Hnx). destruct I as [? ? ? ? ? F U V].
  split; rewrite ?Hid, ?Hacc, ?Hnx; try done.
  - rewrite Forall_app in *. destruct F. split; [done|by apply Forall_filter].
  - eapply sublist_NoDup; [exact U|]. apply sublist_fmap, sublist_app; [done|].
    apply sublist_filter.
  - by apply Forall_filter.
Qed.

End invariant.

Section preservation.
Context (n : Z) (p : proposer) (vs : list paxos_msg) (ps acs : list instance).
Hypothesis I : proposer_inv n p vs ps acs.

Lemma inv_closed : Forall (λ i, i_closed i = 0) ps.
Proof using I.
  apply Forall_lookup. intros k i Hk. by apply (inv_lookup_p _ _ _ _ _ I k i Hk).
Qed.

Lemma inv_prepare now junk p' out :
  p_next_prepare_iid p + 1 < UINT32_MOD →
  proposer_prepare p now junk = Ret (p', out) →
  ∃ inst, proposer_inv n p' vs (ps ++ [inst]) acs ∧
    i_iid inst = p_next_prepare_iid p + 1 ∧ i_value inst = None ∧ i_value_ballot inst = 0 ∧
    i_ballot inst = MAX_N_OF_PROPOSERS + p_id p ∧ quorum_rep (i_quorum inst) n ∅ ∧
    p_id p' = p_id p ∧ p_next_prepare_iid p' = p_next_prepare_iid p + 1 ∧
    out = PrepareReq (i_iid inst) (i_ballot inst).
Proof using I.
  intros Hw Hp. destruct I as [Rp Hid Hacc Hn Hnx F U V].
  destruct (prepare_inv _ _ _ _ Rp _ _ _ _ Hp) as (q & Hq & R' & -> & Hid' & Hacc' & Hnx').
  rewrite Hacc in Hq. destruct (quorum_init_ok n junk Hn) as (q' & Hq' & Rq). same_ret.
  assert (u32 (p_next_prepare_iid p + 1) = p_next_prepare_iid p + 1) as Hu
    by (apply u32_small; unfold is_u32; lia).
  rewrite Hu, next_ballot_first in * by done.
  eexists. split; [split|]; [exact R'|rewrite Hid'; done|by rewrite Hacc'|done|lia| | |done|done].
  - rewrite Hid', Hnx', <-app_assoc. apply Forall_app in F as [F1 F2].
    apply Forall_app; split; [|apply Forall_cons; split].
    + eapply Forall_impl; [exact F1|]. intros i Hi. eapply inst_ok_next; [done|lia].
    + split; simpl; try done; try lia.
      * unfold MAX_N_OF_PROPOSERS, UINT32_MOD in *. lia.
      * unfold MAX_N_OF_PROPOSERS in *. replace (10 + p_id p) with (p_id p + 1 * 10) by lia.
        rewrite Z.mod_add by lia. apply Z.mod_small. lia.
      * eauto.
    + eapply Forall_impl; [exact F2|]. intros i Hi. eapply inst_ok_next; [done|lia].
  - assert (p_next_prepare_iid p + 1 ∉ i_iid <$> ps ++ acs) as Hfresh.
    { intros (i & Hi & Hin)%list_elem_of_fmap. rewrite Forall_forall in F.
      pose proof (io_iid _ _ _ _ (F i Hin)). lia. }
    assert (i_iid <$> ((ps ++ [Instance (p_next_prepare_iid p + 1)
              (MAX_N_OF_PROPOSERS + p_id p) 0 None 0 q' now]) ++ acs) ≡ₚ
            (p_next_prepare_iid p + 1) :: (i_iid <$> ps ++ acs)) as ->.
    { rewrite <-app_assoc, !fmap_app. simpl. by rewrite Permutation_middle. }
    by constructor.
Qed.

Lemma inv_prepare_ack ack now p' out :
  no_wrap p ps acs → proposer_receive_prepare_ack p ack now = Ret (p', out) →
  ∃ vs' ps', proposer_inv n p' vs' ps' acs ∧ same_ids p p' ∧
    (∀ r, out = Some r → ∃ i, i ∈ ps ∧ pr_iid r = i_iid i ∧
       pr_ballot r = i_ballot i + MAX_N_OF_PROPOSERS).
Proof using I.
  intros [_ Hw] Hr. rewrite Forall_app in Hw. destruct Hw as [Hw _].
  destruct (receive_prepare_ack_inv _ _ _ _ (pi_rep _ _ _ _ _ I) _ _ _ _ Hr)
    as (vs' & ps' & R' & Hs & Hc).
  destruct Hc as [(-> & -> & ->)|[(k & i & r & q & Hk & Hi & Hb & Hq & Hr0 & -> & -> & ->)|
                  (k & i & q & Hk & Hi & Hb & Hq & -> & -> & ->)]].
  - exists vs, ps. split; [by eapply inv_same|done].
  - pose proof (inv_lookup_p _ _ _ _ _ I k i Hk) as Hok. destruct (io_quorum _ _ _ _ Hok) as [S HS].
    destruct (quorum_add_inv _ _ _ _ _ _ HS Hq) as [_ [(_ & _ & _ & _ & HS')|(-> & _)]]; [|done].
    eexists _, _. split; [|done]. eapply inv_update_p; eauto using promise_inst_iid, inst_ok_promise.
  - pose proof (inv_lookup_p _ _ _ _ _ I k i Hk) as Hok. destruct (io_quorum _ _ _ _ Hok) as [S HS].
    destruct (quorum_clear_ok _ _ _ HS) as (q' & Hq' & HS' & _). same_ret.
    pose proof (Forall_lookup_1 _ _ _ _ Hw Hk) as Hroom. simpl in Hroom.
    eexists _, _. split; [eapply inv_update_p; eauto using inst_ok_preempt|]. split; [done|].
    intros r [= <-]. exists i. split; [by eapply list_elem_of_lookup_2|]. split; [done|]. simpl.
    pose proof (io_ballot _ _ _ _ Hok). rewrite next_ballot_succ; unfold MAX_N_OF_PROPOSERS in *; lia.
Qed.

Lemma inv_accept p' out :
  proposer_accept p = Ret (p', out) →
  ∃ vs' ps' acs', proposer_inv n p' vs' ps' acs' ∧ same_ids p p' ∧
    (∀ r, out = Some r → ∃ i, i ∈ ps ∧ ar_iid r = i_iid i ∧ ar_ballot r = i_ballot i).
Proof using I.
  intros Ha. destruct (accept_inv _ _ _ _ (pi_rep _ _ _ _ _ I) _ _ inv_closed Ha)
    as (vs' & ps' & acs' & R' & Hs & Hc).
  destruct Hc as [(-> & -> & -> & -> & _)|(i & v & q & -> & Hq & Hv & Hcl & -> & ->)].
  { exists vs, ps, acs. split; [by eapply inv_same|done]. }
  pose proof (inv_lookup_p _ _ _ _ _ I 0%nat i eq_refl) as Hok.
  destruct (io_quorum _ _ _ _ Hok) as [S HS].
  destruct (quorum_clear_ok _ _ _ HS) as (q' & Hq' & HS' & _). same_ret.
  destruct Hs as (Hid & Hacc & Hnx). destruct I as [Rp ? ? ? ? F U V].
  eexists vs', ps', _. split; [split; rewrite ?Hid, ?Hacc, ?Hnx; try done|split; [done|]].
  - rewrite !Forall_app in *. destruct F as [[F1 F2]%Forall_cons F3].
    split; [done|]. split; [done|]. apply Forall_singleton. by eapply inst_ok_accept.
  - eapply NoDup_Permutation_proper; [|exact U].
    rewrite !fmap_app. simpl. rewrite (app_assoc (i_iid <$> ps')). symmetry.
    apply Permutation_cons_append.
  - apply Forall_app. split; [done|]. by apply Forall_singleton.
  - intros r [= <-]. exists i. split; [by left|done].
Qed.

Lemma inv_accept_ack ack now p' out :
  no_wrap p ps acs → proposer_receive_accept_ack p ack now = Ret (p', out) →
  ∃ ps' acs', proposer_inv n p' vs ps' acs' ∧ same_ids p p' ∧
    (∀ r, out = Some r → ∃ i, i ∈ acs ∧ pr_iid r = i_iid i ∧
       pr_ballot r = i_ballot i + MAX_N_OF_PROPOSERS).
Proof using I.
  intros [_ Hw] Hr. rewrite Forall_app in Hw. destruct Hw as [_ Hw].
  destruct (receive_accept_ack_inv _ _ _ _ (pi_rep _ _ _ _ _ I) _ _ _ _ Hr)
    as (ps' & acs' & R' & Hs & Hc).
  destruct Hc as [(-> & -> & ->)|[(k & i & r & q & Hk & Hi & Hb & Hvb & Hq & Hr0 & -> & -> & ->)|
                  (k & i & q & Hk & Hi & Hb & Hq & -> & -> & ->)]].
  - exists ps, acs. split; [by eapply inv_same|done].
  - pose proof (inv_lookup_a _ _ _ _ _ I k i Hk) as Hok. destruct (io_quorum _ _ _ _ Hok) as [S HS].
    destruct (quorum_add_inv _ _ _ _ _ _ HS Hq) as [_ [(_ & _ & _ & _ & HS')|(-> & _)]]; [|done].
    set (p1 := set_accept (carray_poke (p_accept_instances p) (Z.of_nat k) (set_quorum q i)) p).
    assert (proposer_inv n p1 vs ps (<[k := set_quorum q i]> acs)) as I1.
    { eapply inv_update_a; eauto using inst_ok_quorum; [|done].
      destruct (pi_rep _ _ _ _ _ I) as [Rv Rp Ra]. split; try done. simpl.
      pose proof (lookup_lt_Some _ _ _ Hk). rewrite <-(Nat2Z.id k) at 2. apply poke_ok; [done|lia]. }
    destruct (quorum_reached q) eqn:Hrq; eexists ps, _; (split; [|done]).
    + exact (inv_filter_a n p1 _ _ _ I1 p' (λ y, i_iid y ≠ i_iid i) R' Hs).
    + exact (inv_same n p1 _ _ _ I1 p' _ R' Hs).
  - pose proof (inv_lookup_a _ _ _ _ _ I k i Hk) as Hok. destruct (io_quorum _ _ _ _ Hok) as [S HS].
    destruct (quorum_clear_ok _ _ _ HS) as (q' & Hq' & HS' & _). same_ret.
    pose proof (Forall_lookup_1 _ _ _ _ Hw Hk) as Hroom. simpl in Hroom.
    destruct Hs as (Hid & Hacc & Hnx). destruct I as [Rp ? ? ? ? F U V].
    eexists _, _. split; [split; rewrite ?Hid, ?Hacc, ?Hnx; try done|split; [done|]].
    + rewrite !Forall_app in *. destruct F as [F1 F2]. simpl.
      split; [apply Forall_cons; split; [by eapply inst_ok_preempt|done]|by apply Forall_filter].
    + simpl. constructor.
      * intros (j & Hj & Hin)%list_elem_of_fmap. apply elem_of_app in Hin as [Hin|Hin].
        -- rewrite fmap_app in U. apply NoDup_app in U as (_ & U & _).
           apply (U (i_iid i)); [rewrite Hj; by apply list_elem_of_fmap_2|].
           eapply list_elem_of_fmap_2'; [by eapply list_elem_of_lookup_2|done].
        -- apply list_elem_of_filter in Hin as [Hne _]. congruence.
      * eapply sublist_NoDup; [exact U|]. apply sublist_fmap, sublist_app; [done|].
        apply sublist_filter.
    + by apply Forall_filter.
    + intros r [= <-]. exists i. split; [by eapply list_elem_of_lookup_2|]. split; [done|]. simpl.
      pose proof (io_ballot _ _ _ _ Hok). rewrite next_ballot_succ; unfold MAX_N_OF_PROPOSERS in *; lia.
Qed.

End preservation.
