(* ===== verification/ProposerRun.v ===== *)
(** * Runs of a proposer

[pstep] is one call of an operation of proposer.c, with the requests it hands
back; the messages it may be given are those of the predicate [inp].  [pmove]
describes the same step on the lists that the queues hold, and [pstep_move]
shows that every call is such a move.  What a proposer sends is then an
invariant of moves. *)

From S2P Require Import Prelude Carray Quorum Messages Proposer.
#[local] Open Scope Z_scope.

Section steps.
Context (inp : message → Prop).

Definition reply_prepare (o : option prepare_req) : list message :=
  match o with Some r => [MPrepareReq r] | None => [] end.
Definition reply_accept (o : option accept_req) : list message :=
  match o with Some r => [MAcceptReq r] | None => [] end.

Inductive pstep : proposer → list message → proposer → Prop :=
  | ps_propose p value p' :
      inp (MSubmit value) → proposer_propose p value = Ret p' → pstep p [] p'
  | ps_prepare p now junk p' out :
      proposer_prepare p now junk = Ret (p', out) → pstep p [MPrepareReq out] p'
  | ps_prepare_ack p ack now p' out :
      inp (MPrepareAck ack) → proposer_receive_prepare_ack p ack now = Ret (p', out) →
      pstep p (reply_prepare out) p'
  | ps_accept p p' out :
      proposer_accept p = Ret (p', out) → pstep p (reply_accept out) p'
  | ps_accept_ack p ack now p' out :
      inp (MAcceptAck ack) → proposer_receive_accept_ack p ack now = Ret (p', out) →
      pstep p (reply_prepare out) p'
  | ps_timeout_prepare p cfg iter p' iter' out :
      0 ≤ ti_pi iter ≤ carray_count (p_prepare_instances p) →
      timeout_iterator_prepare cfg p iter = Ret (p', iter', out) →
      pstep p (reply_prepare out) p'
  | ps_timeout_accept p cfg iter p' iter' out :
      0 ≤ ti_ai iter ≤ carray_count (p_accept_instances p) →
      timeout_iterator_accept cfg p iter = Ret (p', iter', out) →
      pstep p (reply_accept out) p'.

(** The queues of a proposer as lists. *)
Record pview : Type := PView {
  v_next : Z;
  v_values : list paxos_msg;
  v_prepare : list instance;
  v_accept : list instance;
}.

Definition view (p : proposer) : pview :=
  PView (p_next_prepare_iid p) (contents (p_values p))
    (contents (p_prepare_instances p)) (contents (p_accept_instances p)).

Definition view_inv (n : Z) (p : proposer) (w : pview) : Prop :=
  proposer_inv n p (v_values w) (v_prepare w) (v_accept w) ∧ v_next w = p_next_prepare_iid p.

Definition prepare_of (i : instance) : message := MPrepareReq (PrepareReq (i_iid i) (i_ballot i)).
Definition accept_of (i : instance) (v : paxos_msg) : message :=
  MAcceptReq (AcceptReq (i_iid i) (i_ballot i) (m_data v)).

(** [j] is [i] with its ballot raised and its promises forgotten. *)
Definition preempted (n : Z) (i j : instance) : Prop :=
  i_iid j = i_iid i ∧ i_ballot j = i_ballot i + MAX_N_OF_PROPOSERS ∧
  i_value_ballot j = i_value_ballot i ∧ i_value j = i_value i ∧ quorum_rep (i_quorum j) n ∅.

(** [j] is [i] up to its timer and the acceptors it has counted. *)
Definition same_round (i j : instance) : Prop :=
  i_iid j = i_iid i ∧ i_ballot j = i_ballot i ∧
  i_value_ballot j = i_value_ballot i ∧ i_value j = i_value i.

Inductive pmove (n id : Z) : pview → list message → pview → Prop :=
  | pm_idle w : pmove n id w [] w
  | pm_propose nx vs ps acs value :
      inp (MSubmit value) →
      pmove n id (PView nx vs ps acs) [] (PView nx (vs ++ [wrap_value value]) ps acs)
  | pm_prepare nx vs ps acs i :
      i_iid i = nx + 1 → i_ballot i = MAX_N_OF_PROPOSERS + id → i_value i = None →
      i_value_ballot i = 0 → quorum_rep (i_quorum i) n ∅ →
      pmove n id (PView nx vs ps acs) [prepare_of i] (PView (nx + 1) vs (ps ++ [i]) acs)
  | pm_promise nx vs ps acs k i q S ack :
      ps !! k = Some i → inp (MPrepareAck ack) → i_iid i = pa_iid ack →
      i_ballot i = pa_ballot ack → quorum_rep (i_quorum i) n S → pa_acceptor_id ack ∉ S →
      quorum_add (i_quorum i) (pa_acceptor_id ack) = Ret (1, q) →
      quorum_rep q n ({[pa_acceptor_id ack]} ∪ S) →
      pmove n id (PView nx vs ps acs) []
        (PView nx (promise_values ack i vs) (<[k := promise_inst q ack i]> ps) acs)
  | pm_preempt nx vs ps acs k i j :
      ps !! k = Some i → preempted n i j →
      pmove n id (PView nx vs ps acs) [prepare_of j] (PView nx vs (<[k := j]> ps) acs)
  | pm_accept nx vs vs' ps acs i v q :
      (∀ S, quorum_rep (i_quorum i) n S → paxos_quorum n ≤ Z.of_nat (size S)) →
      ((i_value i = Some v ∧ vs' = vs) ∨ (i_value i = None ∧ vs = v :: vs')) →
      quorum_rep q n ∅ →
      pmove n id (PView nx vs (i :: ps) acs) [accept_of i v]
        (PView nx vs' ps (acs ++ [accept_inst v q i]))
  | pm_count nx vs ps acs k i j ack :
      acs !! k = Some i → inp (MAcceptAck ack) → i_iid i = aa_iid ack →
      i_ballot i = aa_ballot ack → aa_value_ballot ack = aa_ballot ack → same_round i j →
      pmove n id (PView nx vs ps acs) [] (PView nx vs ps (<[k := j]> acs))
  | pm_close nx vs ps acs k i q ack :
      acs !! k = Some i → inp (MAcceptAck ack) → i_iid i = aa_iid ack →
      i_ballot i = aa_ballot ack → aa_value_ballot ack = aa_ballot ack →
      quorum_add (i_quorum i) (aa_acceptor_id ack) = Ret (1, q) → quorum_reached q = true →
      pmove n id (PView nx vs ps acs) []
        (PView nx vs ps (filter (λ y, i_iid y ≠ i_iid i) acs))
  | pm_preempt_accept nx vs ps acs k i j ack :
      acs !! k = Some i → inp (MAcceptAck ack) → i_iid i = aa_iid ack →
      i_ballot i ≠ aa_ballot ack → preempted n i j →
      pmove n id (PView nx vs ps acs) [prepare_of j]
        (PView nx vs (j :: ps) (filter (λ y, i_iid y ≠ i_iid i) acs))
  | pm_resend_prepare nx vs ps acs k i j :
      ps !! k = Some i → same_round i j → i_quorum j = i_quorum i →
      pmove n id (PView nx vs ps acs) [prepare_of i] (PView nx vs (<[k := j]> ps) acs)
  | pm_resend_accept nx vs ps acs k i j v :
      acs !! k = Some i → i_value i = Some v → same_round i j →
      pmove n id (PView nx vs ps acs) [accept_of i v] (PView nx vs ps (<[k := j]> acs)).

Lemma view_rep p vs ps acs :
  proposer_rep p vs ps acs → view p = PView (p_next_prepare_iid p) vs ps acs.
Proof. intros [Rv Rp Ra]. unfold view. by rewrite (rep_contents _ _ Rv), (rep_contents _ _ Rp), (rep_contents _ _ Ra). Qed.

Lemma view_inv_view n p vs ps acs : proposer_inv n p vs ps acs → view_inv n p (view p).
Proof. intros I. rewrite (view_rep p vs ps acs); [by split|apply I]. Qed.

Lemma rep_unique p vs ps acs vs' ps' acs' :
  proposer_rep p vs ps acs → proposer_rep p vs' ps' acs' → vs' = vs ∧ ps' = ps ∧ acs' = acs.
Proof. intros R R'. apply view_rep in R, R'. rewrite R in R'. by simplify_eq. Qed.

Section moves.
Context (n : Z) (p : proposer) (vs : list paxos_msg) (ps acs : list instance).
Hypothesis I : proposer_inv n p vs ps acs.
Hypothesis W : no_wrap p ps acs.

Definition moves (out : list message) (p' : proposer) : Prop :=
  ∃ vs' ps' acs', proposer_inv n p' vs' ps' acs' ∧ p_id p' = p_id p ∧
    pmove n (p_id p) (PView (p_next_prepare_iid p) vs ps acs) out
      (PView (p_next_prepare_iid p') vs' ps' acs').

Lemma moves_intro out p' vs' ps' acs' vs1 ps1 acs1 :
  proposer_inv n p' vs1 ps1 acs1 → p_id p' = p_id p → proposer_rep p' vs' ps' acs' →
  pmove n (p_id p) (PView (p_next_prepare_iid p) vs ps acs) out
    (PView (p_next_prepare_iid p') vs' ps' acs') → moves out p'.
Proof.
  intros I1 Hid R' Hm. destruct (rep_unique _ _ _ _ _ _ _ (pi_rep _ _ _ _ _ I1) R') as (-> & -> & ->).
  by exists vs1, ps1, acs1.
Qed.

Lemma preempt_inst_preempted q now i :
  inst_ok n (p_id p) (p_next_prepare_iid p) i → i_ballot i + MAX_N_OF_PROPOSERS < UINT32_MOD →
  quorum_clear (i_quorum i) = Ret q → preempted n i (preempt_inst p q now i).
Proof using Type.
  intros Hok Hr Hq. destruct (io_quorum _ _ _ _ Hok) as [S HS].
  destruct (quorum_clear_ok _ _ _ HS) as (q' & Hq' & HS' & _). same_ret.
  split; [done|]. split; [|done]. simpl. pose proof (io_ballot _ _ _ _ Hok).
  apply next_ballot_succ; [unfold MAX_N_OF_PROPOSERS in *; lia|done].
Qed.

Lemma prepare_ack_moves ack now p' out :
  inp (MPrepareAck ack) → proposer_receive_prepare_ack p ack now = Ret (p', out) →
  moves (reply_prepare out) p'.
Proof using I W.
  intros Hin Hr. destruct (inv_prepare_ack n p vs ps acs I ack now p' out W Hr)
    as (vs1 & ps1 & I1 & (Hid & Hacc & Hnx) & _).
  destruct (receive_prepare_ack_inv _ _ _ _ (pi_rep _ _ _ _ _ I) _ _ _ _ Hr)
    as (vs' & ps' & R' & _ & Hc).
  apply (moves_intro _ _ _ _ _ _ _ _ I1 Hid R'). rewrite Hnx.
  destruct Hc as [(-> & -> & ->)|[(k & i & r & q & Hk & Hi & Hb & Hq & Hr0 & -> & -> & ->)|
                  (k & i & q & Hk & Hi & Hb & Hq & -> & -> & ->)]]; simpl; [constructor| |].
  - pose proof (inv_lookup_p _ _ _ _ _ I k i Hk) as Hok. destruct (io_quorum _ _ _ _ Hok) as [S HS].
    destruct (quorum_add_inv _ _ _ _ _ _ HS Hq) as [_ [(-> & ? & _ & _ & HS')|(-> & _)]]; [|done].
    by eapply pm_promise.
  - destruct W as [_ Hw]. rewrite Forall_app in Hw. destruct Hw as [Hw _].
    pose proof (Forall_lookup_1 _ _ _ _ Hw Hk) as Hroom. simpl in Hroom.
    pose proof (preempt_inst_preempted q now i (inv_lookup_p _ _ _ _ _ I k i Hk) Hroom Hq) as Hp.
    by apply (pm_preempt n (p_id p) _ _ _ _ _ _ _ Hk Hp).
Qed.

Lemma accept_moves p' out : proposer_accept p = Ret (p', out) → moves (reply_accept out) p'.
Proof using I W.
  intros Ha. destruct (inv_accept n p vs ps acs I p' out Ha)
    as (vs1 & ps1 & acs1 & I1 & (Hid & Hacc & Hnx) & _).
  pose proof (inv_closed _ _ _ _ _ I) as Hcl.
  destruct (accept_inv _ _ _ _ (pi_rep _ _ _ _ _ I) _ _ Hcl Ha)
    as (vs' & ps' & acs' & R' & _ & Hc).
  apply (moves_intro _ _ _ _ _ _ _ _ I1 Hid R'). rewrite Hnx.
  destruct Hc as [(-> & -> & -> & -> & _)|(i & v & q & E & Hq & Hv & Hqc & -> & ->)]; simpl; [constructor|].
  rewrite E. apply pm_accept; [|done|].
  - intros S HS. by apply (quorum_reached_iff _ _ _ HS).
  - pose proof (inv_lookup_p _ _ _ _ _ I 0%nat i ltac:(by rewrite E)) as Hok.
    destruct (io_quorum _ _ _ _ Hok) as [S HS].
    destruct (quorum_clear_ok _ _ _ HS) as (q' & Hq' & HS' & _). by same_ret.
Qed.

Lemma accept_ack_moves ack now p' out :
  inp (MAcceptAck ack) → proposer_receive_accept_ack p ack now = Ret (p', out) →
  moves (reply_prepare out) p'.
Proof using I W.
  intros Hin Hr. destruct (inv_accept_ack n p vs ps acs I ack now p' out W Hr)
    as (ps1 & acs1 & I1 & (Hid & Hacc & Hnx) & _).
  destruct (receive_accept_ack_inv _ _ _ _ (pi_rep _ _ _ _ _ I) _ _ _ _ Hr)
    as (ps' & acs' & R' & _ & Hc).
  apply (moves_intro _ _ _ _ _ _ _ _ I1 Hid R'). rewrite Hnx.
  destruct Hc as [(-> & -> & ->)|[(k & i & r & q & Hk & Hi & Hb & Hvb & Hq & Hr0 & -> & -> & ->)|
                  (k & i & q & Hk & Hi & Hb & Hq & -> & -> & ->)]]; simpl; [constructor| |].
  - pose proof (inv_lookup_a _ _ _ _ _ I k i Hk) as Hok. destruct (io_quorum _ _ _ _ Hok) as [S HS].
    destruct (quorum_add_inv _ _ _ _ _ _ HS Hq) as [_ [(-> & _)|(-> & _)]]; [|done].
    destruct (quorum_reached q) eqn:Er; [|by eapply pm_count].
    erewrite filter_insert_out; [by eapply pm_close|done|simpl; tauto..].
  - destruct W as [_ Hw]. rewrite Forall_app in Hw. destruct Hw as [_ Hw].
    pose proof (Forall_lookup_1 _ _ _ _ Hw Hk) as Hroom. simpl in Hroom.
    pose proof (preempt_inst_preempted q now i (inv_lookup_a _ _ _ _ _ I k i Hk) Hroom Hq) as Hp.
    by apply (pm_preempt_accept n (p_id p) _ _ _ _ _ _ _ ack Hk Hin Hi Hb Hp).
Qed.

Lemma timeout_prepare_moves cfg iter p' iter' out :
  0 ≤ ti_pi iter ≤ carray_count (p_prepare_instances p) →
  timeout_iterator_prepare cfg p iter = Ret (p', iter', out) → moves (reply_prepare out) p'.
Proof using I W.
  intros Hb Ht. destruct (pi_rep _ _ _ _ _ I) as [Rv Rp Ra].
  unfold carray_count in Hb. rewrite (rep_count _ _ Rp) in Hb.
  apply (timeout_prepare_inv p vs ps acs (pi_rep _ _ _ _ _ I)) in Ht
    as (_ & _ & _ & Hs & Hc); [|done].
  destruct Hc as [(-> & ->)|(_ & k & i & Hk & -> & _ & _ & R')].
  { exists vs, ps, acs. split; [done|]. split; [done|]. constructor. }
  pose proof (inst_ok_created _ _ _ (ti_timeout iter) i (inv_lookup_p _ _ _ _ _ I k i Hk)) as Hok.
  pose proof (inv_update_p n p vs ps acs I p' vs k i _ R' Hs Hk eq_refl Hok) as I1.
  destruct Hs as (Hid & Hacc & Hnx). apply (moves_intro _ _ _ _ _ _ _ _ I1 Hid R').
  rewrite Hnx. by eapply pm_resend_prepare.
Qed.

Lemma timeout_accept_moves cfg iter p' iter' out :
  0 ≤ ti_ai iter ≤ carray_count (p_accept_instances p) →
  timeout_iterator_accept cfg p iter = Ret (p', iter', out) → moves (reply_accept out) p'.
Proof using I W.
  intros Hb Ht. destruct (pi_rep _ _ _ _ _ I) as [Rv Rp Ra].
  unfold carray_count in Hb. rewrite (rep_count _ _ Ra) in Hb.
  apply (timeout_accept_inv p vs ps acs (pi_rep _ _ _ _ _ I)) in Ht
    as (_ & _ & _ & Hs & Hc); [|done].
  destruct Hc as [(-> & ->)|(_ & k & i & v & Hk & Hv & -> & _ & _ & R')].
  { exists vs, ps, acs. split; [done|]. split; [done|]. constructor. }
  pose proof (inst_ok_created _ _ _ (ti_timeout iter) i (inv_lookup_a _ _ _ _ _ I k i Hk)) as Hok.
  pose proof (inv_update_a n p vs ps acs I p' vs k i _ R' Hs Hk eq_refl eq_refl Hok) as I1.
  destruct Hs as (Hid & Hacc & Hnx). apply (moves_intro _ _ _ _ _ _ _ _ I1 Hid R').
  rewrite Hnx. by eapply pm_resend_accept.
Qed.

End moves.

Lemma pstep_move n p vs ps acs out p' :
  proposer_inv n p vs ps acs → no_wrap p ps acs → pstep p out p' → moves n p vs ps acs out p'.
Proof.
  intros I W Hs. destruct Hs as [p value p' Hin E|p now junk p' out E|p ack now p' out Hin E|p p' out E
    |p ack now p' out Hin E|p cfg iter p' iter' out Hb E|p cfg iter p' iter' out Hb E].
  - destruct (propose_inv _ _ _ _ (pi_rep _ _ _ _ _ I) _ _ E) as [R' Hs].
    pose proof (inv_same n p vs ps acs I p' _ R' Hs) as I1. destruct Hs as (Hid & _ & Hnx).
    eapply moves_intro; [exact I1|exact Hid|exact R'|]. rewrite Hnx. by constructor.
  - destruct W as [Hw _]. destruct (inv_prepare n p vs ps acs I now junk p' out Hw E)
      as (i & I1 & Hi & Hv & Hvb & Hb & Hq & Hid & Hnx & ->).
    exists vs, (ps ++ [i]), acs. split; [done|]. split; [done|]. rewrite Hnx. by apply pm_prepare.
  - by apply (prepare_ack_moves _ _ _ _ _ I W ack now).
  - by apply accept_moves.
  - by apply (accept_ack_moves _ _ _ _ _ I W ack now).
  - by eapply timeout_prepare_moves.
  - by eapply timeout_accept_moves.
Qed.

End steps.

Lemma proposer_new_inv id n p :
  1 ≤ n ≤ INT_MAX → 0 ≤ id < MAX_N_OF_PROPOSERS → proposer_new id n = Ret p →
  proposer_inv n p [] [] [] ∧ p_id p = id ∧ p_next_prepare_iid p = 0.
Proof.
  intros Hn Hid H. unfold proposer_new in H.
  assert (0 < 128 ≤ INT_MAX) as H128 by (unfold INT_MAX; lia).
  destruct (carray_new_ret (A:=paxos_msg) 128 ltac:(lia)) as [cv Ev].
  destruct (carray_new_ret (A:=instance) 128 ltac:(lia)) as [ci Ei].
  rewrite Ev, Ei in H. simpl in H. simplify_eq.
  apply rep_new in Ev as (? & _), Ei as (? & _); [|done..].
  split; [|done]. split; simpl; done || constructor.
Qed.

(** ** What a proposer has asked the acceptors to accept *)

(** [R iid b v]: the proposer has requested [v] at ballot [b] of [iid]. *)
Record sent_ok (R : Z → Z → bytes → Prop) (w : pview) : Prop := {
  so_prep : ∀ i b v, i ∈ v_prepare w → R (i_iid i) b v → b < i_ballot i;
  so_acc : ∀ i b v, i ∈ v_accept w → R (i_iid i) b v →
    b < i_ballot i ∨ (b = i_ballot i ∧ ∃ m, i_value i = Some m ∧ m_data m = v);
  so_sent : ∀ i m, i ∈ v_accept w → i_value i = Some m →
    R (i_iid i) (i_ballot i) (m_data m);
  so_iid : ∀ iid b v, R iid b v → iid ≤ v_next w;
  so_fun : ∀ iid b v v', R iid b v → R iid b v' → v = v';
}.

Definition requested (out : list message) (iid b : Z) (v : bytes) : Prop :=
  MAcceptReq (AcceptReq iid b v) ∈ out.

Definition more (R : Z → Z → bytes → Prop) (out : list message) (iid b : Z) (v : bytes) : Prop :=
  R iid b v ∨ requested out iid b v.

Lemma sent_ok_iff R R' w :
  (∀ iid b v, R iid b v ↔ R' iid b v) → sent_ok R w → sent_ok R' w.
Proof.
  intros E [H1 H2 H3 H4 H5]. split.
  - intros i b v Hi Hr%E. eauto.
  - intros i b v Hi Hr%E. eauto.
  - intros i m Hi Hm. apply E. eauto.
  - intros iid b v Hr%E. eauto.
  - intros iid b v v' Hr%E Hr'%E. eauto.
Qed.

Lemma more_none R out iid b v :
  (∀ r, MAcceptReq r ∈ out → R (ar_iid r) (ar_ballot r) (ar_value r)) →
  R iid b v ↔ more R out iid b v.
Proof.
  intros H. unfold more, requested. split; [by left|]. intros [?|Hr]; [done|].
  by apply (H (AcceptReq iid b v)).
Qed.

(** A move of the queues that raises ballots and drops instances only. *)
Lemma sent_ok_move R w w' :
  sent_ok R w → v_next w ≤ v_next w' →
  (∀ j, j ∈ v_prepare w' →
     (∃ i, i ∈ v_prepare w ∧ i_iid j = i_iid i ∧ i_ballot i ≤ i_ballot j) ∨
     (∃ i, i ∈ v_accept w ∧ i_iid j = i_iid i ∧ i_ballot i < i_ballot j) ∨
     v_next w < i_iid j) →
  (∀ j, j ∈ v_accept w' → ∃ i, i ∈ v_accept w ∧ same_round i j) →
  sent_ok R w'.
Proof.
  intros [H1 H2 H3 H4 H5] Hn Hp Ha. split; [| | | |exact H5].
  - intros j b v Hj Hr. destruct (Hp j Hj) as [(i & Hi & E & Hb)|[(i & Hi & E & Hb)|Hx]].
    + rewrite E in Hr. pose proof (H1 i b v Hi Hr). lia.
    + rewrite E in Hr. destruct (H2 i b v Hi Hr) as [?|[-> _]]; lia.
    + pose proof (H4 _ _ _ Hr). lia.
  - intros j b v Hj Hr. destruct (Ha j Hj) as (i & Hi & E1 & E2 & _ & E3).
    rewrite E1 in Hr. rewrite E2, E3. eauto.
  - intros j m Hj Hm. destruct (Ha j Hj) as (i & Hi & E1 & E2 & _ & E3).
    rewrite E1, E2. rewrite E3 in Hm. eauto.
  - intros iid b v Hr. pose proof (H4 _ _ _ Hr). lia.
Qed.

Lemma same_round_refl i : same_round i i.
Proof. by repeat split. Qed.

(** Moving a prepared instance to the accept queue, with the request for it. *)
Lemma sent_ok_accept R nx vs vs' ps acs i v q :
  NoDup (i_iid <$> (i :: ps) ++ acs) → i_iid i ≤ nx →
  sent_ok R (PView nx vs (i :: ps) acs) →
  sent_ok (more R [accept_of i v]) (PView nx vs' ps (acs ++ [accept_inst v q i])).
Proof.
  intros U Hle [H1 H2 H3 H4 H5]. simpl in *. apply NoDup_cons in U as [Ui U].
  assert (∀ j, j ∈ ps ++ acs → i_iid j ≠ i_iid i) as Hne.
  { intros j Hj E. apply Ui. rewrite <-E. by apply list_elem_of_fmap_2. }
  assert (∀ iid b w, requested [accept_of i v] iid b w →
    iid = i_iid i ∧ b = i_ballot i ∧ w = m_data v) as Hreq.
  { intros iid b w Hr. apply list_elem_of_singleton in Hr. injection Hr as -> -> ->. done. }
  split; simpl.
  - intros j b w Hj [Hr|[E _]%Hreq]; [eapply H1; [by right|done]|].
    by destruct (Hne j); [apply elem_of_app; left|].
  - intros j b w [Hj| ->%list_elem_of_singleton]%elem_of_app [Hr|Hr]; [eauto| | |].
    + apply Hreq in Hr as [E _]. by destruct (Hne j); [apply elem_of_app; right|].
    + left. eapply (H1 i); [by left|done].
    + apply Hreq in Hr as (_ & -> & ->). right. simpl. eauto.
  - intros j m [Hj| ->%list_elem_of_singleton]%elem_of_app Hm; [left; eauto|right].
    simpl in *. simplify_eq. by apply list_elem_of_singleton.
  - intros iid b w [Hr|(-> & _)%Hreq]; [by eauto|done].
  - intros iid b w w' [Hr|(-> & -> & ->)%Hreq] [Hr'|Hr']; [eauto| | |].
    + apply Hreq in Hr' as (-> & -> & ->). pose proof (H1 i _ _ ltac:(by left) Hr). lia.
    + pose proof (H1 i _ _ ltac:(by left) Hr'). lia.
    + by apply Hreq in Hr' as (_ & _ & ->).
Qed.

Section sent.
Context (inp : message → Prop) (n id : Z).

Lemma pmove_sent R w out w' :
  NoDup (i_iid <$> v_prepare w ++ v_accept w) →
  (∀ i, i ∈ v_prepare w → i_iid i ≤ v_next w) →
  sent_ok R w → pmove inp n id w out w' → sent_ok (more R out) w'.
Proof.
  intros U Hle HS Hm.
  destruct Hm as [w|nx vs ps acs value Hin|nx vs ps acs i Hi Hb Hv Hvb Hq
    |nx vs ps acs k i q S ack Hk Hin Hi Hb HSq Hnew Hadd HSq'|nx vs ps acs k i j Hk Hp
    |nx vs vs' ps acs i v q Hmaj Hv Hq|nx vs ps acs k i j ack Hk Hin Hi Hb Hvb Hj
    |nx vs ps acs k i q ack Hk Hin Hi Hb Hvb Hq Hrd|nx vs ps acs k i j ack Hk Hin Hi Hb Hp
    |nx vs ps acs k i j Hk Hj Hjq|nx vs ps acs k i j v Hk Hv Hj].
  6: { apply (sent_ok_accept R nx vs); [done| |done]. apply Hle. by left. }
  all: eapply sent_ok_iff; [intros; apply more_none; intros r Hr|].
  all: try (by apply not_elem_of_nil in Hr); try (by apply list_elem_of_singleton in Hr).
  all: try (apply (sent_ok_move R _ _ HS); simpl; [lia| |]).
  all: try (intros y Hy; exists y; split; [exact Hy|apply same_round_refl]).
  all: try (intros y Hy; left; exists y; split; [exact Hy|split; [done|lia]]).
  - intros y [Hy| ->%list_elem_of_singleton]%elem_of_app; [left; eauto with lia|].
    right; right. lia.
  - intros y [->|Hy]%elem_of_list_insert_inv; left; [|eauto with lia]. exists i.
    split; [by eapply list_elem_of_lookup_2|]. rewrite promise_inst_iid, promise_inst_ballot.
    split; [done|lia].
  - intros y [->|Hy]%elem_of_list_insert_inv; left; [|eauto with lia]. exists i.
    destruct Hp as (E & Eb & _). split; [by eapply list_elem_of_lookup_2|].
    unfold MAX_N_OF_PROPOSERS in *. split; [done|lia].
  - intros y [->|Hy]%elem_of_list_insert_inv; [|exists y; by split; [|apply same_round_refl]].
    exists i. split; [by eapply list_elem_of_lookup_2|done].
  - intros y [_ Hy]%list_elem_of_filter. exists y. by split; [|apply same_round_refl].
  - intros y [->|Hy]%elem_of_cons; [right; left|left; eauto with lia]. exists i.
    destruct Hp as (E & Eb & _). split; [by eapply list_elem_of_lookup_2|].
    unfold MAX_N_OF_PROPOSERS in *. split; [done|lia].
  - intros y [_ Hy]%list_elem_of_filter. exists y. by split; [|apply same_round_refl].
  - intros y [->|Hy]%elem_of_list_insert_inv; left; [|eauto with lia]. exists i.
    destruct Hj as (E & Eb & _). split; [by eapply list_elem_of_lookup_2|]. split; [done|lia].
  - apply list_elem_of_singleton in Hr. injection Hr as ->. simpl.
    apply HS; [by eapply list_elem_of_lookup_2|done].
  - intros y [->|Hy]%elem_of_list_insert_inv; [|exists y; by split; [|apply same_round_refl]].
    exists i. split; [by eapply list_elem_of_lookup_2|done].
Qed.

End sent.

(** ** Whole runs *)

(** [prun inp p0 k out p]: [k] operations take [p0] to [p] and send [out]. *)
Inductive prun (inp : message → Prop) (p0 : proposer) : nat → list message → proposer → Prop :=
  | prun_nil : prun inp p0 0 [] p0
  | prun_step k out p1 out' p2 :
      prun inp p0 k out p1 → pstep inp p1 out' p2 → prun inp p0 (S k) (out' ++ out) p2.

Definition bounded (k : Z) (w : pview) : Prop :=
  v_next w ≤ k ∧ Forall (λ i, i_ballot i < MAX_N_OF_PROPOSERS * (k + 2)) (v_prepare w ++ v_accept w).

(** A request this proposer may send: its ballots are those congruent to its id. *)
Definition owned (id : Z) (m : message) : Prop :=
  match m with
  | MPrepareReq r =>
      0 < pr_iid r < UINT32_MOD ∧ MAX_N_OF_PROPOSERS ≤ pr_ballot r < UINT32_MOD ∧
      pr_ballot r mod MAX_N_OF_PROPOSERS = id
  | MAcceptReq r =>
      0 < ar_iid r < UINT32_MOD ∧ MAX_N_OF_PROPOSERS ≤ ar_ballot r < UINT32_MOD ∧
      ar_ballot r mod MAX_N_OF_PROPOSERS = id
  | _ => False
  end.

Lemma pmove_bounded inp n id w out w' k :
  0 ≤ id < MAX_N_OF_PROPOSERS → 0 ≤ k → bounded k w → pmove inp n id w out w' → bounded (k + 1) w'.
Proof.
  intros Hid Hk0 [Hn HF] Hm. unfold bounded in *.
  assert (∀ i, i ∈ v_prepare w ++ v_accept w → i_ballot i < MAX_N_OF_PROPOSERS * (k + 2)) as HF'
    by (by apply Forall_forall).
  unfold MAX_N_OF_PROPOSERS in *.
  assert (∀ i, i ∈ v_prepare w → i_ballot i < 10 * (k + 2)) as Hp
    by (intros; apply HF', elem_of_app; by left).
  assert (∀ i, i ∈ v_accept w → i_ballot i < 10 * (k + 2)) as Ha
    by (intros; apply HF', elem_of_app; by right).
  clear HF HF'. split; [destruct Hm; simpl in *; lia|]. apply Forall_forall. intros x Hx.
  destruct Hm as [w|nx vs ps acs value Hin|nx vs ps acs i Hi Hb Hv Hvb Hq
    |nx vs ps acs k' i q S ack Hk Hin Hi Hb HSq Hnew Hadd HSq'|nx vs ps acs k' i j Hk Hp'
    |nx vs vs' ps acs i v q Hmaj Hv Hq|nx vs ps acs k' i j ack Hk Hin Hi Hb Hvb Hj
    |nx vs ps acs k' i q ack Hk Hin Hi Hb Hvb Hq Hrd|nx vs ps acs k' i j ack Hk Hin Hi Hb Hp'
    |nx vs ps acs k' i j Hk Hj Hjq|nx vs ps acs k' i j v Hk Hv Hj]; simpl in *;
    try (pose proof (list_elem_of_lookup_2 _ _ _ Hk) as Hin');
    unfold preempted, same_round, MAX_N_OF_PROPOSERS in *;
    repeat match goal with
    | H : _ ∈ _ ++ _ |- _ => apply elem_of_app in H as [H|H]
    | H : _ ∈ [_] |- _ => apply list_elem_of_singleton in H as ->
    | H : _ ∈ <[_ := _]> _ |- _ => apply elem_of_list_insert_inv in H as [->|H]
    | H : _ ∈ _ :: _ |- _ => apply elem_of_cons in H as [->|H]
    | H : _ ∈ filter _ _ |- _ => apply list_elem_of_filter in H as [_ H]
    end; rewrite ?promise_inst_ballot; simpl;
    try (pose proof (Hp _ Hx)); try (pose proof (Ha _ Hx));
    try (pose proof (Hp _ Hin')); try (pose proof (Ha _ Hin')); try lia.
  - pose proof (Hp x ltac:(by right)). lia.
  - pose proof (Hp i ltac:(by left)). lia.
Qed.

(** Every request is about an instance in one of the queues, before or after. *)
Lemma pmove_out inp n id w out w' m :
  pmove inp n id w out w' → m ∈ out →
  ∃ i, (i ∈ v_prepare w ++ v_accept w ∨ i ∈ v_prepare w' ++ v_accept w') ∧
       (m = prepare_of i ∨ ∃ v, m = accept_of i v).
Proof.
  intros Hm Hin. destruct Hm as [| |nx vs ps acs i| |nx vs ps acs k i j Hk|nx vs vs' ps acs i v q
    | | |nx vs ps acs k i j ack Hk|nx vs ps acs k i j Hk|nx vs ps acs k i j v Hk];
    try (by apply not_elem_of_nil in Hin); apply list_elem_of_singleton in Hin as ->; simpl.
  - exists i. split; [|by left]. right. apply elem_of_app. left. apply elem_of_app. right. by left.
  - exists j. split; [|by left]. right. apply elem_of_app. left.
    apply (list_elem_of_lookup_2 _ k), list_lookup_insert_eq. by eapply lookup_lt_Some.
  - exists i. split; [left; by left|right; eauto].
  - exists j. split; [right; by left|by left].
  - exists i. split; [|by left]. left. apply elem_of_app. left. by eapply list_elem_of_lookup_2.
  - exists i. split; [|right; eauto]. left. apply elem_of_app. right. by eapply list_elem_of_lookup_2.
Qed.

Lemma pmove_owned inp n p vs ps acs p' vs' ps' acs' out :
  proposer_inv n p vs ps acs → proposer_inv n p' vs' ps' acs' → p_id p' = p_id p →
  pmove inp n (p_id p) (PView (p_next_prepare_iid p) vs ps acs) out
    (PView (p_next_prepare_iid p') vs' ps' acs') → Forall (owned (p_id p)) out.
Proof.
  intros I I' Hid Hm. apply Forall_forall. intros m Hin.
  destruct (pmove_out _ _ _ _ _ _ _ Hm Hin) as (i & Hi & Hmi). simpl in Hi.
  assert (∃ nx, nx < UINT32_MOD ∧ inst_ok n (p_id p) nx i) as (nx & Hnx & [Hiid ? ? ? ?]).
  { destruct I as [_ _ _ _ ? F _ _], I' as [_ _ _ _ ? F' _ _].
    rewrite Forall_forall in F. rewrite Hid, Forall_forall in F'.
    destruct Hi as [Hi|Hi]; [exists (p_next_prepare_iid p)|exists (p_next_prepare_iid p')];
      (split; [lia|auto]). }
  destruct Hmi as [->|[v ->]]; simpl; (split; [lia|done]).
Qed.

Section run.
Context (inp : message → Prop) (n id : Z) (p0 : proposer).
Hypothesis Hn : 1 ≤ n ≤ INT_MAX.
Hypothesis Hid : 0 ≤ id < MAX_N_OF_PROPOSERS.
Hypothesis Hnew : proposer_new id n = Ret p0.

Definition pview_of (p : proposer) vs ps acs : pview := PView (p_next_prepare_iid p) vs ps acs.

Lemma bounded_no_wrap k p vs ps acs :
  k < 2 ^ 28 → bounded k (pview_of p vs ps acs) → no_wrap p ps acs.
Proof using Type.
  intros Hk [Hb HF]. simpl in *. unfold no_wrap, UINT32_MOD, MAX_N_OF_PROPOSERS in *.
  split; [lia|]. eapply Forall_impl; [exact HF|]. simpl. lia.
Qed.

Lemma prun_inv k out p :
  Z.of_nat k < 2 ^ 28 → prun inp p0 k out p →
  ∃ vs ps acs, proposer_inv n p vs ps acs ∧ p_id p = id ∧
    bounded (Z.of_nat k) (pview_of p vs ps acs) ∧
    sent_ok (requested out) (pview_of p vs ps acs) ∧ Forall (owned id) out.
Proof using Hn Hid Hnew.
  intros Hk Hr. induction Hr as [|k out p1 out' p2 Hr IH Hs].
  { destruct (proposer_new_inv id n p0 Hn Hid Hnew) as (I & ? & Hnx).
    exists [], [], []. split; [done|]. split; [done|]. unfold pview_of, bounded. rewrite Hnx. simpl.
    split; [by split|]. split; [|done]. unfold requested.
    split; simpl; intros; by match goal with H : _ ∈ [] |- _ => apply not_elem_of_nil in H end. }
  destruct IH as (vs & ps & acs & I & Hpid & B & HS & HF); [lia|].
  destruct (pstep_move inp n p1 vs ps acs out' p2 I) as (vs' & ps' & acs' & I' & Hpid' & Hm);
    [by eapply (bounded_no_wrap (Z.of_nat k)); [lia|]|done|].
  exists vs', ps', acs'. split; [done|]. split; [congruence|]. split; [|split].
  - rewrite Nat2Z.inj_succ. eapply pmove_bounded; [|lia|exact B|exact Hm]. by rewrite Hpid.
  - eapply sent_ok_iff; [|eapply pmove_sent; [| |exact HS|exact Hm]]; simpl.
    + intros iid b v. unfold more, requested. rewrite elem_of_app. tauto.
    + apply I.
    + intros i Hi. destruct I as [_ _ _ _ _ F _ _]. rewrite Forall_forall in F.
      apply (F i). apply elem_of_app. by left.
  - apply Forall_app. split; [|done]. rewrite <-Hpid. by eapply pmove_owned.
Qed.

End run.

(** ** Values are not lost *)

(** The values a proposer is responsible for: queued ones and those of its
instances. *)
Definition held (w : pview) : list paxos_msg :=
  v_values w ++ omap i_value (v_prepare w ++ v_accept w).

Lemma filter_unique (l : list instance) k i :
  NoDup (i_iid <$> l) → l !! k = Some i →
  l ≡ₚ i :: filter (λ y, i_iid y ≠ i_iid i) l.
Proof. apply filter_key. Qed.

Lemma omap_insert_same (l : list instance) k i j :
  l !! k = Some i → i_value j = i_value i → omap i_value (<[k := j]> l) = omap i_value l.
Proof.
  revert k. induction l as [|x l IH]; intros [|k] Hk Hv; simplify_eq/=; [by rewrite Hv|].
  by rewrite (IH k).
Qed.

Lemma omap_insert_split (l : list instance) k i j :
  l !! k = Some i →
  ∃ rest, omap i_value l ≡ₚ option_list (i_value i) ++ rest ∧
          omap i_value (<[k := j]> l) ≡ₚ option_list (i_value j) ++ rest.
Proof.
  revert k. induction l as [|x l IH]; intros [|k] Hk; simplify_eq/=.
  - exists (omap i_value l). destruct (i_value i), (i_value j); by split.
  - destruct (IH k Hk) as (rest & E1 & E2). exists (option_list (i_value x) ++ rest).
    destruct (i_value x); simpl; [|by split].
    split; rewrite ?E1, ?E2; by rewrite Permutation_middle.
Qed.

Lemma promise_held q ack i vs :
  (∃ extra, option_list (i_value (promise_inst q ack i)) ++ promise_values ack i vs ≡ₚ
            extra ++ option_list (i_value i) ++ vs).
Proof.
  unfold promise_inst, promise_values. simpl.
  destruct (0 <? value_size (pa_value ack)); simpl; [|by exists []; destruct (i_value i)].
  destruct (i_value i) as [old|] eqn:Ev; simpl.
  - case_match; simpl; rewrite ?Ev; simpl; [|by exists []].
    exists [wrap_value (pa_value ack)]. simpl. by rewrite (Permutation_app_comm vs).
  - by exists [wrap_value (pa_value ack)].
Qed.

Lemma pmove_held inp n id w out w' :
  NoDup (i_iid <$> v_accept w) → pmove inp n id w out w' →
  held w ⊆+ held w' ∨
  ∃ k i q ack, v_accept w !! k = Some i ∧ inp (MAcceptAck ack) ∧ aa_iid ack = i_iid i ∧
    aa_ballot ack = i_ballot i ∧ aa_value_ballot ack = i_ballot i ∧
    quorum_add (i_quorum i) (aa_acceptor_id ack) = Ret (1, q) ∧ quorum_reached q = true ∧
    held w ≡ₚ option_list (i_value i) ++ held w'.
Proof.
  intros U Hm. unfold held.
  destruct Hm as [w|nx vs ps acs value Hin|nx vs ps acs i Hi Hb Hv Hvb Hq
    |nx vs ps acs k i q S ack Hk Hin Hi Hb HSq Hnew Hadd HSq'|nx vs ps acs k i j Hk Hp
    |nx vs vs' ps acs i v q Hmaj Hv Hq|nx vs ps acs k i j ack Hk Hin Hi Hb Hvb Hj
    |nx vs ps acs k i q ack Hk Hin Hi Hb Hvb Hq Hrd|nx vs ps acs k i j ack Hk Hin Hi Hb Hp
    |nx vs ps acs k i j Hk Hj Hjq|nx vs ps acs k i j v Hk Hv Hj]; simpl in *;
    rewrite ?omap_app.
  - by left.
  - left. rewrite <-app_assoc. apply submseteq_skips_l. simpl. by apply submseteq_cons.
  - left. simpl. by rewrite Hv, app_nil_r.
  - left. destruct (omap_insert_split ps k i (promise_inst q ack i) Hk) as (rest & -> & ->).
    destruct (promise_held q ack i vs) as [extra E].
    rewrite (app_assoc vs), (app_assoc (promise_values _ _ _)), (app_assoc vs).
    rewrite (app_assoc (promise_values _ _ _)).
    rewrite (Permutation_app_comm (promise_values _ _ _)), E, (Permutation_app_comm vs).
    apply submseteq_skips_r, submseteq_skips_r. by apply submseteq_inserts_l.
  - left. by rewrite (omap_insert_same _ _ i) by (done || apply Hp).
  - left. simpl. apply Permutation_submseteq. destruct Hv as [[-> ->]|[-> ->]]; simpl.
    + by rewrite (app_assoc _ _ [v]), <-Permutation_cons_append.
    + by rewrite !(app_assoc _ _ [v]), <-Permutation_cons_append.
  - left. by rewrite (omap_insert_same _ _ i) by (done || apply Hj).
  - right. exists k, i, q, ack. do 7 (split; [congruence|]).
    rewrite (filter_unique acs k i U Hk) at 1. simpl.
    destruct (i_value i); simpl; [|done]. by rewrite !app_assoc, <-Permutation_middle.
  - left. apply Permutation_submseteq. rewrite (filter_unique acs k i U Hk) at 1. simpl.
    destruct Hp as (_ & _ & _ & -> & _). destruct (i_value i); [|done].
    by rewrite !Permutation_middle.
  - left. by rewrite (omap_insert_same _ _ i) by (done || apply Hj).
  - left. by rewrite (omap_insert_same _ _ i) by (done || apply Hj).
Qed.

(** ** The operations return *)

(** Room for one more element, and every index computation in range. *)
Definition roomy {A} (c : carray A) : Prop :=
  ca_size c ≤ 2 ^ 30 ∧ carray_count c < 2 ^ 30.

Lemma roomy_growable {A} (c : carray A) l : carray_rep c l → roomy c → growable c l ∧ indexable c.
Proof.
  intros R [Hs Hc]. unfold carray_count in Hc. rewrite (rep_count _ _ R) in Hc.
  split; [intros ?; lia|done].
Qed.

(** What the assertion of [proposer_receive_accept_ack] needs: an acknowledgement
with a ballot of the proposer [id] is a vote.  A refusal carries the ballot of
another proposer, and any value ballot. *)
Definition vote_for (id : Z) (ack : accept_ack) : Prop :=
  aa_ballot ack mod MAX_N_OF_PROPOSERS = id → aa_value_ballot ack = aa_ballot ack.

Section total.
Context (n : Z) (p : proposer) (vs : list paxos_msg) (ps acs : list instance).
Hypothesis I : proposer_inv n p vs ps acs.
Hypothesis Rv : roomy (p_values p).
Hypothesis Rp : roomy (p_prepare_instances p).
Hypothesis Ra : roomy (p_accept_instances p).

Lemma find_total (c : carray instance) l iid :
  carray_rep c l → roomy c → ∃ o, instance_find c iid = Ret o ∧
    match o with
    | Some k => 0 ≤ k ∧ ∃ inst, l !! Z.to_nat k = Some inst ∧ i_iid inst = iid ∧
                instance_at c k = Ret inst
    | None => True
    end.
Proof using Type.
  intros R Hr. destruct (roomy_growable c l R Hr) as [_ Hx].
  destruct (instance_find_total (Z.to_nat (carray_count c)) 0 c l iid R Hx) as [o Ho];
    [lia|unfold carray_count; rewrite (rep_count _ _ R); lia|].
  exists o. split; [done|]. apply (instance_find_inv _ _ _ _ R) in Ho. destruct o as [k|]; [|done].
  destruct Ho as [Hk (inst & Hl & Hi)]. split; [done|]. exists inst. split; [done|]. split; [done|].
  by apply (instance_at_ok _ l).
Qed.

Lemma preempt_total p0 inst now :
  inst_ok n (p_id p) (p_next_prepare_iid p) inst → ∃ r, prepare_preempt p0 inst now = Ret r.
Proof using Type.
  intros Hok. destruct (io_quorum _ _ _ _ Hok) as [S HS].
  destruct (quorum_clear_ok _ _ _ HS) as (q & Hq & _). unfold prepare_preempt. simpl.
  rewrite Hq. simpl. eauto.
Qed.

Lemma propose_total value : ∃ p', proposer_propose p value = Ret p'.
Proof using I Rv.
  destruct (pi_rep _ _ _ _ _ I) as [R _ _]. destruct (roomy_growable _ _ R Rv) as [G _].
  destruct (push_back_ok _ _ (wrap_value value) R G) as (c & Hc & _).
  unfold proposer_propose. rewrite Hc. simpl. eauto.
Qed.

Lemma prepare_total now junk : ∃ r, proposer_prepare p now junk = Ret r.
Proof using I Rp.
  destruct (pi_rep _ _ _ _ _ I) as [_ R _]. destruct (roomy_growable _ _ R Rp) as [G _].
  unfold proposer_prepare, instance_new. rewrite (pi_acceptors _ _ _ _ _ I).
  destruct (quorum_init_ok n junk (pi_n _ _ _ _ _ I)) as (q & -> & _). simpl.
  match goal with |- context [carray_push_back _ ?x] =>
    destruct (push_back_ok _ _ x R G) as (c & Hc & _) end.
  rewrite Hc. simpl. eauto.
Qed.

Lemma prepare_ack_total ack now :
  0 ≤ pa_acceptor_id ack < n → ∃ r, proposer_receive_prepare_ack p ack now = Ret r.
Proof using I Rv Rp.
  intros Hid. destruct (pi_rep _ _ _ _ _ I) as [R R' _].
  destruct (find_total _ _ (pa_iid ack) R' Rp) as (o & Ho & Hk).
  unfold proposer_receive_prepare_ack. rewrite Ho. simpl. destruct o as [k|]; [|eauto].
  destruct Hk as (Hk & inst & Hl & _ & ->). simpl.
  destruct (Z.ltb_spec (pa_ballot ack) (i_ballot inst)); [eauto|].
  pose proof (inv_lookup_p _ _ _ _ _ I _ inst Hl) as Hok.
  destruct (Z.eqb_spec (pa_ballot ack) (i_ballot inst)).
  - destruct (io_quorum _ _ _ _ Hok) as [S HS].
    destruct (quorum_add_total _ _ _ _ HS Hid) as (r & q & ->). simpl. case_match; [eauto|].
    unfold promise_value. simpl. case_match; [|simpl; eauto].
    destruct (i_value inst) as [old|]; [|simpl; eauto]. case_match; [|simpl; eauto].
    destruct (roomy_growable _ _ R Rv) as [G _]. destruct (push_back_ok _ _ old R G) as (c & -> & _).
    simpl. eauto.
  - destruct (preempt_total p inst now Hok) as [[i out] ->]. simpl. eauto.
Qed.

Lemma accept_total : ∃ r, proposer_accept p = Ret r.
Proof using I Ra.
  pose proof (inv_closed _ _ _ _ _ I) as Hcl. destruct (pi_rep _ _ _ _ _ I) as [R R' R''].
  unfold proposer_accept. cbn [accept_front]. rewrite (front_ok _ _ R'). simpl.
  destruct ps as [|inst rest]; simpl; [eauto|].
  apply Forall_cons in Hcl as [Hc _]. rewrite Hc. simpl.
  destruct (quorum_reached (i_quorum inst)); simpl; [|eauto].
  pose proof (inv_lookup_p _ _ _ _ _ I 0%nat inst eq_refl) as Hok.
  destruct (io_quorum _ _ _ _ Hok) as [S HS].
  destruct (quorum_clear_ok _ _ _ HS) as (q & Hq & _).
  set (p0 := set_prepare _ p).
  assert (∃ p1 v, take_value p0 inst = Ret (p1, v) ∧ p_prepare_instances p1 = p_prepare_instances p ∧
    p_accept_instances p1 = p_accept_instances p) as (p1 & v & -> & Ep & Ea).
  { unfold take_value. destruct (i_value inst) as [w|]; [by exists p0, (Some w)|].
    destruct (pop_front_ok _ _ R) as (c & Hpop & _). simpl. rewrite Hpop. simpl. eauto. }
  simpl. destruct v as [v|]; [|eauto]. rewrite Ep.
  pose proof (poke_ok _ _ 0 (set_value (i_value_ballot inst) (Some v) inst) R'
                ltac:(simpl; lia)) as Rk.
  destruct (pop_front_ok _ _ Rk) as (c & Hpop & _). rewrite Hpop. simpl. rewrite Hq. simpl.
  rewrite Ea. destruct (roomy_growable _ _ R'' Ra) as [G _].
  match goal with |- context [carray_push_back _ ?x] =>
    destruct (push_back_ok _ _ x R'' G) as (c' & Hc' & _) end.
  rewrite Hc'. simpl. eauto.
Qed.

Lemma accept_ack_total ack now :
  0 ≤ aa_acceptor_id ack < n → vote_for (p_id p) ack →
  ∃ r, proposer_receive_accept_ack p ack now = Ret r.
Proof using I Rp Ra.
  intros Hid Hvb. destruct (pi_rep _ _ _ _ _ I) as [_ R' R''].
  destruct (find_total _ _ (aa_iid ack) R'' Ra) as (o & Ho & Hk).
  unfold proposer_receive_accept_ack. rewrite Ho. simpl. destruct o as [k|]; [|eauto].
  destruct Hk as (Hk & inst & Hl & _ & ->). simpl. pose proof (lookup_lt_Some _ _ _ Hl).
  pose proof (inv_lookup_a _ _ _ _ _ I _ inst Hl) as Hok.
  destruct (roomy_growable _ _ R' Rp) as [G' _]. destruct (roomy_growable _ _ R'' Ra) as [G'' X''].
  case_Z.
  - rewrite Hvb by (by rewrite e, (io_owner _ _ _ _ Hok)).
    rewrite (proj2 (Z.eqb_eq _ _)) by done. simpl.
    destruct (io_quorum _ _ _ _ Hok) as [S HS].
    destruct (quorum_add_total _ _ _ _ HS Hid) as (r & q & ->). simpl. case_match; [eauto|].
    case_match; [|eauto]. pose proof (poke_ok _ _ k (set_quorum q inst) R'' ltac:(lia)) as Rk.
    destruct (carray_map_ok instance_match (set_quorum q inst) 0 _ _ Rk X'') as (c & Hc & _).
    unfold instance_remove, carray_reject. rewrite Hc. simpl. eauto.
  - destruct (carray_map_ok instance_match inst 0 _ _ R'' X'') as (c & Hc & _).
    unfold instance_remove, carray_reject. rewrite Hc. simpl.
    destruct (push_front_ok _ _ inst R' G') as (c' & -> & _). simpl.
    match goal with |- context [prepare_preempt ?x inst now] =>
      destruct (preempt_total x inst now Hok) as [[i out] ->] end.
    simpl. eauto.
Qed.

End total.

(** ** The value a proposer adopts *)

Fixpoint receive_promises (p : proposer) (acks : list prepare_ack) (now : timeval) : res proposer :=
  match acks with
  | [] => Ret p
  | ack :: acks' =>
      '(p, _) ← proposer_receive_prepare_ack p ack now;
      receive_promises p acks' now
  end.

Lemma find_unique (l : list instance) k k' i i' :
  NoDup (i_iid <$> l) → l !! k = Some i → l !! k' = Some i' → i_iid i' = i_iid i → k' = k.
Proof.
  intros U Hk Hk' E. eapply NoDup_lookup; [exact U|..]; rewrite list_lookup_fmap.
  - rewrite Hk'. simpl. by rewrite E.
  - by rewrite Hk.
Qed.

Section adopt.
Context (n : Z) (now : timeval).

(** One promise for the round of the instance at [k], from an acceptor not yet
counted. *)
Lemma receive_promise_ok p vs ps acs k inst S ack :
  proposer_inv n p vs ps acs → indexable (p_prepare_instances p) →
  Z.of_nat (length vs) < ca_size (p_values p) →
  ps !! k = Some inst → pa_iid ack = i_iid inst → pa_ballot ack = i_ballot inst →
  quorum_rep (i_quorum inst) n S → 0 ≤ pa_acceptor_id ack < n →
  q_acceptor_ids (i_quorum inst) !! Z.to_nat (pa_acceptor_id ack) = Some 0 →
  ∃ p' q, proposer_receive_prepare_ack p ack now = Ret (p', None) ∧
    proposer_inv n p' (promise_values ack inst vs) (<[k := promise_inst q ack inst]> ps) acs ∧
    ca_size (p_values p') = ca_size (p_values p) ∧
    ca_size (p_prepare_instances p') = ca_size (p_prepare_instances p) ∧
    p_accept_instances p' = p_accept_instances p ∧ same_ids p p' ∧
    quorum_rep q n ({[pa_acceptor_id ack]} ∪ S) ∧
    q_acceptor_ids q = <[Z.to_nat (pa_acceptor_id ack) := 1]> (q_acceptor_ids (i_quorum inst)).
Proof.
  intros I Hx Hroom Hk Hiid Hb HS Hid Hflag. destruct (pi_rep _ _ _ _ _ I) as [Rv Rp Ra].
  pose proof (lookup_lt_Some _ _ _ Hk) as Hlt.
  assert (instance_find (p_prepare_instances p) (pa_iid ack) = Ret (Some (Z.of_nat k))) as Hf.
  { unfold instance_find. destruct (instance_find_total (Z.to_nat (carray_count (p_prepare_instances p)))
      0 _ ps (pa_iid ack) Rp Hx) as [o Ho]; [lia|unfold carray_count; rewrite (rep_count _ _ Rp); lia|].
    rewrite Ho. apply (instance_find_inv _ ps) in Ho; [|done]. do 2 f_equal. destruct o as [j|].
    - destruct Ho as (Hj & i & Hji & Ei). f_equal. pose proof (pi_unique _ _ _ _ _ I) as U.
      rewrite fmap_app in U. apply NoDup_app in U as (U & _ & _).
      rewrite <-(find_unique ps k (Z.to_nat j) inst i U Hk Hji ltac:(congruence)). lia.
    - destruct (Ho inst); [by eapply list_elem_of_lookup_2|done]. }
  destruct (quorum_add_fresh _ _ _ _ HS Hid Hflag) as (q & Hq & HS' & Hfl).
  assert (∃ p1, promise_value p (set_quorum q inst) ack = Ret (p1, promise_inst q ack inst) ∧
    ca_size (p_values p1) = ca_size (p_values p) ∧
    p_prepare_instances p1 = p_prepare_instances p ∧
    p_accept_instances p1 = p_accept_instances p) as (p1 & Hp1 & Sv & Ep & Ea).
  { unfold promise_value, promise_inst. simpl. destruct (0 <? value_size (pa_value ack)); simpl; [|eauto].
    destruct (i_value inst) as [old|]; [|eauto]. case_match; [|eauto].
    destruct (push_back_room _ _ old Rv Hroom) as (c & -> & _ & Hs & _). simpl. eauto. }
  pose proof Hp1 as Hp1'. apply (promise_value_inv p vs ps acs (pi_rep _ _ _ _ _ I)) in Hp1'
    as (_ & [Rv1 Rp1 Ra1] & Hs & _).
  set (p' := set_prepare (carray_poke (p_prepare_instances p1) (Z.of_nat k) (promise_inst q ack inst)) p1).
  exists p', q. split.
  { unfold proposer_receive_prepare_ack. rewrite Hf. simpl.
    rewrite (instance_at_ok _ ps (Z.of_nat k) inst Rp Hx) by (lia || by rewrite Nat2Z.id).
    simpl. rewrite Hb, Z.ltb_irrefl, Z.eqb_refl, Hq. simpl. rewrite Hp1. simpl. done. }
  split; [|split; [done|split; [simpl; by rewrite Ep|done]]].
  apply (inv_update_p n p vs ps acs I p' _ k inst); [|done|done|apply promise_inst_iid|].
  - split; simpl; try done. rewrite <-(Nat2Z.id k) at 2. apply poke_ok; [done|lia].
  - eapply inst_ok_promise; [|done]. by eapply inv_lookup_p.
Qed.

(** What the instance knows after some promises: the value with the highest
ballot among them and its own. *)
Definition adopted (i0 : instance) (acks : list prepare_ack) (i : instance) : Prop :=
  i_iid i = i_iid i0 ∧ i_ballot i = i_ballot i0 ∧
  (∀ ack, ack ∈ acks → pa_value ack ≠ [] →
     i_value i ≠ None ∧ pa_value_ballot ack ≤ i_value_ballot i) ∧
  ((i_value i = i_value i0 ∧ i_value_ballot i = i_value_ballot i0) ∨
   ∃ ack, ack ∈ acks ∧ pa_value ack ≠ [] ∧ i_value i = Some (wrap_value (pa_value ack)) ∧
          i_value_ballot i = pa_value_ballot ack) ∧
  (i_value i0 ≠ None → i_value i ≠ None ∧ i_value_ballot i0 ≤ i_value_ballot i).

Lemma value_size_pos v : 0 < value_size v ↔ v ≠ [].
Proof. unfold value_size. destruct v; simpl; split; intros; [lia|done|done|lia]. Qed.

Lemma adopted_step q ack acks i0 i :
  adopted (promise_inst q ack i0) acks i → adopted i0 (ack :: acks) i.
Proof.
  intros (E1 & E2 & H3 & H4 & H5). rewrite promise_inst_iid in E1. rewrite promise_inst_ballot in E2.
  split; [done|]. split; [done|].
  assert ((pa_value ack ≠ [] → i_value (promise_inst q ack i0) ≠ None ∧
            pa_value_ballot ack ≤ i_value_ballot (promise_inst q ack i0)) ∧
    ((i_value (promise_inst q ack i0) = i_value i0 ∧
      i_value_ballot (promise_inst q ack i0) = i_value_ballot i0) ∨
     (pa_value ack ≠ [] ∧ i_value (promise_inst q ack i0) = Some (wrap_value (pa_value ack)) ∧
      i_value_ballot (promise_inst q ack i0) = pa_value_ballot ack)) ∧
    (i_value i0 ≠ None → i_value (promise_inst q ack i0) ≠ None ∧
       i_value_ballot i0 ≤ i_value_ballot (promise_inst q ack i0))) as (A1 & A2 & A3).
  { unfold promise_inst. simpl. destruct (Z.ltb_spec 0 (value_size (pa_value ack))) as [Hv|Hv]; simpl.
    - apply value_size_pos in Hv. destruct (i_value i0) as [v0|] eqn:E0; simpl.
      + case_Z; simpl; rewrite ?E0; naive_solver lia.
      + split; [done|]. by split; [right|].
    - split; [intros ?%value_size_pos; lia|]. by split; [left|]. }
  split; [|split].
  - intros a [->|Ha]%elem_of_cons Hne; [|by apply H3]. destruct (A1 Hne) as [B1 B2].
    destruct (H5 B1). split; [done|lia].
  - destruct H4 as [[-> ->]|(a & Ha & ?)]; [|right; exists a; split; [by right|done]].
    destruct A2 as [[-> ->]|(? & ? & ?)]; [by left|right]. exists ack. split; [by left|done].
  - intros H0. destruct (A3 H0) as [B1 B2]. destruct (H5 B1). split; [done|lia].
Qed.

Lemma receive_promises_ok acks p vs ps acs k inst S :
  proposer_inv n p vs ps acs → indexable (p_prepare_instances p) →
  Z.of_nat (length vs + length acks) ≤ ca_size (p_values p) →
  ps !! k = Some inst → quorum_rep (i_quorum inst) n S → NoDup (pa_acceptor_id <$> acks) →
  (∀ ack, ack ∈ acks → pa_iid ack = i_iid inst ∧ pa_ballot ack = i_ballot inst ∧
     0 ≤ pa_acceptor_id ack < n ∧
     q_acceptor_ids (i_quorum inst) !! Z.to_nat (pa_acceptor_id ack) = Some 0) →
  ∃ p' vs' inst', receive_promises p acks now = Ret p' ∧
    proposer_inv n p' vs' (<[k := inst']> ps) acs ∧
    ca_size (p_values p') = ca_size (p_values p) ∧
    ca_size (p_prepare_instances p') = ca_size (p_prepare_instances p) ∧ same_ids p p' ∧
    p_accept_instances p' = p_accept_instances p ∧ adopted inst acks inst' ∧
    quorum_rep (i_quorum inst') n (list_to_set (pa_acceptor_id <$> acks) ∪ S) ∧
    ((∀ ack, ack ∈ acks → pa_value ack = []) → vs' = vs).
Proof.
  revert p vs ps inst S. induction acks as [|ack acks IH]; intros p vs ps inst S I Hx Hroom Hk HS U Hall.
  { exists p, vs, inst. rewrite list_insert_id by done. do 6 (split; [done|]).
    split; [|by rewrite fmap_nil, list_to_set_nil, (left_id_L ∅ (∪))].
    split; [done|]. split; [done|]. split; [by intros ? ?%not_elem_of_nil|].
    split; [by left|]. intros ?. split; [done|lia]. }
  destruct (Hall ack ltac:(by left)) as (E1 & E2 & Hid & Hf). simpl in Hroom.
  destruct (receive_promise_ok p vs ps acs k inst S ack) as
    (p1 & q & H1 & I1 & Sv & Sp & Ha1 & Hs1 & HS1 & Hfl); [done|done|lia|done..|].
  simpl in U. apply NoDup_cons in U as [Hnin U].
  assert (length (promise_values ack inst vs) ≤ length vs + 1)%nat as Hlen.
  { unfold promise_values. destruct (i_value inst); [case_match|]; rewrite ?length_app; simpl; lia. }
  destruct (IH p1 (promise_values ack inst vs) (<[k := promise_inst q ack inst]> ps)
              (promise_inst q ack inst) ({[pa_acceptor_id ack]} ∪ S))
    as (p' & vs' & inst' & H2 & I2 & Sv2 & Sp2 & Hs2 & Ha2 & Had & HS2 & Hvs);
      [done|unfold indexable; by rewrite Sp|lia| | |done| |].
  - apply list_lookup_insert_eq. by eapply lookup_lt_Some.
  - by rewrite promise_inst_quorum.
  - intros a Ha. destruct (Hall a ltac:(by right)) as (? & ? & ? & Hfa).
    rewrite promise_inst_iid, promise_inst_ballot, promise_inst_quorum, Hfl.
    do 3 (split; [done|]). rewrite list_lookup_insert_ne; [done|].
    intros E. apply Hnin. replace (pa_acceptor_id ack) with (pa_acceptor_id a) by lia.
    by apply list_elem_of_fmap_2.
  - exists p', vs', inst'. simpl. rewrite H1. simpl. rewrite list_insert_insert_eq in I2.
    split; [done|]. split; [done|]. split; [congruence|]. split; [congruence|].
    split; [by eapply same_ids_trans|]. split; [congruence|]. split; [by eapply adopted_step|].
    split; [|intros He; rewrite Hvs by (intros; apply He; by right)].
    + revert HS2. match goal with |- quorum_rep _ _ ?X → quorum_rep _ _ ?Y =>
        by replace Y with X by set_solver end.
    + unfold promise_values. rewrite (He ack) by (by left). by destruct (i_value inst).
Qed.

End adopt.

(** ** Properties *)

(** C22: whatever messages it is given, a proposer asks for one value per
instance and ballot: two accept requests that a run of fewer than 2^28
operations sends for the same instance with the same ballot, resends
included, carry the same value; and all its ballots are congruent to its id
modulo [MAX_N_OF_PROPOSERS], so they are not used by another proposer. *)
Theorem proposer_one_value_per_ballot inp n id p0 k out p :
  1 ≤ n ≤ INT_MAX → 0 ≤ id < MAX_N_OF_PROPOSERS → proposer_new id n = Ret p0 →
  Z.of_nat k < 2 ^ 28 → prun inp p0 k out p →
  Forall (owned id) out ∧
  (∀ iid b v v', requested out iid b v → requested out iid b v' → v = v').
Proof.
  intros Hn Hid Hnew Hk Hr.
  destruct (prun_inv inp n id p0 Hn Hid Hnew k out p Hk Hr) as (vs & ps & acs & _ & _ & _ & HS & HF).
  split; [done|]. apply HS.
Qed.

(** C34: in every state a run reaches, the two instance queues of a proposer
hold each instance at most once between them, each with a ballot of this
proposer, with its counted acceptors within range, and every instance waiting
for accept acknowledgements has a value. *)
Theorem proposer_run_invariant inp n id p0 k out p :
  1 ≤ n ≤ INT_MAX → 0 ≤ id < MAX_N_OF_PROPOSERS → proposer_new id n = Ret p0 →
  Z.of_nat k < 2 ^ 28 → prun inp p0 k out p →
  let w := view p in
  proposer_inv n p (v_values w) (v_prepare w) (v_accept w) ∧ p_id p = id.
Proof.
  intros Hn Hid Hnew Hk Hr.
  destruct (prun_inv inp n id p0 Hn Hid Hnew k out p Hk Hr) as (vs & ps & acs & I & ? & _).
  rewrite (view_rep p vs ps acs); [by split|apply I].
Qed.

(** C23: no value is lost.  An operation keeps every value the proposer holds,
in its queue or in an instance, except when an accept acknowledgement of the
instance's own ballot completes a majority, and then only that instance's
value leaves.  In particular a client value displaced by a promise, or whose
instance is preempted, is still held. *)
Theorem proposer_keeps_values inp n p vs ps acs out p' :
  proposer_inv n p vs ps acs → no_wrap p ps acs → pstep inp p out p' →
  held (view p) ⊆+ held (view p') ∨
  ∃ i q ack, i ∈ acs ∧ inp (MAcceptAck ack) ∧ aa_iid ack = i_iid i ∧
    aa_ballot ack = i_ballot i ∧ aa_value_ballot ack = i_ballot i ∧
    quorum_add (i_quorum i) (aa_acceptor_id ack) = Ret (1, q) ∧ quorum_reached q = true ∧
    held (view p) ≡ₚ option_list (i_value i) ++ held (view p').
Proof.
  intros I W Hs. destruct (pstep_move inp n p vs ps acs out p' I W Hs)
    as (vs' & ps' & acs' & I' & _ & Hm).
  rewrite (view_rep p vs ps acs) by apply I. rewrite (view_rep p' vs' ps' acs') by apply I'.
  pose proof (pi_unique _ _ _ _ _ I) as U. rewrite fmap_app in U. apply NoDup_app in U as (_ & _ & U).
  destruct (pmove_held _ _ _ (PView _ vs ps acs) _ _ U Hm) as [?|(k & i & q & ack & Hk & ?)]; [by left|right].
  exists i, q, ack. split; [by eapply list_elem_of_lookup_2|done].
Qed.

(** The operations return: a proposer that satisfies its invariant, whose
queues have fewer than 2^30 elements, fails no assertion and makes no invalid
access, when acknowledgements name acceptors of the configuration and an accept
acknowledgement with one of its ballots is a vote (its two ballots are equal);
those with other ballots, which preempt an instance, may say anything. *)
Theorem proposer_total n p vs ps acs :
  proposer_inv n p vs ps acs →
  roomy (p_values p) → roomy (p_prepare_instances p) → roomy (p_accept_instances p) →
  (∀ value, is_ret (proposer_propose p value) = true) ∧
  (∀ now junk, is_ret (proposer_prepare p now junk) = true) ∧
  (∀ ack now, 0 ≤ pa_acceptor_id ack < n → is_ret (proposer_receive_prepare_ack p ack now) = true) ∧
  is_ret (proposer_accept p) = true ∧
  (∀ ack now, 0 ≤ aa_acceptor_id ack < n → vote_for (p_id p) ack →
     is_ret (proposer_receive_accept_ack p ack now) = true).
Proof.
  intros I Rv Rp Ra. split; [|split; [|split; [|split]]].
  - intros value. by destruct (propose_total n p vs ps acs I Rv value) as [? ->].
  - intros now junk. by destruct (prepare_total n p vs ps acs I Rp now junk) as [? ->].
  - intros ack now H. by destruct (prepare_ack_total n p vs ps acs I Rv Rp ack now H) as [? ->].
  - by destruct (accept_total n p vs ps acs I Ra) as [? ->].
  - intros ack now H H'. by destruct (accept_ack_total n p vs ps acs I Rp Ra ack now H H') as [? ->].
Qed.

(** C21: phase 1 adopts the right value.  When the first instance of the
prepare queue has no value and promises of its ballot arrive from a majority
of distinct acceptors not counted yet, the next accept request is for that
instance and ballot, and its value is one reported with the highest value
ballot among the promises, or the oldest client value when no promise carries
a value. *)
Theorem proposer_adopts_highest n p vs inst rest acs acks now S :
  proposer_inv n p vs (inst :: rest) acs → indexable (p_prepare_instances p) →
  Z.of_nat (length vs + length acks) ≤ ca_size (p_values p) → roomy (p_accept_instances p) →
  i_value inst = None → quorum_rep (i_quorum inst) n S →
  NoDup (pa_acceptor_id <$> acks) → paxos_quorum n ≤ Z.of_nat (length acks) →
  (∀ ack, ack ∈ acks → pa_iid ack = i_iid inst ∧ pa_ballot ack = i_ballot inst ∧
     0 ≤ pa_acceptor_id ack < n ∧
     q_acceptor_ids (i_quorum inst) !! Z.to_nat (pa_acceptor_id ack) = Some 0) →
  vs ≠ [] →
  ∃ p1 p2 r, receive_promises p acks now = Ret p1 ∧ proposer_accept p1 = Ret (p2, Some r) ∧
    ar_iid r = i_iid inst ∧ ar_ballot r = i_ballot inst ∧
    ((∃ ack, ack ∈ acks ∧ pa_value ack ≠ [] ∧ ar_value r = pa_value ack ∧
        ∀ ack', ack' ∈ acks → pa_value ack' ≠ [] → pa_value_ballot ack' ≤ pa_value_ballot ack) ∨
     ((∀ ack, ack ∈ acks → pa_value ack = []) ∧
      ∃ v, head vs = Some v ∧ ar_value r = m_data v)).
Proof.
  intros I Hx Hroom Hacc Hnone HS U Hmaj Hall Hvs.
  destruct (receive_promises_ok n now acks p vs (inst :: rest) acs 0 inst S) as
    (p1 & vs' & i & H1 & I1 & _ & _ & _ & Ha & (E1 & E2 & A3 & A4 & _) & HS1 & Hvs'); [done..|].
  simpl in I1. rewrite <-Ha in Hacc.
  destruct (accept_total n p1 vs' (i :: rest) acs I1 Hacc) as [[p2 o] H2].
  assert (quorum_reached (i_quorum i) = true) as Hq.
  { apply (quorum_reached_iff _ _ _ HS1).
    assert (length acks ≤ size (list_to_set (pa_acceptor_id <$> acks) ∪ S))%nat; [|lia].
    rewrite <-(length_fmap pa_acceptor_id), <-(size_list_to_set (C:=gset Z)) by done.
    apply subseteq_size. set_solver. }
  destruct (accept_inv p1 vs' (i :: rest) acs (pi_rep _ _ _ _ _ I1) p2 o
    (inv_closed _ _ _ _ _ I1) H2) as (vs2 & ps2 & acs2 & _ & _ & Hc).
  assert (i_value i = None → ∀ ack, ack ∈ acks → pa_value ack = []) as Hempty.
  { intros Hn ack Hin. destruct (decide (pa_value ack = [])) as [?|Hne]; [done|].
    by destruct (A3 ack Hin Hne). }
  destruct Hc as [(_ & _ & _ & _ & Hno)|(i' & v & q & E & _ & Hv & _ & _ & ->)].
  { destruct (Hno i eq_refl Hq) as [Hn ->]. destruct Hvs. symmetry. by apply Hvs', Hempty. }
  injection E as -> ->. exists p1, p2. eexists. split; [done|]. split; [exact H2|]. simpl.
  split; [done|]. split; [done|]. destruct A4 as [[En _]|(ack & Hin & Hne & Ev & Evb)].
  - rewrite Hnone in En. right. split; [by apply Hempty|].
    destruct Hv as [[? _]|[_ Hh]]; [congruence|]. exists v. split; [|done].
    by rewrite <-Hvs', Hh by (by apply Hempty).
  - left. exists ack. split; [done|]. split; [done|].
    destruct Hv as [[Hv _]|[Hv _]]; [|congruence]. rewrite Ev in Hv. injection Hv as <-.
    split; [done|]. rewrite <-Evb. intros ack' Hin' Hne'. by destruct (A3 ack' Hin' Hne').
Qed.

(** ** Witnesses *)

(** A run of proposer 1 with three acceptors: a client value, the first
instance prepared, two promises (the second reports a value), the request. *)
Definition any_msg : message → Prop := λ _, True.
Definition at_zero : timeval := Timeval 0 0.
Definition no_proposer : proposer :=
  Proposer 0 0 (Carray 0 0 0 0 []) 0 (Carray 0 0 0 0 []) (Carray 0 0 0 0 []).
Definition demo0 : proposer := from_ret no_proposer (proposer_new 1 3).
Definition demo1 : proposer := from_ret no_proposer (proposer_propose demo0 [x41]).
Definition demo2 : proposer :=
  (from_ret (no_proposer, PrepareReq 0 0) (proposer_prepare demo1 at_zero (λ _, 7))).1.
Definition demo_ack0 : prepare_ack := PrepareAck 0 1 11 0 [].
Definition demo_ack1 : prepare_ack := PrepareAck 1 1 11 10 [x42].
Definition demo3 : proposer :=
  (from_ret (no_proposer, None) (proposer_receive_prepare_ack demo2 demo_ack0 at_zero)).1.
Definition demo4 : proposer :=
  (from_ret (no_proposer, None) (proposer_receive_prepare_ack demo3 demo_ack1 at_zero)).1.
Definition demo5 : proposer := (from_ret (no_proposer, None) (proposer_accept demo4)).1.

Lemma demo_new : proposer_new 1 3 = Ret demo0.
Proof. vm_compute. reflexivity. Qed.

Lemma demo_prun2 : prun any_msg demo0 2 [MPrepareReq (PrepareReq 1 11)] demo2.
Proof.
  apply (prun_step _ _ 1 [] demo1 [_]); [apply (prun_step _ _ 0 [] demo0 [] demo1)|].
  - apply prun_nil.
  - by apply (ps_propose _ _ [x41]).
  - by apply (ps_prepare _ _ at_zero (λ _, 7)); vm_compute.
Qed.

Lemma demo_step3 : pstep any_msg demo2 [] demo3.
Proof. by apply (ps_prepare_ack _ _ demo_ack0 at_zero _ None); vm_compute. Qed.

Lemma demo_prun5 :
  prun any_msg demo0 5 [MAcceptReq (AcceptReq 1 11 [x42]); MPrepareReq (PrepareReq 1 11)] demo5.
Proof.
  apply (prun_step _ _ 4 [_] demo4 [_]); [apply (prun_step _ _ 3 [_] demo3 [] demo4)|].
  - apply (prun_step _ _ 2 [_] demo2 [] demo3); [exact demo_prun2|exact demo_step3].
  - by apply (ps_prepare_ack _ _ demo_ack1 at_zero _ None); vm_compute.
  - by apply (ps_accept _ _ _ (Some (AcceptReq 1 11 [x42]))); vm_compute.
Qed.

Lemma demo_inv k out p :
  Z.of_nat k < 2 ^ 28 → prun any_msg demo0 k out p →
  ∃ vs ps acs, proposer_inv 3 p vs ps acs ∧ no_wrap p ps acs ∧ view p = pview_of p vs ps acs.
Proof.
  intros Hk Hr. destruct (prun_inv any_msg 3 1 demo0 ltac:(by vm_compute) ltac:(by vm_compute)
    demo_new k out p Hk Hr) as (vs & ps & acs & I & _ & B & _).
  exists vs, ps, acs. split; [done|]. split; [by eapply bounded_no_wrap|].
  by rewrite (view_rep p vs ps acs) by apply I.
Qed.

Lemma proposer_one_value_per_ballot_witness :
  let out := [MAcceptReq (AcceptReq 1 11 [x42]); MPrepareReq (PrepareReq 1 11)] in
  Forall (owned 1) out ∧
  (∀ iid b v v', requested out iid b v → requested out iid b v' → v = v').
Proof.
  apply (proposer_one_value_per_ballot any_msg 3 1 demo0 5 _ demo5).
  - by vm_compute.
  - by vm_compute.
  - exact demo_new.
  - reflexivity.
  - exact demo_prun5.
Defined.

Lemma proposer_run_invariant_witness :
  let w := view demo5 in
  proposer_inv 3 demo5 (v_values w) (v_prepare w) (v_accept w) ∧ p_id demo5 = 1.
Proof.
  apply (proposer_run_invariant any_msg 3 1 demo0 5
    [MAcceptReq (AcceptReq 1 11 [x42]); MPrepareReq (PrepareReq 1 11)] demo5).
  - by vm_compute.
  - by vm_compute.
  - exact demo_new.
  - reflexivity.
  - exact demo_prun5.
Defined.

Lemma proposer_keeps_values_witness :
  held (view demo2) ⊆+ held (view demo3) ∨
  ∃ i q ack, i ∈ v_accept (view demo2) ∧ any_msg (MAcceptAck ack) ∧ aa_iid ack = i_iid i ∧
    aa_ballot ack = i_ballot i ∧ aa_value_ballot ack = i_ballot i ∧
    quorum_add (i_quorum i) (aa_acceptor_id ack) = Ret (1, q) ∧ quorum_reached q = true ∧
    held (view demo2) ≡ₚ option_list (i_value i) ++ held (view demo3).
Proof.
  destruct (demo_inv 2 _ demo2 ltac:(reflexivity) demo_prun2) as (vs & ps & acs & I & W & E).
  assert (acs = v_accept (view demo2)) as Ea by (by rewrite E). clear E. subst acs.
  exact (proposer_keeps_values any_msg 3 demo2 vs ps _ [] demo3 I W demo_step3).
Defined.

Lemma proposer_total_witness :
  is_ret (proposer_accept demo2) = true ∧
  is_ret (proposer_receive_prepare_ack demo2 demo_ack0 at_zero) = true.
Proof.
  destruct (demo_inv 2 _ demo2 ltac:(reflexivity) demo_prun2) as (vs & ps & acs & I & W & E).
  destruct (proposer_total 3 demo2 vs ps acs I) as (_ & _ & H3 & H4 & _);
    [split; vm_compute; congruence..|].
  split; [exact H4|]. apply H3. split; vm_compute; congruence.
Defined.

Lemma proposer_adopts_highest_witness :
  ∃ p1 p2 r, receive_promises demo2 [demo_ack0; demo_ack1] at_zero = Ret p1 ∧
    proposer_accept p1 = Ret (p2, Some r) ∧ ar_iid r = 1 ∧ ar_ballot r = 11.
Proof.
  destruct (demo_inv 2 _ demo2 ltac:(reflexivity) demo_prun2) as (vs & ps & acs & I & W & E).
  vm_compute in E. injection E as <- <- <-.
  edestruct (proposer_adopts_highest 3 demo2 _ _ [] [] [demo_ack0; demo_ack1] at_zero ∅ I)
    as (p1 & p2 & r & H1 & H2 & H3 & H4 & _).
  - vm_compute. congruence.
  - vm_compute. congruence.
  - split; vm_compute; congruence.
  - reflexivity.
  - by split.
  - vm_compute. repeat constructor; set_solver.
  - vm_compute. congruence.
  - intros ack [->|[->| ?%not_elem_of_nil]%elem_of_cons]%elem_of_cons; [| |done];
      (split; [reflexivity|split; [reflexivity|split; [split; vm_compute; congruence|reflexivity]]]).
  - discriminate.
  - exists p1, p2, r. auto.
Defined.
