(* ===== verification/Learner.v ===== *)
(** * The learner (src/paxos/learner.c)

The learner keeps a window of [learner_instances] consecutive instances in a
full ring buffer, the instance [iid] in the slot [iid mod size].  A pointer to
an instance is the index it was fetched with; a store through it is
[carray_poke].  [final_value] points to one of the stored acknowledgements,
which is not overwritten once it is set, so the model keeps a copy. *)

From S2P Require Import Prelude Carray Quorum Messages.
#[local] Open Scope Z_scope.

(** [struct instance] of learner.c *)
Record linstance : Type := LInstance {
  li_iid : Z;
  li_last_update_ballot : Z;
  li_acks : list (option accept_ack);
  li_final_value : option accept_ack;
}.

(** [struct learner] *)
Record learner : Type := Learner {
  l_quorum : Z;
  l_acceptors : Z;
  l_late_start : Z;
  l_current_iid : Z;
  l_highest_iid_seen : Z;
  l_highest_iid_closed : Z;
  l_instances : carray linstance;
}.

Definition set_instances (c : carray linstance) (l : learner) : learner :=
  Learner (l_quorum l) (l_acceptors l) (l_late_start l) (l_current_iid l)
    (l_highest_iid_seen l) (l_highest_iid_closed l) c.
Definition set_current (iid : Z) (l : learner) : learner :=
  Learner (l_quorum l) (l_acceptors l) (l_late_start l) iid
    (l_highest_iid_seen l) (l_highest_iid_closed l) (l_instances l).
Definition set_late_start (b : Z) (l : learner) : learner :=
  Learner (l_quorum l) (l_acceptors l) b (l_current_iid l)
    (l_highest_iid_seen l) (l_highest_iid_closed l) (l_instances l).
Definition set_seen (iid : Z) (l : learner) : learner :=
  Learner (l_quorum l) (l_acceptors l) (l_late_start l) (l_current_iid l)
    iid (l_highest_iid_closed l) (l_instances l).
Definition set_closed (iid : Z) (l : learner) : learner :=
  Learner (l_quorum l) (l_acceptors l) (l_late_start l) (l_current_iid l)
    (l_highest_iid_seen l) iid (l_instances l).

Definition linstance_clear (inst : linstance) (acceptors : Z) : res linstance :=
  acks ← for_to acceptors (λ i acks,
           a ← arr_get acks i;
           match a with Some _ => arr_set acks i None | None => Ret acks end)
         (li_acks inst);
  Ret (LInstance 0 0 acks None).

Definition linstance_new (acceptors : Z) : linstance :=
  LInstance 0 0 (replicate (Z.to_nat acceptors) None) None.

(** The loop of [instance_has_quorum]: the number of acknowledgements that
agree with [ballot] and the index of the last one. *)
Fixpoint count_acks (n : nat) (i : Z) (acks : list (option accept_ack)) (ballot acceptors : Z)
    (count idx : Z) : res (Z * Z) :=
  match n with
  | O => Ret (count, idx)
  | S n' =>
      a ← arr_get acks i;
      match a with
      | None => count_acks n' (i + 1) acks ballot acceptors count idx
      | Some ack =>
          if aa_ballot ack =? ballot then
            if negb (aa_is_final ack =? 0) then Ret (count + 1 + acceptors, i)
            else count_acks n' (i + 1) acks ballot acceptors (count + 1) i
          else count_acks n' (i + 1) acks ballot acceptors count idx
      end
  end.

(** Returns whether the instance is closed, and the instance with
[final_value] set if it just closed. *)
Definition instance_has_quorum (l : learner) (inst : linstance) : res (bool * linstance) :=
  match li_final_value inst with
  | Some _ => Ret (true, inst)
  | None =>
      '(count, idx) ← count_acks (Z.to_nat (l_acceptors l)) 0 (li_acks inst)
                        (li_last_update_ballot inst) (l_acceptors l) 0 (-1);
      if l_quorum l <=? count then
        v ← arr_get (li_acks inst) idx;
        Ret (true, LInstance (li_iid inst) (li_last_update_ballot inst) (li_acks inst) v)
      else Ret (false, inst)
  end.

Definition instance_add_accept (inst : linstance) (ack : accept_ack) : res linstance :=
  acks ← arr_set (li_acks inst) (aa_acceptor_id ack) (Some ack);
  Ret (LInstance (li_iid inst) (aa_ballot ack) acks (li_final_value inst)).

(** [carray_at(l->instances, iid)] converts the [iid_t] to [int]. *)
Definition learner_get_instance (l : learner) (iid : Z) : res linstance :=
  x ← carray_at (l_instances l) (to_int iid);
  inst ← deref x;
  assert_that ((li_iid inst =? iid) || (li_iid inst =? 0)) ;;
  Ret inst.

Definition learner_get_current_instance (l : learner) : res linstance :=
  learner_get_instance l (l_current_iid l).

(** A store through the pointer returned by [learner_get_instance l iid]. *)
Definition learner_put_instance (l : learner) (iid : Z) (inst : linstance) : learner :=
  set_instances (carray_poke (l_instances l) (to_int iid) inst) l.

Definition learner_update_instance (l : learner) (ack : accept_ack) : res learner :=
  inst ← learner_get_instance l (aa_iid ack);
  let inst := if li_iid inst =? 0
              then LInstance (aa_iid ack) (aa_ballot ack) (li_acks inst) (li_final_value inst)
              else inst in
  assert_that (li_iid inst =? aa_iid ack) ;;
  '(closed, inst) ← instance_has_quorum l inst;
  if (closed : bool) then Ret (learner_put_instance l (aa_iid ack) inst)
  else
    prev ← arr_get (li_acks inst) (aa_acceptor_id ack);
    match prev with
    | None =>
        inst ← instance_add_accept inst ack;
        Ret (learner_put_instance l (aa_iid ack) inst)
    | Some prev_ack =>
        if aa_ballot ack <=? aa_ballot prev_ack
        then Ret (learner_put_instance l (aa_iid ack) inst)
        else
          inst ← instance_add_accept inst ack;
          Ret (learner_put_instance l (aa_iid ack) inst)
    end.

Definition learner_deliver_next (l : learner) : res (learner * option accept_ack) :=
  inst ← learner_get_current_instance l;
  '(closed, inst) ← instance_has_quorum l inst;
  if (closed : bool) then
    v ← deref (li_final_value inst);
    cleared ← linstance_clear inst (l_acceptors l);
    Ret (set_current (u32 (l_current_iid l + 1))
           (learner_put_instance l (l_current_iid l) cleared), Some v)
  else Ret (l, None).

Definition learner_receive_accept (l : learner) (ack : accept_ack) : res learner :=
  let l := if negb (l_late_start l =? 0)
           then set_current (aa_iid ack) (set_late_start 0 l) else l in
  let l := if l_highest_iid_seen l <? aa_iid ack then set_seen (aa_iid ack) l else l in
  if aa_iid ack <? l_current_iid l then Ret l
  else if u32 (l_current_iid l + carray_size (l_instances l)) <=? aa_iid ack then Ret l
  else
    l ← learner_update_instance l ack;
    inst ← learner_get_instance l (aa_iid ack);
    '(closed, inst) ← instance_has_quorum l inst;
    let l := learner_put_instance l (aa_iid ack) inst in
    if (closed : bool) && (l_highest_iid_closed l <? li_iid inst)
    then Ret (set_closed (li_iid inst) l) else Ret l.

Definition initialize_instances (acceptors count : Z) : res (carray linstance) :=
  c ← carray_new count;
  for_to (carray_size c) (λ _ c, carray_push_back c (linstance_new acceptors)) c.

(** Returns the range [from, to) to be repeated, if there is one. *)
Definition learner_has_holes (l : learner) : option (Z * Z) :=
  if u32 (l_current_iid l + carray_count (l_instances l)) <? l_highest_iid_seen l
  then Some (l_current_iid l, l_highest_iid_seen l)
  else if l_current_iid l <? l_highest_iid_closed l
  then Some (l_current_iid l, l_highest_iid_closed l)
  else None.

Definition learner_new (cfg : paxos_config) (acceptors : Z) : res learner :=
  c ← initialize_instances acceptors (learner_instances cfg);
  Ret (Learner (paxos_quorum acceptors) acceptors
         (cbool (learner_catch_up cfg =? 0)) 1 1 1 c).

(** ** Counting *)

#[export] Instance agrees_dec (acks : list (option accept_ack)) (b j : Z) :
  Decision (∃ a, acks !! Z.to_nat j = Some (Some a) ∧ aa_ballot a = b).
Proof.
  destruct (acks !! Z.to_nat j) as [[a|]|] eqn:E; [|right..].
  - destruct (decide (aa_ballot a = b)) as [H|H]; [left; eauto|right].
    intros (a' & [= <-] & ?). done.
  - intros (a' & ? & ?). done.
  - intros (a' & ? & ?). done.
Defined.

(** The acceptors whose stored acknowledgement has ballot [b]. *)
Definition agreeing (acks : list (option accept_ack)) (b : Z) (i : Z) : gset Z :=
  filter (λ j, i ≤ j ∧ ∃ a, acks !! Z.to_nat j = Some (Some a) ∧ aa_ballot a = b)
    (acceptor_set (Z.of_nat (length acks))).


Lemma elem_of_agreeing acks b i j :
  j ∈ agreeing acks b i ↔
  0 ≤ j < Z.of_nat (length acks) ∧ i ≤ j ∧
  ∃ a, acks !! Z.to_nat j = Some (Some a) ∧ aa_ballot a = b.
Proof. unfold agreeing. rewrite elem_of_filter, elem_of_acceptor_set. tauto. Qed.

Lemma agreeing_step acks b i :
  0 ≤ i →
  agreeing acks b i =
    (if decide (∃ a, acks !! Z.to_nat i = Some (Some a) ∧ aa_ballot a = b)
     then {[i]} else ∅) ∪ agreeing acks b (i + 1).
Proof.
  intros Hi. apply set_eq. intros j. rewrite elem_of_union, !elem_of_agreeing.
  case_decide as D.
  - rewrite elem_of_singleton. split; [|intros [->|?]].
    + intros (? & ? & ?). destruct (decide (j = i)); [by left|right]. split; [done|]. split; [lia|done].
    + destruct D as (a & Ha & Hb). pose proof (lookup_lt_Some _ _ _ Ha).
      split; [lia|]. split; [lia|eauto].
    + intuition lia.
  - split; [intros (? & ? & Ha); right|intros [?|?]; [set_solver|intuition lia]].
    split; [done|]. split; [|done]. destruct (decide (j = i)); [subst; done|lia].
Qed.

Lemma agreeing_end acks b i : Z.of_nat (length acks) ≤ i → agreeing acks b i = ∅.
Proof. intros H. apply set_eq. intros j. rewrite elem_of_agreeing. set_solver by lia. Qed.

Lemma count_acks_ok n i acks b acc c idx :
  (∀ j a, acks !! j = Some (Some a) → aa_is_final a = 0) →
  0 ≤ i → i + Z.of_nat n = Z.of_nat (length acks) →
  ∃ idx', count_acks n i acks b acc c idx = Ret (c + Z.of_nat (size (agreeing acks b i)), idx') ∧
    (agreeing acks b i = ∅ → idx' = idx) ∧
    (agreeing acks b i ≠ ∅ → idx' ∈ agreeing acks b i).
Proof.
  intros Hfin. revert i c idx. induction n as [|n IH]; intros i c idx Hi Hn; simpl.
  { rewrite agreeing_end by lia. exists idx. rewrite size_empty, Z.add_0_r. done. }
  destruct (lookup_lt_is_Some_2 acks (Z.to_nat i)) as [x Hx]; [lia|].
  rewrite (arr_get_ok _ _ x) by done. simpl. rewrite agreeing_step by done.
  assert (i ∉ agreeing acks b (i + 1)) as Hni by (rewrite elem_of_agreeing; lia).
  case_decide as D.
  - destruct D as (a & Ha & Hb). rewrite Hx in Ha. injection Ha as ->.
    rewrite Hb, Z.eqb_refl, (Hfin _ _ Hx). simpl.
    destruct (IH (i + 1) (c + 1) i) as (idx' & -> & He & Hne); [lia..|].
    exists idx'. rewrite size_union, size_singleton by set_solver.
    split; [do 2 f_equal; lia|]. split; [set_solver|]. intros _.
    destruct (decide (agreeing acks b (i + 1) = ∅)) as [E|E]; [rewrite (He E)|pose proof (Hne E)]; set_solver.
  - rewrite (left_id_L ∅ (∪)).
    destruct (IH (i + 1) c idx) as (idx' & E & He & Hne); [lia..|].
    exists idx'. split; [|done]. rewrite <-E. destruct x as [a|]; [|done].
    case_Z; [|done]. exfalso. apply D. eauto.
Qed.

(** Clearing an instance forgets every acknowledgement. *)
Lemma clear_all inst n :
  Z.of_nat (length (li_acks inst)) = n →
  ∃ inst', linstance_clear inst n = Ret inst' ∧ length (li_acks inst') = length (li_acks inst) ∧
    (∀ j a, li_acks inst' !! j ≠ Some (Some a)) ∧ li_iid inst' = 0 ∧ li_final_value inst' = None.
Proof.
  intros Hn. unfold linstance_clear.
  loop_total (λ k (acks : list (option accept_ack)), length acks = length (li_acks inst) ∧
    ∀ j, (Z.of_nat j < k) → ∀ a, acks !! j ≠ Some (Some a)).
  - lia.
  - intros k acks Hk [Hl Hc].
    destruct (lookup_lt_is_Some_2 acks (Z.to_nat k)) as [x Hx]; [lia|].
    rewrite (arr_get_ok _ _ x) by (done || lia). simpl. destruct x as [x|].
    + rewrite arr_set_ok by lia. eexists. split; [done|]. rewrite length_insert.
      split; [done|]. intros j Hj a. destruct (decide (j = Z.to_nat k)) as [->|Hne].
      * by rewrite list_lookup_insert_eq by lia.
      * rewrite list_lookup_insert_ne by done. apply Hc. lia.
    + exists acks. split; [done|]. split; [done|]. intros j Hj a.
      destruct (decide (j = Z.to_nat k)) as [->|Hne]; [by rewrite Hx|]. apply Hc. lia.
  - split; [done|lia].
  - destruct Hloop as [Hl Hc]. eexists. split; [done|]. split; [done|]. split; [|done].
    intros j a Hj. pose proof (lookup_lt_Some _ _ _ Hj). simpl in *. by apply (Hc j ltac:(lia) a).
Qed.

(** ** What a slot has heard *)

(** [heard iid b S inst]: the slot of [iid] is closed, or it has stored, from
every acceptor of [S], an acknowledgement of ballot [b], the last one seen. *)
Definition heard (iid b : Z) (S : gset Z) (inst : linstance) : Prop :=
  li_iid inst = iid ∧
  (li_final_value inst ≠ None ∨
   (li_last_update_ballot inst = b ∧
    ∀ j, j ∈ S → ∃ a, li_acks inst !! Z.to_nat j = Some (Some a) ∧ aa_ballot a = b)).

(** A slot that is free has heard nobody; one in use has heard [S]. *)
Definition slot_heard (iid b : Z) (S : gset Z) (inst : linstance) : Prop :=
  heard iid b S inst ∨ (li_iid inst = 0 ∧ S = ∅).

(** Storing an acknowledgement of the same ballot, or of an acceptor that
already has one of it. *)
Lemma heard_add iid b S inst inst' ack :
  heard iid b S inst → li_final_value inst = None → aa_ballot ack = b →
  0 ≤ aa_acceptor_id ack < Z.of_nat (length (li_acks inst)) →
  li_iid inst' = li_iid inst → li_last_update_ballot inst' = aa_ballot ack →
  li_acks inst' = <[Z.to_nat (aa_acceptor_id ack) := Some ack]> (li_acks inst) →
  heard iid b ({[aa_acceptor_id ack]} ∪ S) inst'.
Proof.
  intros [Hi Hc] Hf Hb Hid Ei Eb Ea. split; [congruence|right]. split; [congruence|].
  destruct Hc as [?|[_ Hs]]; [done|]. rewrite Ea. intros j Hj.
  destruct (decide (Z.to_nat j = Z.to_nat (aa_acceptor_id ack))) as [->|Hne].
  - rewrite list_lookup_insert_eq by lia. eauto.
  - rewrite list_lookup_insert_ne by done. apply Hs. set_solver.
Qed.

Lemma heard_again iid b S inst id a :
  heard iid b S inst → 0 ≤ id → li_acks inst !! Z.to_nat id = Some (Some a) → aa_ballot a = b →
  heard iid b ({[id]} ∪ S) inst.
Proof.
  intros [Hi [?|[Hb Hs]]] Hid Ha Hab; (split; [done|]); [by left|right]. split; [done|].
  intros j [->%elem_of_singleton|Hj]%elem_of_union; eauto.
Qed.

Lemma heard_closed iid b S inst : li_iid inst = iid → li_final_value inst ≠ None → heard iid b S inst.
Proof. intros ? ?. split; [done|by left]. Qed.

(** ** The invariant *)

Section invariant.
(** [n] acceptors; [G] holds of the acknowledgements received so far. *)
Context (n : Z) (G : accept_ack → Prop).

(** A quorum of acceptors acknowledged the ballot of [v] in instance [iid]. *)
Definition closed_value (iid : Z) (v : accept_ack) : Prop :=
  G v ∧ aa_iid v = iid ∧
  ∃ S : gset Z, S ⊆ acceptor_set n ∧ paxos_quorum n ≤ Z.of_nat (size S) ∧
    ∀ a, a ∈ S → ∃ ack, G ack ∧ aa_acceptor_id ack = a ∧ aa_iid ack = iid ∧
                        aa_ballot ack = aa_ballot v.

Record linst_inv (inst : linstance) : Prop := {
  ii_len : Z.of_nat (length (li_acks inst)) = n;
  ii_acks : ∀ j a, li_acks inst !! j = Some (Some a) →
    G a ∧ aa_acceptor_id a = Z.of_nat j ∧ aa_iid a = li_iid inst;
  ii_final : ∀ v, li_final_value inst = Some v → closed_value (li_iid inst) v;
}.

Record slot_inv (cur sz k : Z) (inst : linstance) : Prop := {
  si_inst : linst_inv inst;
  si_free : li_iid inst = 0 → li_final_value inst = None;
  si_iid : li_iid inst = 0 ∨ (cur ≤ li_iid inst < cur + sz ∧ li_iid inst mod sz = k);
}.

Record learner_inv (l : learner) (w : list linstance) : Prop := {
  lv_table : table_rep (l_instances l) w;
  lv_n : 1 ≤ n ≤ INT_MAX;
  lv_acceptors : l_acceptors l = n;
  lv_quorum : l_quorum l = paxos_quorum n;
  lv_cur : 0 < l_current_iid l;
  lv_slots : ∀ k inst, 0 ≤ k → w !! Z.to_nat k = Some inst →
    slot_inv (l_current_iid l) (ca_size (l_instances l)) k inst;
  lv_late : l_late_start l ≠ 0 → ∀ inst, inst ∈ w → li_iid inst = 0;
}.

(** Every acknowledgement is well formed; none is marked final. *)
Hypothesis G_ok : ∀ a, G a → aa_is_final a = 0 ∧ 0 < aa_iid a.

Lemma has_quorum_ok l w inst :
  learner_inv l w → linst_inv inst →
  ∃ closed inst', instance_has_quorum l inst = Ret (closed, inst') ∧ linst_inv inst' ∧
    li_iid inst' = li_iid inst ∧ li_acks inst' = li_acks inst ∧
    li_last_update_ballot inst' = li_last_update_ballot inst ∧
    (closed = true ↔ li_final_value inst' ≠ None) ∧
    (closed = false → inst' = inst) ∧
    (li_final_value inst = None →
      (closed = true ↔ paxos_quorum n ≤
        Z.of_nat (size (agreeing (li_acks inst) (li_last_update_ballot inst) 0)))).
Proof using G_ok.
  intros I Hi. unfold instance_has_quorum.
  destruct (li_final_value inst) as [v|] eqn:Ev.
  { exists true, inst. rewrite Ev. do 5 (split; [done|]). split; [by split|]. split; [done|]. by intros [=]. }
  pose proof (lv_n _ _ I) as Hn. pose proof (paxos_quorum_bounds n ltac:(lia)) as Hq.
  pose proof (ii_len _ Hi) as Hlen. rewrite (lv_acceptors _ _ I), (lv_quorum _ _ I).
  edestruct (count_acks_ok (Z.to_nat n) 0 (li_acks inst) (li_last_update_ballot inst) n 0 (-1))
    as (idx & -> & _ & Hidx); [|lia..|].
  { intros j a Hj. by apply G_ok, (ii_acks _ Hi j). }
  simpl. rewrite Z.add_0_l. set (S := agreeing _ _ _) in *. case_Z.
  - assert (S ≠ ∅) as HS by (intros HS; assert (size S = 0%nat) by (by rewrite HS); lia).
    specialize (Hidx HS). pose proof Hidx as Hidx'. unfold S in Hidx'.
    apply elem_of_agreeing in Hidx' as (Hr & _ & a & Ha & Hb).
    rewrite (arr_get_ok (li_acks inst) idx (Some a)) by (done || lia). simpl.
    eexists true, _. split; [done|]. destruct (ii_acks _ Hi _ _ Ha) as (Ga & Haid & Hiid).
    split; [split|]; simpl; [done|apply Hi| |by repeat split].
    intros v [= <-]. split; [done|]. split; [done|]. exists S. split; [|split; [done|]].
    + intros j Hj. apply elem_of_acceptor_set. apply elem_of_agreeing in Hj as (Hj & _). lia.
    + intros j Hj. apply elem_of_agreeing in Hj as (Hjr & _ & aj & Haj & Hbj).
      destruct (ii_acks _ Hi _ _ Haj) as (Gaj & Hid & Hji). exists aj.
      split; [done|]. split; [lia|]. split; [done|congruence].
  - exists false, inst. do 5 (split; [done|]). rewrite Ev. split; [by split|]. split; [done|]. intros _. split; [done|lia].
Qed.

(** The slot of an instance inside the window holds it or is free. *)
Lemma get_instance_ok l w iid :
  learner_inv l w → 0 < iid ≤ INT_MAX →
  l_current_iid l ≤ iid < l_current_iid l + ca_size (l_instances l) →
  ∃ inst, learner_get_instance l iid = Ret inst ∧
    w !! Z.to_nat (iid mod ca_size (l_instances l)) = Some inst ∧
    slot_inv (l_current_iid l) (ca_size (l_instances l)) (iid mod ca_size (l_instances l)) inst ∧
    (li_iid inst = 0 ∨ li_iid inst = iid).
Proof.
  intros I Hiid Hw. pose proof (lv_table _ _ I) as [R Hh Hf].
  pose proof (rep_size _ _ R). set (sz := ca_size (l_instances l)) in *.
  pose proof (Z.mod_pos_bound iid sz ltac:(lia)) as Hm.
  destruct (lookup_lt_is_Some_2 w (Z.to_nat (iid mod sz))) as [inst Hinst]; [lia|].
  pose proof (lv_slots _ _ I _ _ (proj1 Hm) Hinst) as Hs.
  assert (li_iid inst = 0 ∨ li_iid inst = iid) as Hcase.
  { destruct (si_iid _ _ _ _ Hs) as [?|[Hr Hmod]]; [by left|right].
    enough (li_iid inst - l_current_iid l = iid - l_current_iid l) by lia.
    apply (mod_add_inj (l_current_iid l) _ _ sz); [lia..|]. by rewrite !Zplus_minus. }
  exists inst. split; [|done]. unfold learner_get_instance.
  rewrite to_int_small by (unfold INT_MIN; lia).
  rewrite (table_at _ w) by (done || lia). fold sz. rewrite Hinst. simpl.
  destruct Hcase as [->| ->]; [by rewrite orb_true_r|by rewrite Z.eqb_refl].
Qed.

(** Replacing the slot of [iid] by an instance that satisfies the invariant. *)
Lemma put_instance_inv l w iid inst :
  learner_inv l w → 0 ≤ iid ≤ INT_MAX → l_late_start l = 0 →
  slot_inv (l_current_iid l) (ca_size (l_instances l)) (iid mod ca_size (l_instances l)) inst →
  learner_inv (learner_put_instance l iid inst)
    (<[Z.to_nat (iid mod ca_size (l_instances l)) := inst]> w).
Proof.
  intros I Hiid Hlate Hs. unfold learner_put_instance.
  rewrite to_int_small by (unfold INT_MIN; lia).
  pose proof (lv_table _ _ I) as T. pose proof T as [R Hh Hf]. pose proof (rep_size _ _ R).
  pose proof (Z.mod_pos_bound iid (ca_size (l_instances l)) ltac:(lia)).
  destruct I. split; simpl; try done.
  - by apply table_poke.
  - intros k i Hk Hi. destruct (decide (k = iid mod ca_size (l_instances l))) as [->|Hne].
    + rewrite list_lookup_insert_eq in Hi by lia. by simplify_eq.
    + rewrite list_lookup_insert_ne in Hi by (intros E%Z2Nat.inj; lia). eauto.
Qed.


Lemma clear_ok inst :
  linst_inv inst → ∃ inst', linstance_clear inst n = Ret inst' ∧ linst_inv inst' ∧ li_iid inst' = 0 ∧
           li_final_value inst' = None.
Proof.
  intros Hi. destruct (clear_all inst n (ii_len _ Hi)) as (inst' & E & Hl & Hc & Hz & Hf).
  exists inst'. split; [done|]. split; [|done].
  split; [rewrite Hl; apply Hi| |rewrite Hf; done]. intros j a Hj. by apply Hc in Hj.
Qed.

Lemma add_accept_ok inst ack :
  linst_inv inst → li_final_value inst = None → G ack → 0 ≤ aa_acceptor_id ack < n →
  aa_iid ack = li_iid inst →
  ∃ inst', instance_add_accept inst ack = Ret inst' ∧ linst_inv inst' ∧
    li_iid inst' = li_iid inst ∧ li_final_value inst' = None ∧
    li_last_update_ballot inst' = aa_ballot ack ∧
    li_acks inst' = <[Z.to_nat (aa_acceptor_id ack) := Some ack]> (li_acks inst).
Proof.
  intros Hi Hf Ga Hid Hiid. unfold instance_add_accept. pose proof (ii_len _ Hi) as Hl.
  rewrite arr_set_ok by lia. eexists. split; [done|]. simpl. rewrite Hf.
  split; [|done]. split; simpl; [by rewrite length_insert| |done].
  intros j a Hj. destruct (decide (j = Z.to_nat (aa_acceptor_id ack))) as [->|Hne].
  - rewrite list_lookup_insert_eq in Hj by lia. simplify_eq. split; [done|]. split; [lia|done].
  - rewrite list_lookup_insert_ne in Hj by done. by apply Hi.
Qed.

(** No instance is stored in a slot that is marked free. *)
Lemma free_slot_open cur sz k inst :
  slot_inv cur sz k inst → li_iid inst = 0 → ∀ b, agreeing (li_acks inst) b 0 = ∅.
Proof using G_ok.
  intros [Hi _ _] Hz b. apply set_eq. intros j. split; [|set_solver].
  intros (_ & _ & a & Ha & _)%elem_of_agreeing. exfalso.
  destruct (ii_acks _ Hi _ _ Ha) as (Ga & _ & E). apply G_ok in Ga. lia.
Qed.

Lemma has_quorum_slot l w cur sz k inst :
  learner_inv l w → slot_inv cur sz k inst →
  ∃ closed inst', instance_has_quorum l inst = Ret (closed, inst') ∧
    slot_inv cur sz k inst' ∧ li_iid inst' = li_iid inst ∧
    (closed = true → li_iid inst ≠ 0 ∧
       ∃ v, li_final_value inst' = Some v ∧ closed_value (li_iid inst) v) ∧
    (closed = false → inst' = inst).
Proof using G_ok.
  intros I Hs. pose proof Hs as [Hi Hf Hsi].
  destruct (has_quorum_ok l w inst I Hi)
    as (closed & inst' & E & Hi' & Hiid & Hacks & _ & Hcl & Hop & Hq).
  exists closed, inst'. split; [done|].
  pose proof (paxos_quorum_bounds n ltac:(destruct (lv_n _ _ I); lia)) as Hb.
  assert (closed = true → li_iid inst ≠ 0) as Hnz.
  { intros Hc Hz. pose proof (proj1 (Hq (Hf Hz)) Hc) as Hle.
    rewrite (free_slot_open _ _ _ _ Hs Hz), size_empty in Hle. lia. }
  split; [|split; [done|split; [|done]]].
  - split; [done| |by rewrite Hiid]. intros Hz. rewrite Hiid in Hz.
    destruct closed; [by destruct (Hnz eq_refl)|]. rewrite (Hop eq_refl). auto.
  - intros Hc. split; [by apply Hnz|]. destruct (li_final_value inst') as [v|] eqn:Ev.
    + exists v. split; [done|]. rewrite <-Hiid. by apply Hi'.
    + by destruct (proj1 Hcl Hc).
Qed.

(** A slot that has heard a majority closes. *)
Lemma heard_quorum l w iid b S inst :
  learner_inv l w → linst_inv inst → heard iid b S inst → S ⊆ acceptor_set n →
  paxos_quorum n ≤ Z.of_nat (size S) → ∃ inst', instance_has_quorum l inst = Ret (true, inst').
Proof using G_ok.
  intros I Hi [_ Hc] HS Hq.
  destruct (has_quorum_ok l w inst I Hi) as (closed & inst' & -> & _ & _ & _ & _ & Hcl & Hop & Hsz).
  exists inst'. destruct (li_final_value inst) as [v|] eqn:Ev.
  { destruct closed; [done|]. rewrite (Hop eq_refl), Ev in Hcl. by discriminate (proj2 Hcl). }
  rewrite (proj2 (Hsz eq_refl)); [done|]. destruct Hc as [?|[-> Hs]]; [done|].
  etransitivity; [exact Hq|]. apply Nat2Z.inj_le, subseteq_size. intros j Hj.
  pose proof (HS j Hj) as Hr%elem_of_acceptor_set. apply elem_of_agreeing.
  rewrite (ii_len _ Hi). split; [done|]. split; [lia|auto].
Qed.

Lemma update_instance_ok l w ack :
  learner_inv l w → l_late_start l = 0 → G ack → 0 ≤ aa_acceptor_id ack < n →
  aa_iid ack ≤ INT_MAX →
  l_current_iid l ≤ aa_iid ack < l_current_iid l + ca_size (l_instances l) →
  ∃ inst, learner_update_instance l ack = Ret (learner_put_instance l (aa_iid ack) inst) ∧
    slot_inv (l_current_iid l) (ca_size (l_instances l))
      (aa_iid ack mod ca_size (l_instances l)) inst ∧ li_iid inst = aa_iid ack ∧
    ∀ S inst0, (∀ a, G a → aa_iid a = aa_iid ack → aa_ballot a = aa_ballot ack) →
      w !! Z.to_nat (aa_iid ack mod ca_size (l_instances l)) = Some inst0 →
      slot_heard (aa_iid ack) (aa_ballot ack) S inst0 →
      heard (aa_iid ack) (aa_ballot ack) ({[aa_acceptor_id ack]} ∪ S) inst.
Proof using G_ok.
  intros I Hlate Ga Hid Hmax Hwin. pose proof (G_ok ack Ga) as [Hfin Hpos].
  destruct (get_instance_ok l w (aa_iid ack) I) as (inst0 & Hg & Hw & [Hi0 Hfree Hsi] & Hc); [lia..|].
  unfold learner_update_instance. rewrite Hg. simpl.
  set (inst := if li_iid inst0 =? 0 then _ else _).
  assert (linst_inv inst ∧ li_iid inst = aa_iid ack) as [Hi Hiid].
  { unfold inst. case_Z; [|destruct Hc; done]. split; [|done].
    destruct Hi0 as [Hl Ha Hf]. split; simpl; [done| |].
    - intros j a Hj. destruct (Ha j a Hj) as (Gj & ? & E). apply G_ok in Gj. lia.
    - intros v Hv. rewrite Hfree in Hv by done. discriminate. }
  assert (∀ S, slot_heard (aa_iid ack) (aa_ballot ack) S inst0 →
    heard (aa_iid ack) (aa_ballot ack) S inst) as Hheard.
  { intros S HS. unfold inst. case_Z; destruct HS as [HS|[Hz ->]]; try done.
    - destruct HS as [HS _]. lia.
    - split; [done|right]. split; [done|set_solver]. }
  assert (∀ inst', linst_inv inst' → li_iid inst' = aa_iid ack →
    slot_inv (l_current_iid l) (ca_size (l_instances l))
      (aa_iid ack mod ca_size (l_instances l)) inst') as Hslot.
  { intros inst' Hi' Hiid'. split; [done|lia|right]. rewrite Hiid'. done. }
  rewrite Hiid, Z.eqb_refl. simpl.
  destruct (has_quorum_ok l w inst I Hi) as (closed & inst' & -> & Hi' & Hiid' & Hacks & _ & Hcl & Hop & _).
  simpl. destruct closed.
  { exists inst'. split; [done|]. split; [apply Hslot; congruence|]. split; [congruence|].
    intros S ? _ _ _. apply heard_closed; [congruence|by apply Hcl]. }
  rewrite (Hop eq_refl) in *.
  assert (li_final_value inst = None) as Hnone.
  { destruct (li_final_value inst); [|done]. destruct Hcl as [_ Hcl]. by discriminate Hcl. }
  destruct (add_accept_ok inst ack Hi Hnone Ga Hid) as (inst2 & Hadd & Hi2 & Hiid2 & _ & Hb2 & Ha2); [done|].
  destruct (arr_get_total (li_acks inst) (aa_acceptor_id ack)) as [prev Hprev].
  { rewrite (ii_len _ Hi). lia. }
  rewrite Hprev. simpl. rewrite Hadd. simpl.
  assert (∀ S inst1, w !! Z.to_nat (aa_iid ack mod ca_size (l_instances l)) = Some inst1 →
    slot_heard (aa_iid ack) (aa_ballot ack) S inst1 →
    heard (aa_iid ack) (aa_ballot ack) ({[aa_acceptor_id ack]} ∪ S) inst2) as Hh2.
  { intros S inst1 Hw1 HS. rewrite Hw in Hw1. injection Hw1 as <-.
    apply (heard_add _ _ _ inst); auto. by rewrite (ii_len _ Hi). }
  destruct prev as [prev|]; [case_Z|];
    eexists; (split; [reflexivity|]); (split; [apply Hslot; congruence|]); (split; [congruence|]);
    [|by eauto..].
  intros S inst1 HG Hw1 HS. rewrite Hw in Hw1. injection Hw1 as <-.
  apply arr_get_inv in Hprev as [_ Hprev]. destruct (ii_acks _ Hi _ _ Hprev) as (Gp & _ & Ep).
  apply (heard_again _ _ _ _ _ prev); [auto|lia|done|apply HG; congruence].
Qed.

Lemma receive_accept_ok l w ack :
  learner_inv l w → G ack → 0 ≤ aa_acceptor_id ack < n → aa_iid ack ≤ INT_MAX →
  l_current_iid l + ca_size (l_instances l) < UINT32_MOD →
  (l_late_start l ≠ 0 → aa_iid ack + ca_size (l_instances l) < UINT32_MOD) →
  ∃ l' w', learner_receive_accept l ack = Ret l' ∧ learner_inv l' w' ∧ l_late_start l' = 0 ∧
    l_current_iid l' = (if l_late_start l =? 0 then l_current_iid l else aa_iid ack) ∧
    ca_size (l_instances l') = ca_size (l_instances l) ∧
    (∀ B, aa_iid ack < B → (∀ i, i ∈ w → li_iid i < B) → ∀ i, i ∈ w' → li_iid i < B) ∧
    let k := Z.to_nat (aa_iid ack mod ca_size (l_instances l)) in
    ∀ S inst, (∀ a, G a → aa_iid a = aa_iid ack → aa_ballot a = aa_ballot ack) →
      l_current_iid l' ≤ aa_iid ack < l_current_iid l' + ca_size (l_instances l) →
      w !! k = Some inst → slot_heard (aa_iid ack) (aa_ballot ack) S inst →
      ∃ inst', w' !! k = Some inst' ∧
        heard (aa_iid ack) (aa_ballot ack) ({[aa_acceptor_id ack]} ∪ S) inst'.
Proof using G_ok.
  intros I Ga Hid Hmax Hroom Hroom'. pose proof (G_ok ack Ga) as [_ Hpos].
  unfold learner_receive_accept.
  set (l1 := if negb (l_late_start l =? 0) then _ else _).
  assert (learner_inv l1 w ∧ l_late_start l1 = 0 ∧ l_current_iid l1 =
    (if l_late_start l =? 0 then l_current_iid l else aa_iid ack) ∧
    ca_size (l_instances l1) = ca_size (l_instances l)) as (I1 & L1 & C1 & S1).
  { unfold l1. destruct (Z.eqb_spec (l_late_start l) 0) as [E|E]; simpl; [done|].
    split; [|done]. destruct I as [? ? ? ? ? Hs Hl]. split; simpl; try done.
    intros k inst Hk Hki. destruct (Hs k inst Hk Hki) as [? ? ?]. split; try done. left.
    apply (Hl E). by eapply list_elem_of_lookup_2. }
  set (l2 := if l_highest_iid_seen l1 <? aa_iid ack then _ else _).
  assert (learner_inv l2 w ∧ l_late_start l2 = 0 ∧ l_current_iid l2 = l_current_iid l1 ∧
    ca_size (l_instances l2) = ca_size (l_instances l)) as (I2 & L2 & C2 & S2).
  { unfold l2. case_Z; [|done]. split; [|done]. destruct I1. by split. }
  assert (l_current_iid l2 + ca_size (l_instances l2) < UINT32_MOD) as Hr2.
  { rewrite C2, S2, C1. case_Z; [done|auto]. }
  rewrite <-C1, <-C2, <-S2. clearbody l1 l2. clear C1 C2 l1 I1 L1 S1. unfold carray_size.
  pose proof (lv_table _ _ I2) as [R2 _ _]. pose proof (rep_size _ _ R2).
  pose proof (lv_cur _ _ I2).
  destruct (Z.ltb_spec (aa_iid ack) (l_current_iid l2)).
  { exists l2, w. do 5 (split; [done|]). split; [auto|]. simpl. lia. }
  rewrite u32_small by (unfold is_u32; lia). case_Z.
  { exists l2, w. do 5 (split; [done|]). split; [auto|]. simpl. lia. }
  destruct (update_instance_ok l2 w ack I2 L2 Ga Hid Hmax) as (inst & -> & Hs & Hiid & Hheard); [lia|].
  simpl. set (l3 := learner_put_instance l2 (aa_iid ack) inst).
  assert (learner_inv l3 (<[Z.to_nat (aa_iid ack mod ca_size (l_instances l2)) := inst]> w))
    as I3 by (apply put_instance_inv; done || lia).
  destruct (get_instance_ok l3 _ (aa_iid ack) I3) as (inst3 & -> & Hw3 & Hs3 & Hc3); [simpl; lia..|].
  pose proof (rep_count _ _ R2). pose proof (lv_table _ _ I2) as [_ _ Hfull].
  pose proof (Z.mod_pos_bound (aa_iid ack) (ca_size (l_instances l2)) ltac:(lia)).
  simpl in Hw3. rewrite list_lookup_insert_eq in Hw3 by lia. injection Hw3 as <-.
  simpl. destruct (has_quorum_slot l3 _ _ _ _ inst I3 Hs3)
    as (closed & inst4 & -> & Hs4 & Hiid4 & Hcl4 & Hop4).
  simpl. set (l4 := learner_put_instance l3 (aa_iid ack) inst4).
  assert (learner_inv l4 (<[Z.to_nat (aa_iid ack mod ca_size (l_instances l2)) := inst4]>
    (<[Z.to_nat (aa_iid ack mod ca_size (l_instances l2)) := inst]> w))) as I4.
  { apply (put_instance_inv l3); [exact I3|lia|exact L2|exact Hs4]. }
  set (l5 := if closed && (l_highest_iid_closed l2 <? li_iid inst4)
             then set_closed (li_iid inst4) l4 else l4).
  assert (∀ S, heard (aa_iid ack) (aa_ballot ack) S inst →
    heard (aa_iid ack) (aa_ballot ack) S inst4) as Hh4.
  { intros S HS. destruct closed; [|by rewrite Hop4].
    destruct (Hcl4 eq_refl) as (_ & v & Hv & _). apply heard_closed; congruence. }
  exists l5, (<[Z.to_nat (aa_iid ack mod ca_size (l_instances l2)) := inst4]>
    (<[Z.to_nat (aa_iid ack mod ca_size (l_instances l2)) := inst]> w)).
  split; [by unfold l5; destruct (closed && _)|].
  split; [unfold l5; destruct (closed && _); destruct I4; by split|].
  do 3 (split; [unfold l5; destruct (closed && _); done|]).
  split; [intros B HB Hall i [->|[->|?]%elem_of_list_insert_inv]%elem_of_list_insert_inv; [lia..|auto]|].
  intros S inst0 HG _ Hk HS. exists inst4.
  rewrite list_lookup_insert_eq by (rewrite length_insert; lia). eauto.
Qed.

Lemma deliver_next_ok l w :
  learner_inv l w → l_current_iid l ≤ INT_MAX →
  ∃ l' w' o, learner_deliver_next l = Ret (l', o) ∧ learner_inv l' w' ∧
    ca_size (l_instances l') = ca_size (l_instances l) ∧
    (∀ B, 0 < B → (∀ i, i ∈ w → li_iid i < B) →
       (∀ i, i ∈ w' → li_iid i < B) ∧ (o ≠ None → l_current_iid l < B)) ∧
    match o with
    | None => l' = l ∧ ∀ b S inst,
        w !! Z.to_nat (l_current_iid l mod ca_size (l_instances l)) = Some inst →
        heard (l_current_iid l) b S inst → S ⊆ acceptor_set n →
        Z.of_nat (size S) < paxos_quorum n
    | Some v => closed_value (l_current_iid l) v ∧ l_current_iid l' = l_current_iid l + 1 ∧
                l_late_start l' = 0 ∧ l_late_start l = 0
    end.
Proof using G_ok.
  intros I Hmax. pose proof (lv_table _ _ I) as [R _ Hfull]. pose proof (rep_size _ _ R).
  pose proof (lv_cur _ _ I). pose proof (lv_n _ _ I).
  unfold learner_deliver_next, learner_get_current_instance.
  destruct (get_instance_ok l w (l_current_iid l) I) as (inst & -> & Hw & Hs & Hc); [lia..|].
  simpl. destruct (has_quorum_slot l w _ _ _ inst I Hs)
    as (closed & inst' & Eq & Hs' & Hiid & Hcl & _). rewrite Eq. simpl.
  destruct closed; [|exists l, w, None; do 3 (split; [done|]); split; [done|split; [done|]]].
  2: { intros b S inst0 Hw0 Hh HS. rewrite Hw in Hw0. injection Hw0 as <-.
       apply Z.nle_gt. intros Hq.
       destruct (heard_quorum l w _ b S inst I (si_inst _ _ _ _ Hs) Hh HS Hq). congruence. }
  destruct (Hcl eq_refl) as (Hnz & v & Hv & Hcv). rewrite Hv. simpl.
  destruct Hc as [Hc|Hc]; [done|]. rewrite Hc in Hcv.
  rewrite (lv_acceptors _ _ I).
  destruct (clear_ok inst' (si_inst _ _ _ _ Hs')) as (cl & -> & Hicl & Hzcl & Hfcl).
  simpl. assert (l_late_start l = 0) as Hlate.
  { destruct (decide (l_late_start l = 0)) as [E|E]; [done|].
    pose proof (lv_late _ _ I E inst ltac:(by eapply list_elem_of_lookup_2)). lia. }
  assert (learner_inv (learner_put_instance l (l_current_iid l) cl)
    (<[Z.to_nat (l_current_iid l mod ca_size (l_instances l)) := cl]> w)) as I1.
  { apply put_instance_inv; [done|lia|done|]. split; [done|done|by left]. }
  assert (u32 (l_current_iid l + 1) = l_current_iid l + 1) as ->.
  { apply u32_small. unfold is_u32, UINT32_MOD, INT_MAX in *. lia. }
  eexists _, (<[Z.to_nat (l_current_iid l mod ca_size (l_instances l)) := cl]> w), (Some v).
  split; [done|]. split; [|split; [done|split; [|done]]].
  2: { intros B HB Hall. split.
       - intros i [->|Hi]%elem_of_list_insert_inv; [lia|auto].
       - intros _. rewrite <-Hc. apply Hall. by eapply list_elem_of_lookup_2. }
  pose proof (Z.mod_pos_bound (l_current_iid l) (ca_size (l_instances l)) ltac:(lia)).
  destruct I1 as [T1 ? ? ? ? Hslots1 ?]. split; simpl; try done; [lia|].
  intros k i Hk Hi. destruct (Hslots1 k i Hk Hi) as [Hi1 Hi2 Hi3]. simpl in Hi3.
  split; [done|done|]. destruct Hi3 as [?|[Hr Hm]]; [by left|right]. split; [|done].
  destruct (decide (li_iid i = l_current_iid l)) as [E|E]; [|lia]. exfalso.
  rewrite E in Hm. subst k. rewrite list_lookup_insert_eq in Hi by lia. simplify_eq. lia.
Qed.

End invariant.

(** More acknowledgements only weaken what is known of the stored ones. *)
Lemma learner_inv_mono n (G G' : accept_ack → Prop) l w :
  (∀ a, G a → G' a) → learner_inv n G l w → learner_inv n G' l w.
Proof.
  intros HG [? ? ? ? ? Hs ?]. split; try done. intros k inst Hk Hi.
  destruct (Hs k inst Hk Hi) as [[Hl Ha Hf] ? ?]. split; [split|done|done]; [done| |].
  - intros j a (? & ? & ?)%Ha. auto.
  - intros v (? & ? & S & ? & ? & HS)%Hf. split; [auto|]. split; [done|]. exists S.
    split; [done|]. split; [done|]. intros a (ack & ? & ?)%HS. eauto.
Qed.

Lemma linstance_new_inv n G : 0 ≤ n → linst_inv n G (linstance_new n).
Proof.
  intros Hn. split; simpl; [rewrite length_replicate; lia| |done].
  intros j a Hj. by apply lookup_replicate in Hj as [? _].
Qed.

Lemma learner_new_ok cfg n G :
  1 ≤ n ≤ INT_MAX → 0 < learner_instances cfg ≤ INT_MAX →
  ∃ l w, learner_new cfg n = Ret l ∧ learner_inv n G l w ∧
    l_current_iid l = 1 ∧ ca_size (l_instances l) = learner_instances cfg ∧
    (learner_catch_up cfg ≠ 0 → l_late_start l = 0) ∧ (∀ i, i ∈ w → li_iid i = 0).
Proof.
  intros Hn Hsz. unfold learner_new, initialize_instances.
  destruct (fill_ok (λ _, linstance_new n) _ Hsz) as (c0 & c & Hc0 & Hc & T & Sc).
  rewrite Hc0. simpl. destruct (rep_new _ _ Hsz Hc0) as (_ & Sc0 & _).
  unfold carray_size. rewrite Sc0, Hc. simpl.
  assert (∀ k inst, ((λ _, linstance_new n) <$> seqZ 0 (learner_instances cfg)) !! k = Some inst →
    inst = linstance_new n) as Hall.
  { intros k inst (? & -> & _)%list_lookup_fmap_Some. done. }
  eexists _, _. split; [done|]. split; [|split; [done|split; [done|]]].
  - split; simpl; try done.
    + intros k inst _ ->%Hall. split; [apply linstance_new_inv; lia|done|by left].
    + intros _ inst [k ->%Hall]%list_elem_of_lookup. done.
  - simpl. split; [intros Hcu; case_Z; done|]. by intros inst [k ->%Hall]%list_elem_of_lookup.
Qed.

(** ** Runs of a learner *)

Inductive levent : Type := Receive (ack : accept_ack) | Deliver.

(** The values delivered by a sequence of calls. *)
Fixpoint learner_run (l : learner) (evs : list levent) : res (learner * list accept_ack) :=
  match evs with
  | [] => Ret (l, [])
  | Receive ack :: evs' => l ← learner_receive_accept l ack; learner_run l evs'
  | Deliver :: evs' =>
      '(l, o) ← learner_deliver_next l;
      '(l, vs) ← learner_run l evs';
      Ret (l, match o with Some v => v :: vs | None => vs end)
  end.

(** A well-formed acknowledgement for one of [n] acceptors and an instance
small enough for the learner's [int] arithmetic. *)
Record ack_ok (n sz : Z) (a : accept_ack) : Prop := {
  ao_final : aa_is_final a = 0;
  ao_iid : 0 < aa_iid a;
  ao_room : aa_iid a + sz ≤ INT_MAX;
  ao_id : 0 ≤ aa_acceptor_id a < n;
}.

Section runs.
Context (n sz : Z) (G : accept_ack → Prop).
Hypothesis G_ok : ∀ a, G a → ack_ok n sz a.

Lemma learner_run_inv evs l w :
  (∀ a, Receive a ∈ evs → G a) → learner_inv n G l w → ca_size (l_instances l) = sz →
  l_current_iid l + sz ≤ INT_MAX + 1 →
  ∃ l' vs start, learner_run l evs = Ret (l', vs) ∧
    (l_late_start l = 0 → start = l_current_iid l) ∧
    aa_iid <$> vs = seqZ start (Z.of_nat (length vs)) ∧
    (∀ v, v ∈ vs → closed_value n G (aa_iid v) v).
Proof using G_ok.
  assert (∀ a, G a → aa_is_final a = 0 ∧ 0 < aa_iid a) as G1 by (intros a []%G_ok; done).
  revert l w. induction evs as [|[ack|] evs IH]; intros l w HG I Hsz Hcur; simpl.
  { exists l, [], (l_current_iid l). rewrite seqZ_nil by done. do 3 (split; [done|]).
    by intros v ?%not_elem_of_nil. }
  - assert (G ack) as Ga by (apply HG; by left). destruct (G_ok ack Ga) as [? ? ? ?].
    pose proof (lv_table _ _ _ _ I) as [R _ _]. pose proof (rep_size _ _ R).
    unfold INT_MAX, UINT32_MOD in *.
    destruct (receive_accept_ok n G G1 l w ack I Ga) as (l1 & w1 & E & I1 & L1 & C1 & S1 & _);
      [unfold INT_MAX, UINT32_MOD; lia..|].
    rewrite E. simpl.
    destruct (IH l1 w1) as (l2 & vs & start & E2 & Hst & Hseq & Hcl); [|done|congruence| |].
    { intros a Ha. apply HG. by right. }
    { rewrite C1. unfold INT_MAX in *. case_Z; lia. }
    exists l2, vs, start. split; [done|]. split; [|done].
    intros L0. rewrite Hst, C1, L0; done.
  - pose proof (lv_table _ _ _ _ I) as [R _ _]. pose proof (rep_size _ _ R).
    destruct (deliver_next_ok n G G1 l w I) as (l1 & w1 & o & E & I1 & S1 & _ & Ho); [lia|].
    rewrite E. simpl. assert (∀ a, Receive a ∈ evs → G a) as HG' by (intros; apply HG; by right).
    destruct o as [v|].
    + destruct Ho as (Hcv & C1 & L1 & _). destruct Hcv as (Gv & Hiv & HS).
      destruct (G_ok v Gv) as [? ? ? ?].
      destruct (IH l1 w1) as (l2 & vs & start & E2 & Hst & Hseq & Hcl); [done|done|congruence|lia|].
      rewrite E2. simpl. exists l2, (v :: vs), (l_current_iid l). split; [done|]. split; [done|].
      specialize (Hst L1). split.
      * rewrite fmap_cons, Hseq, Hiv, Hst, C1. rewrite (seqZ_cons (l_current_iid l)) by (simpl; lia).
        do 2 f_equal; simpl; lia.
      * intros u [->|Hu]%elem_of_cons; [|by auto]. split; [done|]. by rewrite Hiv.
    + destruct Ho as [-> _]. destruct (IH l w1) as (l2 & vs & start & E2 & Hst & Hseq & Hcl);
        [done|done|congruence|lia|].
      rewrite E2. simpl. exists l2, vs, start. done.
Qed.

End runs.

(** ** Properties *)

(** C24: a learner fed with well-formed acknowledgements, in any order, with
any duplicates and interleaved with deliveries, never fails an assertion nor
faults; it delivers the instances in order without gaps, from instance 1 on
when catch-up is on, and each value it delivers was acknowledged, in its
instance and with its ballot, by a majority of the acceptors. *)
Theorem learner_run_in_order cfg n evs :
  1 ≤ n ≤ INT_MAX → 0 < learner_instances cfg ≤ INT_MAX - 1 →
  (∀ a, Receive a ∈ evs → ack_ok n (learner_instances cfg) a) →
  ∃ l l' vs start, learner_new cfg n = Ret l ∧ learner_run l evs = Ret (l', vs) ∧
    (learner_catch_up cfg ≠ 0 → start = 1) ∧
    aa_iid <$> vs = seqZ start (Z.of_nat (length vs)) ∧
    (∀ v, v ∈ vs → closed_value n (λ a, Receive a ∈ evs) (aa_iid v) v).
Proof.
  intros Hn Hsz Hevs.
  destruct (learner_new_ok cfg n (λ a, Receive a ∈ evs)) as (l & w & E & I & C & S & L & _);
    [done|lia|].
  destruct (learner_run_inv n (learner_instances cfg) (λ a, Receive a ∈ evs) Hevs evs l w)
    as (l' & vs & start & E' & Hst & Hseq & Hcl); [done|done|done|lia|].
  exists l, l', vs, start. split; [done|]. split; [done|]. split; [|done].
  intros Hcu. rewrite Hst; auto.
Qed.

Definition cfg4 : paxos_config :=
  PaxosConfig 2 4 1 1 128 0 0 "" "" 0.

Lemma learner_run_in_order_witness :
  let evs := [Receive (AcceptAck 1 2 101 101 0 [x41]); Receive (AcceptAck 2 2 101 101 0 [x41]);
              Deliver; Receive (AcceptAck 0 1 12 12 0 [x42]);
              Receive (AcceptAck 2 1 12 12 0 [x42]); Deliver; Deliver] in
  ∃ l l' vs start, learner_new cfg4 3 = Ret l ∧ learner_run l evs = Ret (l', vs) ∧
    (learner_catch_up cfg4 ≠ 0 → start = 1) ∧
    aa_iid <$> vs = seqZ start (Z.of_nat (length vs)) ∧
    (∀ v, v ∈ vs → closed_value 3 (λ a, Receive a ∈ evs) (aa_iid v) v).
Proof.
  intros evs. apply (learner_run_in_order cfg4 3 evs); [split; vm_compute; congruence..|].
  intros a Ha. unfold evs in Ha. repeat (apply elem_of_cons in Ha as [Ha|Ha];
    [try discriminate Ha; injection Ha as ->; split; vm_compute; intuition congruence|]).
  by apply not_elem_of_nil in Ha.
Defined.
