(* ===== verification/Synod.v ===== *)
(** * Single-decree consensus, abstractly

The protocol that the acceptors and proposers are meant to follow in each
instance, as a transition system over the messages sent so far.  It keeps no
state but the messages: a promise of acceptor [a] for ballot [b] reports the
highest ballot [vb] at which it voted (0 when it has not), and a request for
ballot [b] is justified by the promises of a majority.

The rule for requests is the one the code implements: a proposer that has been
preempted keeps the value and the value ballot it learnt in an earlier round,
so the value of a request is one that was requested at some ballot [k] below
[b], not below any ballot the majority reports; [k] itself need not be reported
by the majority.

[System] shows that the C code refines this protocol instance by instance. *)

From S2P Require Import Prelude Quorum.
#[local] Open Scope Z_scope.

Section synod.
Context {V : Type} (n : Z).
Hypothesis n_pos : 1 ≤ n.

Inductive smsg : Type :=
  | Promise (a b vb : Z) (w : V)
  | Request (b : Z) (v : V)
  | Vote (a b : Z) (v : V).

Implicit Types M : list smsg.

Definition majority (Q : gset Z) : Prop :=
  Q ⊆ acceptor_set n ∧ paxos_quorum n ≤ Z.of_nat (size Q).

(** Every member of [Q] has promised [b] and reports no vote above [k]. *)
Definition promised_below M (Q : gset Z) (b k : Z) : Prop :=
  ∀ a, a ∈ Q → ∃ vb w, Promise a b vb w ∈ M ∧ vb ≤ k.

(** When a request of [v] at [b] is justified. *)
Definition justified M (b : Z) (v : V) : Prop :=
  ∃ Q k, majority Q ∧ promised_below M Q b k ∧ k < b ∧ (k ≤ 0 ∨ Request k v ∈ M).

Inductive sstep : list smsg → list smsg → Prop :=
  | s_again M m : m ∈ M → sstep M (m :: M)
  | s_promise M a b vb w :
      0 ≤ vb < b → (vb = 0 ∨ Vote a vb w ∈ M) →
      (∀ c v, Vote a c v ∈ M → c ≤ vb ∨ b ≤ c) →
      sstep M (Promise a b vb w :: M)
  | s_request M b v :
      0 < b → (∀ v', Request b v' ∈ M → v' = v) → justified M b v →
      sstep M (Request b v :: M)
  | s_vote M a b v :
      Request b v ∈ M → (∀ b' vb w, Promise a b' vb w ∈ M → b' ≤ b) →
      sstep M (Vote a b v :: M).

(** [v] is chosen at ballot [b] when a majority voted for it. *)
Definition chosen M (b : Z) (v : V) : Prop :=
  ∃ Q, majority Q ∧ ∀ a, a ∈ Q → Vote a b v ∈ M.

Record synod_inv M : Prop := {
  sv_vote : ∀ a b v, Vote a b v ∈ M → Request b v ∈ M;
  sv_request : ∀ b v v', Request b v ∈ M → Request b v' ∈ M → v = v';
  sv_just : ∀ b v, Request b v ∈ M → 0 < b ∧ justified M b v;
  sv_promise : ∀ a b vb w, Promise a b vb w ∈ M →
    ∀ c v, Vote a c v ∈ M → c ≤ vb ∨ b ≤ c;
}.

Lemma justified_mono M m b v : justified M b v → justified (m :: M) b v.
Proof.
  intros (Q & k & HQ & Hp & Hk & Hv). exists Q, k. split; [done|]. split; [|split; [done|]].
  - intros a Ha. destruct (Hp a Ha) as (vb & w & ? & ?). exists vb, w. split; [by right|done].
  - destruct Hv; [by left|right; by right].
Qed.

Lemma synod_inv_nil : synod_inv [].
Proof. split; intros *; by intros ?%not_elem_of_nil. Qed.

(** Adding a message that says nothing new about requests. *)
Ltac old_or_new H := apply elem_of_cons in H as [H|H]; [try discriminate H; simplify_eq|].

Lemma synod_inv_step M M' : synod_inv M → sstep M M' → synod_inv M'.
Proof.
  intros [I1 I2 I3 I4] Hs. destruct Hs as [M m Hm|M a b vb w Hb Hvb Hno|M b v Hb Hf Hj|M a b v Hr Hp].
  - assert (∀ x, x ∈ m :: M ↔ x ∈ M) as E.
    { intros x. rewrite elem_of_cons. split; [intros [->|]|]; auto. }
    split.
    + intros a b v. rewrite !E. eauto.
    + intros b v v'. rewrite !E. eauto.
    + intros b v H%E. destruct (I3 _ _ H). split; [done|]. by apply justified_mono.
    + intros a b vb w H%E c v H'%E. eauto.
  - split.
    + intros a' c v H. old_or_new H. right. eauto.
    + intros c v v' H H'. old_or_new H. old_or_new H'. eauto.
    + intros c v H. old_or_new H. destruct (I3 _ _ H). split; [done|]. by apply justified_mono.
    + intros a' b' vb' w' H c v H'. old_or_new H'. old_or_new H; eauto.
  - split.
    + intros a' c v' H. old_or_new H. right. eauto.
    + intros c v1 v2 H H'. old_or_new H; old_or_new H'; eauto. symmetry; eauto.
    + intros c v' H. old_or_new H; [by split; [|apply justified_mono]|].
      destruct (I3 _ _ H). split; [done|]. by apply justified_mono.
    + intros a' b' vb' w' H c v' H'. old_or_new H. old_or_new H'. eauto.
  - split.
    + intros a' c v' H. right. old_or_new H; eauto.
    + intros c v1 v2 H H'. old_or_new H; old_or_new H'; eauto.
    + intros c v' H. old_or_new H. destruct (I3 _ _ H). split; [done|]. by apply justified_mono.
    + intros a' b' vb' w' H c v' H'. old_or_new H. old_or_new H'; [right|]; eauto.
Qed.

Lemma synod_inv_reachable M : rtc sstep [] M → synod_inv M.
Proof.
  intros Hr. remember [] as M0 eqn:E0.
  assert (synod_inv M0) as I0 by (subst; apply synod_inv_nil). clear E0.
  induction Hr; eauto using synod_inv_step.
Qed.

(** Once [v] is chosen at [b], every request from [b] on carries [v]. *)
Lemma chosen_requests M b v :
  synod_inv M → chosen M b v → ∀ b' v', b ≤ b' → Request b' v' ∈ M → v' = v.
Proof using n_pos.
  intros [I1 I2 I3 I4] (Q & [HQ HQn] & Hvotes) b'.
  assert (0 < b ∧ Request b v ∈ M) as [Hb0 Hreq].
  { destruct (quorums_meet n Q Q) as (a & Ha & _); [done..|].
    pose proof (I1 _ _ _ (Hvotes a Ha)) as Hr. by destruct (I3 _ _ Hr). }
  remember (Z.to_nat (b' - b)) as d eqn:Ed. revert b' Ed.
  induction d as [d IH] using lt_wf_ind. intros b' Ed v' Hle Hr.
  destruct (decide (b' = b)) as [->|Hne]; [eauto|].
  destruct (I3 _ _ Hr) as [_ (Q' & k & [HQ' HQn'] & Hpb & Hk & Hv)].
  destruct (quorums_meet n Q Q') as (a & Ha & Ha'); [done..|].
  destruct (Hpb a Ha') as (vb & w & Hp & Hvb).
  destruct (I4 _ _ _ _ Hp _ _ (Hvotes a Ha)) as [?|?]; [|lia].
  destruct Hv as [?|Hv]; [lia|]. apply (IH (Z.to_nat (k - b))) with k; [lia|done|lia|done].
Qed.

Lemma chosen_request M b v : synod_inv M → chosen M b v → Request b v ∈ M.
Proof using n_pos.
  intros I (Q & [HQ HQn] & Hv). destruct (quorums_meet n Q Q) as (a & Ha & _); [done..|].
  eapply sv_vote; eauto.
Qed.

Lemma chosen_agree M b v b' v' :
  synod_inv M → chosen M b v → chosen M b' v' → v = v'.
Proof using n_pos.
  intros I C C'. pose proof (chosen_request _ _ _ I C). pose proof (chosen_request _ _ _ I C').
  destruct (decide (b ≤ b')) as [?|?].
  - symmetry. by apply (chosen_requests M b v I C b').
  - apply (chosen_requests M b' v' I C' b); [lia|done].
Qed.

Lemma sstep_incl M M' m : sstep M M' → m ∈ M → m ∈ M'.
Proof. intros []; by right. Qed.

Lemma ssteps_incl M M' m : rtc sstep M M' → m ∈ M → m ∈ M'.
Proof. induction 1; eauto using sstep_incl. Qed.

End synod.
Arguments smsg : clear implicits.

