(* ===== verification/System.v ===== *)
(** * The protocol as a whole

A system of acceptors (over any storage that meets its contract) and
proposers that exchange messages.  Every transition is a call of the C
functions; the network is the list of all messages sent so far, and any
message in it may be delivered any number of times, in any order, or never.
[abs iid] reads the messages of one instance as messages of [Synod]; the
invariant shows that every reachable network is, for every instance, a
reachable state of [Synod], from which agreement follows.

The assumptions of the protocol that the code does not enforce are explicit:
proposer ids are distinct (the map of proposers is indexed by id), a proposer
does not restart, its 32-bit counters do not wrap, and clients submit
non-empty values. *)

From S2P Require Import Prelude Carray Quorum Messages Storage StorageMem Acceptor.
From S2P Require Import Proposer ProposerRun Learner Synod.
#[local] Open Scope Z_scope.

Definition voted (M : list message) (a iid b : Z) (v : bytes) : Prop :=
  MAcceptAck (AcceptAck a iid b b 0 v) ∈ M.

(** What a message says about instance [iid]: a promise reports a lower vote,
an accept acknowledgement with equal ballots is a vote. *)
Definition abs (iid : Z) (m : message) : option (smsg bytes) :=
  match m with
  | MPrepareAck k =>
      if bool_decide (pa_iid k = iid ∧ pa_value_ballot k < pa_ballot k)
      then Some (Promise (pa_acceptor_id k) (pa_ballot k) (pa_value_ballot k) (pa_value k))
      else None
  | MAcceptReq r =>
      if bool_decide (ar_iid r = iid) then Some (Request (ar_ballot r) (ar_value r)) else None
  | MAcceptAck k =>
      if bool_decide (aa_iid k = iid ∧ aa_ballot k = aa_value_ballot k)
      then Some (Vote (aa_acceptor_id k) (aa_ballot k) (aa_value k)) else None
  | _ => None
  end.

Definition absM (iid : Z) (M : list message) : list (smsg bytes) := omap (abs iid) M.

(** ** The messages in flight *)

Record sok (M : list message) : Prop := {
  sk_prep : ∀ r, MPrepareReq r ∈ M → 0 < pr_iid r < UINT32_MOD ∧ 0 < pr_ballot r < UINT32_MOD;
  sk_req : ∀ r, MAcceptReq r ∈ M →
    0 < ar_iid r < UINT32_MOD ∧ 0 < ar_ballot r < UINT32_MOD ∧ MSubmit (ar_value r) ∈ M;
  sk_ack : ∀ k, MPrepareAck k ∈ M →
    0 ≤ pa_value_ballot k ≤ pa_ballot k ∧ (pa_value_ballot k = 0 → pa_value k = []) ∧
    (0 < pa_value_ballot k → pa_value k ≠ [] ∧
       voted M (pa_acceptor_id k) (pa_iid k) (pa_value_ballot k) (pa_value k));
  sk_vote : ∀ k, MAcceptAck k ∈ M → aa_ballot k = aa_value_ballot k →
    aa_is_final k = 0 ∧ requested M (aa_iid k) (aa_ballot k) (aa_value k);
  sk_submit : ∀ v, MSubmit v ∈ M → v ≠ [];
  sk_repeat : ∀ iid, MRepeatReq iid ∉ M;
}.

Section abstraction.
Implicit Types M : list message.

Lemma abs_promise M iid a b vb w :
  Promise a b vb w ∈ absM iid M ↔ MPrepareAck (PrepareAck a iid b vb w) ∈ M ∧ vb < b.
Proof.
  unfold absM. rewrite list_elem_of_omap. split.
  - intros (m & Hm & E). destruct m as [|k| |k| |]; simpl in E; try done; case_bool_decide; simplify_eq.
    destruct H as [<- ?]. by destruct k.
  - intros [Hm Hlt]. eexists. split; [exact Hm|]. simpl. by rewrite bool_decide_eq_true_2.
Qed.

Lemma abs_request M iid b v : Request b v ∈ absM iid M ↔ requested M iid b v.
Proof.
  unfold absM, requested. rewrite list_elem_of_omap. split.
  - intros (m & Hm & E). destruct m as [|k|r|k| |]; simpl in E; try done; case_bool_decide; simplify_eq.
    by destruct r.
  - intros Hm. eexists. split; [exact Hm|]. simpl. by rewrite bool_decide_eq_true_2.
Qed.

Lemma abs_vote M iid a b v : sok M → Vote a b v ∈ absM iid M ↔ voted M a iid b v.
Proof.
  intros HM. unfold absM, voted. rewrite list_elem_of_omap. split.
  - intros (m & Hm & E). destruct m as [|k| |k| |]; simpl in E; try done; case_bool_decide; simplify_eq.
    destruct H as [<- Hb], (sk_vote _ HM k Hm) as [Hf _]; [done|].
    destruct k; simpl in *; by subst.
  - intros Hm. eexists. split; [exact Hm|]. simpl. by rewrite bool_decide_eq_true_2.
Qed.

Lemma voted_mono M m a iid b v : voted M a iid b v → voted (m ++ M) a iid b v.
Proof. intros H. apply elem_of_app. by right. Qed.

Lemma requested_mono M m iid b v : requested M iid b v → requested (m ++ M) iid b v.
Proof. intros H. apply elem_of_app. by right. Qed.

End abstraction.

(** ** What an acceptor knows *)

Record asafe (M : list message) (a : Z) (h : gmap Z acceptor_record) : Prop := {
  as_wf : history_wf a h;
  as_promise : ∀ k, MPrepareAck k ∈ M → pa_acceptor_id k = a →
    ∃ r, h !! pa_iid k = Some r ∧ pa_ballot k ≤ aa_ballot r;
  as_vote : ∀ iid b v, voted M a iid b v →
    ∃ r, h !! iid = Some r ∧ b ≤ aa_value_ballot r;
  as_rec : ∀ iid r, h !! iid = Some r →
    0 < aa_ballot r ∧ (0 < aa_value_ballot r →
      aa_value r ≠ [] ∧ voted M a iid (aa_value_ballot r) (aa_value r));
}.

(** A message that is not an acknowledgement of [a] leaves [a] as it was. *)
Lemma asafe_other M a h out :
  asafe M a h →
  (∀ k, MPrepareAck k ∈ out → pa_acceptor_id k ≠ a) →
  (∀ k, MAcceptAck k ∈ out → aa_acceptor_id k ≠ a) → asafe (out ++ M) a h.
Proof.
  intros [Hw Hp Hv Hr] H1 H2. split; [done|..].
  - intros k [Hk|Hk]%elem_of_app E; [by destruct (H1 k Hk)|auto].
  - intros iid b v [Hk|Hk]%elem_of_app; [by destruct (H2 _ Hk)|eauto].
  - intros iid r E. destruct (Hr iid r E) as [? H]. split; [done|]. intros Hpos.
    destruct (H Hpos). split; [done|]. by apply voted_mono.
Qed.

(** Acceptor [a] answers with the record it holds. *)
Lemma asafe_same_prepare M a h iid r :
  asafe M a h → h !! iid = Some r → asafe (MPrepareAck (prepare_ack_of r) :: M) a h.
Proof.
  intros [Hw Hp Hv Hr] E. pose proof (rw_iid _ _ _ (Hw iid r E)) as Ei. split; [done|..].
  - intros k [Hk|Hk]%elem_of_cons E'; [|auto]. injection Hk as ->. simpl. rewrite Ei. eauto with lia.
  - intros j b v [Hk|Hk]%elem_of_cons; [done|eauto].
  - intros j r' E'. destruct (Hr j r' E') as [? H]. split; [done|]. intros Hpos.
    destruct (H Hpos). split; [done|]. by right.
Qed.

Lemma asafe_same_accept M a h iid r :
  asafe M a h → h !! iid = Some r → asafe (MAcceptAck r :: M) a h.
Proof.
  intros [Hw Hp Hv Hr] E. pose proof (rw_iid _ _ _ (Hw iid r E)) as Ei. split; [done|..].
  - intros k [Hk|Hk]%elem_of_cons E'; [done|auto].
  - intros j b v [Hk|Hk]%elem_of_cons; [|eauto]. injection Hk as <-. simpl in *. subst.
    eexists. split; [exact E|]. simpl. lia.
  - intros j r' E'. destruct (Hr j r' E') as [? H]. split; [done|]. intros Hpos.
    destruct (H Hpos). split; [done|]. by right.
Qed.

(** Acceptor [a] grants a prepare request. *)
Lemma asafe_grant M a h pr :
  asafe M a h → 0 < pr_ballot pr →
  (∀ r, h !! pr_iid pr = Some r → aa_ballot r < pr_ballot pr) →
  let r' := prepared_record a pr (h !! pr_iid pr) in
  asafe (MPrepareAck (prepare_ack_of r') :: M) a (<[pr_iid pr := r']> h).
Proof.
  intros [Hw Hp Hv Hr] Hb Hlt r'.
  assert (history_wf a (<[pr_iid pr := r']> h)) as Hw'.
  { apply history_wf_insert; [done|]. apply prepared_record_wf; [lia|].
    intros r E. split; [by apply Hw|]. apply Z.lt_le_incl. by apply Hlt. }
  assert (aa_ballot r' = pr_ballot pr) as Eb by (unfold r'; by destruct (h !! pr_iid pr)).
  assert (aa_iid r' = pr_iid pr) as Ei.
  { unfold r'. destruct (h !! pr_iid pr) as [r|] eqn:E; [|done]. by apply (Hw _ r E). }
  split; [done|..].
  - intros k Hk E. destruct (decide (pa_iid k = pr_iid pr)) as [Ek|Ek].
    + rewrite Ek, lookup_insert_eq. exists r'. split; [done|]. rewrite Eb.
      apply elem_of_cons in Hk as [Hk|Hk]; [injection Hk as ->; simpl; lia|].
      destruct (Hp k Hk E) as (r & Er & ?). rewrite Ek in Er. pose proof (Hlt r Er). lia.
    + rewrite lookup_insert_ne by done. apply elem_of_cons in Hk as [Hk|Hk]; [|auto].
      injection Hk as ->. simpl in Ek. congruence.
  - intros iid b v [Hk|Hk]%elem_of_cons; [done|]. destruct (Hv _ _ _ Hk) as (r & Er & ?).
    destruct (decide (iid = pr_iid pr)) as [->|Ne]; [|rewrite lookup_insert_ne by done; eauto].
    rewrite lookup_insert_eq. exists r'. split; [done|]. unfold r'. by rewrite Er.
  - intros iid r E. destruct (decide (iid = pr_iid pr)) as [->|Ne].
    + rewrite lookup_insert_eq in E. injection E as <-. split; [lia|]. intros Hpos.
      unfold r' in *. destruct (h !! pr_iid pr) as [r|] eqn:E; simpl in *; [|lia].
      destruct (Hr _ _ E) as [_ H]. destruct (H Hpos). split; [done|]. by right.
    + rewrite lookup_insert_ne in E by done. destruct (Hr _ _ E) as [? H]. split; [done|].
      intros Hpos. destruct (H Hpos). split; [done|]. by right.
Qed.

(** Acceptor [a] votes. *)
Lemma asafe_vote M a h ar :
  asafe M a h → 0 < ar_ballot ar → ar_value ar ≠ [] →
  (∀ r, h !! ar_iid ar = Some r → aa_ballot r ≤ ar_ballot ar) →
  asafe (MAcceptAck (accepted_record a ar) :: M) a (<[ar_iid ar := accepted_record a ar]> h).
Proof.
  intros [Hw Hp Hv Hr] Hb Hne Hle. split.
  - apply history_wf_insert; [done|]. by apply accepted_record_wf.
  - intros k [Hk|Hk]%elem_of_cons E; [done|]. destruct (Hp k Hk E) as (r & Er & ?).
    destruct (decide (pa_iid k = ar_iid ar)) as [Ek|Ne]; [|rewrite lookup_insert_ne by done; eauto].
    rewrite Ek, lookup_insert_eq. eexists. split; [done|]. rewrite Ek in Er.
    pose proof (Hle r Er). simpl. lia.
  - intros iid b v [Hk|Hk]%elem_of_cons.
    + injection Hk as -> -> _ ->. rewrite lookup_insert_eq. eexists. split; [done|]. simpl. lia.
    + destruct (Hv _ _ _ Hk) as (r & Er & ?).
      destruct (decide (iid = ar_iid ar)) as [->|Ne]; [|rewrite lookup_insert_ne by done; eauto].
      rewrite lookup_insert_eq. eexists. split; [done|]. simpl. pose proof (Hle r Er).
      pose proof (rw_ballot _ _ _ (Hw _ _ Er)). lia.
  - intros iid r E. destruct (decide (iid = ar_iid ar)) as [->|Ne].
    + rewrite lookup_insert_eq in E. injection E as <-. simpl. split; [done|]. intros _.
      split; [done|]. by left.
    + rewrite lookup_insert_ne in E by done. destruct (Hr _ _ E) as [? H]. split; [done|].
      intros Hpos. destruct (H Hpos). split; [done|]. by right.
Qed.

(** ** What a proposer knows *)

Section proposer_safety.
Context (n : Z).

(** The promises counted for [i] are in flight and report no vote above the
value ballot of [i]. *)
Definition round_ok (M : list message) (i : instance) : Prop :=
  ∃ S, quorum_rep (i_quorum i) n S ∧ ∀ a, a ∈ S → ∃ vb w,
    MPrepareAck (PrepareAck a (i_iid i) (i_ballot i) vb w) ∈ M ∧
    0 ≤ vb < i_ballot i ∧ vb ≤ i_value_ballot i.

(** The value of [i], when it comes from a promise, was requested before. *)
Definition value_ok (M : list message) (i : instance) : Prop :=
  0 ≤ i_value_ballot i < i_ballot i ∧
  match i_value i with
  | None => i_value_ballot i = 0
  | Some m => MSubmit (m_data m) ∈ M ∧
      (0 < i_value_ballot i → requested M (i_iid i) (i_value_ballot i) (m_data m))
  end.

Definition own (M : list message) (id iid b : Z) (v : bytes) : Prop :=
  requested M iid b v ∧ b mod MAX_N_OF_PROPOSERS = id.

Record psafe (M : list message) (id : Z) (w : pview) : Prop := {
  pf_round : ∀ i, i ∈ v_prepare w → round_ok M i;
  pf_value : ∀ i, i ∈ v_prepare w ++ v_accept w → value_ok M i;
  pf_queue : ∀ m, m ∈ v_values w → MSubmit (m_data m) ∈ M;
  pf_sent : sent_ok (own M id) w;
}.

Lemma round_ok_mono M out i : round_ok M i → round_ok (out ++ M) i.
Proof.
  intros (S & HS & Ha). exists S. split; [done|]. intros a Hin.
  destruct (Ha a Hin) as (vb & w & ? & ?). exists vb, w. split; [|done]. apply elem_of_app. by right.
Qed.

Lemma value_ok_mono M out i : value_ok M i → value_ok (out ++ M) i.
Proof.
  intros [? H]. split; [done|]. destruct (i_value i); [|done]. destruct H as [? H].
  split; [apply elem_of_app; by right|]. intros Hp. apply requested_mono. auto.
Qed.

(** Messages of others leave [id] as it was. *)
Lemma psafe_other M id w out :
  psafe M id w →
  (∀ r, MAcceptReq r ∈ out → ar_ballot r mod MAX_N_OF_PROPOSERS ≠ id) →
  psafe (out ++ M) id w.
Proof.
  intros [H1 H2 H3 H4] Ho. split; [eauto using round_ok_mono|eauto using value_ok_mono| |].
  { intros m Hm. apply elem_of_app. right. auto. }
  eapply sent_ok_iff; [|exact H4]. intros iid b v. unfold own, requested.
  rewrite elem_of_app. split; [tauto|]. intros [[Hr|Hr] Hb]; [|done]. by destruct (Ho _ Hr).
Qed.

Lemma round_ok_fresh M i : quorum_rep (i_quorum i) n ∅ → round_ok M i.
Proof. intros HS. exists ∅. split; [done|]. intros a Ha. by apply not_elem_of_empty in Ha. Qed.

Lemma value_ok_raise M i j :
  value_ok M i → i_iid j = i_iid i → i_value_ballot j = i_value_ballot i →
  i_value j = i_value i → i_ballot i ≤ i_ballot j → value_ok M j.
Proof. intros [? H] E1 E2 E3 Hle. unfold value_ok. rewrite E1, E2, E3. split; [lia|done]. Qed.

Lemma round_ok_same M i j :
  round_ok M i → same_round i j → i_quorum j = i_quorum i → round_ok M j.
Proof. intros H (E1 & E2 & E3 & _) Eq. unfold round_ok. by rewrite E1, E2, E3, Eq. Qed.

(** A promise that counts keeps the instance justified. *)
Lemma promise_safe M id w i q S ack :
  sok M → psafe M id w → i ∈ v_prepare w → i_ballot i mod MAX_N_OF_PROPOSERS = id →
  MPrepareAck ack ∈ M → i_iid i = pa_iid ack → i_ballot i = pa_ballot ack →
  (∀ a, a ∈ S → ∃ vb u, MPrepareAck (PrepareAck a (i_iid i) (i_ballot i) vb u) ∈ M ∧
     0 ≤ vb < i_ballot i ∧ vb ≤ i_value_ballot i) →
  quorum_rep q n ({[pa_acceptor_id ack]} ∪ S) →
  round_ok M (promise_inst q ack i) ∧ value_ok M (promise_inst q ack i).
Proof.
  intros HM [H1 H2 H3 H4] Hin Hown Hack Ei Eb HS Hq.
  destruct (H2 i ltac:(apply elem_of_app; by left)) as [Hvb Hval].
  destruct (sk_ack _ HM ack Hack) as (Hle & Hz & Hpos).
  assert (pa_value_ballot ack < i_ballot i) as Hlt.
  { destruct (decide (pa_value_ballot ack = i_ballot i)) as [E|]; [|lia].
    destruct (Hpos ltac:(lia)) as [_ Hv]. destruct (sk_vote _ HM _ Hv eq_refl) as [_ Hr].
    simpl in Hr. rewrite <-Ei, E in Hr.
    pose proof (so_prep _ _ H4 i _ _ Hin (conj Hr Hown)). lia. }
  assert (i_value_ballot i ≤ i_value_ballot (promise_inst q ack i) ∧
          pa_value_ballot ack ≤ i_value_ballot (promise_inst q ack i) ∧
          value_ok M (promise_inst q ack i)) as (L1 & L2 & Hvok).
  { unfold promise_inst, value_ok. simpl.
    destruct (Z.ltb_spec 0 (value_size (pa_value ack))) as [Hv|Hv]; simpl.
    - apply value_size_pos in Hv.
      assert (0 < pa_value_ballot ack) as Hp0.
      { destruct (decide (pa_value_ballot ack = 0)); [|lia]. by destruct Hv; apply Hz. }
      destruct (Hpos Hp0) as [_ Hvote]. destruct (sk_vote _ HM _ Hvote eq_refl) as [_ Hr].
      simpl in Hr. destruct (i_value i) as [old|] eqn:Ev; simpl; [case_Z; simpl|].
      + split; [lia|]. split; [lia|]. split; [lia|]. split; [by destruct (sk_req _ HM _ Hr) as (_ & _ & ?)|].
        intros _. by rewrite Ei.
      + rewrite Ev. split; [lia|]. split; [lia|]. done.
      + split; [lia|]. split; [lia|]. split; [lia|]. split; [by destruct (sk_req _ HM _ Hr) as (_ & _ & ?)|].
        intros _. by rewrite Ei.
    - assert (pa_value_ballot ack = 0) as E0.
      { destruct (decide (0 < pa_value_ballot ack)) as [Hp|?]; [|lia].
        destruct (Hpos Hp) as [Hne%value_size_pos _]. lia. }
      split; [lia|]. split; [lia|]. done. }
  split; [|done]. exists ({[pa_acceptor_id ack]} ∪ S). rewrite promise_inst_quorum. split; [done|].
  rewrite promise_inst_iid, promise_inst_ballot.
  intros a [->%elem_of_singleton|Ha]%elem_of_union.
  - exists (pa_value_ballot ack), (pa_value ack). split; [rewrite Ei, Eb; by destruct ack|]. lia.
  - destruct (HS a Ha) as (vb & u & ? & ? & ?). exists vb, u. split; [done|]. lia.
Qed.

(** What a proposer's queues hold, without what it has sent. *)
Record qsafe (M : list message) (w : pview) : Prop := {
  qs_round : ∀ i, i ∈ v_prepare w → round_ok M i;
  qs_prepare : ∀ i, i ∈ v_prepare w → value_ok M i;
  qs_accept : ∀ i, i ∈ v_accept w → value_ok M i;
  qs_queue : ∀ m, m ∈ v_values w → MSubmit (m_data m) ∈ M;
}.

Lemma psafe_qsafe M id w : psafe M id w → qsafe M w.
Proof.
  intros [H1 H2 H3 _]. split; try done; intros i Hi; apply H2, elem_of_app; [by left|by right].
Qed.

Lemma qsafe_promise M id nx vs ps acs k i q ack :
  let w := PView nx vs ps acs in
  sok M → psafe M id w → ps !! k = Some i → i_ballot i mod MAX_N_OF_PROPOSERS = id →
  MPrepareAck ack ∈ M → i_iid i = pa_iid ack → i_ballot i = pa_ballot ack →
  quorum_add (i_quorum i) (pa_acceptor_id ack) = Ret (1, q) →
  qsafe M (PView nx (promise_values ack i vs) (<[k := promise_inst q ack i]> ps) acs).
Proof.
  intros w HM HP Hk Hown Hin Hi Hb Hadd. destruct (psafe_qsafe _ _ _ HP) as [Hr Hvp Hva Hq]. simpl in *.
  pose proof (list_elem_of_lookup_2 _ _ _ Hk) as Hki. destruct (Hr i Hki) as (S0 & HS0 & HSa).
  destruct (quorum_add_inv _ _ _ _ _ _ HS0 Hadd) as [_ [(_ & _ & _ & _ & HS0')|(? & _)]]; [|done].
  destruct (promise_safe M id _ i q S0 ack HM HP Hki Hown Hin Hi Hb HSa HS0') as [P1 P2].
  split; simpl; [| |done|].
  - intros x [->|Hx]%elem_of_list_insert_inv; auto.
  - intros x [->|Hx]%elem_of_list_insert_inv; auto.
  - intros m Hm. unfold promise_values in Hm. destruct (i_value i) as [old|] eqn:Eo; [|auto].
    case_match; [|auto]. apply elem_of_app in Hm as [Hm| ->%list_elem_of_singleton]; [auto|].
    destruct (Hvp i Hki) as [_ Hx]. rewrite Eo in Hx. by destruct Hx.
Qed.

Lemma qsafe_accept M nx vs vs' ps acs i v q :
  qsafe M (PView nx vs (i :: ps) acs) →
  (i_value i = Some v ∧ vs' = vs) ∨ (i_value i = None ∧ vs = v :: vs') →
  qsafe M (PView nx vs' ps (acs ++ [accept_inst v q i])).
Proof.
  intros [Hr Hvp Hva Hq] Hval. simpl in *. destruct (Hvp i ltac:(by left)) as [V1 V2]. split; simpl.
  - intros x Hx. apply Hr. by right.
  - intros x Hx. apply Hvp. by right.
  - intros x [Hx| ->%list_elem_of_singleton]%elem_of_app; [auto|].
    split; simpl; [done|]. destruct Hval as [[E _]|[E ->]]; rewrite E in V2; [done|].
    rewrite V2. split; [|lia]. apply Hq. by left.
  - intros m Hm. destruct Hval as [[_ ->]|[_ ->]]; apply Hq; [done|by right].
Qed.

(** An instance of the accept queue is replaced by one of the same round. *)
Lemma qsafe_same_round M nx vs ps acs k i j :
  qsafe M (PView nx vs ps acs) → acs !! k = Some i → same_round i j →
  qsafe M (PView nx vs ps (<[k := j]> acs)).
Proof.
  intros [Hr Hvp Hva Hq] Hk (E1 & E2 & E3 & E4). split; simpl in *; try done.
  intros x [->|Hx]%elem_of_list_insert_inv; auto. pose proof (list_elem_of_lookup_2 _ _ _ Hk).
  eapply value_ok_raise; [by apply (Hva i)|done..|lia].
Qed.

Lemma pmove_qsafe M id w out w' :
  sok M → psafe M id w →
  (∀ i, i ∈ v_prepare w → i_ballot i mod MAX_N_OF_PROPOSERS = id) →
  0 ≤ id → pmove (λ m, m ∈ M) n id w out w' → qsafe M w'.
Proof.
  intros HM HP Hok Hid Hm. pose proof (psafe_qsafe _ _ _ HP) as HQ. pose proof HQ as [Hr Hvp Hva Hq].
  destruct Hm as [w|nx vs ps acs value Hin|nx vs ps acs i Hi Hb Hvn Hvb Hq0
    |nx vs ps acs k i q S ack Hk Hin Hi Hb HSq Hnew Hadd HSq'|nx vs ps acs k i j Hk Hp
    |nx vs vs' ps acs i v q Hmaj Hval Hq0|nx vs ps acs k i j ack Hk Hin Hi Hb Hvb Hj
    |nx vs ps acs k i q ack Hk Hin Hi Hb Hvb Hq0 Hrd|nx vs ps acs k i j ack Hk Hin Hi Hb Hp
    |nx vs ps acs k i j Hk Hj Hjq|nx vs ps acs k i j v Hk Hval Hj]; simpl in *;
    try (pose proof (list_elem_of_lookup_2 _ _ _ Hk) as Hki); try (by split).
  - split; try done. intros m [Hm| ->%list_elem_of_singleton]%elem_of_app; [auto|done].
  - split; simpl; try done; intros x [Hx| ->%list_elem_of_singleton]%elem_of_app; auto.
    + by apply round_ok_fresh.
    + unfold value_ok. rewrite Hvn, Hvb, Hb. unfold MAX_N_OF_PROPOSERS. lia.
  - by apply (qsafe_promise M id nx vs ps acs k i q ack); auto.
  - destruct Hp as (E1 & E2 & E3 & E4 & E5). unfold MAX_N_OF_PROPOSERS in *.
    split; simpl; try done; intros x [->|Hx]%elem_of_list_insert_inv; auto.
    + by apply round_ok_fresh.
    + eapply value_ok_raise; [by apply (Hvp i)|done..|lia].
  - by eapply qsafe_accept.
  - by eapply qsafe_same_round.
  - split; simpl; try done. intros x [_ Hx]%list_elem_of_filter. auto.
  - destruct Hp as (E1 & E2 & E3 & E4 & E5). unfold MAX_N_OF_PROPOSERS in *. split; simpl; try done.
    + intros x [->|Hx]%elem_of_cons; [by apply round_ok_fresh|auto].
    + intros x [->|Hx]%elem_of_cons; [|auto]. eapply value_ok_raise; [by apply (Hva i)|done..|lia].
    + intros x [_ Hx]%list_elem_of_filter. auto.
  - split; simpl; try done; intros x [->|Hx]%elem_of_list_insert_inv; auto.
    + by apply (round_ok_same M i); [apply Hr|..].
    + destruct Hj as (E1 & E2 & E3 & E4). eapply value_ok_raise; [by apply (Hvp i)|done..|lia].
  - by eapply qsafe_same_round.
Qed.

Lemma pmove_psafe M id w out w' :
  sok M → psafe M id w → NoDup (i_iid <$> v_prepare w ++ v_accept w) →
  (∀ i, i ∈ v_prepare w → i_iid i ≤ v_next w ∧ i_ballot i mod MAX_N_OF_PROPOSERS = id) →
  0 ≤ id → Forall (owned id) out → pmove (λ m, m ∈ M) n id w out w' → psafe (out ++ M) id w'.
Proof.
  intros HM HP U Hok Hid HF Hm.
  destruct (pmove_qsafe M id w out w' HM HP) as [C1 C2 C3 C4]; [intros; by apply Hok|done|done|].
  split; [eauto using round_ok_mono| |intros; apply elem_of_app; by auto|].
  { intros i [Hi|Hi]%elem_of_app; eauto using value_ok_mono. }
  eapply sent_ok_iff; [|eapply pmove_sent; [exact U| |apply HP|exact Hm]]; [|intros; by apply Hok].
  intros iid b v. unfold more, own, requested. rewrite elem_of_app. rewrite Forall_forall in HF.
  split; [intros [[? ?]|Hr]; [tauto|]|tauto]. destruct (HF _ Hr) as (_ & _ & ?). tauto.
Qed.

(** Every accept request is a resend or justified by a majority. *)
Lemma pmove_requests M id w out w' r :
  psafe M id w → (∀ i, i ∈ v_prepare w → i_ballot i mod MAX_N_OF_PROPOSERS = id) →
  pmove (λ m, m ∈ M) n id w out w' → MAcceptReq r ∈ out →
  MAcceptReq r ∈ M ∨
  (justified n (absM (ar_iid r) M) (ar_ballot r) (ar_value r) ∧
   ∀ v, ¬ requested M (ar_iid r) (ar_ballot r) v).
Proof.
  intros [H1 H2 H3 H4] Hok Hm Hr. destruct Hm as [| | | |
    |nx vs vs' ps acs i v q Hmaj Hval Hq0| | | | |nx vs ps acs k i j v Hk Hval Hj];
    try (by apply not_elem_of_nil in Hr); apply list_elem_of_singleton in Hr; try discriminate Hr;
    injection Hr as ->; simpl in *.
  - right. split.
    + destruct (H1 i ltac:(by left)) as (S & HS & Ha). pose proof (Hmaj S HS) as Hsz.
      destruct (H2 i ltac:(by left)) as [Hb Hv]. exists S, (i_value_ballot i).
      split; [split; [by eapply quorum_rep_subset|done]|]. split; [|split; [lia|]].
      * intros a Hin. destruct (Ha a Hin) as (vb & u & Hp & ? & ?). exists vb, u.
        split; [|done]. apply abs_promise. split; [done|lia].
      * destruct (decide (0 < i_value_ballot i)) as [Hp|?]; [right|left; lia].
        apply abs_request. destruct Hval as [[E _]|[E _]]; rewrite E in Hv; [by apply Hv|lia].
    + intros u Hu. pose proof (so_prep _ _ H4 i _ u ltac:(by left) (conj Hu (Hok i ltac:(by left)))).
      lia.
  - left. apply (so_sent _ _ H4 i v); [by eapply list_elem_of_lookup_2|done].
Qed.

End proposer_safety.

(** ** The system *)

Section system.
Context {S : Type} `{SS : StorageSpec S} (n : Z).
Hypothesis n_ok : 1 ≤ n ≤ INT_MAX.

Record system : Type := System {
  sys_acceptors : gmap Z (acceptor S);
  sys_proposers : gmap Z proposer;
  sys_net : list message;
}.

Implicit Types s : system.

(** One transition: a client submits a value, an acceptor handles a request it
has received, an acceptor is replaced by one with the same records (it was
restarted on its storage), a proposer performs one operation, with the messages
received. *)
Inductive sys_step : system → system → Prop :=
  | sys_submit s value :
      value ≠ [] →
      sys_step s (System (sys_acceptors s) (sys_proposers s) (MSubmit value :: sys_net s))
  | sys_prepare s a A pr A' p r :
      sys_acceptors s !! a = Some A → MPrepareReq pr ∈ sys_net s →
      acceptor_receive_prepare A pr = Ret (A', p) → rec_load (store A') p = Ret r →
      sys_step s (System (<[a := A']> (sys_acceptors s)) (sys_proposers s)
                    (MPrepareAck (prepare_ack_of r) :: sys_net s))
  | sys_accept s a A ar A' p r :
      sys_acceptors s !! a = Some A → MAcceptReq ar ∈ sys_net s →
      acceptor_receive_accept A ar = Ret (A', p) → rec_load (store A') p = Ret r →
      sys_step s (System (<[a := A']> (sys_acceptors s)) (sys_proposers s)
                    (MAcceptAck r :: sys_net s))
  | sys_repeat s a A iid A' p r :
      sys_acceptors s !! a = Some A → 0 < iid < UINT32_MOD →
      acceptor_receive_repeat A iid = Ret (A', Some p) → rec_load (store A') p = Ret r →
      sys_step s (System (<[a := A']> (sys_acceptors s)) (sys_proposers s)
                    (MAcceptAck r :: sys_net s))
  | sys_repeat_none s a A iid A' :
      sys_acceptors s !! a = Some A → 0 < iid < UINT32_MOD →
      acceptor_receive_repeat A iid = Ret (A', None) →
      sys_step s (System (<[a := A']> (sys_acceptors s)) (sys_proposers s) (sys_net s))
  | sys_restart s a A A' :
      sys_acceptors s !! a = Some A →
      (∀ h, store_rep a (store A) h → store_rep a (store A') h) →
      sys_step s (System (<[a := A']> (sys_acceptors s)) (sys_proposers s) (sys_net s))
  | sys_propose s id p out p' :
      sys_proposers s !! id = Some p →
      no_wrap p (v_prepare (view p)) (v_accept (view p)) →
      pstep (λ m, m ∈ sys_net s) p out p' →
      sys_step s (System (sys_acceptors s) (<[id := p']> (sys_proposers s)) (out ++ sys_net s)).

Record sys_init s : Prop := {
  si_net : sys_net s = [];
  si_acceptors : ∀ a A, sys_acceptors s !! a = Some A → store_rep a (store A) ∅;
  si_proposers : ∀ id p, sys_proposers s !! id = Some p →
    0 ≤ id < MAX_N_OF_PROPOSERS ∧ proposer_new id n = Ret p;
}.

Definition reachable s : Prop := ∃ s0, sys_init s0 ∧ rtc sys_step s0 s.

(** A majority of the acceptors voted for [v] at ballot [b] of [iid]. *)
Definition sys_chosen (M : list message) (iid b : Z) (v : bytes) : Prop :=
  ∃ Q, majority n Q ∧ ∀ a, a ∈ Q → voted M a iid b v.

Record sys_inv s : Prop := {
  iv_acceptors : ∀ a A, sys_acceptors s !! a = Some A →
    ∃ h, store_rep a (store A) h ∧ asafe (sys_net s) a h;
  iv_proposers : ∀ id p, sys_proposers s !! id = Some p →
    ∃ vs ps acs, proposer_inv n p vs ps acs ∧ p_id p = id ∧
      psafe n (sys_net s) id (PView (p_next_prepare_iid p) vs ps acs);
  iv_ok : sok (sys_net s);
  iv_sim : ∀ iid, rtc (sstep n) [] (absM iid (sys_net s));
  iv_from : ∀ k, MAcceptAck k ∈ sys_net s → is_Some (sys_acceptors s !! aa_acceptor_id k);
}.

(** What clients have submitted is the same. *)
Definition only_submits s s' : Prop := ∀ v, MSubmit v ∈ sys_net s' → MSubmit v ∈ sys_net s.

Lemma sys_inv_init s : sys_init s → sys_inv s.
Proof using n_ok.
  intros [Hn Ha Hp]. split; rewrite Hn.
  - intros a A E. exists ∅. split; [auto|].
    split; [apply history_wf_empty|..]; try (by intros k ?%not_elem_of_nil).
    + by intros iid b v ?%not_elem_of_nil.
    + intros iid r E'. by rewrite lookup_empty in E'.
  - intros id p E. destruct (Hp id p E) as [Hid Hnew].
    destruct (proposer_new_inv id n p n_ok Hid Hnew) as (I & Hpid & Hnx).
    exists [], [], []. split; [done|]. split; [done|].
    split; simpl; try (by intros i ?%not_elem_of_nil).
    split; simpl; try (by intros i b v ?%not_elem_of_nil); try (by intros i m ?%not_elem_of_nil).
    + by intros iid b v [?%not_elem_of_nil _].
    + by intros iid b v v' [?%not_elem_of_nil _].
  - split; by intros ? ?%not_elem_of_nil.
  - intros iid. apply rtc_refl.
  - by intros k ?%not_elem_of_nil.
Qed.

(** *** Adding messages *)

Lemma sok_prepare_ack M a r :
  sok M → record_wf a (aa_iid r) r →
  (0 < aa_value_ballot r → aa_value r ≠ [] ∧
     voted M a (aa_iid r) (aa_value_ballot r) (aa_value r)) →
  sok (MPrepareAck (prepare_ack_of r) :: M).
Proof.
  intros [H1 H2 H3 H4 H5 H6] [W1 W2 W3 W4 W5] Hv. split.
  - intros k [?|?]%elem_of_cons; [done|auto].
  - intros k [?|Hk]%elem_of_cons; [done|]. destruct (H2 k Hk) as (? & ? & ?).
    split; [done|]. split; [done|]. by right.
  - intros k [Hk|Hk]%elem_of_cons.
    + injection Hk as ->. simpl. split; [done|]. split; [done|]. intros Hp.
      destruct (Hv Hp). split; [done|]. rewrite W2. by right.
    + destruct (H3 k Hk) as (? & ? & Hp). split; [done|]. split; [done|]. intros Hp0.
      destruct (Hp Hp0). split; [done|]. by right.
  - intros k [?|Hk]%elem_of_cons E; [done|]. destruct (H4 k Hk E). split; [done|]. by right.
  - intros k [?|?]%elem_of_cons; [done|auto].
  - intros iid [?|?]%elem_of_cons; [done|by eapply H6].
Qed.

Lemma sok_accept_ack M r :
  sok M → (aa_ballot r = aa_value_ballot r → aa_is_final r = 0 ∧
     requested M (aa_iid r) (aa_ballot r) (aa_value r)) →
  sok (MAcceptAck r :: M).
Proof.
  intros [H1 H2 H3 H4 H5 H6] Hr. split.
  - intros k [?|?]%elem_of_cons; [done|auto].
  - intros k [?|Hk]%elem_of_cons; [done|]. destruct (H2 k Hk) as (? & ? & ?).
    split; [done|]. split; [done|]. by right.
  - intros k [?|Hk]%elem_of_cons; [done|]. destruct (H3 k Hk) as (? & ? & Hp).
    split; [done|]. split; [done|]. intros Hp0. destruct (Hp Hp0). split; [done|]. by right.
  - intros k [Hk|Hk]%elem_of_cons E.
    + injection Hk as ->. destruct (Hr E). split; [done|]. by right.
    + destruct (H4 k Hk E). split; [done|]. by right.
  - intros k [?|?]%elem_of_cons; [done|auto].
  - intros iid [?|?]%elem_of_cons; [done|by eapply H6].
Qed.

Lemma sok_requests M out :
  sok M → (∀ m, m ∈ out → match m with
    | MPrepareReq r => 0 < pr_iid r < UINT32_MOD ∧ 0 < pr_ballot r < UINT32_MOD
    | MAcceptReq r => 0 < ar_iid r < UINT32_MOD ∧ 0 < ar_ballot r < UINT32_MOD ∧ MSubmit (ar_value r) ∈ M
    | MSubmit v => v ≠ []
    | _ => False end) →
  sok (out ++ M).
Proof.
  intros [H1 H2 H3 H4 H5 H6] Ho. split.
  - intros k [Hk|?]%elem_of_app; [by apply (Ho _ Hk)|auto].
  - intros k [Hk|Hk]%elem_of_app; [destruct (Ho _ Hk) as (? & ? & ?)|destruct (H2 k Hk) as (? & ? & ?)];
      (split; [done|]); (split; [done|]); apply elem_of_app; by right.
  - intros k [Hk|Hk]%elem_of_app; [by destruct (Ho _ Hk)|]. destruct (H3 k Hk) as (? & ? & Hp).
    split; [done|]. split; [done|]. intros Hp0. destruct (Hp Hp0). split; [done|]. by apply voted_mono.
  - intros k [Hk|Hk]%elem_of_app E; [by destruct (Ho _ Hk)|].
    destruct (H4 k Hk E). split; [done|]. by apply requested_mono.
  - intros k [Hk|?]%elem_of_app; [by apply (Ho _ Hk)|auto].
  - intros iid [Hk|?]%elem_of_app; [by apply (Ho _ Hk)|by eapply H6].
Qed.

Lemma sim_cons M m iid :
  rtc (sstep n) [] (absM iid M) →
  (∀ x, abs iid m = Some x → sstep n (absM iid M) (x :: absM iid M)) →
  rtc (sstep n) [] (absM iid (m :: M)).
Proof.
  intros Hr Hs. unfold absM in *. simpl. destruct (abs iid m) as [x|]; [|done].
  eapply rtc_r; [exact Hr|]. by apply Hs.
Qed.

(** An acceptor's reply to a prepare request is a promise of the protocol. *)
Lemma sim_prepare_ack M a h r iid :
  sok M → asafe (MPrepareAck (prepare_ack_of r) :: M) a h → h !! aa_iid r = Some r →
  rtc (sstep n) [] (absM iid M) →
  rtc (sstep n) [] (absM iid (MPrepareAck (prepare_ack_of r) :: M)).
Proof.
  intros HM [Hw Hp Hv Hrec] E Hr. apply sim_cons; [done|]. intros x Hx. simpl in Hx.
  case_bool_decide as Hc; [|done]. destruct Hc as [Hi Hlt]. injection Hx as <-.
  pose proof (Hw _ _ E) as [_ Ha _ Hb _]. destruct (Hrec _ _ E) as [_ Hvote].
  apply s_promise; [lia| |].
  - destruct (decide (0 < aa_value_ballot r)) as [Hpos|?]; [right|left; lia].
    destruct (Hvote Hpos) as [_ [?|Hvt]%elem_of_cons]; [done|]. rewrite Ha, <-Hi. by apply abs_vote.
  - intros c v Hc%abs_vote; [|done]. left. rewrite Ha in Hc.
    destruct (Hv iid c v) as (r' & E' & ?); [by right|]. rewrite Hi in E. by simplify_eq.
Qed.

(** An acceptor's reply to an accept or repeat request is a vote, if it says so. *)
Lemma sim_accept_ack M a h r iid :
  sok M → asafe (MAcceptAck r :: M) a h → h !! aa_iid r = Some r →
  (aa_ballot r = aa_value_ballot r → requested M (aa_iid r) (aa_ballot r) (aa_value r)) →
  rtc (sstep n) [] (absM iid M) → rtc (sstep n) [] (absM iid (MAcceptAck r :: M)).
Proof.
  intros HM [Hw Hp Hv Hrec] E Hreq Hr. apply sim_cons; [done|]. intros x Hx. simpl in Hx.
  case_bool_decide as Hc; [|done]. destruct Hc as [Hi Hb]. injection Hx as <-.
  pose proof (Hw _ _ E) as [_ Ha _ _ _]. apply s_vote.
  - apply abs_request. rewrite <-Hi. auto.
  - intros b vb w [Hin _]%abs_promise. rewrite Ha in Hin.
    destruct (Hp _ ltac:(by right) eq_refl) as (r' & E' & Hle). simpl in *.
    rewrite Hi in E. by simplify_eq.
Qed.

(** What the record of an accept or repeat reply says, when it is a vote that
was cast before. *)
Lemma old_vote_requested M a h iid r :
  sok M → asafe M a h → h !! iid = Some r → aa_ballot r = aa_value_ballot r →
  requested M (aa_iid r) (aa_ballot r) (aa_value r).
Proof.
  intros HM [Hw _ _ Hrec] E Hb. destruct (Hrec _ _ E) as [Hpos Hv].
  destruct (Hv ltac:(lia)) as [_ Hvote]. destruct (sk_vote _ HM _ Hvote eq_refl) as [_ Hr].
  simpl in Hr. by rewrite (rw_iid _ _ _ (Hw _ _ E)), Hb.
Qed.

(** A step of acceptor [a] that adds one acknowledgement. *)
Lemma sys_inv_acceptor s a A' h' m :
  sys_inv s → store_rep a (store A') h' → asafe (m :: sys_net s) a h' → sok (m :: sys_net s) →
  (∀ iid, rtc (sstep n) [] (absM iid (m :: sys_net s))) →
  match m with
  | MPrepareAck k => pa_acceptor_id k = a
  | MAcceptAck k => aa_acceptor_id k = a
  | _ => False end →
  sys_inv (System (<[a := A']> (sys_acceptors s)) (sys_proposers s) (m :: sys_net s)).
Proof.
  intros [Ia Ip _ _ Hf] R' Hs Hok Hsim Hm. split; simpl; [| |done|done|].
  - intros a' A'' E. destruct (decide (a' = a)) as [->|Hne].
    + rewrite lookup_insert_eq in E. simplify_eq. eauto.
    + rewrite lookup_insert_ne in E by done. destruct (Ia a' A'' E) as (h & ? & ?).
      exists h. split; [done|]. apply (asafe_other _ _ _ [m]); [done|..];
        intros k <-%list_elem_of_singleton; congruence.
  - intros id p E. destruct (Ip id p E) as (vs & ps & acs & ? & ? & ?). exists vs, ps, acs.
    split; [done|]. split; [done|]. apply (psafe_other n _ _ _ [m]); [done|].
    by intros r <-%list_elem_of_singleton.
  - intros k [<-|Hk]%elem_of_cons; apply lookup_insert_is_Some'; [by left|by right; apply Hf].
Qed.

Lemma spec_prepare_safe M a h pr :
  asafe M a h → 0 < pr_ballot pr →
  let '(h', r) := spec_prepare a h pr in
  asafe (MPrepareAck (prepare_ack_of r) :: M) a h' ∧ h' !! pr_iid pr = Some r.
Proof.
  intros HA Hb. destruct (spec_prepare_cases a h pr) as [(r & E & -> & _)|[-> Hlt]].
  - split; [by eapply asafe_same_prepare|done].
  - split; [by apply asafe_grant|]. apply lookup_insert_eq.
Qed.

Lemma spec_accept_safe M a h ar :
  sok M → asafe M a h → MAcceptReq ar ∈ M →
  let '(h', r) := spec_accept a h ar in
  asafe (MAcceptAck r :: M) a h' ∧ h' !! ar_iid ar = Some r ∧
  (aa_ballot r = aa_value_ballot r → requested M (aa_iid r) (aa_ballot r) (aa_value r)).
Proof.
  intros HM HA Hin. destruct (sk_req _ HM _ Hin) as (_ & [Hb _] & Hne%(sk_submit _ HM)).
  destruct (spec_accept_cases a h ar) as [(r & E & -> & _)|[-> Hle]].
  - split; [by eapply asafe_same_accept|]. split; [done|]. by eapply old_vote_requested.
  - split; [by apply asafe_vote|]. split; [apply lookup_insert_eq|]. intros _. simpl. by destruct ar.
Qed.

Lemma sys_inv_submit s value :
  sys_inv s → value ≠ [] →
  sys_inv (System (sys_acceptors s) (sys_proposers s) (MSubmit value :: sys_net s)).
Proof.
  intros [Ia Ip Hok Hsim Hf] Hv. split; simpl.
  - intros a A E. destruct (Ia a A E) as (h & ? & ?). exists h. split; [done|].
    apply (asafe_other _ _ _ [_]); [done|..]; by intros k ?%list_elem_of_singleton.
  - intros id p E. destruct (Ip id p E) as (vs & ps & acs & ? & ? & ?). exists vs, ps, acs.
    split; [done|]. split; [done|]. apply (psafe_other n _ _ _ [_]); [done|].
    by intros r ?%list_elem_of_singleton.
  - apply (sok_requests _ [_]); [done|]. by intros m ->%list_elem_of_singleton.
  - exact Hsim.
  - intros k [?|Hk]%elem_of_cons; [done|by apply Hf].
Qed.

Lemma sys_inv_prepare s a A pr A' p r :
  sys_inv s → sys_acceptors s !! a = Some A → MPrepareReq pr ∈ sys_net s →
  acceptor_receive_prepare A pr = Ret (A', p) → rec_load (store A') p = Ret r →
  sys_inv (System (<[a := A']> (sys_acceptors s)) (sys_proposers s)
             (MPrepareAck (prepare_ack_of r) :: sys_net s)).
Proof.
  intros I EA Hin Hrun Hld. pose proof I as [Ia _ Hok Hsim _].
  destruct (Ia a A EA) as (h & R & HA). destruct (sk_prep _ Hok _ Hin) as [Hi Hb].
  destruct (receive_prepare_refines a A h pr A' p R Hi ltac:(unfold is_u32; lia) Hrun) as [R' Hl].
  pose proof (spec_prepare_safe _ a h pr HA (proj1 Hb)) as Hsafe.
  destruct (spec_prepare a h pr) as [h' r'] eqn:Es. simpl in *. rewrite Hl in Hld. simplify_eq.
  destruct Hsafe as [HA' E']. pose proof (as_wf _ _ _ HA' _ _ E') as Hw.
  pose proof (rw_iid _ _ _ Hw) as Ei. pose proof (rw_aid _ _ _ Hw) as Ea.
  rewrite <-Ei in E', Hw. apply (sys_inv_acceptor s a A' h'); [done..| | |done].
  - apply (sok_prepare_ack _ a); [done|done|]. intros Hpos.
    destruct (as_rec _ _ _ HA' _ _ E') as [_ Hv]. by destruct (Hv Hpos) as [? [?|?]%elem_of_cons].
  - intros iid. by apply (sim_prepare_ack _ a h').
Qed.

Lemma sys_inv_accept s a A ar A' p r :
  sys_inv s → sys_acceptors s !! a = Some A → MAcceptReq ar ∈ sys_net s →
  acceptor_receive_accept A ar = Ret (A', p) → rec_load (store A') p = Ret r →
  sys_inv (System (<[a := A']> (sys_acceptors s)) (sys_proposers s) (MAcceptAck r :: sys_net s)).
Proof.
  intros I EA Hin Hrun Hld. pose proof I as [Ia _ Hok Hsim _].
  destruct (Ia a A EA) as (h & R & HA). destruct (sk_req _ Hok _ Hin) as (Hi & Hb & _).
  destruct (receive_accept_refines a A h ar A' p R Hi ltac:(unfold is_u32; lia) Hrun) as [R' Hl].
  pose proof (spec_accept_safe _ a h ar Hok HA Hin) as Hsafe.
  destruct (spec_accept a h ar) as [h' r'] eqn:Es. simpl in *. rewrite Hl in Hld. simplify_eq.
  destruct Hsafe as (HA' & E' & Hreq). pose proof (as_wf _ _ _ HA' _ _ E') as Hw.
  pose proof (rw_aid _ _ _ Hw) as Ea. pose proof (rw_final _ _ _ Hw) as Ef.
  rewrite <-(rw_iid _ _ _ Hw) in E'. apply (sys_inv_acceptor s a A' h'); [done..| | |done].
  - apply sok_accept_ack; [done|]. auto.
  - intros iid. by apply (sim_accept_ack _ a h').
Qed.

Lemma sys_inv_repeat s a A iid A' p r :
  sys_inv s → sys_acceptors s !! a = Some A → 0 < iid < UINT32_MOD →
  acceptor_receive_repeat A iid = Ret (A', Some p) → rec_load (store A') p = Ret r →
  sys_inv (System (<[a := A']> (sys_acceptors s)) (sys_proposers s) (MAcceptAck r :: sys_net s)).
Proof.
  intros I EA Hiid Hrun Hld. pose proof I as [Ia _ Hok Hsim _].
  destruct (Ia a A EA) as (h & R & HA).
  destruct (receive_repeat_refines a A h iid A' (Some p) R Hiid Hrun) as [R' (r' & E' & Hl)].
  rewrite Hl in Hld. simplify_eq. pose proof (as_wf _ _ _ HA _ _ E') as Hw.
  pose proof (rw_aid _ _ _ Hw) as Ea. pose proof (rw_final _ _ _ Hw) as Ef.
  pose proof (old_vote_requested _ _ _ _ _ Hok HA E') as Hreq.
  pose proof (asafe_same_accept _ _ _ _ _ HA E') as HA'.
  rewrite <-(rw_iid _ _ _ Hw) in E'. apply (sys_inv_acceptor s a A' h); [done..| | |done].
  - apply sok_accept_ack; [done|]. auto.
  - intros j. by apply (sim_accept_ack _ a h).
Qed.

Lemma sys_inv_restart s a A A' :
  sys_inv s → sys_acceptors s !! a = Some A →
  (∀ h, store_rep a (store A) h → store_rep a (store A') h) →
  sys_inv (System (<[a := A']> (sys_acceptors s)) (sys_proposers s) (sys_net s)).
Proof.
  intros [Ia Ip Hok Hsim Hf] EA Hkeep. split; simpl; [|done..|].
  - intros a' A'' E. destruct (decide (a' = a)) as [->|Hne].
    + rewrite lookup_insert_eq in E. injection E as <-. destruct (Ia a A EA) as (h & R & HA). eauto.
    + rewrite lookup_insert_ne in E by done. eauto.
  - intros k Hk. apply lookup_insert_is_Some'. right. by apply Hf.
Qed.

Lemma sys_inv_repeat_none s a A iid A' :
  sys_inv s → sys_acceptors s !! a = Some A → 0 < iid < UINT32_MOD →
  acceptor_receive_repeat A iid = Ret (A', None) →
  sys_inv (System (<[a := A']> (sys_acceptors s)) (sys_proposers s) (sys_net s)).
Proof.
  intros I EA Hiid Hrun. apply (sys_inv_restart s a A A' I EA). intros h R.
  by destruct (receive_repeat_refines a A h iid A' None R Hiid Hrun) as [R' _].
Qed.

(** The requests a proposer adds are requests of the protocol. *)
Lemma sim_requests M out iid :
  Forall (λ m, (∃ r, m = MPrepareReq r) ∨ ∃ r, m = MAcceptReq r ∧ 0 < ar_ballot r ∧
    (MAcceptReq r ∈ M ∨
     (justified n (absM (ar_iid r) M) (ar_ballot r) (ar_value r) ∧
      ∀ v, ¬ requested M (ar_iid r) (ar_ballot r) v))) out →
  (length out ≤ 1)%nat → rtc (sstep n) [] (absM iid M) → rtc (sstep n) [] (absM iid (out ++ M)).
Proof.
  intros HF Hlen Hr. destruct out as [|m [|? ?]]; [done| |simpl in Hlen; lia].
  apply Forall_cons in HF as [HF _]. apply sim_cons; [done|]. intros x Hx.
  destruct HF as [[r ->]|(r & -> & Hb & Hj)]; simpl in Hx; [done|].
  case_bool_decide as Ei; [|done]. injection Hx as <-. destruct Hj as [Hin|[Hj Hnew]].
  - apply s_again, abs_request. rewrite <-Ei. unfold requested. by destruct r.
  - rewrite Ei in Hj, Hnew. apply s_request; [done| |done].
    intros v' Hv'%abs_request. by destruct (Hnew v').
Qed.

Lemma pmove_single inp id w out w' : pmove inp n id w out w' → (length out ≤ 1)%nat.
Proof. intros []; simpl; lia. Qed.

(** A value a proposer requests was submitted. *)
Lemma pmove_value M id w out w' r :
  psafe n M id w → pmove (λ m, m ∈ M) n id w out w' → MAcceptReq r ∈ out → MSubmit (ar_value r) ∈ M.
Proof.
  intros [_ Hv Hq _] Hm Hr. destruct Hm as [| | | |
    |nx vs vs' ps acs i v q Hmaj Hval Hq0| | | | |nx vs ps acs k i j v Hk Hval Hj];
    try (by apply not_elem_of_nil in Hr); apply list_elem_of_singleton in Hr; try discriminate Hr;
    injection Hr as ->; simpl in *.
  - destruct Hval as [[E _]|[_ ->]]; [|apply Hq; by left].
    destruct (Hv i ltac:(by left)) as [_ H0]. rewrite E in H0. by destruct H0.
  - destruct (Hv i) as [_ H0]; [apply elem_of_app; right; by eapply list_elem_of_lookup_2|].
    rewrite Hval in H0. by destruct H0.
Qed.

Lemma sys_inv_propose s id p out p' :
  sys_inv s → sys_proposers s !! id = Some p →
  no_wrap p (v_prepare (view p)) (v_accept (view p)) →
  pstep (λ m, m ∈ sys_net s) p out p' →
  sys_inv (System (sys_acceptors s) (<[id := p']> (sys_proposers s)) (out ++ sys_net s)).
Proof.
  intros [Ia Ip Hok Hsim Hf] Ep Hnw Hstep. destruct (Ip id p Ep) as (vs & ps & acs & HI & Hid & HP).
  rewrite (view_rep p vs ps acs) in Hnw by apply HI. simpl in Hnw.
  destruct (pstep_move _ n p vs ps acs out p' HI Hnw Hstep) as (vs' & ps' & acs' & HI' & Hid' & Hm).
  pose proof (pmove_owned _ n p vs ps acs p' vs' ps' acs' out HI HI' Hid' Hm) as HF.
  rewrite Hid in Hm, HF, Hid'.
  assert (∀ m, m ∈ out → owned id m) as Hown by (by apply Forall_forall).
  assert (∀ i, i ∈ ps → i_iid i ≤ p_next_prepare_iid p ∧ i_ballot i mod MAX_N_OF_PROPOSERS = id) as Hps.
  { intros i Hi. destruct HI as [_ _ _ _ _ F _ _]. rewrite Forall_forall in F.
    destruct (F i) as [? _ _ ? _]; [apply elem_of_app; by left|]. split; [lia|congruence]. }
  pose proof (pi_id _ _ _ _ _ HI) as Hidr. rewrite Hid in Hidr.
  split; simpl.
  - intros a A E. destruct (Ia a A E) as (h & ? & ?). exists h. split; [done|].
    apply asafe_other; [done|..]; intros k Hk; by destruct (Hown _ Hk).
  - intros id0 p0 E. destruct (decide (id0 = id)) as [->|Hne].
    + rewrite lookup_insert_eq in E. injection E as <-. exists vs', ps', acs'.
      split; [done|]. split; [done|]. eapply pmove_psafe; [done|exact HP| |exact Hps|lia|done|exact Hm].
      apply HI.
    + rewrite lookup_insert_ne in E by done. destruct (Ip id0 p0 E) as (vs0 & ps0 & acs0 & ? & ? & ?).
      exists vs0, ps0, acs0. split; [done|]. split; [done|]. apply psafe_other; [done|].
      intros r Hr. destruct (Hown _ Hr) as (_ & _ & ?). congruence.
  - apply sok_requests; [done|]. intros m Hin. pose proof (Hown m Hin) as Ho.
    destruct m; try done; destruct Ho as (? & ? & _); unfold MAX_N_OF_PROPOSERS in *;
      (split; [done|]); [lia|]. split; [lia|]. by eapply pmove_value.
  - intros iid. apply sim_requests; [|by eapply pmove_single|done]. apply Forall_forall.
    intros m Hin. pose proof (Hown m Hin) as Ho. destruct m; try done; [left; eauto|right].
    eexists. split; [done|]. destruct Ho as (_ & Hb & _). unfold MAX_N_OF_PROPOSERS in Hb.
    split; [lia|]. eapply pmove_requests; [done| |done|done]. intros i Hi. by apply Hps.
  - intros k [Hk|Hk]%elem_of_app; [by destruct (Hown _ Hk)|by apply Hf].
Qed.

Lemma sys_inv_step s s' : sys_inv s → sys_step s s' → sys_inv s'.
Proof.
  intros I Hs. revert I. destruct Hs; intros I; [by apply sys_inv_submit|by eapply sys_inv_prepare|by eapply sys_inv_accept|
    by eapply sys_inv_repeat|by eapply sys_inv_repeat_none|by eapply sys_inv_restart|by eapply sys_inv_propose].
Qed.

Lemma sys_inv_reachable s : reachable s → sys_inv s.
Proof using n_ok.
  intros (s0 & Hi & Hr). apply sys_inv_init in Hi. induction Hr; eauto using sys_inv_step.
Qed.

Lemma sys_net_mono s s' : rtc sys_step s s' → ∀ m, m ∈ sys_net s → m ∈ sys_net s'.
Proof.
  intros Hs. induction Hs as [|s1 s2 s3 H12 _ IH]; [done|]. intros m Hm. apply IH.
  destruct H12; simpl; try (by right); [done..|]. apply elem_of_app. by right.
Qed.

Lemma sys_chosen_mono s s' iid b v :
  rtc sys_step s s' → sys_chosen (sys_net s) iid b v → sys_chosen (sys_net s') iid b v.
Proof.
  intros Hs (Q & HQ & Hv). exists Q. split; [done|]. intros a Ha. eapply sys_net_mono, Hv; done.
Qed.

Lemma sys_chosen_synod s iid b v :
  sys_inv s → sys_chosen (sys_net s) iid b v → chosen n (absM iid (sys_net s)) b v.
Proof.
  intros I (Q & HQ & Hv). exists Q. split; [done|]. intros a Ha. apply abs_vote; [apply I|auto].
Qed.

Lemma sys_agree s iid b v b' v' :
  sys_inv s → sys_chosen (sys_net s) iid b v → sys_chosen (sys_net s) iid b' v' → v = v'.
Proof using n_ok.
  intros I C C'. eapply (chosen_agree n ltac:(lia) (absM iid (sys_net s)));
    eauto using sys_chosen_synod. apply synod_inv_reachable, I.
Qed.

Lemma chosen_submitted s iid b v :
  reachable s → sys_chosen (sys_net s) iid b v → MSubmit v ∈ sys_net s.
Proof using n_ok.
  intros I%sys_inv_reachable C. apply sys_chosen_synod in C; [|done].
  apply (chosen_request n ltac:(lia)) in C; [|apply synod_inv_reachable, I].
  apply abs_request in C. by apply (sk_req _ (iv_ok _ I)) in C as (_ & _ & ?).
Qed.

(** ** Learners *)

(** What a learner may be given: votes in flight, for instances its [int]
arithmetic can handle. *)
Definition vote_of (M : list message) (sz : Z) (k : accept_ack) : Prop :=
  MAcceptAck k ∈ M ∧ aa_ballot k = aa_value_ballot k ∧ 0 ≤ aa_acceptor_id k < n ∧
  0 < aa_iid k ∧ aa_iid k + sz ≤ INT_MAX.

Lemma vote_of_ack_ok M sz k : sok M → vote_of M sz k → ack_ok n sz k.
Proof.
  intros HM (Hk & Hb & Hid & Hi & Hr). destruct (sk_vote _ HM k Hk Hb) as [Hf _]. by split.
Qed.

(** A value a learner may deliver is chosen. *)
Lemma closed_chosen s sz iid v :
  sys_inv s → closed_value n (vote_of (sys_net s) sz) iid v →
  sys_chosen (sys_net s) iid (aa_ballot v) (aa_value v).
Proof.
  intros I ((Hv & Hvb & _) & Hi & Q & HQ & HQn & Hacks). exists Q. split; [done|].
  intros a Ha. destruct (Hacks a Ha) as (k & (Hk & Hkb & _) & Ea & Ei & Eb).
  pose proof (iv_ok _ I) as HM. destruct (sk_vote _ HM k Hk Hkb) as [Hf Hr].
  destruct (sk_vote _ HM v Hv Hvb) as [_ Hr']. rewrite Ei, Eb in Hr. rewrite Hi in Hr'.
  pose proof (synod_inv_reachable n _ (iv_sim _ I iid)) as SI.
  assert (aa_value k = aa_value v) as Ev.
  { eapply (sv_request n _ SI); apply abs_request; done. }
  unfold voted. rewrite <-Ev, <-Ea, <-Ei, <-Eb. rewrite Hkb at 2. rewrite <-Hf. by destruct k.
Qed.

Lemma learner_delivers_chosen s cfg evs :
  sys_inv s → 0 < learner_instances cfg ≤ INT_MAX - 1 →
  (∀ k, Receive k ∈ evs → vote_of (sys_net s) (learner_instances cfg) k) →
  ∃ l l' vs, learner_new cfg n = Ret l ∧ learner_run l evs = Ret (l', vs) ∧
    ∀ v, v ∈ vs → sys_chosen (sys_net s) (aa_iid v) (aa_ballot v) (aa_value v).
Proof using n_ok.
  intros I Hsz Hevs. set (G := vote_of (sys_net s) (learner_instances cfg)).
  destruct (learner_new_ok cfg n G) as (l & w & E & Il & C & Sz & _); [done|lia|].
  destruct (learner_run_inv n (learner_instances cfg) G) with (evs := evs) (l := l) (w := w)
    as (l' & vs & start & E' & _ & _ & Hcl); [|done|done|done|lia|].
  { intros k Hk. apply (vote_of_ack_ok (sys_net s)); [apply I|done]. }
  exists l, l', vs. split; [done|]. split; [done|]. intros v Hv.
  eapply closed_chosen; [done|]. by apply Hcl.
Qed.

(** ** Properties *)

(** C4: the code refines single-decree consensus: in every reachable state,
the messages sent about any instance form a reachable state of the abstract
protocol.  Each C-level transition (any handler of an acceptor over any
storage that meets its contract, any operation of a proposer, with messages
lost, duplicated and reordered at will) is a step or a stutter of it. *)
Theorem system_refines_synod s :
  reachable s → ∀ iid, rtc (sstep n) [] (absM iid (sys_net s)).
Proof using n_ok. intros Hr iid. by apply sys_inv_reachable. Qed.

(** C3: agreement: no two different values are chosen in an instance, at the
same ballot or at different ones. *)
Theorem system_agreement s iid b v b' v' :
  reachable s → sys_chosen (sys_net s) iid b v → sys_chosen (sys_net s) iid b' v' → v = v'.
Proof using n_ok. intros Hr C C'. apply sys_inv_reachable in Hr. by eapply sys_agree. Qed.

(** C6: validity: a chosen value was submitted by a client. *)
Theorem system_validity s iid b v :
  reachable s → sys_chosen (sys_net s) iid b v → MSubmit v ∈ sys_net s.
Proof using n_ok. apply chosen_submitted. Qed.

(** C7: stability: once a value is chosen, every later request of that
instance at the same or a higher ballot, from any proposer, carries it, and so
does whatever is chosen later. *)
Theorem system_chosen_stable s s' iid b v :
  reachable s → rtc sys_step s s' → sys_chosen (sys_net s) iid b v →
  sys_chosen (sys_net s') iid b v ∧
  (∀ b' v', b ≤ b' → requested (sys_net s') iid b' v' → v' = v).
Proof using n_ok.
  intros Hr Hs C.
  pose proof (sys_chosen_mono s s' iid b v Hs C) as C'.
  split; [done|]. intros b' v' Hle Hreq.
  assert (reachable s') as I%sys_inv_reachable.
  { destruct Hr as (s0 & ? & ?). exists s0. split; [done|]. by etransitivity. }
  eapply (chosen_requests n ltac:(lia) (absM iid (sys_net s')));
    [apply synod_inv_reachable, I|by apply sys_chosen_synod|exact Hle|by apply abs_request].
Qed.

(** C5: two learners that are given votes, each in its own order and with its
own losses, deliver the same value for an instance they both deliver, and it
is chosen; neither fails. *)
Theorem learners_agree s cfg evs cfg' evs' :
  reachable s → 0 < learner_instances cfg ≤ INT_MAX - 1 → 0 < learner_instances cfg' ≤ INT_MAX - 1 →
  (∀ k, Receive k ∈ evs → vote_of (sys_net s) (learner_instances cfg) k) →
  (∀ k, Receive k ∈ evs' → vote_of (sys_net s) (learner_instances cfg') k) →
  ∃ l l1 vs l' l1' vs', learner_new cfg n = Ret l ∧ learner_run l evs = Ret (l1, vs) ∧
    learner_new cfg' n = Ret l' ∧ learner_run l' evs' = Ret (l1', vs') ∧
    (∀ v, v ∈ vs → sys_chosen (sys_net s) (aa_iid v) (aa_ballot v) (aa_value v)) ∧
    (∀ v v', v ∈ vs → v' ∈ vs' → aa_iid v = aa_iid v' → aa_value v = aa_value v').
Proof using n_ok.
  intros I%sys_inv_reachable Hsz Hsz' Hevs Hevs'.
  destruct (learner_delivers_chosen s cfg evs I Hsz Hevs) as (l & l1 & vs & E1 & E2 & Hc).
  destruct (learner_delivers_chosen s cfg' evs' I Hsz' Hevs') as (l' & l1' & vs' & E1' & E2' & Hc').
  exists l, l1, vs, l', l1', vs'. do 5 (split; [done|]). intros v v' Hv Hv' E.
  pose proof (Hc' v' Hv') as C'. rewrite <-E in C'. by eapply sys_agree; [|apply Hc|].
Qed.

End system.
Arguments system : clear implicits.
