(* ===== verification/SystemRuns.v ===== *)
(** * Concrete runs of the system

A run of three in-memory acceptors and one proposer, from the submission of a
value to its acceptance by a majority, which is the concrete input at which
the properties of [System] apply; and a run in which a learner is misled by
replies to its repeat requests. *)

From S2P Require Import Prelude Carray Quorum Messages Storage StorageMem Acceptor.
From S2P Require Import Proposer ProposerRun Learner Synod System.
#[local] Open Scope Z_scope.

(** ** Witnesses: a run with three in-memory acceptors and proposer 1 *)

Definition mem_acceptor (a : Z) : acceptor storage_mem :=
  Acceptor (storage_mem_open a (λ _, zero_record)).

Definition after_prepare (A : acceptor storage_mem) (pr : prepare_req) : acceptor storage_mem :=
  (from_ret (A, 0) (acceptor_receive_prepare A pr)).1.
Definition after_accept (A : acceptor storage_mem) (ar : accept_req) : acceptor storage_mem :=
  (from_ret (A, 0) (acceptor_receive_accept A ar)).1.

Definition run_pr : prepare_req := PrepareReq 1 11.
Definition run_ar : accept_req := AcceptReq 1 11 [x41].
Definition run_ack (a : Z) : prepare_ack := PrepareAck a 1 11 0 [].
Definition run_vote (a : Z) : accept_ack := AcceptAck a 1 11 11 0 [x41].

Definition run_p3 : proposer :=
  (from_ret (no_proposer, None) (proposer_receive_prepare_ack demo2 (run_ack 0) at_zero)).1.
Definition run_p4 : proposer :=
  (from_ret (no_proposer, None) (proposer_receive_prepare_ack run_p3 (run_ack 1) at_zero)).1.
Definition run_p5 : proposer := (from_ret (no_proposer, None) (proposer_accept run_p4)).1.

Definition run_sys0 : system storage_mem :=
  System {[0 := mem_acceptor 0; 1 := mem_acceptor 1; 2 := mem_acceptor 2]} {[1 := demo0]} [].

Lemma run_sys0_init : sys_init 3 run_sys0.
Proof.
  split; simpl; [done|..].
  - intros a A E. apply lookup_insert_Some in E as [[<- <-]|[_ E]]; [apply mem_open_rep|].
    apply lookup_insert_Some in E as [[<- <-]|[_ E]]; [apply mem_open_rep|].
    apply lookup_singleton_Some in E as [<- <-]. apply mem_open_rep.
  - intros id p E. apply lookup_singleton_Some in E as [<- <-].
    split; [by vm_compute|exact demo_new].
Qed.

(** The first three steps: a value is submitted and instance 1 prepared. *)
Definition add_msgs (s : system storage_mem) (out : list message) : system storage_mem :=
  System (sys_acceptors s) (sys_proposers s) (out ++ sys_net s).
Definition set_acceptor (s : system storage_mem) (a : Z) (A : acceptor storage_mem) :=
  System (<[a := A]> (sys_acceptors s)) (sys_proposers s) (sys_net s).
Definition set_proposer (s : system storage_mem) (id : Z) (p : proposer) :=
  System (sys_acceptors s) (<[id := p]> (sys_proposers s)) (sys_net s).

Definition run_sys1 := add_msgs run_sys0 [MSubmit [x41]].
Definition run_sys2 := add_msgs (set_proposer run_sys1 1 demo1) [].
Definition run_sys3 := add_msgs (set_proposer run_sys2 1 demo2) [MPrepareReq run_pr].

Lemma no_wrap_view k p :
  bounded k (view p) → k < 2 ^ 28 → no_wrap p (v_prepare (view p)) (v_accept (view p)).
Proof. intros Hb Hk. by apply (bounded_no_wrap k p (v_values (view p))). Qed.

Ltac run_no_wrap :=
  apply (no_wrap_view 1000); [split; [vm_compute; congruence|]|reflexivity];
  repeat first [apply Forall_nil_2 | apply Forall_cons_2; [vm_compute; congruence|]].

Lemma run_sys3_reachable : rtc sys_step run_sys0 run_sys3.
Proof.
  apply (rtc_l _ _ run_sys1); [by apply (sys_submit run_sys0 [x41])|].
  apply (rtc_l _ _ run_sys2).
  { apply (sys_propose run_sys1 1 demo0 [] demo1); [by vm_compute|run_no_wrap|].
    apply (ps_propose _ _ [x41]); [by left|by vm_compute]. }
  apply rtc_once, (sys_propose run_sys2 1 demo1 [MPrepareReq run_pr] demo2);
    [by vm_compute|run_no_wrap|].
  apply (ps_prepare _ _ at_zero (λ _, 7)). by vm_compute.
Qed.

(** Acceptors 0 and 1 promise. *)
Definition run_sys4 :=
  add_msgs (set_acceptor run_sys3 0 (after_prepare (mem_acceptor 0) run_pr)) [MPrepareAck (run_ack 0)].
Definition run_sys5 :=
  add_msgs (set_acceptor run_sys4 1 (after_prepare (mem_acceptor 1) run_pr)) [MPrepareAck (run_ack 1)].

Lemma run_sys5_reachable : rtc sys_step run_sys3 run_sys5.
Proof.
  apply (rtc_l _ _ run_sys4).
  { apply (sys_prepare (H:=mem_storage) run_sys3 0 (mem_acceptor 0) run_pr _ 1 (AcceptAck 0 1 11 0 0 []));
      [by vm_compute|by left|by vm_compute..]. }
  apply rtc_once, (sys_prepare (H:=mem_storage) run_sys4 1 (mem_acceptor 1) run_pr _ 1 (AcceptAck 1 1 11 0 0 []));
    [by vm_compute|right; by left|by vm_compute..].
Qed.

(** The proposer counts the promises and sends its request; acceptors 0 and 1
vote for it. *)
Definition run_sys6 := add_msgs (set_proposer run_sys5 1 run_p3) [].
Definition run_sys7 := add_msgs (set_proposer run_sys6 1 run_p4) [].
Definition run_sys8 := add_msgs (set_proposer run_sys7 1 run_p5) [MAcceptReq run_ar].
Definition run_sys9 :=
  add_msgs (set_acceptor run_sys8 0 (after_accept (after_prepare (mem_acceptor 0) run_pr) run_ar))
    [MAcceptAck (run_vote 0)].
Definition run_sys10 :=
  add_msgs (set_acceptor run_sys9 1 (after_accept (after_prepare (mem_acceptor 1) run_pr) run_ar))
    [MAcceptAck (run_vote 1)].

Lemma run_sys10_reachable : rtc sys_step run_sys5 run_sys10.
Proof.
  apply (rtc_l _ _ run_sys6).
  { apply (sys_propose run_sys5 1 demo2 [] run_p3); [by vm_compute|run_no_wrap|].
    apply (ps_prepare_ack _ _ (run_ack 0) at_zero _ None); [right; by left|by vm_compute]. }
  apply (rtc_l _ _ run_sys7).
  { apply (sys_propose run_sys6 1 run_p3 [] run_p4); [by vm_compute|run_no_wrap|].
    apply (ps_prepare_ack _ _ (run_ack 1) at_zero _ None); [by left|by vm_compute]. }
  apply (rtc_l _ _ run_sys8).
  { apply (sys_propose run_sys7 1 run_p4 [MAcceptReq run_ar] run_p5); [by vm_compute|run_no_wrap|].
    apply (ps_accept _ _ _ (Some run_ar)). by vm_compute. }
  apply (rtc_l _ _ run_sys9).
  { apply (sys_accept (H:=mem_storage) run_sys8 0 (after_prepare (mem_acceptor 0) run_pr) run_ar _ 1 (run_vote 0));
      [by vm_compute|by left|by vm_compute..]. }
  apply rtc_once, (sys_accept (H:=mem_storage) run_sys9 1 (after_prepare (mem_acceptor 1) run_pr) run_ar _ 1 (run_vote 1));
    [by vm_compute|right; by left|by vm_compute..].
Qed.

Lemma run_reachable5 : reachable 3 run_sys5.
Proof.
  exists run_sys0. split; [exact run_sys0_init|].
  etransitivity; [exact run_sys3_reachable|exact run_sys5_reachable].
Qed.

Lemma run_reachable : reachable 3 run_sys10.
Proof.
  destruct run_reachable5 as (s0 & Hi & Hr). exists s0. split; [done|].
  etransitivity; [exact Hr|exact run_sys10_reachable].
Qed.

Lemma run_chosen : sys_chosen 3 (sys_net run_sys10) 1 11 [x41].
Proof.
  exists {[0; 1]}. split; [split|].
  - intros a Ha. apply elem_of_acceptor_set. set_solver by lia.
  - by vm_compute.
  - intros a Ha. unfold voted. simpl.
    assert (a = 0 ∨ a = 1) as [-> | ->] by set_solver; set_solver.
Qed.

Lemma n3_ok : 1 ≤ 3 ≤ INT_MAX.
Proof. split; vm_compute; congruence. Qed.

Lemma system_refines_synod_witness :
  rtc (sstep 3) [] (absM 1 (sys_net run_sys10)).
Proof. exact (system_refines_synod 3 n3_ok run_sys10 run_reachable 1). Defined.

Lemma system_agreement_witness :
  sys_chosen 3 (sys_net run_sys10) 1 11 [x41] ∧
  ∀ b v, sys_chosen 3 (sys_net run_sys10) 1 b v → [x41] = v.
Proof.
  split; [exact run_chosen|]. intros b v C.
  exact (system_agreement 3 n3_ok run_sys10 1 11 [x41] b v run_reachable run_chosen C).
Defined.

Lemma system_validity_witness : MSubmit [x41] ∈ sys_net run_sys10.
Proof. exact (system_validity 3 n3_ok run_sys10 1 11 [x41] run_reachable run_chosen). Defined.

Lemma system_chosen_stable_witness :
  sys_chosen 3 (sys_net run_sys10) 1 11 [x41] ∧
  (∀ b' v', 11 ≤ b' → requested (sys_net run_sys10) 1 b' v' → v' = [x41]).
Proof.
  exact (system_chosen_stable 3 n3_ok run_sys10 run_sys10 1 11 [x41] run_reachable
           (rtc_refl _ _) run_chosen).
Defined.

Definition run_events : list levent := [Receive (run_vote 0); Deliver; Receive (run_vote 1); Deliver].

Lemma run_votes k : Receive k ∈ run_events → vote_of 3 (sys_net run_sys10) 4 k.
Proof.
  intros Hk. assert (k = run_vote 0 ∨ k = run_vote 1) as [-> | ->] by (unfold run_events in Hk; set_solver).
  - split; [right; by left|]. by vm_compute.
  - split; [by left|]. by vm_compute.
Qed.

Lemma learners_agree_witness :
  ∃ l l1 vs l' l1' vs', learner_new cfg4 3 = Ret l ∧ learner_run l run_events = Ret (l1, vs) ∧
    learner_new cfg4 3 = Ret l' ∧ learner_run l' run_events = Ret (l1', vs') ∧
    (∀ v, v ∈ vs → sys_chosen 3 (sys_net run_sys10) (aa_iid v) (aa_ballot v) (aa_value v)) ∧
    (∀ v v', v ∈ vs → v' ∈ vs' → aa_iid v = aa_iid v' → aa_value v = aa_value v').
Proof.
  apply (learners_agree 3 n3_ok run_sys10 cfg4 run_events cfg4 run_events).
  - exact run_reachable.
  - split; vm_compute; congruence.
  - split; vm_compute; congruence.
  - exact run_votes.
  - exact run_votes.
Defined.

(** ** Repeat replies are not votes *)

(** The replies of acceptors 0 and 1 to a repeat request for instance 1, when
they have only promised. *)
Definition repeat_ack (a : Z) : accept_ack := AcceptAck a 1 11 0 0 [].
Definition run_sys11 := add_msgs (set_acceptor run_sys5 0 (after_prepare (mem_acceptor 0) run_pr))
  [MAcceptAck (repeat_ack 0)].
Definition run_sys12 := add_msgs (set_acceptor run_sys11 1 (after_prepare (mem_acceptor 1) run_pr))
  [MAcceptAck (repeat_ack 1)].

Lemma run_reachable12 : reachable 3 run_sys12.
Proof.
  destruct run_reachable5 as (s0 & Hi & Hr). exists s0. split; [done|].
  etransitivity; [exact Hr|]. apply (rtc_l _ _ run_sys11).
  - apply (sys_repeat (H:=mem_storage) run_sys5 0 (after_prepare (mem_acceptor 0) run_pr) 1 _ 1
             (repeat_ack 0)); by vm_compute.
  - apply rtc_once, (sys_repeat (H:=mem_storage) run_sys11 1 (after_prepare (mem_acceptor 1) run_pr)
      1 _ 1 (repeat_ack 1)); by vm_compute.
Qed.

(** C35: a learner that is also given the replies to its repeat requests may
deliver a value that is not chosen: an acceptor answers a repeat request with
its record even when it has only promised, and the learner counts
acknowledgements by their ballot.  In a reachable state in which nobody has
voted, the replies of two acceptors out of three make it deliver the empty
value for instance 1. *)
Theorem learner_repeat_unsafe :
  let evs := [Receive (repeat_ack 0); Receive (repeat_ack 1); Deliver] in
  reachable 3 run_sys12 ∧ (∀ k, Receive k ∈ evs → MAcceptAck k ∈ sys_net run_sys12) ∧
  (∀ a iid b w, ¬ voted (sys_net run_sys12) a iid b w) ∧
  (∀ b w, ¬ sys_chosen 3 (sys_net run_sys12) 1 b w) ∧
  ∃ l l' v, learner_new cfg4 3 = Ret l ∧ learner_run l evs = Ret (l', [v]) ∧
    aa_iid v = 1 ∧ aa_value v = [].
Proof.
  intros evs. assert (∀ a iid b w, ¬ voted (sys_net run_sys12) a iid b w) as Hno.
  { intros a iid b w Hv. unfold voted in Hv. simpl in Hv.
    repeat (apply elem_of_cons in Hv as [Hv|Hv]; [discriminate Hv || (injection Hv; intros; lia)|]).
    by apply not_elem_of_nil in Hv. }
  split; [exact run_reachable12|]. split; [|split; [exact Hno|split]].
  - intros k Hk. assert (k = repeat_ack 0 ∨ k = repeat_ack 1) as [-> | ->]
      by (unfold evs in Hk; set_solver); [right; by left|by left].
  - intros b w (Q & [HQ HQn] & Hv). destruct (quorums_meet 3 Q Q) as (a & Ha & _); [lia|done..|].
    exact (Hno _ _ _ _ (Hv a Ha)).
  - eexists _, _, _. split; [by vm_compute|]. split; [by vm_compute|]. done.
Qed.
