(* ===== verification/Wire.v ===== *)
(** * Messages on the wire (src/evpaxos/tcp_sendbuf.c and the receiving loops)

A message travels as a packed header [paxos_msg] (8-byte size, 4-byte code)
followed by the C structure as it is in memory: little-endian fields, a 6-byte
hole in [accept_ack] before its size, and the value bytes.  [sendbuf_add_*]
are the bytes each function writes, [decode_*] what a receiver reads through
the pointer it casts its buffer to.

The receive side is libevent's [evbuffer], a parameter: the class [Evbuffer]
lists the calls the code makes and [EvbufferSpec] their documented behaviour
(a queue of bytes). *)

From S2P Require Import Prelude Messages.
#[local] Open Scope Z_scope.

(** ** Little-endian integers *)

Definition byte_val (b : byte) : Z := Z.of_N (Byte.to_N b).

Definition byte_of (z : Z) : byte :=
  match Byte.of_N (Z.to_N (z mod 256)) with Some b => b | None => x00 end.

Fixpoint le_bytes (k : nat) (z : Z) : bytes :=
  match k with
  | O => []
  | S k' => byte_of z :: le_bytes k' (z / 256)
  end.

Fixpoint le_val (bs : bytes) : Z :=
  match bs with
  | [] => 0
  | b :: bs' => byte_val b + 256 * le_val bs'
  end.

(** The next field of [k] bytes and the bytes after it. *)
Definition field (k : nat) (bs : bytes) : res (Z * bytes) :=
  if (k <=? length bs)%nat then Ret (le_val (take k bs), drop k bs) else Fault OutOfBounds.

(** [len] bytes behind the structure, at its flexible array. *)
Definition tail_bytes (len : Z) (bs : bytes) : res bytes :=
  if len <=? Z.of_nat (length bs) then Ret (take (Z.to_nat len) bs) else Fault OutOfBounds.

Definition to_short (z : Z) : Z := (z + 32768) mod 65536 - 32768.

(** ** Sending *)

(** The bytes [bufferevent_write] is given for [&m], [sizeof(paxos_msg)]. *)
Definition add_paxos_header (c : paxos_msg_code) (s : Z) : bytes :=
  le_bytes 8 s ++ le_bytes 4 (msg_code c).

Definition prepare_req_bytes (pr : prepare_req) : bytes :=
  le_bytes 4 (pr_iid pr) ++ le_bytes 4 (pr_ballot pr).

Definition prepare_ack_bytes (pa : prepare_ack) : bytes :=
  le_bytes 4 (u32 (pa_acceptor_id pa)) ++ le_bytes 4 (pa_iid pa) ++ le_bytes 4 (pa_ballot pa) ++
  le_bytes 4 (pa_value_ballot pa) ++ le_bytes 8 (value_size (pa_value pa)) ++ pa_value pa.

Definition accept_req_bytes (ar : accept_req) : bytes :=
  le_bytes 4 (ar_iid ar) ++ le_bytes 4 (ar_ballot ar) ++
  le_bytes 8 (value_size (ar_value ar)) ++ ar_value ar.

(** [hole] is what the 6 bytes between [is_final] and [value_size] hold. *)
Definition accept_ack_bytes (hole : Z) (aa : accept_ack) : bytes :=
  le_bytes 4 (u32 (aa_acceptor_id aa)) ++ le_bytes 4 (aa_iid aa) ++ le_bytes 4 (aa_ballot aa) ++
  le_bytes 4 (aa_value_ballot aa) ++ le_bytes 2 (aa_is_final aa mod 65536) ++ le_bytes 6 hole ++
  le_bytes 8 (value_size (aa_value aa)) ++ aa_value aa.

Definition sendbuf_add_prepare_req (pr : prepare_req) : bytes :=
  add_paxos_header prepare_reqs sizeof_prepare_req ++ prepare_req_bytes pr.

Definition sendbuf_add_prepare_ack (rec : acceptor_record) : bytes :=
  let pa := prepare_ack_of rec in
  add_paxos_header prepare_acks (PREPARE_ACK_SIZE pa) ++ prepare_ack_bytes pa.

Definition sendbuf_add_accept_req (ar : accept_req) : bytes :=
  add_paxos_header accept_reqs (ACCEPT_REQ_SIZE ar) ++ accept_req_bytes ar.

Definition sendbuf_add_accept_ack (hole : Z) (aa : accept_ack) : bytes :=
  add_paxos_header accept_acks (ACCEPT_ACK_SIZE aa) ++ accept_ack_bytes hole aa.

Definition sendbuf_add_repeat_req (iid : Z) : bytes :=
  add_paxos_header repeat_reqs 4 ++ le_bytes 4 iid.

Definition paxos_submit (value : bytes) : bytes :=
  add_paxos_header submit (value_size value) ++ value.

(** ** Receiving *)

Definition decode_prepare_req (buf : bytes) : res prepare_req :=
  '(iid, buf) ← field 4 buf;
  '(ballot, _) ← field 4 buf;
  Ret (PrepareReq iid ballot).

Definition decode_prepare_ack (buf : bytes) : res prepare_ack :=
  '(id, buf) ← field 4 buf;
  '(iid, buf) ← field 4 buf;
  '(ballot, buf) ← field 4 buf;
  '(value_ballot, buf) ← field 4 buf;
  '(size, buf) ← field 8 buf;
  value ← tail_bytes size buf;
  Ret (PrepareAck (to_int id) iid ballot value_ballot value).

Definition decode_accept_req (buf : bytes) : res accept_req :=
  '(iid, buf) ← field 4 buf;
  '(ballot, buf) ← field 4 buf;
  '(size, buf) ← field 8 buf;
  value ← tail_bytes size buf;
  Ret (AcceptReq iid ballot value).

Definition decode_accept_ack (buf : bytes) : res accept_ack :=
  '(id, buf) ← field 4 buf;
  '(iid, buf) ← field 4 buf;
  '(ballot, buf) ← field 4 buf;
  '(value_ballot, buf) ← field 4 buf;
  '(is_final, buf) ← field 2 buf;
  '(_, buf) ← field 6 buf;
  '(size, buf) ← field 8 buf;
  value ← tail_bytes size buf;
  Ret (AcceptAck (to_int id) iid ballot value_ballot (to_short is_final) value).

Definition decode_iid (buf : bytes) : res Z :=
  '(iid, _) ← field 4 buf; Ret iid.

(** The message behind a header with code [c] and the first [size] bytes of
[buf] received; codes a receiver does not know give nothing. *)
Definition decode (c size : Z) (buf : bytes) : res (option message) :=
  if c =? msg_code prepare_reqs then m ← decode_prepare_req buf; Ret (Some (MPrepareReq m))
  else if c =? msg_code prepare_acks then m ← decode_prepare_ack buf; Ret (Some (MPrepareAck m))
  else if c =? msg_code accept_reqs then m ← decode_accept_req buf; Ret (Some (MAcceptReq m))
  else if c =? msg_code accept_acks then m ← decode_accept_ack buf; Ret (Some (MAcceptAck m))
  else if c =? msg_code repeat_reqs then iid ← decode_iid buf; Ret (Some (MRepeatReq iid))
  else if c =? msg_code submit then v ← tail_bytes size buf; Ret (Some (MSubmit v))
  else Ret None.

(** ** Round trips *)

Lemma byte_val_of z : byte_val (byte_of z) = z mod 256.
Proof.
  unfold byte_of, byte_val. pose proof (Z.mod_pos_bound z 256 ltac:(lia)) as Hb.
  destruct (Byte.of_N (Z.to_N (z mod 256))) as [b|] eqn:E.
  - apply Byte.to_of_N in E. rewrite E. lia.
  - apply Byte.of_N_None_iff in E. lia.
Qed.

Lemma length_le_bytes k z : length (le_bytes k z) = k.
Proof. revert z. induction k as [|k IH]; intros z; [done|]. cbn [le_bytes length]. by rewrite IH. Qed.

Lemma le_val_bytes k z : 0 ≤ z < 256 ^ Z.of_nat k → le_val (le_bytes k z) = z.
Proof.
  revert z. induction k as [|k IH]; intros z Hz; [simpl in Hz; cbn; lia|]. cbn [le_bytes le_val].
  rewrite Nat2Z.inj_succ, Z.pow_succ_r in Hz by lia. rewrite byte_val_of, IH.
  - pose proof (Z.div_mod z 256 ltac:(lia)). lia.
  - split; [apply Z.div_pos; lia|]. apply Z.div_lt_upper_bound; lia.
Qed.

Lemma field_ok k z rest :
  0 ≤ z < 256 ^ Z.of_nat k → field k (le_bytes k z ++ rest) = Ret (z, rest).
Proof.
  intros Hz. unfold field. rewrite length_app, length_le_bytes.
  destruct (Nat.leb_spec k (k + length rest)); [|lia].
  rewrite take_app_le by (rewrite length_le_bytes; lia).
  rewrite take_ge by (rewrite length_le_bytes; lia). rewrite le_val_bytes by done.
  rewrite drop_app_ge by (rewrite length_le_bytes; lia). by rewrite length_le_bytes, Nat.sub_diag.
Qed.

Lemma tail_bytes_ok v rest : tail_bytes (value_size v) (v ++ rest) = Ret v.
Proof.
  unfold tail_bytes, value_size. rewrite length_app. case_Z; [|lia]. rewrite Nat2Z.id.
  by rewrite take_app_length.
Qed.

Definition is_int (z : Z) : Prop := INT_MIN ≤ z ≤ INT_MAX.

Lemma to_int_u32 z : is_int z → to_int (u32 z) = z.
Proof.
  unfold is_int, to_int, u32, INT_MIN, INT_MAX, UINT32_MOD. intros Hz.
  destruct (Z.ltb_spec z 0).
  - rewrite <-(Z.mod_unique z 4294967296 (-1) (z + 4294967296)) by lia.
    rewrite <-(Z.mod_unique _ 4294967296 1 (z + 2147483648)) by lia. lia.
  - rewrite (Z.mod_small z) by lia. rewrite Z.mod_small by lia. lia.
Qed.

Lemma to_short_mod z : -32768 ≤ z < 32768 → to_short (z mod 65536) = z.
Proof.
  intros Hz. unfold to_short. destruct (Z.ltb_spec z 0).
  - rewrite <-(Z.mod_unique z 65536 (-1) (z + 65536)) by lia.
    rewrite <-(Z.mod_unique _ 65536 1 (z + 32768)) by lia. lia.
  - rewrite (Z.mod_small z) by lia. rewrite Z.mod_small by lia. lia.
Qed.

(** Every field fits its C type; the value fits a [size_t]. *)
Definition value_wf (v : bytes) : Prop := value_size v < 2 ^ 64.

Definition message_wf (m : message) : Prop :=
  match m with
  | MPrepareReq r => is_u32 (pr_iid r) ∧ is_u32 (pr_ballot r)
  | MPrepareAck k => is_int (pa_acceptor_id k) ∧ is_u32 (pa_iid k) ∧ is_u32 (pa_ballot k) ∧
      is_u32 (pa_value_ballot k) ∧ value_wf (pa_value k)
  | MAcceptReq r => is_u32 (ar_iid r) ∧ is_u32 (ar_ballot r) ∧ value_wf (ar_value r)
  | MAcceptAck k => is_int (aa_acceptor_id k) ∧ is_u32 (aa_iid k) ∧ is_u32 (aa_ballot k) ∧
      is_u32 (aa_value_ballot k) ∧ -32768 ≤ aa_is_final k < 32768 ∧ value_wf (aa_value k)
  | MRepeatReq iid => is_u32 iid
  | MSubmit v => value_wf v
  end.

(** The code of a message and the bytes after its header. *)
Definition message_code (m : message) : paxos_msg_code :=
  match m with
  | MPrepareReq _ => prepare_reqs | MPrepareAck _ => prepare_acks | MAcceptReq _ => accept_reqs
  | MAcceptAck _ => accept_acks | MRepeatReq _ => repeat_reqs | MSubmit _ => submit
  end.

Definition message_data (hole : Z) (m : message) : bytes :=
  match m with
  | MPrepareReq r => prepare_req_bytes r
  | MPrepareAck k => prepare_ack_bytes k
  | MAcceptReq r => accept_req_bytes r
  | MAcceptAck k => accept_ack_bytes hole k
  | MRepeatReq iid => le_bytes 4 iid
  | MSubmit v => v
  end.

Ltac next_field := rewrite field_ok by (apply u32_range || lia); rewrite bind_Ret; cbv beta iota.

Lemma value_size_nonneg v : 0 ≤ value_size v.
Proof. unfold value_size. lia. Qed.

Lemma decode_prepare_req_ok r junk :
  message_wf (MPrepareReq r) → decode_prepare_req (prepare_req_bytes r ++ junk) = Ret r.
Proof.
  intros [H1 H2]. unfold is_u32, UINT32_MOD in *.
  unfold decode_prepare_req, prepare_req_bytes. rewrite <-!app_assoc.
  do 2 next_field. by destruct r.
Qed.

Lemma decode_prepare_ack_ok k junk :
  message_wf (MPrepareAck k) → decode_prepare_ack (prepare_ack_bytes k ++ junk) = Ret k.
Proof.
  intros (H1 & H2 & H3 & H4 & H5). pose proof (value_size_nonneg (pa_value k)).
  unfold is_u32, value_wf, UINT32_MOD in *.
  unfold decode_prepare_ack, prepare_ack_bytes. rewrite <-!app_assoc.
  do 5 next_field. rewrite tail_bytes_ok, bind_Ret, to_int_u32 by done. by destruct k.
Qed.

Lemma decode_accept_req_ok r junk :
  message_wf (MAcceptReq r) → decode_accept_req (accept_req_bytes r ++ junk) = Ret r.
Proof.
  intros (H1 & H2 & H3). pose proof (value_size_nonneg (ar_value r)).
  unfold is_u32, value_wf, UINT32_MOD in *.
  unfold decode_accept_req, accept_req_bytes. rewrite <-!app_assoc.
  do 3 next_field. rewrite tail_bytes_ok, bind_Ret. by destruct r.
Qed.

Lemma decode_accept_ack_ok hole k junk :
  message_wf (MAcceptAck k) → 0 ≤ hole < 2 ^ 48 →
  decode_accept_ack (accept_ack_bytes hole k ++ junk) = Ret k.
Proof.
  intros (H1 & H2 & H3 & H4 & H5 & H6) Hh. pose proof (value_size_nonneg (aa_value k)).
  pose proof (Z.mod_pos_bound (aa_is_final k) 65536 ltac:(lia)).
  unfold is_u32, value_wf, UINT32_MOD in *.
  unfold decode_accept_ack, accept_ack_bytes. rewrite <-!app_assoc.
  do 7 next_field. rewrite tail_bytes_ok, bind_Ret, to_int_u32, to_short_mod by done.
  by destruct k.
Qed.

Lemma decode_message_data hole m junk :
  message_wf m → 0 ≤ hole < 2 ^ 48 →
  decode (msg_code (message_code m)) (Z.of_nat (length (message_data hole m)))
    (message_data hole m ++ junk) = Ret (Some m).
Proof.
  intros Hm Hh. destruct m as [r|k|r|k|iid|v]; unfold decode;
    cbn [message_code msg_code message_data Z.eqb Pos.eqb].
  - by rewrite decode_prepare_req_ok.
  - by rewrite decode_prepare_ack_ok.
  - by rewrite decode_accept_req_ok.
  - by rewrite decode_accept_ack_ok.
  - simpl in Hm. unfold is_u32, UINT32_MOD in Hm. unfold decode_iid. next_field. done.
  - fold (value_size v). by rewrite tail_bytes_ok.
Qed.

(** ** The sizes in the headers *)

(** A whole message as it is written. *)
Definition wire (hole : Z) (m : message) : bytes :=
  add_paxos_header (message_code m) (Z.of_nat (length (message_data hole m))) ++ message_data hole m.

(** The functions of tcp_sendbuf.c write exactly that: the size each puts in
the header is the number of bytes it writes after it. *)
Lemma sendbuf_wire hole :
  (∀ pr, sendbuf_add_prepare_req pr = wire hole (MPrepareReq pr)) ∧
  (∀ rec, sendbuf_add_prepare_ack rec = wire hole (MPrepareAck (prepare_ack_of rec))) ∧
  (∀ ar, sendbuf_add_accept_req ar = wire hole (MAcceptReq ar)) ∧
  (∀ aa, sendbuf_add_accept_ack hole aa = wire hole (MAcceptAck aa)) ∧
  (∀ iid, sendbuf_add_repeat_req iid = wire hole (MRepeatReq iid)) ∧
  (∀ v, paxos_submit v = wire hole (MSubmit v)).
Proof.
  split; [|split; [|split; [|split; [|split]]]]; intros; unfold wire; cbn [message_code message_data].
  - unfold sendbuf_add_prepare_req, prepare_req_bytes. by rewrite length_app, !length_le_bytes.
  - unfold sendbuf_add_prepare_ack, prepare_ack_bytes. rewrite !length_app, !length_le_bytes.
    unfold PREPARE_ACK_SIZE, sizeof_prepare_ack, value_size. do 2 f_equal. lia.
  - unfold sendbuf_add_accept_req, accept_req_bytes. rewrite !length_app, !length_le_bytes.
    unfold ACCEPT_REQ_SIZE, sizeof_accept_req, value_size. do 2 f_equal. lia.
  - unfold sendbuf_add_accept_ack, accept_ack_bytes. rewrite !length_app, !length_le_bytes.
    unfold ACCEPT_ACK_SIZE, sizeof_accept_ack, value_size. do 2 f_equal. lia.
  - unfold sendbuf_add_repeat_req. by rewrite length_le_bytes.
  - done.
Qed.

(** ** Receiving from a stream *)

(** The calls of libevent's [evbuffer] that the code makes; [evbuffer_add] is
the arrival of bytes. *)
Class Evbuffer (B : Type) : Type := {
  evbuffer_get_length : B → Z;
  evbuffer_copyout : B → Z → bytes;
  evbuffer_remove : B → Z → bytes * B;
  evbuffer_drain : B → Z → B;
  evbuffer_add : B → bytes → B;
}.

Class EvbufferSpec (B : Type) `{Evbuffer B} : Type := {
  evb_content : B → bytes;
  get_length_spec b : evbuffer_get_length b = Z.of_nat (length (evb_content b));
  copyout_spec b n : 0 ≤ n → evbuffer_copyout b n = take (Z.to_nat n) (evb_content b);
  remove_spec b n : 0 ≤ n →
    (evbuffer_remove b n).1 = take (Z.to_nat n) (evb_content b) ∧
    evb_content (evbuffer_remove b n).2 = drop (Z.to_nat n) (evb_content b);
  drain_spec b n : 0 ≤ n →
    evb_content (evbuffer_drain b n) = drop (Z.to_nat n) (evb_content b);
  add_spec b bs : evb_content (evbuffer_add b bs) = evb_content b ++ bs;
}.

(** [paxos_msg msg] read from the first 12 bytes: its size and its code. *)
Definition header (bs : bytes) : res (Z * Z) :=
  '(size, bs) ← field 8 bs;
  '(code, _) ← field 4 bs;
  Ret (size, code).

(** [PAXOS_MSG_SIZE], a [size_t]. *)
Definition PAXOS_MSG_SIZE (size : Z) : Z := (size + sizeof_paxos_msg) mod 2 ^ 64.

Section receive.
Context {B : Type} `{Evbuffer B}.

(** The start of the three message handlers: take a message off the input; one
that is too large is drained. *)
Definition recv_msg (inp : B) : res (B * option (Z * Z * bytes)) :=
  let '(hd, inp) := evbuffer_remove inp sizeof_paxos_msg in
  '(size, code) ← header hd;
  if PAXOS_MAX_VALUE_SIZE <? size then Ret (evbuffer_drain inp size, None)
  else
    let '(data, inp) := evbuffer_remove inp size in
    Ret (inp, Some (size, code, data)).

(** The loop of [on_read] (tcp_receiver.c), [handle_request] (evproposer.c) and
[on_acceptor_msg] (evlearner.c), with its callback. *)
Fixpoint read_loop {St O : Type} (fuel : nat) (cb : St → B → res (St * B * list O)) (st : St) (inp : B)
    : res (St * B * list O) :=
  match fuel with
  | 0%nat => Fault StackOverflow
  | S fuel' =>
      let len := evbuffer_get_length inp in
      if sizeof_paxos_msg <? len then
        '(size, _) ← header (evbuffer_copyout inp sizeof_paxos_msg);
        if len <? PAXOS_MSG_SIZE size then Ret (st, inp, [])
        else
          '(st, inp, out) ← cb st inp;
          '(st, inp, out') ← read_loop fuel' cb st inp;
          Ret (st, inp, out ++ out')
      else Ret (st, inp, [])
  end.

End receive.

(** Handling the messages of a list in order. *)
Fixpoint handle_all {St O : Type} (step : St → message → res (St * list O)) (st : St)
    (ms : list message) : res (St * list O) :=
  match ms with
  | [] => Ret (st, [])
  | m :: ms' =>
      '(st, out) ← step st m;
      '(st, out') ← handle_all step st ms';
      Ret (st, out ++ out')
  end.

Section stream.
Context {B : Type} `{EvbufferSpec B}.
Context {St O : Type} (hole : Z).

(** A message the code can receive: its fields fit their types, and there is at
least one and at most [PAXOS_MAX_VALUE_SIZE] bytes after the header. *)
Definition frame_ok (m : message) : Prop :=
  message_wf m ∧ 0 < Z.of_nat (length (message_data hole m)) ≤ PAXOS_MAX_VALUE_SIZE.

(** [cb] takes one message off the input and does what [step] says. *)
Definition handles (cb : St → B → res (St * B * list O)) (step : St → message → res (St * list O))
    : Prop :=
  ∀ st inp m rest, frame_ok m → evb_content inp = wire hole m ++ rest →
    ∃ inp', evb_content inp' = rest ∧
      cb st inp = ('(st', out) ← step st m; Ret (st', inp', out)).

Lemma header_ok c size rest :
  0 ≤ size < 2 ^ 64 → header (add_paxos_header c size ++ rest) = Ret (size, msg_code c).
Proof.
  intros Hs. unfold header, add_paxos_header. rewrite <-app_assoc. next_field.
  assert (0 ≤ msg_code c < 256) by (destruct c; simpl; lia).
  rewrite field_ok by lia. done.
Qed.

Lemma length_header c size : length (add_paxos_header c size) = 12%nat.
Proof. unfold add_paxos_header. by rewrite length_app, !length_le_bytes. Qed.

Lemma take_header c size bs :
  take (Z.to_nat sizeof_paxos_msg) (add_paxos_header c size ++ bs) = add_paxos_header c size.
Proof. rewrite take_app_le by (by rewrite length_header). by rewrite take_ge by (by rewrite length_header). Qed.

Lemma drop_header c size bs :
  drop (Z.to_nat sizeof_paxos_msg) (add_paxos_header c size ++ bs) = bs.
Proof. rewrite drop_app_ge by (by rewrite length_header). by rewrite length_header. Qed.

(** What the start of a handler gets. *)
Lemma recv_msg_ok inp m rest :
  frame_ok m → evb_content inp = wire hole m ++ rest →
  ∃ inp', recv_msg inp = Ret (inp', Some (Z.of_nat (length (message_data hole m)),
                                msg_code (message_code m), message_data hole m)) ∧
    evb_content inp' = rest.
Proof.
  intros [_ Hm] E. unfold wire in E. rewrite <-app_assoc in E. unfold recv_msg.
  destruct (remove_spec inp sizeof_paxos_msg) as [E1 E2]; [done|].
  destruct (evbuffer_remove inp sizeof_paxos_msg) as [hd inp1]. simpl in E1, E2. subst hd.
  rewrite E, take_header, <-(app_nil_r (add_paxos_header _ _)), header_ok
    by (unfold PAXOS_MAX_VALUE_SIZE in Hm; lia).
  rewrite bind_Ret. cbv beta iota. case_Z; [lia|]. rewrite E, drop_header in E2.
  destruct (remove_spec inp1 (Z.of_nat (length (message_data hole m)))) as [E3 E4]; [lia|].
  destruct (evbuffer_remove inp1 _) as [data inp2]. simpl in E3, E4. subst data.
  exists inp2. rewrite E2, Nat2Z.id in E4 |- *. rewrite take_app_length. split; [done|].
  by rewrite E4, drop_app_length.
Qed.

(** Not a whole message yet. *)
Definition incomplete (bs : bytes) : Prop :=
  Z.of_nat (length bs) ≤ sizeof_paxos_msg ∨
  ∃ size code, header (take (Z.to_nat sizeof_paxos_msg) bs) = Ret (size, code) ∧
    Z.of_nat (length bs) < PAXOS_MSG_SIZE size.

Lemma read_loop_stream cb step ms fuel st inp rest st' out :
  handles cb step → Forall frame_ok ms → incomplete rest →
  evb_content inp = concat (wire hole <$> ms) ++ rest → (length ms < fuel)%nat →
  handle_all step st ms = Ret (st', out) →
  ∃ inp', read_loop fuel cb st inp = Ret (st', inp', out) ∧ evb_content inp' = rest.
Proof.
  intros Hcb. revert fuel st inp st' out.
  induction ms as [|m ms IH]; intros fuel st inp st' out HF Hinc E Hf Hall;
    (destruct fuel as [|fuel]; [simpl in Hf; lia|]).
  - simpl in E, Hall. injection Hall as <- <-. exists inp. split; [|done]. cbn [read_loop].
    rewrite get_length_spec, E. destruct Hinc as [Hle|(size & code & Hh & Hlt)].
    + case_Z; [lia|done].
    + rewrite copyout_spec, E by done. case_Z; [|done]. rewrite Hh, bind_Ret. cbv beta iota.
      case_Z; [done|lia].
  - apply Forall_cons in HF as [Hm HF]. rewrite fmap_cons in E. cbn [concat] in E.
    rewrite <-app_assoc in E. destruct (Hcb st inp m _ Hm E) as (inp1 & E1 & Ecb).
    set (tl := concat (wire hole <$> ms) ++ rest) in *. unfold wire in E.
    cbn [handle_all] in Hall. inv_res. rewrite E0, bind_Ret in Ecb. cbv beta iota in Ecb.
    destruct (IH fuel s inp1 st' l0 HF Hinc E1 ltac:(simpl in Hf; lia) E2) as (inp2 & Er & Ec).
    exists inp2. split; [|done]. destruct Hm as [_ Hm]. unfold PAXOS_MAX_VALUE_SIZE in Hm.
    cbn [read_loop]. rewrite get_length_spec, copyout_spec, E by done.
    rewrite <-!app_assoc, take_header, !length_app, length_header.
    rewrite <-(app_nil_r (add_paxos_header _ _)), header_ok by lia. rewrite bind_Ret. cbv beta iota.
    unfold PAXOS_MSG_SIZE, sizeof_paxos_msg. rewrite (Z.mod_small (_ + 12)) by lia.
    repeat case_Z; try lia. rewrite Ecb, bind_Ret. cbv beta iota. by rewrite Er.
Qed.

(** A stream cut anywhere: the complete messages and the start of the next. *)
Lemma split_stream ms p q :
  Forall frame_ok ms → concat (wire hole <$> ms) = p ++ q →
  ∃ ms1 ms2 rest, ms = ms1 ++ ms2 ∧ p = concat (wire hole <$> ms1) ++ rest ∧
    incomplete rest ∧ rest ++ q = concat (wire hole <$> ms2).
Proof.
  revert p. induction ms as [|m ms IH]; intros p HF E.
  - simpl in E. symmetry in E. apply app_eq_nil in E as [-> ->].
    exists [], [], []. split; [done|]. split; [done|]. split; [left; simpl; done|done].
  - apply Forall_cons in HF as [Hm HF]. rewrite fmap_cons in E. cbn [concat] in E.
    destruct (decide (length p < length (wire hole m))%nat) as [Hlt|Hge].
    + exists [], (m :: ms), p. split; [done|]. split; [done|]. split; [|by rewrite fmap_cons].
      destruct (decide (Z.of_nat (length p) ≤ sizeof_paxos_msg)) as [?|Hlong]; [by left|right].
      destruct Hm as [_ Hm]. unfold PAXOS_MAX_VALUE_SIZE, sizeof_paxos_msg in *.
      exists (Z.of_nat (length (message_data hole m))), (msg_code (message_code m)).
      assert (take 12 p = add_paxos_header (message_code m)
        (Z.of_nat (length (message_data hole m)))) as Et.
      { rewrite <-(take_app_le p q 12) by lia. rewrite <-E. unfold wire at 1.
        rewrite <-app_assoc. by apply (take_header _ _ _). }
      split; [|unfold PAXOS_MSG_SIZE, sizeof_paxos_msg; rewrite Z.mod_small by lia].
      * change (Z.to_nat 12) with 12%nat. rewrite Et, <-(app_nil_r (add_paxos_header _ _)).
        apply header_ok. lia.
      * unfold wire in Hlt. rewrite length_app, length_header in Hlt. lia.
    + assert (p = wire hole m ++ drop (length (wire hole m)) p) as Ep.
      { rewrite <-(take_drop (length (wire hole m)) p) at 1. f_equal.
        rewrite <-(take_app_le p q) by lia. by rewrite <-E, take_app_length. }
      rewrite Ep, <-app_assoc in E. apply app_inv_head in E.
      destruct (IH _ HF E) as (ms1 & ms2 & rest & -> & E1 & ? & ?).
      exists (m :: ms1), ms2, rest. split; [done|]. split; [|done].
      rewrite Ep, E1, fmap_cons. cbn [concat]. by rewrite app_assoc.
Qed.

(** Bytes arrive in chunks; after each the reading loop runs. *)
Fixpoint receive_chunks (cb : St → B → res (St * B * list O)) (st : St) (inp : B)
    (chunks : list bytes) : res (St * B * list O) :=
  match chunks with
  | [] => Ret (st, inp, [])
  | c :: chunks' =>
      let inp := evbuffer_add inp c in
      '(st, inp, out) ← read_loop (S (Z.to_nat (evbuffer_get_length inp))) cb st inp;
      '(st, inp, out') ← receive_chunks cb st inp chunks';
      Ret (st, inp, out ++ out')
  end.

Lemma handle_all_app step st ms1 ms2 :
  handle_all step st (ms1 ++ ms2) =
  ('(st1, o1) ← handle_all step st ms1; '(st2, o2) ← handle_all step st1 ms2; Ret (st2, o1 ++ o2))
  :> res (St * list O).
Proof.
  revert st. induction ms1 as [|m ms1 IH]; intros st; simpl.
  { destruct (handle_all step st ms2) as [[? ?]|]; done. }
  destruct (step st m) as [[st1 o]|]; simpl; [|done]. rewrite IH.
  destruct (handle_all step st1 ms1) as [[st2 o1]|]; simpl; [|done].
  destruct (handle_all step st2 ms2) as [[st3 o2]|]; simpl; [|done]. by rewrite app_assoc.
Qed.

Lemma concat_wire_length ms : (length ms ≤ length (concat (wire hole <$> ms)))%nat.
Proof.
  induction ms as [|m ms IH]; [done|]. rewrite fmap_cons. cbn [concat length]. rewrite length_app.
  unfold wire at 1. rewrite length_app, length_header. lia.
Qed.

Lemma receive_chunks_ok cb step chunks ms st inp st' out :
  handles cb step → Forall frame_ok ms → incomplete (evb_content inp) →
  concat (wire hole <$> ms) = evb_content inp ++ concat chunks →
  handle_all step st ms = Ret (st', out) →
  ∃ inp', receive_chunks cb st inp chunks = Ret (st', inp', out) ∧ evb_content inp' = [].
Proof.
  intros Hcb. revert ms st inp out. induction chunks as [|c chunks IH];
    intros ms st inp out HF Hinc E Hall.
  - simpl in E. rewrite app_nil_r in E. destruct ms as [|m ms].
    { simpl in E, Hall. injection Hall as <- <-. exists inp. by split. }
    exfalso. apply Forall_cons in HF as [[_ Hm] _]. rewrite fmap_cons in E. cbn [concat] in E.
    unfold PAXOS_MAX_VALUE_SIZE in Hm. unfold wire at 1 in E. rewrite <-app_assoc in E.
    rewrite <-E in Hinc. destruct Hinc as [Hl|(size & code & Hh & Hl)];
      rewrite !length_app, length_header in Hl; unfold sizeof_paxos_msg in *; [lia|].
    change (Z.to_nat 12) with (Z.to_nat sizeof_paxos_msg) in Hh.
    rewrite take_header, <-(app_nil_r (add_paxos_header _ _)), header_ok in Hh by lia.
    injection Hh as <- <-. unfold PAXOS_MSG_SIZE, sizeof_paxos_msg in Hl.
    rewrite Z.mod_small in Hl by lia. lia.
  - cbn [concat] in E. rewrite app_assoc in E.
    destruct (split_stream ms _ _ HF E) as (ms1 & ms2 & rest & -> & Ep & Hinc' & Eq).
    apply Forall_app in HF as [HF1 HF2]. rewrite handle_all_app in Hall. inv_res.
    destruct (read_loop_stream cb step ms1 (S (Z.to_nat (evbuffer_get_length (evbuffer_add inp c))))
      st (evbuffer_add inp c) rest s l Hcb HF1 Hinc') as (inp1 & Er & Ec); [| |done|].
    + by rewrite add_spec.
    + rewrite get_length_spec, add_spec, Ep, length_app, Nat2Z.id.
      pose proof (concat_wire_length ms1). lia.
    + destruct (IH ms2 s inp1 l0 HF2) as (inp2 & Er2 & Ec2); [by rewrite Ec|by rewrite Ec|done|].
      exists inp2. split; [|done]. cbn [receive_chunks]. rewrite Er, bind_Ret. cbv beta iota.
      by rewrite Er2.
Qed.

End stream.

(** ** A buffer *)

(** The bytes themselves are a buffer that behaves as documented. *)
#[export] Instance list_evbuffer : Evbuffer bytes := {|
  evbuffer_get_length b := Z.of_nat (length b);
  evbuffer_copyout b n := take (Z.to_nat n) b;
  evbuffer_remove b n := (take (Z.to_nat n) b, drop (Z.to_nat n) b);
  evbuffer_drain b n := drop (Z.to_nat n) b;
  evbuffer_add b bs := b ++ bs;
|}.

#[export] Instance list_evbuffer_spec : EvbufferSpec bytes.
Proof. refine {| evb_content b := b |}; done. Defined.

(** ** Properties *)

(** What is written for a message, by the function for its kind. *)
Definition sendbuf (hole : Z) (m : message) : bytes :=
  match m with
  | MPrepareReq r => sendbuf_add_prepare_req r
  | MPrepareAck k => sendbuf_add_prepare_ack
      (AcceptAck (pa_acceptor_id k) (pa_iid k) (pa_ballot k) (pa_value_ballot k) 0 (pa_value k))
  | MAcceptReq r => sendbuf_add_accept_req r
  | MAcceptAck k => sendbuf_add_accept_ack hole k
  | MRepeatReq iid => sendbuf_add_repeat_req iid
  | MSubmit v => paxos_submit v
  end.

Lemma sendbuf_is_wire hole m : sendbuf hole m = wire hole m.
Proof.
  destruct (sendbuf_wire hole) as (H1 & H2 & H3 & H4 & H5 & H6).
  destruct m as [|k| | | |]; simpl; rewrite ?H1, ?H2, ?H3, ?H4, ?H5, ?H6; [done| |done..].
  by destruct k.
Qed.

(** C25: every message survives the wire.  The size that [sendbuf_add_*] puts in
the header is the number of bytes it writes after it, and what a receiver
reads through the structure of that code, from a buffer holding those bytes
followed by anything, is the message that was sent, whatever the hole of
[accept_ack] holds. *)
Theorem wire_roundtrip hole m junk :
  message_wf m → 0 ≤ hole < 2 ^ 48 → Z.of_nat (length (sendbuf hole m)) < 2 ^ 64 →
  let size := Z.of_nat (length (drop 12 (sendbuf hole m))) in
  header (take 12 (sendbuf hole m)) = Ret (size, msg_code (message_code m)) ∧
  decode (msg_code (message_code m)) size (drop 12 (sendbuf hole m) ++ junk) = Ret (Some m).
Proof.
  intros Hm Hh Hlen. rewrite sendbuf_is_wire in *. unfold wire in *.
  rewrite length_app, length_header in Hlen.
  change 12%nat with (Z.to_nat sizeof_paxos_msg). rewrite drop_header, take_header. split.
  - rewrite <-(app_nil_r (add_paxos_header _ _)). apply header_ok. lia.
  - by apply decode_message_data.
Qed.

Lemma wire_roundtrip_witness :
  let m := MAcceptAck (AcceptAck 2 7 11 11 0 [x41; x42]) in
  header (take 12 (sendbuf 5 m)) = Ret (34, 8) ∧
  decode 8 34 (drop 12 (sendbuf 5 m) ++ [x00]) = Ret (Some m).
Proof.
  intros m. apply (wire_roundtrip 5 m [x00]).
  - simpl. unfold is_int, is_u32, value_wf. vm_compute. intuition congruence.
  - vm_compute. intuition congruence.
  - vm_compute. reflexivity.
Defined.

(** C28: the stream is cut into the right messages.  However the bytes of a
sequence of messages are split into arrivals, the reading loop, run after
each, hands exactly those messages to its callback, in order, each when it is
complete, with nothing left at the end; the loop terminates. *)
Theorem stream_delivers_messages {B} `{EvbufferSpec B} {St O : Type} hole
    (cb : St → B → res (St * B * list O)) step chunks ms st inp st' out :
  handles hole cb step → Forall (frame_ok hole) ms → evb_content inp = [] →
  concat chunks = concat (sendbuf hole <$> ms) → handle_all step st ms = Ret (st', out) →
  ∃ inp', receive_chunks cb st inp chunks = Ret (st', inp', out) ∧ evb_content inp' = [].
Proof.
  intros Hcb HF E Ec Hall. apply (receive_chunks_ok hole cb step chunks ms); [done|done| | |done].
  - rewrite E. left. simpl. done.
  - rewrite E, Ec. simpl. f_equal. apply list_fmap_ext. intros i m _. symmetry.
    apply sendbuf_is_wire.
Qed.
