(* ===== verification/SystemWire.v ===== *)
(** * The system on the wire

The states of [System] carry messages as values of unbounded integers and
lists; the nodes send structures with fields of fixed width ([Wire]).  Here
every message of a reachable state is shown to fit its C types, so that what a
node decodes is the message that was sent, whatever junk the padding and the
end of the receive buffer hold. *)

From S2P Require Import Prelude Carray Quorum Messages Storage StorageMem Acceptor.
From S2P Require Import Proposer ProposerRun Learner Synod System SystemRuns Wire.
#[local] Open Scope Z_scope.

Definition record_typed (r : acceptor_record) : Prop := message_wf (MAcceptAck r).

Definition history_typed (h : gmap Z acceptor_record) : Prop :=
  ∀ iid r, h !! iid = Some r → record_typed r.

Lemma history_typed_insert h iid r :
  history_typed h → record_typed r → history_typed (<[iid := r]> h).
Proof. intros Hh Hr. by apply map_Forall_insert_2. Qed.

Lemma prepare_ack_typed r : record_typed r → message_wf (MPrepareAck (prepare_ack_of r)).
Proof. intros (? & ? & ? & ? & _ & ?). done. Qed.

(** What an acceptor answers and keeps fits, if what it is asked does. *)
Lemma spec_prepare_typed a h pr :
  is_int a → history_typed h → message_wf (MPrepareReq pr) →
  history_typed (spec_prepare a h pr).1 ∧ record_typed (spec_prepare a h pr).2.
Proof.
  intros Ha Hh [Hi Hb]. destruct (spec_prepare_cases a h pr) as [(r & E & -> & _)|[-> _]].
  { split; [done|]. by apply (Hh (pr_iid pr)). }
  assert (record_typed (prepared_record a pr (h !! pr_iid pr))) as Hr.
  { destruct (h !! pr_iid pr) as [r|] eqn:E; [|by split; [|split; [|split; [|split; [|split]]]]].
    destruct (Hh _ _ E) as (? & ? & ? & ? & ? & ?). done. }
  split; [|done]. by apply history_typed_insert.
Qed.

Lemma spec_accept_typed a h ar :
  is_int a → history_typed h → message_wf (MAcceptReq ar) →
  history_typed (spec_accept a h ar).1 ∧ record_typed (spec_accept a h ar).2.
Proof.
  intros Ha Hh (Hi & Hb & Hv). destruct (spec_accept_cases a h ar) as [(r & E & -> & _)|[-> _]].
  { split; [done|]. by apply (Hh (ar_iid ar)). }
  assert (record_typed (accepted_record a ar)) as Hr by done.
  split; [|done]. by apply history_typed_insert.
Qed.

Section system.
Context {S : Type} `{SS : StorageSpec S} (n : Z).
Hypothesis n_ok : 1 ≤ n ≤ INT_MAX.
Implicit Types s : system S.

(** What is not the code's doing: ids are [int]s, clients' values fit memory. *)
Record inputs_fit s : Prop := {
  if_ids : ∀ a, is_Some (sys_acceptors s !! a) → is_int a;
  if_values : ∀ v, MSubmit v ∈ sys_net s → value_wf v;
}.

Record typed s : Prop := {
  ty_acceptors : ∀ a A, sys_acceptors s !! a = Some A →
    ∃ h, store_rep a (store A) h ∧ history_typed h;
  ty_acks : ∀ m, m ∈ sys_net s →
    match m with MPrepareReq _ | MAcceptReq _ | MSubmit _ => True | _ => message_wf m end;
}.

Lemma inputs_fit_before s s' : sys_step s s' → inputs_fit s' → inputs_fit s.
Proof.
  intros Hs [Hi Hv]. split.
  - intros a Ha. apply Hi. destruct Hs; simpl; [done|..|done];
      rewrite lookup_insert_is_Some; destruct (decide (a0 = a)); auto.
  - intros v Hin. apply Hv. destruct Hs; simpl; try (by right); [done..|]. apply elem_of_app. by right.
Qed.

(** The requests of a reachable state, from its invariant. *)
Lemma requests_wf s :
  sys_inv n s → inputs_fit s →
  (∀ r, MPrepareReq r ∈ sys_net s → message_wf (MPrepareReq r)) ∧
  (∀ r, MAcceptReq r ∈ sys_net s → message_wf (MAcceptReq r)).
Proof.
  intros I [_ Hv]. split; intros r Hr; simpl; unfold is_u32.
  - destruct (sk_prep _ (iv_ok _ _ I) r Hr). lia.
  - destruct (sk_req _ (iv_ok _ _ I) r Hr) as (? & ? & Hs). split; [lia|]. split; [lia|]. auto.
Qed.

(** A proposer sends requests only. *)
Lemma pstep_requests s id p out p' :
  sys_inv n s → sys_proposers s !! id = Some p →
  no_wrap p (v_prepare (view p)) (v_accept (view p)) →
  pstep (λ m, m ∈ sys_net s) p out p' → Forall (owned id) out.
Proof.
  intros [_ Ip _ _] Ep Hnw Hstep. destruct (Ip id p Ep) as (vs & ps & acs & HI & <- & _).
  rewrite (view_rep p vs ps acs) in Hnw by apply HI.
  destruct (pstep_move _ n p vs ps acs out p' HI Hnw Hstep) as (vs' & ps' & acs' & HI' & Hid & Hm).
  by eapply pmove_owned.
Qed.

(** A step of an acceptor that may add an acknowledgement of a typed record. *)
Lemma typed_acceptor s a A' h' out :
  typed s → store_rep a (store A') h' → history_typed h' → (∀ m, m ∈ out → message_wf m) →
  typed (System (<[a := A']> (sys_acceptors s)) (sys_proposers s) (out ++ sys_net s)).
Proof.
  intros [Ta Tn] R Hh Hout. split; simpl.
  - intros a' A'' E. destruct (decide (a' = a)) as [->|Hne].
    + rewrite lookup_insert_eq in E. simplify_eq. eauto.
    + rewrite lookup_insert_ne in E by done. eauto.
  - intros m [Hm|Hm]%elem_of_app; [|by apply Tn]. pose proof (Hout m Hm). by destruct m.
Qed.

Lemma typed_step s s' :
  sys_inv n s → inputs_fit s → typed s → sys_step s s' → typed s'.
Proof.
  intros I HF T Hs. pose proof T as [Ta Tn]. destruct (requests_wf s I HF) as [Hp Ha].
  destruct Hs as [s value Hv|s a A pr A' p r EA Hin Hrun Hld|s a A ar A' p r EA Hin Hrun Hld
    |s a A iid A' p r EA Hiid Hrun Hld|s a A iid A' EA Hiid Hrun|s a A A' EA Hkeep
    |s id p out p' Ep Hnw Hstep].
  - split; [done|]. simpl. intros m [->|Hm]%elem_of_cons; [done|]. by apply Tn.
  - destruct (Ta a A EA) as (h & R & Hh). destruct (sk_prep _ (iv_ok _ _ I) _ Hin) as [Hi Hb].
    destruct (receive_prepare_refines a A h pr A' p R Hi ltac:(unfold is_u32; lia) Hrun) as [R' Hl].
    same_ret. destruct (spec_prepare_typed a h pr (if_ids _ HF a ltac:(eauto)) Hh (Hp _ Hin)) as [H1 H2].
    apply (typed_acceptor s a A' _ [_] T R' H1). intros m ->%list_elem_of_singleton.
    by apply prepare_ack_typed.
  - destruct (Ta a A EA) as (h & R & Hh). destruct (sk_req _ (iv_ok _ _ I) _ Hin) as (Hi & Hb & _).
    destruct (receive_accept_refines a A h ar A' p R Hi ltac:(unfold is_u32; lia) Hrun) as [R' Hl].
    same_ret. destruct (spec_accept_typed a h ar (if_ids _ HF a ltac:(eauto)) Hh (Ha _ Hin)) as [H1 H2].
    apply (typed_acceptor s a A' _ [_] T R' H1). by intros m ->%list_elem_of_singleton.
  - destruct (Ta a A EA) as (h & R & Hh).
    destruct (receive_repeat_refines a A h iid A' (Some p) R Hiid Hrun) as [R' (r' & E' & Hl)].
    same_ret. apply (typed_acceptor s a A' h [_] T R' Hh). intros m ->%list_elem_of_singleton.
    by apply (Hh iid).
  - destruct (Ta a A EA) as (h & R & Hh).
    destruct (receive_repeat_refines a A h iid A' None R Hiid Hrun) as [R' _].
    apply (typed_acceptor s a A' h [] T R' Hh). by intros m ?%not_elem_of_nil.
  - destruct (Ta a A EA) as (h & R & Hh).
    apply (typed_acceptor s a A' h [] T (Hkeep h R) Hh). by intros m ?%not_elem_of_nil.
  - split; [done|]. simpl. intros m [Hm|Hm]%elem_of_app; [|by apply Tn].
    pose proof (pstep_requests s id p out p' I Ep Hnw Hstep) as Ho. rewrite Forall_forall in Ho.
    pose proof (Ho m Hm). by destruct m.
Qed.

Lemma typed_reachable s : reachable n s → inputs_fit s → typed s.
Proof using n_ok.
  intros (s0 & Hi & Hr). pose proof (sys_inv_init n n_ok s0 Hi) as I0.
  assert (typed s0) as T0.
  { split; rewrite ?(si_net _ _ Hi); [|by intros m ?%not_elem_of_nil]. intros a A E. exists ∅.
    split; [by apply (si_acceptors _ _ Hi)|]. intros iid r Er. by rewrite lookup_empty in Er. }
  revert s Hr. apply (rtc_ind_r (λ s, inputs_fit s → typed s)); [done|].
  intros s s' Hr Hs IH HF.
  pose proof (inputs_fit_before s s' Hs HF) as HF0.
  apply (typed_step s); [apply (sys_inv_reachable n n_ok); by exists s0|done|by apply IH|done].
Qed.

(** Promises come from the acceptors of the system. *)
Definition promises_from s : Prop :=
  ∀ k, MPrepareAck k ∈ sys_net s → is_Some (sys_acceptors s !! pa_acceptor_id k).

Lemma promises_from_step s s' : sys_inv n s → promises_from s → sys_step s s' → promises_from s'.
Proof using Type.
  intros I P Hs. assert (∀ a A k, MPrepareAck k ∈ sys_net s →
    is_Some (<[a := A]> (sys_acceptors s) !! pa_acceptor_id k)) as Hput.
  { intros a A k Hk. apply lookup_insert_is_Some'. right. by apply P. }
  destruct Hs as [s value Hv|s a A pr A' p r EA Hin Hrun Hld|s a A ar A' p r EA Hin Hrun Hld
    |s a A iid A' p r EA Hiid Hrun Hld|s a A iid A' EA Hiid Hrun|s a A A' EA Hkeep
    |s id p out p' Ep Hnw Hstep]; intros k; simpl; try apply Hput.
  - intros [?|?]%elem_of_cons; [done|by apply P].
  - intros [[= ->]|?]%elem_of_cons; [|by apply Hput]. simpl.
    destruct (iv_acceptors _ _ I a A EA) as (h & R & [Hh _ _ _]).
    destruct (sk_prep _ (iv_ok _ _ I) _ Hin) as [Hi Hb].
    destruct (receive_prepare_refines a A h pr A' p R Hi ltac:(unfold is_u32; lia) Hrun) as [R' Hl].
    same_ret. assert (aa_acceptor_id (spec_prepare a h pr).2 = a) as ->; [|by rewrite lookup_insert_eq].
    destruct (spec_prepare_cases a h pr) as [(r & E & -> & _)|[-> _]]; [exact (rw_aid _ _ _ (Hh _ _ E))|].
    simpl. destruct (h !! pr_iid pr) as [r|] eqn:E; [|done]. exact (rw_aid _ _ _ (Hh _ _ E)).
  - intros [?|?]%elem_of_cons; [done|by apply Hput].
  - intros [?|?]%elem_of_cons; [done|by apply Hput].
  - intros [Hk|?]%elem_of_app; [|by apply P].
    pose proof (pstep_requests s id p out p' I Ep Hnw Hstep) as Ho. rewrite Forall_forall in Ho.
    by destruct (Ho _ Hk).
Qed.

Lemma reachable_promises s : reachable n s → promises_from s.
Proof using n_ok.
  intros (s0 & Hi & Hr). pose proof (sys_inv_init n n_ok s0 Hi) as I0.
  assert (promises_from s0) as P0.
  { intros k Hk. rewrite (si_net _ _ Hi) in Hk. by apply not_elem_of_nil in Hk. }
  revert s Hr. apply (rtc_ind_r promises_from); [done|]. intros s s' Hr Hs IH.
  apply (promises_from_step s s'); [|done..]. apply (sys_inv_reachable n n_ok). by exists s0.
Qed.

(** ** Properties *)

(** C26: every message in flight, requests, promises and votes, fits the types
of its C structure, if the acceptors' ids are [int]s and the clients' values
fit in memory; so it is received as it was sent, whatever the padding [hole]
and the bytes after it in the buffer are. *)
Theorem system_messages_typed s :
  reachable n s → inputs_fit s → ∀ m, m ∈ sys_net s →
  message_wf m ∧
  ∀ hole junk, 0 ≤ hole < 2 ^ 48 →
    decode (msg_code (message_code m)) (Z.of_nat (length (message_data hole m)))
      (message_data hole m ++ junk) = Ret (Some m).
Proof using n_ok.
  intros Hr HF m Hm. pose proof (typed_reachable s Hr HF) as [_ Tn].
  destruct (requests_wf s (sys_inv_reachable n n_ok s Hr) HF) as [Hp Ha].
  assert (message_wf m) as Hwf.
  { pose proof (Tn m Hm) as H1. destruct m; auto. by apply HF. }
  split; [done|]. intros hole junk Hh. by apply decode_message_data.
Qed.

End system.

Lemma system_messages_typed_witness :
  message_wf (MAcceptAck (run_vote 0)) ∧
  ∀ hole junk, 0 ≤ hole < 2 ^ 48 →
    decode (msg_code accept_acks) 33
      (message_data hole (MAcceptAck (run_vote 0)) ++ junk) = Ret (Some (MAcceptAck (run_vote 0))).
Proof.
  apply (system_messages_typed 3 n3_ok run_sys10).
  - exact run_reachable.
  - split.
    + intros a Ha%elem_of_dom.
      assert (a ∈ ({[0; 1; 2]} : gset Z)) as Hs.
      { by replace ({[0; 1; 2]} : gset Z) with (dom (sys_acceptors run_sys10)) by (by vm_compute). }
      assert (a = 0 ∨ a = 1 ∨ a = 2) as [-> | [-> | ->]] by set_solver; by vm_compute.
    + intros v Hv. assert (v = [x41]) as -> by (simpl in Hv; set_solver). reflexivity.
  - right. by left.
Defined.
