(* ===== verification/Net.v ===== *)
(** * Connections (src/evpaxos/tcp_receiver.c, src/evpaxos/peers.c)

A connection is libevent's [bufferevent], of which the code only ever compares
and stores the address: [bufferevent] is that address.  A new one comes from
[bufferevent_socket_new] and is an argument.  What is written to a connection
is the handlers' output, a list of [(connection, message)].

[TcpReceiver] is the list of connections a node has accepted, [Peers] the
array of those it has opened itself. *)

From S2P Require Import Prelude Carray Messages.
#[local] Open Scope Z_scope.

Definition bufferevent : Type := Z.

(** [struct address] of the configuration. *)
Record address : Type := Address { address_string : string; port : Z }.

(** [struct sockaddr_in]: the address, as the text [inet_addr] is given, and the
port in network order. *)
Inductive in_addr : Type := INADDR_ANY | inet_addr (text : string).
Record sockaddr_in : Type := Sockaddr { sin_addr : in_addr; sin_port : Z }.

(** The conversion to [uint16_t] and the swap of its bytes. *)
Definition htons (z : Z) : Z := z mod 256 * 256 + z / 256 mod 256.

(** What a handler sends, in order. *)
Definition sends : Type := list (bufferevent * message).

(** [for (i = 0; i < n; i++) sendbuf_add_*(get(i), m)] *)
Definition send_each (n : Z) (get : Z → res bufferevent) (m : message) : res sends :=
  for_to n (λ i out, bev ← get i; Ret (out ++ [(bev, m)])) [].

Lemma send_each_ok n get m (l : list bufferevent) :
  n = Z.of_nat (length l) →
  (∀ i bev, l !! i = Some bev → get (Z.of_nat i) = Ret bev) →
  send_each n get m = Ret ((λ bev, (bev, m)) <$> l).
Proof.
  intros -> Hget. unfold send_each.
  loop_total (λ k out, out = (λ bev, (bev, m)) <$> take (Z.to_nat k) l).
  - lia.
  - intros i out Hi ->. destruct (lookup_lt_is_Some_2 l (Z.to_nat i)) as [bev Hb]; [lia|].
    rewrite <-(Z2Nat.id i) by lia. rewrite (Hget _ _ Hb). simpl. eexists. split; [done|].
    rewrite Z2Nat.inj_add, !Nat2Z.id, Nat.add_1_r by lia.
    by rewrite (take_S_r _ _ bev Hb), fmap_app.
  - by rewrite take_0.
  - rewrite Hloop, Nat2Z.id. by rewrite take_ge by done.
Qed.

Lemma send_each_inv n get m out x : send_each n get m = Ret out → x ∈ out → x.2 = m.
Proof.
  intros H. revert x. unfold send_each, for_to in H.
  eapply (for_range_partial (λ _ out, ∀ x, x ∈ out → x.2 = m)); [| |exact H].
  - intros k o o' _ Ho Hs. simpl in Hs. inv_res. intros x [Hx| ->%list_elem_of_singleton]%elem_of_app; auto.
  - by intros x ?%not_elem_of_nil.
Qed.

(** ** tcp_receiver.c *)

Module TcpReceiver.

(** [struct tcp_receiver]; the callback and its argument do not change. *)
Record tcp_receiver : Type := Receiver { listener : sockaddr_in; bevs : carray bufferevent }.

(** Listen on 0.0.0.0. *)
Definition set_sockaddr_in (a : address) : sockaddr_in := Sockaddr INADDR_ANY (htons (port a)).

(** [bound] is whether [evconnlistener_new_bind] returns a listener. *)
Definition tcp_receiver_new (a : address) (bound : bool) : res tcp_receiver :=
  let sin := set_sockaddr_in a in
  assert_that bound ;;
  c ← carray_new 10; Ret (Receiver sin c).

Definition match_bufferevent (arg item : bufferevent) : Z := cbool (arg =? item).

Definition on_accept (r : tcp_receiver) (bev : bufferevent) : res tcp_receiver :=
  c ← carray_push_back (bevs r) bev; Ret (Receiver (listener r) c).

(** [eof] is [events & BEV_EVENT_EOF]. *)
Definition on_error (r : tcp_receiver) (bev : bufferevent) (eof : bool) : res tcp_receiver :=
  if eof then c ← carray_reject (bevs r) match_bufferevent bev; Ret (Receiver (listener r) c) else Ret r.

Definition tcp_receiver_get_events (r : tcp_receiver) : carray bufferevent := bevs r.

(** The connections that are closed, in order. *)
Definition tcp_receiver_free (r : tcp_receiver) : res (list bufferevent) :=
  for_to (carray_count (bevs r))
    (λ i out, b ← carray_at (bevs r) i; b ← deref b; Ret (out ++ [b])) [].

(** Connections come and go. *)
Inductive event : Type := Accept (bev : bufferevent) | Error (bev : bufferevent) (eof : bool).

Definition step (r : tcp_receiver) (e : event) : res tcp_receiver :=
  match e with Accept bev => on_accept r bev | Error bev eof => on_error r bev eof end.

Fixpoint run (r : tcp_receiver) (es : list event) : res tcp_receiver :=
  match es with [] => Ret r | e :: es' => r ← step r e; run r es' end.

(** The connections that are open after [es], oldest first. *)
Definition open_after (l : list bufferevent) (e : event) : list bufferevent :=
  match e with
  | Accept bev => l ++ [bev]
  | Error bev true => filter (λ b, b ≠ bev) l
  | Error _ false => l
  end.

Lemma step_ok r l e :
  carray_rep (bevs r) l → ca_size (bevs r) ≤ 2 ^ 30 → Z.of_nat (length l) < 2 ^ 30 →
  ∃ r', step r e = Ret r' ∧ carray_rep (bevs r') (open_after l e) ∧
    ca_size (bevs r') ≤ Z.max (ca_size (bevs r)) (2 * Z.of_nat (length l)).
Proof.
  intros R Hx Hlen. destruct e as [bev|bev [|]]; simpl.
  - unfold on_accept. destruct (push_back_ok _ _ bev R) as (c & -> & Rc & Sc); [intros ?; lia|].
    simpl. eexists. split; [done|]. split; [done|]. simpl. rewrite Sc. unfold next_size. case_Z; lia.
  - destruct (carray_map_ok match_bufferevent bev 0 _ _ R Hx) as (c & Hc & Rc & Sc).
    unfold on_error, carray_reject. rewrite Hc. simpl. eexists. split; [done|]. simpl.
    split; [|lia]. erewrite list_filter_iff; [exact Rc|]. intros b. unfold match_bufferevent.
    simpl. case_Z; simpl; split; congruence.
  - eexists. split; [done|]. split; [done|]. lia.
Qed.

Lemma run_ok r l es :
  carray_rep (bevs r) l → ca_size (bevs r) ≤ 2 ^ 29 →
  Z.of_nat (length l + length es) ≤ 2 ^ 28 →
  ∃ r', run r es = Ret r' ∧ carray_rep (bevs r') (foldl open_after l es) ∧
        ca_size (bevs r') ≤ 2 ^ 29.
Proof.
  revert r l. induction es as [|e es IH]; intros r l R Hx Hlen; simpl in *; [eauto|].
  destruct (step_ok r l e R) as (r1 & -> & R1 & S1); [lia..|]. simpl. apply IH; [done|lia|].
  assert (length (open_after l e) ≤ length l + 1)%nat; [|lia].
  destruct e as [bev|bev [|]]; simpl; [rewrite length_app; simpl; lia| |lia].
  pose proof (length_filter (λ b, b ≠ bev) l). lia.
Qed.

Lemma receiver_free_ok r l :
  carray_rep (bevs r) l → indexable (bevs r) → tcp_receiver_free r = Ret l.
Proof.
  intros R Hx. unfold tcp_receiver_free, carray_count. rewrite (rep_count _ _ R).
  loop_total (λ k out, out = take (Z.to_nat k) l).
  - lia.
  - intros i out Hi ->. destruct (lookup_lt_is_Some_2 l (Z.to_nat i)) as [b Hb]; [lia|].
    rewrite (carray_at_ok _ _ _ R Hx), Hb by lia. simpl. eexists. split; [done|].
    rewrite Z2Nat.inj_add, Nat.add_1_r by lia. by rewrite (take_S_r _ _ b Hb).
  - done.
  - by rewrite Hloop, Nat2Z.id, take_ge.
Qed.

(** The list of connections an acceptor or proposer broadcasts to is exact:
from a new receiver, after any accepted and closed connections, it holds the
connections that are open, in the order in which they were accepted, and
freeing it closes exactly those; the circular array behind it never fails. *)
Theorem connections_tracked a es :
  Z.of_nat (length es) ≤ 2 ^ 28 →
  ∃ r0 r, tcp_receiver_new a true = Ret r0 ∧ run r0 es = Ret r ∧
    carray_rep (tcp_receiver_get_events r) (foldl open_after [] es) ∧
    tcp_receiver_free r = Ret (foldl open_after [] es).
Proof.
  intros Hlen. unfold tcp_receiver_new, tcp_receiver_get_events.
  destruct (carray_new (A:=bufferevent) 10) as [c|] eqn:E; [|done].
  destruct (rep_new 10 c) as (R & Hs & _); [by vm_compute|done|].
  destruct (run_ok (Receiver (set_sockaddr_in a) c) [] es R) as (r & Hr & Rr & Sr); [simpl; lia..|].
  exists (Receiver (set_sockaddr_in a) c), r. split; [done|]. split; [done|]. split; [done|].
  apply receiver_free_ok; [done|]. unfold indexable. lia.
Qed.

Lemma connections_tracked_witness :
  let es := [Accept 3; Accept 5; Error 3 false; Error 3 true; Accept 8] in
  ∃ r0 r, tcp_receiver_new (Address "127.0.0.1" 8800) true = Ret r0 ∧ run r0 es = Ret r ∧
    carray_rep (tcp_receiver_get_events r) [5; 8] ∧ tcp_receiver_free r = Ret [5; 8].
Proof. intros es. apply (connections_tracked (Address "127.0.0.1" 8800) es). by vm_compute. Defined.

End TcpReceiver.

(** ** peers.c *)

Module Peers.

(** [struct peer]: the callback and its argument are fixed when the peer is
made.  [target] is where its current connection was told to connect, [pending]
whether its reconnection timer is running. *)
Record peer : Type := Peer {
  addr : address;
  bev : bufferevent;
  target : option sockaddr_in;
  pending : bool;
}.
Record peers : Type := PeersOf { count : Z; array : list peer }.

Definition peers_new : peers := PeersOf 0 [].

(** The result of [bufferevent_socket_connect] is ignored. *)
Definition connect_peer (x : peer) : peer :=
  Peer (addr x) (bev x) (Some (Sockaddr (inet_addr (address_string (addr x))) (htons (port (addr x)))))
    (pending x).

(** [make_peer], with the new connection. *)
Definition make_peer (a : address) (new_bev : bufferevent) : peer :=
  connect_peer (Peer a new_bev None false).

Definition peers_connect (p : peers) (a : address) (new_bev : bufferevent) : peers :=
  PeersOf (count p + 1) (array p ++ [make_peer a new_bev]).

Definition peers_count (p : peers) : Z := count p.

Definition peers_get_buffer (p : peers) (i : Z) : res bufferevent :=
  x ← arr_get (array p) i; Ret (bev x).

(** The connections that are closed, in order. *)
Definition free_peer (x : peer) : list bufferevent := [bev x].

Definition peers_free (p : peers) : res (list bufferevent) :=
  for_to (count p) (λ i out, x ← arr_get (array p) i; Ret (out ++ free_peer x)) [].

(** The events of a connection, as [ev & BEV_EVENT_CONNECTED] and
[ev & (BEV_EVENT_ERROR | BEV_EVENT_EOF)]; after an error the connection is
replaced by [new_bev] and the timer started. *)
Definition on_socket_event (x : peer) (connected broken : bool) (new_bev : bufferevent) : peer :=
  if connected then x
  else if broken then Peer (addr x) new_bev None true
  else x.

(** The timer has run out. *)
Definition on_connection_timeout (x : peer) : peer :=
  connect_peer (Peer (addr x) (bev x) (target x) false).

(** What happens to the [i]th peer. *)
Inductive peer_event : Type :=
  | Socket (connected broken : bool) (new_bev : bufferevent)
  | Timer.

(** A timer runs out only when it is running. *)
Definition peer_step (x : peer) (e : peer_event) : peer :=
  match e with
  | Socket connected broken new_bev => on_socket_event x connected broken new_bev
  | Timer => if pending x then on_connection_timeout x else x
  end.

Definition peers_step (p : peers) (i : nat) (e : peer_event) : peers :=
  match array p !! i with
  | Some x => PeersOf (count p) (<[i := peer_step x e]> (array p))
  | None => p
  end.

(** The socket address of a configured address. *)
Definition socket_of (a : address) : sockaddr_in :=
  Sockaddr (inet_addr (address_string a)) (htons (port a)).

(** A peer is connecting or connected to its address, or will try again. *)
Definition peer_alive (x : peer) : Prop :=
  target x = Some (socket_of (addr x)) ∨ (target x = None ∧ pending x = true).

Record peers_ok (p : peers) (addrs : list address) : Prop := {
  po_count : count p = Z.of_nat (length (array p));
  po_addrs : addr <$> array p = addrs;
  po_alive : Forall peer_alive (array p);
}.

Lemma peers_connect_ok p addrs a b :
  peers_ok p addrs → peers_ok (peers_connect p a b) (addrs ++ [a]).
Proof.
  intros [H1 H2 H3]. split; simpl; [rewrite length_app; simpl; lia|by rewrite fmap_app, H2|].
  apply Forall_app. split; [done|]. apply Forall_singleton. by left.
Qed.

(** Connecting to a list of addresses, in order. *)
Lemma peers_connect_all p addrs new :
  peers_ok p addrs →
  let p' := foldl (λ ps x, peers_connect ps x.1 x.2) p new in
  peers_ok p' (addrs ++ new.*1) ∧ bev <$> array p' = (bev <$> array p) ++ new.*2.
Proof.
  revert p addrs. induction new as [|[a b] new IH]; intros p addrs Hp; simpl.
  { by rewrite !app_nil_r. }
  destruct (IH _ _ (peers_connect_ok _ _ a b Hp)) as [H1 H2]. split.
  - by rewrite <-app_assoc in H1.
  - rewrite H2. simpl. by rewrite fmap_app, <-app_assoc.
Qed.

Lemma peer_step_addr x e : addr (peer_step x e) = addr x.
Proof. destruct e as [[|] [|] b|]; simpl; try done. by destruct (pending x). Qed.

Lemma peer_step_alive x e : peer_alive x → peer_alive (peer_step x e).
Proof.
  intros Hx. destruct e as [[|] [|] b|]; simpl; try done; [by right|].
  destruct (pending x); [by left|done].
Qed.

(** A reconnection keeps the peer's place and address, and no peer is ever left
without a connection or a running timer. *)
Lemma peers_step_ok p addrs i e : peers_ok p addrs → peers_ok (peers_step p i e) addrs.
Proof.
  intros [H1 H2 H3]. unfold peers_step. destruct (array p !! i) as [x|] eqn:E; [|done].
  split; simpl; [by rewrite length_insert| |].
  - rewrite list_fmap_insert, list_insert_id; [done|].
    by rewrite list_lookup_fmap, E, peer_step_addr.
  - apply Forall_insert; [done|]. apply peer_step_alive. by eapply Forall_lookup_1.
Qed.

Lemma peers_get_buffer_ok p addrs i x :
  peers_ok p addrs → array p !! i = Some x → peers_get_buffer p (Z.of_nat i) = Ret (bev x).
Proof.
  intros _ E. unfold peers_get_buffer. rewrite (arr_get_ok _ _ x); [done|lia|].
  by rewrite Nat2Z.id.
Qed.

(** The loop over all peers reaches each of them, in order. *)
Lemma send_peers p addrs m :
  peers_ok p addrs →
  send_each (peers_count p) (peers_get_buffer p) m = Ret ((λ x, (bev x, m)) <$> array p).
Proof.
  intros Hok. rewrite (send_each_ok _ _ _ (bev <$> array p)).
  - by rewrite <-list_fmap_compose.
  - unfold peers_count. rewrite (po_count _ _ Hok), length_fmap. done.
  - intros i b Hb. apply list_lookup_fmap_Some in Hb as (x & -> & E).
    by eapply peers_get_buffer_ok.
Qed.

(** C38: a node never loses a peer: after connecting to a list of addresses and
any sequence of connection events and timers, there is still one peer per
address, in order; each is connecting or connected to its own address, or has
its reconnection timer running, and its running timer makes it connect to that
address again.  A broadcast reaches all of them in order. *)
Theorem peers_reconnect new (es : list (nat * peer_event)) m :
  let p := foldl (λ p e, peers_step p e.1 e.2)
             (foldl (λ ps x, peers_connect ps x.1 x.2) peers_new new) es in
  addr <$> array p = new.*1 ∧ Forall peer_alive (array p) ∧
  (∀ x, x ∈ array p → pending x = true →
     target (peer_step x Timer) = Some (socket_of (addr x)) ∧ pending (peer_step x Timer) = false) ∧
  send_each (peers_count p) (peers_get_buffer p) m = Ret ((λ x, (bev x, m)) <$> array p).
Proof.
  intros p. assert (peers_ok p new.*1) as Hp.
  { destruct (peers_connect_all peers_new [] new) as [H0 _]; [by split|].
    subst p. simpl in H0. revert H0. generalize (foldl (λ ps x, peers_connect ps x.1 x.2) peers_new new).
    induction es as [|[i e] es IH]; intros q Hq; simpl; [done|]. by apply IH, peers_step_ok. }
  split; [apply Hp|]. split; [apply Hp|]. split; [|by eapply send_peers].
  intros x _ Hx. simpl. by rewrite Hx.
Qed.

End Peers.
