(* ===== verification/Config.v ===== *)
(** * The configuration file (src/evpaxos/config_reader.c)

The file is read line by line with [fgets] into a buffer of 512 characters;
each line names an acceptor or proposer address or sets an option of
[paxos_config].  Text is [bytes]; a C string is the text up to its first NUL.
[None] stands for NULL where the code may hold it. *)

From Stdlib Require Import Strings.String.
From S2P Require Import Prelude Messages Wire Net.
#[local] Open Scope Z_scope.
Import Peers.

Definition text (s : string) : bytes := list_byte_of_string s.
Definition untext (b : bytes) : string := string_of_list_byte b.

(** ** The C library *)

Definition isspace (b : byte) : bool :=
  ((9 <=? byte_val b) && (byte_val b <=? 13)) || (byte_val b =? 32).

Definition isdigit (b : byte) : bool := (48 <=? byte_val b) && (byte_val b <=? 57).

Definition tolower (b : byte) : Z :=
  if (65 <=? byte_val b) && (byte_val b <=? 90) then byte_val b + 32 else byte_val b.

(** [strcasecmp(s1, s2) == 0] *)
Fixpoint strcaseeq (s1 s2 : bytes) : bool :=
  match s1, s2 with
  | [], [] => true
  | b1 :: s1', b2 :: s2' => (tolower b1 =? tolower b2) && strcaseeq s1' s2'
  | _, _ => false
  end.

(** What a string function sees of an array. *)
Fixpoint c_str (s : bytes) : bytes :=
  match s with
  | [] => []
  | b :: s' => if byte_val b =? 0 then [] else b :: c_str s'
  end.

Fixpoint skip_space (s : bytes) : bytes :=
  match s with
  | [] => []
  | b :: s' => if isspace b then skip_space s' else s
  end.

Fixpoint rtrim (s : bytes) : bytes :=
  match s with
  | [] => []
  | b :: s' => match rtrim s' with [] => if isspace b then [] else [b] | t => b :: t end
  end.

(** [strsep(&line, " ")] on a string: the token, and what is left of it. *)
Fixpoint strsep (s : bytes) : bytes * option bytes :=
  match s with
  | [] => ([], None)
  | b :: s' => if byte_val b =? 32 then ([], Some s') else
               let '(tok, rest) := strsep s' in (b :: tok, rest)
  end.

Fixpoint scan_digits (s : bytes) (n : Z) : Z * bytes :=
  match s with
  | [] => (n, [])
  | b :: s' => if isdigit b then scan_digits s' (10 * n + (byte_val b - 48)) else (n, s)
  end.

Definition LONG_MAX : Z := 2 ^ 63 - 1.

(** [strtol] in base 10 with its end pointer, and [%d] of [sscanf]: nothing is
converted without a digit; out of range the result is the nearest [long]. *)
Definition strtol (s : bytes) : option (Z * bytes) :=
  let s := skip_space s in
  let '(neg, s) := match s with
                   | b :: s' => if byte_val b =? 45 then (true, s')
                                else if byte_val b =? 43 then (false, s') else (false, s)
                   | [] => (false, [])
                   end in
  match s with
  | b :: _ =>
      if isdigit b then
        let '(n, rest) := scan_digits s 0 in
        Some (Z.max (- LONG_MAX - 1) (Z.min LONG_MAX (if (neg : bool) then - n else n)), rest)
      else None
  | [] => None
  end.

(** [%s] of [sscanf]: the characters up to the next space. *)
Fixpoint scan_word (s : bytes) : bytes * bytes :=
  match s with
  | [] => ([], [])
  | b :: s' => if isspace b then ([], s) else let '(w, rest) := scan_word s' in (b :: w, rest)
  end.

(** [fgets] with a buffer of [n + 1] characters: the characters up to a newline. *)
Fixpoint fgets (n : nat) (file : bytes) : bytes * bytes :=
  match n, file with
  | O, _ => ([], file)
  | _, [] => ([], [])
  | S n', b :: file' =>
      if byte_val b =? 10 then ([b], file')
      else let '(l, rest) := fgets n' file' in (b :: l, rest)
  end.

(** ** config_reader.c *)

Inductive option_type : Type := option_boolean | option_integer | option_string | option_verbosity.

(** The field of [paxos_config] an option points to. *)
Inductive field_of : Type :=
  | f_verbosity | f_learner_catch_up | f_proposer_timeout | f_proposer_preexec_window
  | f_bdb_sync | f_bdb_cachesize | f_bdb_env_path | f_bdb_db_filename | f_bdb_trash_files.

Record option_entry : Type := OptionEntry { opt_name : string; opt_value : field_of; opt_type : option_type }.

Definition options : list option_entry :=
  [ OptionEntry "verbosity" f_verbosity option_verbosity;
    OptionEntry "learner-catch-up" f_learner_catch_up option_boolean;
    OptionEntry "proposer-timeout" f_proposer_timeout option_integer;
    OptionEntry "proposer-preexec-window" f_proposer_preexec_window option_integer;
    OptionEntry "bdb-sync" f_bdb_sync option_boolean;
    OptionEntry "bdb-cachesize" f_bdb_cachesize option_integer;
    OptionEntry "bdb-env-path" f_bdb_env_path option_string;
    OptionEntry "bdb-db-filename" f_bdb_db_filename option_string;
    OptionEntry "bdb-trash-files" f_bdb_trash_files option_boolean ].

(** [*(int* )opt->value = z]; a store through a [char**] field does not occur. *)
Definition set_int (f : field_of) (z : Z) (p : paxos_config) : paxos_config :=
  let 'PaxosConfig v li lc pt pw sy ca ep fn tr := p in
  match f with
  | f_verbosity => PaxosConfig z li lc pt pw sy ca ep fn tr
  | f_learner_catch_up => PaxosConfig v li z pt pw sy ca ep fn tr
  | f_proposer_timeout => PaxosConfig v li lc z pw sy ca ep fn tr
  | f_proposer_preexec_window => PaxosConfig v li lc pt z sy ca ep fn tr
  | f_bdb_sync => PaxosConfig v li lc pt pw z ca ep fn tr
  | f_bdb_cachesize => PaxosConfig v li lc pt pw sy z ep fn tr
  | f_bdb_trash_files => PaxosConfig v li lc pt pw sy ca ep fn z
  | f_bdb_env_path | f_bdb_db_filename => p
  end.

Definition set_str (f : field_of) (s : string) (p : paxos_config) : paxos_config :=
  let 'PaxosConfig v li lc pt pw sy ca ep fn tr := p in
  match f with
  | f_bdb_env_path => PaxosConfig v li lc pt pw sy ca s fn tr
  | f_bdb_db_filename => PaxosConfig v li lc pt pw sy ca ep s tr
  | _ => p
  end.

Definition MAX_ADDR : Z := 10.

(** [struct config]; the arrays have [MAX_ADDR] entries. *)
Record config : Type := Config {
  proposers_count : Z;
  acceptors_count : Z;
  proposers : list address;
  acceptors : list address;
}.

Definition no_address : address := Address "" 0.

(** [memset(c, 0, sizeof(struct config))] *)
Definition config_zero : config :=
  Config 0 0 (replicate (Z.to_nat MAX_ADDR) no_address) (replicate (Z.to_nat MAX_ADDR) no_address).

Definition address_init (addr : bytes) (p : Z) : address := Address (untext addr) p.

Definition strtrim (s : option bytes) : res bytes :=
  s ← deref s; Ret (rtrim (skip_space s)).

(** The parsers return what they store; [None] is the result 0. *)
Definition parse_boolean (str : bytes) : option Z :=
  if strcaseeq str (text "yes") then Some 1
  else if strcaseeq str (text "no") then Some 0 else None.

Definition parse_integer (str : bytes) : option Z :=
  match strtol str with None => None | Some (n, _) => Some (to_int n) end.

Definition parse_string (str : bytes) : option string :=
  match str with
  | [] => None
  | b :: _ => if byte_val b =? 10 then None else Some (untext str)
  end.

(** [sscanf(str, "%d %s %d", &id, address, &port)] into [address[128]]: the
address and the port, if all three were converted. *)
Definition scan_address (str : option bytes) : res (option (bytes * Z)) :=
  s ← deref str;
  match strtol s with
  | None => Ret None
  | Some (_, s) =>
      let '(w, s) := scan_word (skip_space s) in
      if (length w =? 0)%nat then Ret None
      else if (128 <=? length w)%nat then Fault OutOfBounds
      else match strtol s with
           | None => Ret None
           | Some (p, _) => Ret (Some (w, to_int p))
           end
  end.

Definition parse_address (str : option bytes) : res (option address) :=
  r ← scan_address str;
  Ret (match r with Some (address, port) => Some (address_init address port) | None => None end).

Definition parse_verbosity (str : bytes) : option Z :=
  if strcaseeq str (text "quiet") then Some PAXOS_LOG_QUIET
  else if strcaseeq str (text "error") then Some PAXOS_LOG_ERROR
  else if strcaseeq str (text "info") then Some PAXOS_LOG_INFO
  else if strcaseeq str (text "debug") then Some PAXOS_LOG_DEBUG
  else None.

Fixpoint lookup_from (opts : list option_entry) (opt : bytes) : option option_entry :=
  match opts with
  | [] => None
  | o :: opts' => if strcaseeq (text (opt_name o)) opt then Some o else lookup_from opts' opt
  end.

Definition lookup_option (opt : bytes) : option option_entry := lookup_from options opt.

Definition parse_option (o : option_entry) (line : bytes) (p : paxos_config) : paxos_config * Z :=
  let int_result r := match r with Some z => (set_int (opt_value o) z p, 1) | None => (p, 0) end in
  match opt_type o with
  | option_boolean => int_result (parse_boolean line)
  | option_integer => int_result (parse_integer line)
  | option_string =>
      match parse_string line with Some s => (set_str (opt_value o) s p, 1) | None => (p, 0) end
  | option_verbosity => int_result (parse_verbosity line)
  end.

(** The state is the global [paxos_config] and the [struct config]. *)
Definition parse_line (line : bytes) (p : paxos_config) (c : config) : res (paxos_config * config * Z) :=
  line ← strtrim (Some line);
  let '(tok, line) := strsep line in
  if strcaseeq tok (text "a") then
    let i := acceptors_count c in
    a ← parse_address line;
    match a with
    | None => Ret (p, Config (proposers_count c) (i + 1) (proposers c) (acceptors c), 0)
    | Some a => l ← arr_set (acceptors c) i a;
                Ret (p, Config (proposers_count c) (i + 1) (proposers c) l, 1)
    end
  else if strcaseeq tok (text "p") then
    let i := proposers_count c in
    a ← parse_address line;
    match a with
    | None => Ret (p, Config (i + 1) (acceptors_count c) (proposers c) (acceptors c), 0)
    | Some a => l ← arr_set (proposers c) i a;
                Ret (p, Config (i + 1) (acceptors_count c) l (acceptors c), 1)
    end
  else
    line ← strtrim line;
    match lookup_option tok with
    | None => Ret (p, c, 0)
    | Some o => let '(p, rv) := parse_option o line p in Ret (p, c, rv)
    end.

(** The loop of [read_config], at most [fuel] lines. *)
Fixpoint read_lines (fuel : nat) (file : bytes) (p : paxos_config) (c : config)
    : res (paxos_config * config) :=
  match fuel with
  | O => Fault StackOverflow
  | S fuel' =>
      match file with
      | [] => Ret (p, c)
      | _ =>
          let '(line, rest) := fgets 511 file in
          let first := byte_val (hd x00 line) in
          if negb (first =? 35) && negb (first =? 10) then
            '(p, c, rv) ← parse_line (c_str line) p c;
            if rv =? 0 then Fault (Exit 1) else read_lines fuel' rest p c
          else read_lines fuel' rest p c
      end
  end.

(** [file] is the contents of the file, [None] when it cannot be opened. *)
Definition read_config (file : option bytes) (p : paxos_config) : res (paxos_config * config) :=
  match file with
  | None => Fault (Exit 1)
  | Some f => read_lines (S (length f)) f p config_zero
  end.

(** ** Connecting to the configured acceptors

The loop of [evproposer_init] and [evlearner_init_conf]; [new_bev i] is the
connection made for the [i]th acceptor. *)
Definition connect_acceptors (c : config) (new_bev : Z → bufferevent) : res peers :=
  for_to (acceptors_count c)
    (λ i ps, a ← arr_get (acceptors c) i; Ret (peers_connect ps a (new_bev i))) peers_new.

(** ** Lines *)

(** A character that is neither a space nor NUL. *)
Definition graph (b : byte) : Prop := isspace b = false ∧ byte_val b ≠ 0.

#[export] Instance graph_dec b : Decision (graph b).
Proof. unfold graph. apply _. Defined.

(** A word, and a phrase of words on one line. *)
Definition word (w : bytes) : Prop := w ≠ [] ∧ Forall graph w.

#[export] Instance word_dec w : Decision (word w).
Proof. unfold word. apply _. Defined.

Record phrase (l : bytes) : Prop := {
  ph_line : Forall (λ b, byte_val b ≠ 0 ∧ byte_val b ≠ 10) l;
  ph_first : ∃ b l', l = b :: l' ∧ isspace b = false;
  ph_last : ∃ b l', l = l' ++ [b] ∧ isspace b = false;
}.

Lemma graph_line b : graph b → byte_val b ≠ 0 ∧ byte_val b ≠ 10.
Proof. intros [Hs Hz]. split; [done|]. intros E. unfold isspace in Hs. by rewrite E in Hs. Qed.

Lemma word_phrase w : word w → phrase w.
Proof.
  intros [Hne HF]. split.
  - eapply Forall_impl; [exact HF|]. apply graph_line.
  - destruct w as [|b w]; [done|]. apply Forall_cons in HF as [[? _] _]. eauto.
  - destruct w as [|b w _] using rev_ind; [done|]. apply Forall_app in HF as [_ HF].
    apply Forall_singleton in HF as [? _]. eauto.
Qed.

Lemma phrase_app l1 l2 sep :
  phrase l1 → phrase l2 → byte_val sep = 32 → phrase (l1 ++ sep :: l2).
Proof.
  intros [F1 (b1 & r1 & -> & H1) _] [F2 _ (b2 & r2 & -> & H2)] Hsep. split.
  - apply Forall_app. split; [done|]. apply Forall_cons. split; [lia|done].
  - eexists b1, _. simpl. done.
  - exists b2, ((b1 :: r1) ++ sep :: r2). split; [|done]. by rewrite <-app_assoc.
Qed.

Lemma c_str_line l : Forall (λ b, byte_val b ≠ 0) l → c_str l = l.
Proof.
  induction 1 as [|b l Hb _ IH]; [done|]. simpl. destruct (Z.eqb_spec (byte_val b) 0); [done|by rewrite IH].
Qed.

Lemma fgets_line n l rest :
  (length l < n)%nat → Forall (λ b, byte_val b ≠ 10) l →
  fgets n (l ++ x0a :: rest) = (l ++ [x0a], rest).
Proof.
  intros Hn HF. revert n Hn. induction HF as [|b l Hb _ IH]; intros [|n] Hn; simpl in *; try lia; [done|].
  destruct (Z.eqb_spec (byte_val b) 10); [done|]. rewrite IH by lia. done.
Qed.

Lemma rtrim_last l b ws :
  isspace b = false → Forall (λ c, isspace c = true) ws → rtrim (l ++ b :: ws) = l ++ [b].
Proof.
  intros Hb Hw. induction l as [|c l IH]; simpl.
  - assert (rtrim ws = []) as ->; [|by rewrite Hb].
    induction Hw as [|c ws Hc _ IH]; [done|]. simpl. by rewrite IH, Hc.
  - rewrite IH. by destruct (l ++ [b]) eqn:E; [destruct l|].
Qed.

(** Trimming removes a newline from the end of a phrase, and nothing else. *)
Lemma strtrim_phrase (l ws : bytes) :
  phrase l → Forall (λ c, isspace c = true) ws → strtrim (@Some bytes (l ++ ws)) = Ret l.
Proof.
  intros [_ (b & l1 & E1 & H1) (c & l2 & E2 & H2)] Hw. unfold strtrim. simpl. f_equal.
  assert (skip_space (l ++ ws) = l ++ ws) as -> by (rewrite E1; simpl; by rewrite H1).
  rewrite E2, <-app_assoc. by apply rtrim_last.
Qed.

Lemma strsep_word (w rest : bytes) : Forall graph w → strsep (w ++ x20 :: rest) = (w, @Some bytes rest).
Proof.
  induction 1 as [|b w [Hb _] _ IH]; [done|]. simpl.
  destruct (Z.eqb_spec (byte_val b) 32) as [E|]; [|by rewrite IH].
  unfold isspace in Hb. by rewrite E in Hb.
Qed.

Lemma strsep_end (w : bytes) : Forall graph w → strsep w = (w, None).
Proof.
  induction 1 as [|b w [Hb _] _ IH]; [done|]. simpl.
  destruct (Z.eqb_spec (byte_val b) 32) as [E|]; [unfold isspace in Hb; by rewrite E in Hb|by rewrite IH].
Qed.

Lemma scan_word_ok w rest : Forall graph w → scan_word (w ++ x20 :: rest) = (w, x20 :: rest).
Proof. induction 1 as [|b w [Hb _] _ IH]; [done|]. simpl. by rewrite Hb, IH. Qed.

(** ** Numbers *)

Definition digit (n : Z) : byte := byte_of (48 + n).

Fixpoint print_digits (fuel : nat) (n : Z) (acc : bytes) : bytes :=
  match fuel with
  | O => acc
  | S fuel' => let acc := digit (n mod 10) :: acc in
               if n <? 10 then acc else print_digits fuel' (n / 10) acc
  end.

(** [%d] of [printf] for an [int], at most 10 digits. *)
Definition print_int (z : Z) : bytes :=
  if z <? 0 then x2d :: print_digits 10 (- z) [] else print_digits 10 z [].

Lemma digit_val n : 0 ≤ n < 10 → byte_val (digit n) = 48 + n.
Proof. intros Hn. unfold digit. rewrite byte_val_of. apply Z.mod_small. lia. Qed.

Lemma isdigit_digit n : isdigit (digit (n mod 10)) = true.
Proof.
  pose proof (Z.mod_pos_bound n 10 ltac:(lia)). unfold isdigit. rewrite digit_val by done. lia.
Qed.

Lemma isdigit_graph b : isdigit b = true → graph b.
Proof. unfold isdigit, graph, isspace. intros H. lia. Qed.

Lemma print_digits_digits fuel n acc :
  Forall (λ b, isdigit b = true) acc → Forall (λ b, isdigit b = true) (print_digits fuel n acc).
Proof.
  revert n acc. induction fuel as [|fuel IH]; intros n acc Ha; simpl; [done|].
  pose proof (isdigit_digit n). case_Z; [by constructor|]. apply IH. by constructor.
Qed.

Lemma print_digits_cons fuel n acc : print_digits (S fuel) n acc ≠ [].
Proof.
  revert n acc. induction fuel as [|fuel IH]; intros n acc; simpl; [by case_Z|].
  case_Z; [done|]. apply IH.
Qed.

Lemma scan_print fuel n acc :
  0 ≤ n < 10 ^ Z.of_nat fuel → (0 < fuel)%nat →
  ∃ k, ∀ a, scan_digits (print_digits fuel n acc) a = scan_digits acc (a * 10 ^ k + n).
Proof.
  revert n acc. induction fuel as [|fuel IH]; intros n acc Hn Hf; [lia|].
  rewrite Nat2Z.inj_succ, Z.pow_succ_r in Hn by lia. cbn [print_digits].
  pose proof (Z.mod_pos_bound n 10 ltac:(lia)). pose proof (Z.div_mod n 10 ltac:(lia)).
  assert (∀ a, scan_digits (digit (n mod 10) :: acc) a = scan_digits acc (10 * a + n mod 10)) as Hstep.
  { intros a. cbn [scan_digits]. rewrite isdigit_digit, digit_val by done. f_equal. lia. }
  destruct (Z.ltb_spec n 10).
  - exists 1. intros a. rewrite Hstep. f_equal. rewrite Z.mod_small by lia. lia.
  - destruct fuel as [|fuel]; [simpl in Hn; lia|].
    destruct (IH (n / 10) (digit (n mod 10) :: acc)) as [k Hk].
    { split; [apply Z.div_pos; lia|apply Z.div_lt_upper_bound; lia]. }
    { lia. }
    destruct (decide (0 ≤ k)) as [Hk0|Hk0].
    + exists (k + 1). intros a. rewrite Hk, Hstep, Z.pow_add_r by lia. f_equal. lia.
    + exists (-1). intros a. rewrite Hk, Hstep, !Z.pow_neg_r by lia. f_equal. lia.
Qed.

Lemma print_digits_app fuel n acc rest :
  print_digits fuel n acc ++ rest = print_digits fuel n (acc ++ rest).
Proof.
  revert n acc. induction fuel as [|fuel IH]; intros n acc; simpl; [done|]. case_Z; [done|]. by rewrite IH.
Qed.

Definition no_digit (rest : bytes) : Prop :=
  match rest with [] => True | b :: _ => isdigit b = false end.

Lemma scan_stop rest n : no_digit rest → scan_digits rest n = (n, rest).
Proof. destruct rest as [|b rest]; simpl; [done|]. by intros ->. Qed.

Lemma scan_digits_ok n rest :
  0 ≤ n < 10 ^ 10 → no_digit rest → scan_digits (print_digits 10 n rest) 0 = (n, rest).
Proof.
  intros Hn Hr. destruct (scan_print 10 n rest Hn) as [k Hk]; [lia|]. rewrite Hk, Z.mul_0_l.
  by apply scan_stop.
Qed.

Lemma print_digits_first n rest :
  ∃ b l, print_digits 10 n rest = b :: l ∧ isdigit b = true.
Proof.
  pose proof (print_digits_digits 10 n [] ltac:(constructor)) as HF.
  pose proof (print_digits_cons 9 n []) as Hne. rewrite <-(app_nil_l rest), <-print_digits_app.
  destruct (print_digits 10 n []) as [|b l]; [done|]. apply Forall_cons in HF as [? _]. simpl. eauto.
Qed.

Lemma print_int_word z : word (print_int z).
Proof.
  assert (∀ n, word (print_digits 10 n [])) as Hd.
  { intros n. split; [apply print_digits_cons|]. eapply Forall_impl; [by apply print_digits_digits|].
    apply isdigit_graph. }
  unfold print_int. case_Z; [|apply Hd]. split; [done|]. constructor; [by split|]. apply Hd.
Qed.

(** Reading a printed number gives it back. *)
Lemma strtol_print z rest :
  is_int z → no_digit rest → strtol (print_int z ++ rest) = Some (z, rest).
Proof.
  unfold is_int, INT_MIN, INT_MAX. intros Hz Hr. unfold strtol, print_int.
  destruct (Z.ltb_spec z 0); cbn [app skip_space].
  - change (isspace x2d) with false. cbv iota. change (byte_val x2d =? 45) with true. cbv iota beta.
    rewrite print_digits_app, app_nil_l. destruct (print_digits_first (- z) rest) as (b & l & E & Hb).
    rewrite E, Hb, <-E, scan_digits_ok by (done || lia). do 2 f_equal. unfold LONG_MAX. lia.
  - rewrite print_digits_app, app_nil_l. destruct (print_digits_first z rest) as (b & l & E & Hb).
    destruct (isdigit_graph b Hb) as [Hs _]. rewrite E. cbn [skip_space]. rewrite Hs.
    assert (byte_val b =? 45 = false ∧ byte_val b =? 43 = false) as [-> ->].
    { unfold isdigit in Hb. lia. }
    rewrite Hb, <-E, scan_digits_ok by (done || lia). do 2 f_equal. unfold LONG_MAX. lia.
Qed.

Lemma skip_print z rest : skip_space (print_int z ++ rest) = print_int z ++ rest.
Proof.
  destruct (print_int_word z) as [Hne HF]. destruct (print_int z) as [|b l]; [done|].
  apply Forall_cons in HF as [[Hs _] _]. simpl. by rewrite Hs.
Qed.

(** ** Addresses *)

Record address_wf (a : address) : Prop := {
  aw_host : word (text (address_string a));
  aw_len : (length (text (address_string a)) < 128)%nat;
  aw_port : is_int (port a);
}.

Definition print_address (id : Z) (a : address) : bytes :=
  print_int id ++ x20 :: text (address_string a) ++ x20 :: print_int (port a).

Lemma print_address_phrase id a : address_wf a → phrase (print_address id a).
Proof.
  intros [Hh _ _]. apply phrase_app; [apply word_phrase, print_int_word| |done].
  apply phrase_app; [by apply word_phrase|apply word_phrase, print_int_word|done].
Qed.

Lemma strtol_skip s : strtol (x20 :: s) = strtol s.
Proof. done. Qed.

(** A printed address is read back; its id is not used. *)
Lemma parse_address_print id a :
  is_int id → address_wf a → parse_address (@Some bytes (print_address id a)) = Ret (Some a).
Proof.
  intros Hid [[Hne Hh] Hl Hp]. unfold parse_address, scan_address, print_address. cbn [deref]. rewrite bind_Ret.
  rewrite strtol_print by done. cbv iota beta.
  assert (skip_space (x20 :: text (address_string a) ++ x20 :: print_int (port a)) =
    text (address_string a) ++ x20 :: print_int (port a)) as ->.
  { destruct (text (address_string a)) as [|b l]; [done|]. apply Forall_cons in Hh as [[Hs _] _].
    cbn [skip_space app]. change (isspace x20) with true. cbv iota. by rewrite Hs. }
  rewrite scan_word_ok by done. cbv iota beta.
  destruct (Nat.eqb_spec (length (text (address_string a))) 0) as [E|_].
  { by destruct (text (address_string a)). }
  destruct (Nat.leb_spec 128 (length (text (address_string a)))); [lia|].
  rewrite strtol_skip, <-(app_nil_r (print_int (port a))), strtol_print, bind_Ret by done.
  unfold address_init, untext, text. rewrite string_of_list_byte_of_string, to_int_small by done.
  by destruct a.
Qed.

(** ** The grammar *)

Inductive value : Type := VBool (b : bool) | VInt (z : Z) | VStr (s : string) | VVerbosity (v : Z).

Inductive entry : Type :=
  | EBlank
  | EComment (s : bytes)
  | EAcceptor (id : Z) (a : address)
  | EProposer (id : Z) (a : address)
  | EOption (o : option_entry) (v : value).

Definition print_verbosity (v : Z) : bytes :=
  text (if v =? PAXOS_LOG_QUIET then "quiet" else if v =? PAXOS_LOG_ERROR then "error"
        else if v =? PAXOS_LOG_INFO then "info" else "debug").

Definition print_value (v : value) : bytes :=
  match v with
  | VBool b => text (if b then "yes" else "no")
  | VInt z => print_int z
  | VStr s => text s
  | VVerbosity v => print_verbosity v
  end.

(** A line without its newline. *)
Definition print_entry (e : entry) : bytes :=
  match e with
  | EBlank => []
  | EComment s => x23 :: s
  | EAcceptor id a => text "a" ++ x20 :: print_address id a
  | EProposer id a => text "p" ++ x20 :: print_address id a
  | EOption o v => text (opt_name o) ++ x20 :: print_value v
  end.

Definition print_config (es : list entry) : bytes := concat ((λ e, print_entry e ++ [x0a]) <$> es).

Definition value_ok (t : option_type) (v : value) : Prop :=
  match t, v with
  | option_boolean, VBool _ => True
  | option_integer, VInt z => is_int z
  | option_string, VStr s => phrase (text s)
  | option_verbosity, VVerbosity v => 0 ≤ v ≤ 3
  | _, _ => False
  end.

(** What may be written on a line; with its newline a line fits the buffer. *)
Definition entry_ok (e : entry) : Prop :=
  (length (print_entry e) < 511)%nat ∧
  match e with
  | EBlank => True
  | EComment s => Forall (λ b, byte_val b ≠ 10) s
  | EAcceptor id a | EProposer id a => is_int id ∧ address_wf a
  | EOption o v => o ∈ options ∧ value_ok (opt_type o) v
  end.

(** What a line means. *)
Definition entry_option (e : entry) (p : paxos_config) : paxos_config :=
  match e with
  | EOption o (VBool b) => set_int (opt_value o) (cbool b) p
  | EOption o (VInt z) => set_int (opt_value o) z p
  | EOption o (VStr s) => set_str (opt_value o) s p
  | EOption o (VVerbosity v) => set_int (opt_value o) v p
  | _ => p
  end.

Definition entry_acceptor (e : entry) : option address :=
  match e with EAcceptor _ a => Some a | _ => None end.

Definition entry_proposer (e : entry) : option address :=
  match e with EProposer _ a => Some a | _ => None end.

(** The first entries of an array, and how many are in use. *)
Record addresses (n : Z) (arr l : list address) : Prop := {
  ad_count : n = Z.of_nat (length l);
  ad_size : Z.of_nat (length arr) = MAX_ADDR;
  ad_prefix : take (length l) arr = l;
}.

Definition config_rep (c : config) (acs ps : list address) : Prop :=
  addresses (acceptors_count c) (acceptors c) acs ∧ addresses (proposers_count c) (proposers c) ps.

Lemma addresses_get n arr l i a :
  addresses n arr l → l !! i = Some a → arr_get arr (Z.of_nat i) = Ret a.
Proof.
  intros [_ _ Hp] Hl. apply arr_get_ok; [lia|]. rewrite Nat2Z.id.
  pose proof (lookup_lt_Some _ _ _ Hl) as Hi. rewrite <-Hp in Hl. by rewrite lookup_take_lt in Hl.
Qed.

Lemma connect_acceptors_ok c acs pcs new_bev :
  config_rep c acs pcs →
  ∃ p, connect_acceptors c new_bev = Ret p ∧ peers_ok p acs ∧
    bev <$> array p = new_bev <$> seqZ 0 (Z.of_nat (length acs)).
Proof.
  intros [Ra _]. unfold connect_acceptors. rewrite (ad_count _ _ _ Ra).
  loop_total (λ k ps, peers_ok ps (take (Z.to_nat k) acs) ∧ bev <$> array ps = new_bev <$> seqZ 0 k).
  - lia.
  - intros i ps Hi [Hok Hb]. destruct (lookup_lt_is_Some_2 acs (Z.to_nat i)) as [a Ha]; [lia|].
    pose proof (addresses_get _ _ _ _ _ Ra Ha) as Hg. rewrite Z2Nat.id in Hg by lia. rewrite Hg. simpl.
    eexists. split; [done|]. rewrite Z2Nat.inj_add, Nat.add_1_r, (take_S_r _ _ a Ha) by lia.
    split; [by apply peers_connect_ok|]. simpl. rewrite fmap_app, Hb, seqZ_app, fmap_app by lia. done.
  - by split.
  - destruct Hloop as [Hok Hb]. eexists. split; [done|]. by rewrite Nat2Z.id, take_ge in Hok.
Qed.

Lemma addresses_add n arr l a :
  addresses n arr l → Z.of_nat (length l) < MAX_ADDR →
  ∃ arr', arr_set arr n a = Ret arr' ∧ addresses (n + 1) arr' (l ++ [a]).
Proof.
  intros [-> Hs Hp] Hl. exists (<[length l := a]> arr). split.
  - rewrite arr_set_ok by lia. by rewrite Nat2Z.id.
  - split.
    + rewrite length_app. simpl. lia.
    + by rewrite length_insert.
    + rewrite length_app, Nat.add_1_r. simpl. rewrite (take_S_r _ _ a).
      * by rewrite take_insert_ge, Hp by lia.
      * by rewrite list_lookup_insert_eq by lia.
Qed.

Lemma options_names o :
  o ∈ options → word (text (opt_name o)) ∧ lookup_option (text (opt_name o)) = Some o ∧
    strcaseeq (text (opt_name o)) (text "a") = false ∧ strcaseeq (text (opt_name o)) (text "p") = false.
Proof.
  assert (Forall (λ o, bool_decide (text (opt_name o) ≠ [] ∧ Forall graph (text (opt_name o))) = true ∧
    lookup_option (text (opt_name o)) = Some o ∧ strcaseeq (text (opt_name o)) (text "a") = false ∧
    strcaseeq (text (opt_name o)) (text "p") = false) options) as HF.
  { repeat constructor; by vm_compute. }
  intros Ho. rewrite Forall_forall in HF. destruct (HF o Ho) as (Hw & ?). split; [|done].
  by apply bool_decide_eq_true in Hw.
Qed.

Lemma parse_option_print o v p :
  value_ok (opt_type o) v →
  phrase (print_value v) ∧ parse_option o (print_value v) p = (entry_option (EOption o v) p, 1).
Proof.
  intros Hv. unfold parse_option.
  destruct (opt_type o), v as [b|z|s|v]; simpl in Hv; try done; cbn [print_value entry_option].
  - destruct b; (split; [apply word_phrase; split; [done|by repeat constructor]|done]).
  - split; [apply word_phrase, print_int_word|]. unfold parse_integer.
    rewrite <-(app_nil_r (print_int z)), strtol_print by done. by rewrite to_int_small.
  - split; [done|]. unfold parse_string. destruct Hv as [HF (b & l & E & Hb) _]. rewrite E in HF |- *.
    apply Forall_cons in HF as [[_ Hn] _]. destruct (Z.eqb_spec (byte_val b) 10); [done|].
    rewrite <-E. unfold untext, text. by rewrite string_of_list_byte_of_string.
  - assert (v = 0 ∨ v = 1 ∨ v = 2 ∨ v = 3) as [->|[->|[->| ->]]] by lia;
      (split; [apply word_phrase; split; [done|by repeat constructor]|done]).
Qed.

Definition is_setting (e : entry) : bool :=
  match e with EBlank | EComment _ => false | _ => true end.

Lemma newline_space : Forall (λ c, isspace c = true) [x0a].
Proof. by repeat constructor. Qed.

Lemma print_entry_phrase e : entry_ok e → is_setting e = true → phrase (print_entry e).
Proof.
  intros [_ Hok] Hs. destruct e as [|s|id a|id a|o v]; try done; cbn [print_entry].
  1-2: destruct Hok as [_ Ha]; apply phrase_app; [|by apply print_address_phrase|done];
    apply word_phrase; split; [done|by repeat constructor].
  destruct Hok as [Ho Hv]. apply phrase_app; [|by apply (parse_option_print o v default_config)|done].
  by apply word_phrase, options_names.
Qed.

(** A printed line is understood as it is meant. *)
Lemma parse_line_print e p c acs ps :
  entry_ok e → is_setting e = true → config_rep c acs ps →
  let acs' := acs ++ option_list (entry_acceptor e) in
  let ps' := ps ++ option_list (entry_proposer e) in
  Z.of_nat (length acs') ≤ MAX_ADDR → Z.of_nat (length ps') ≤ MAX_ADDR →
  ∃ c', parse_line (print_entry e ++ [x0a]) p c = Ret (entry_option e p, c', 1) ∧ config_rep c' acs' ps'.
Proof.
  intros He Hs [Ra Rp] acs' ps' Hla Hlp. unfold parse_line.
  rewrite (strtrim_phrase _ _ (print_entry_phrase e He Hs) newline_space), bind_Ret.
  destruct He as [_ Hok]. destruct e as [|s|id a|id a|o v]; try done; cbn [print_entry];
    simpl in acs', ps'; unfold acs', ps' in *; rewrite ?length_app in Hla, Hlp; simpl in Hla, Hlp.
  - destruct Hok as [Hid Ha]. rewrite strsep_word by (by repeat constructor). cbv iota beta.
    change (strcaseeq (text "a") (text "a")) with true. cbv iota.
    rewrite (parse_address_print id a Hid Ha), bind_Ret.
    destruct (addresses_add _ _ _ a Ra) as (arr & Harr & Radd); [lia|]. rewrite Harr, bind_Ret.
    eexists. split; [done|]. rewrite app_nil_r. by split.
  - destruct Hok as [Hid Ha]. rewrite strsep_word by (by repeat constructor). cbv iota beta.
    change (strcaseeq (text "p") (text "a")) with false. cbv iota.
    change (strcaseeq (text "p") (text "p")) with true. cbv iota.
    rewrite (parse_address_print id a Hid Ha), bind_Ret.
    destruct (addresses_add _ _ _ a Rp) as (arr & Harr & Radd); [lia|]. rewrite Harr, bind_Ret.
    eexists. split; [done|]. rewrite app_nil_r. by split.
  - destruct Hok as [Ho Hv]. destruct (options_names o Ho) as ([_ Hw] & Hlk & Hna & Hnp).
    rewrite strsep_word by done. cbv iota beta. rewrite Hna, Hnp.
    destruct (parse_option_print o v p Hv) as [Hph Hpo].
    rewrite <-(app_nil_r (print_value v)), (strtrim_phrase _ [] Hph) by constructor.
    rewrite bind_Ret, Hlk, Hpo. eexists. split; [done|]. rewrite !app_nil_r. by split.
Qed.

Lemma setting_first e :
  entry_ok e → is_setting e = true →
  byte_val (hd x00 (print_entry e ++ [x0a])) ≠ 35 ∧ byte_val (hd x00 (print_entry e ++ [x0a])) ≠ 10.
Proof.
  intros He Hs. destruct (print_entry_phrase e He Hs) as [HF (b & l & E & Hb) _].
  split; [|rewrite E in HF |- *; by apply Forall_cons in HF as [[_ ?] _]].
  destruct e as [|s|id a|id a|o v]; try done. destruct He as [_ [Ho _]].
  assert (Forall (λ o, byte_val (hd x00 (text (opt_name o))) ≠ 35 ∧ text (opt_name o) ≠ []) options) as Hall
    by (repeat constructor; by vm_compute).
  rewrite Forall_forall in Hall. destruct (Hall o Ho) as [? Hne]. cbn [print_entry].
  by destruct (text (opt_name o)).
Qed.

Lemma entry_line e : entry_ok e → Forall (λ b, byte_val b ≠ 10) (print_entry e).
Proof.
  intros He. destruct (is_setting e) eqn:Es.
  - destruct (print_entry_phrase e He Es) as [HF _ _]. eapply Forall_impl; [exact HF|]. by intros b [].
  - destruct He as [_ He]. destruct e; try done. simpl. by constructor.
Qed.

Lemma read_lines_print es fuel p c acs ps :
  Forall entry_ok es → (length (print_config es) < fuel)%nat → config_rep c acs ps →
  let acs' := acs ++ omap entry_acceptor es in
  let ps' := ps ++ omap entry_proposer es in
  Z.of_nat (length acs') ≤ MAX_ADDR → Z.of_nat (length ps') ≤ MAX_ADDR →
  ∃ c', read_lines fuel (print_config es) p c = Ret (foldl (flip entry_option) p es, c') ∧
    config_rep c' acs' ps'.
Proof.
  intros HF. revert fuel p c acs ps.
  induction HF as [|e es He HF IH]; intros [|fuel] p c acs ps Hfuel R acs' ps' Ha Hp; try (simpl in *; lia).
  { exists c. unfold acs', ps'. simpl. by rewrite !app_nil_r. }
  assert (print_config (e :: es) = print_entry e ++ x0a :: print_config es) as E.
  { unfold print_config. simpl. by rewrite <-app_assoc. }
  rewrite E in Hfuel |- *. rewrite length_app in Hfuel. simpl in Hfuel.
  assert (∃ b l, print_entry e ++ x0a :: print_config es = b :: l) as (b & l & Ebl)
    by (destruct (print_entry e); simpl; eauto).
  cbn [read_lines]. rewrite Ebl, <-Ebl. rewrite fgets_line by (apply He || by apply entry_line).
  cbv iota beta zeta.
  assert (acs' = (acs ++ option_list (entry_acceptor e)) ++ omap entry_acceptor es ∧
          ps' = (ps ++ option_list (entry_proposer e)) ++ omap entry_proposer es) as [E1 E2].
  { unfold acs', ps'. rewrite <-!app_assoc. by destruct e. }
  rewrite E1 in Ha |- *. rewrite E2 in Hp |- *. clear acs' ps' E1 E2.
  destruct (is_setting e) eqn:Es.
  - destruct (setting_first e He Es) as [H1 H2]. apply Z.eqb_neq in H1 as ->. apply Z.eqb_neq in H2 as ->.
    cbn [negb andb]. rewrite c_str_line.
    2: { apply Forall_app. split; [|by repeat constructor].
         destruct (print_entry_phrase e He Es) as [Hl _ _]. eapply Forall_impl; [exact Hl|]. by intros ? []. }
    destruct (parse_line_print e p c acs ps He Es R) as (c1 & -> & R1);
      [rewrite length_app in Ha; lia|rewrite length_app in Hp; lia|].
    rewrite bind_Ret. cbv iota beta. change (1 =? 0) with false. cbv iota. apply IH; [lia|done|done|done].
  - destruct e as [|s| | |]; try done; simpl in R, Ha, Hp |- *; rewrite (app_nil_r acs) in Ha |- *;
      rewrite (app_nil_r ps) in Hp |- *; (apply IH; [lia|done|done|done]).
Qed.

(** ** Termination *)

Lemma fgets_shorter n b file : (length (fgets (S n) (b :: file)).2 < length (b :: file))%nat.
Proof.
  assert (∀ n file, (length (fgets n file).2 ≤ length file)%nat) as Hle.
  { clear. intros n. induction n as [|n IH]; intros file; [done|]. destruct file as [|b file]; simpl; [done|].
    case_Z; simpl; [lia|]. specialize (IH file). destruct (fgets n file) as [l rest]. simpl in *. lia. }
  simpl. case_Z; simpl; [lia|]. specialize (Hle n file). destruct (fgets n file) as [l rest]. simpl in *. lia.
Qed.

(** A computation that stays within the recursion bounds of the model. *)
Definition in_bounds {A} (m : res A) : Prop := m ≠ Fault StackOverflow.

Lemma in_bounds_bind {A B} (m : res A) (f : A → res B) :
  in_bounds m → (∀ a, in_bounds (f a)) → in_bounds (m ≫= f).
Proof. unfold in_bounds. intros Hm Hf. destruct m; simpl; [apply Hf|congruence]. Qed.

Lemma parse_address_bounds s : in_bounds (parse_address s).
Proof.
  unfold parse_address. apply in_bounds_bind; [|done].
  unfold scan_address. apply in_bounds_bind; [by destruct s|]. intros t.
  destruct (strtol t) as [[? t']|]; [|done]. destruct (scan_word (skip_space t')) as [w t2].
  do 2 (case_match; [done|]). by destruct (strtol t2) as [[]|].
Qed.

Lemma arr_set_bounds {A} (l : list A) i a : in_bounds (arr_set l i a).
Proof. unfold arr_set. by case_match. Qed.

Lemma parse_line_bounds line p c : in_bounds (parse_line line p c).
Proof.
  unfold parse_line. apply in_bounds_bind; [done|]. intros l. destruct (strsep l) as [tok rest].
  do 2 (case_match; [apply in_bounds_bind; [apply parse_address_bounds|]; intros [a|]; [|done];
    apply in_bounds_bind; [apply arr_set_bounds|done]|]).
  apply in_bounds_bind; [unfold strtrim; apply in_bounds_bind; [by destruct rest|done]|].
  intros l'. destruct (lookup_option tok); [|done]. by destruct (parse_option _ l' p).
Qed.

Lemma read_lines_bounds fuel file p c : (length file < fuel)%nat → in_bounds (read_lines fuel file p c).
Proof.
  revert file p c. induction fuel as [|fuel IH]; intros file p c Hf; [lia|]. cbn [read_lines].
  destruct file as [|b file]; [done|]. pose proof (fgets_shorter 510 b file) as Hs.
  destruct (fgets 511 (b :: file)) as [l rest]. simpl in Hs, Hf. cbv zeta.
  destruct (_ && _); [|apply IH; lia].
  apply in_bounds_bind; [apply parse_line_bounds|]. intros [[p' c'] rv].
  case_match; [done|]. apply IH. lia.
Qed.

Lemma read_config_ok es p :
  Forall entry_ok es → Z.of_nat (length (omap entry_acceptor es)) ≤ MAX_ADDR →
  Z.of_nat (length (omap entry_proposer es)) ≤ MAX_ADDR →
  ∃ c, read_config (Some (print_config es)) p = Ret (foldl (flip entry_option) p es, c) ∧
    config_rep c (omap entry_acceptor es) (omap entry_proposer es).
Proof.
  intros HF Ha Hp. unfold read_config.
  destruct (read_lines_print es (S (length (print_config es))) p config_zero [] []) as (c & -> & R);
    [done|lia|by split|done|done|eauto].
Qed.

(** ** Properties *)

(** C30: the reader implements its grammar.  For any settings written one per
line, addresses with at most [MAX_ADDR] acceptors and proposers, options with
values of their type, comments and blank lines, reading the text returns; the
options hold the values written last, and the address arrays hold the
addresses in the order of their lines, whatever ids the lines give. *)
Theorem read_config_roundtrip es p :
  Forall entry_ok es →
  let acs := omap entry_acceptor es in
  let ps := omap entry_proposer es in
  Z.of_nat (length acs) ≤ MAX_ADDR → Z.of_nat (length ps) ≤ MAX_ADDR →
  ∃ c, read_config (Some (print_config es)) p = Ret (foldl (flip entry_option) p es, c) ∧
    acceptors_count c = Z.of_nat (length acs) ∧ take (length acs) (acceptors c) = acs ∧
    proposers_count c = Z.of_nat (length ps) ∧ take (length ps) (proposers c) = ps.
Proof.
  intros HF acs ps Ha Hp. destruct (read_config_ok es p HF Ha Hp) as (c & -> & Ra & Rp).
  exists c. destruct Ra as [? _ ?], Rp as [? _ ?]. done.
Qed.

(** Reading terminates on any file: the model's bound on the number of
lines, one more than the length of the file, is never reached. *)
Theorem read_config_terminates file p : read_config file p ≠ Fault StackOverflow.
Proof. destruct file as [f|]; [|done]. apply read_lines_bounds. lia. Qed.

(** An option without a value stops the process with a null pointer: so does
every line of one word other than [a] or [p], known or not, and a line of
spaces only; none of them is reported as an error. *)
Lemma config_missing_value_faults w p c :
  w = [] ∨ word w → strcaseeq w (text "a") = false → strcaseeq w (text "p") = false →
  parse_line (w ++ [x20; x0a]) p c = Fault NullDeref.
Proof.
  intros Hw Ha Hp. unfold parse_line.
  assert (strtrim (@Some bytes (w ++ [x20; x0a])) = Ret w ∧ strsep w = (w, None)) as [-> Hs].
  { destruct Hw as [->|Hw]; [done|]. split; [apply strtrim_phrase; [by apply word_phrase|by repeat constructor]|].
    by apply strsep_end, Hw. }
  rewrite bind_Ret, Hs. cbv iota beta. rewrite Ha, Hp. done.
Qed.

(** The address arrays have ten entries and nothing checks that: the line
of an eleventh acceptor or proposer writes past its array. *)
Lemma config_eleventh_address_faults id a p c acs ps :
  config_rep c acs ps → is_int id → address_wf a →
  (Z.of_nat (length acs) = MAX_ADDR →
     parse_line (print_entry (EAcceptor id a) ++ [x0a]) p c = Fault OutOfBounds) ∧
  (Z.of_nat (length ps) = MAX_ADDR →
     parse_line (print_entry (EProposer id a) ++ [x0a]) p c = Fault OutOfBounds).
Proof.
  intros [[Hca Hsa _] [Hcp Hsp _]] Hid Ha.
  assert (∀ k, word k → phrase (k ++ x20 :: print_address id a)) as Hph.
  { intros k Hk. apply phrase_app; [by apply word_phrase|by apply print_address_phrase|done]. }
  split; intros Hl; unfold parse_line; cbn [print_entry].
  - rewrite (strtrim_phrase _ _ (Hph (text "a") ltac:(by split; repeat constructor)) newline_space), bind_Ret.
    rewrite strsep_word by (by repeat constructor). cbv iota beta.
    change (strcaseeq (text "a") (text "a")) with true. cbv iota.
    rewrite (parse_address_print id a Hid Ha), bind_Ret, arr_set_out by (simpl; lia). done.
  - rewrite (strtrim_phrase _ _ (Hph (text "p") ltac:(by split; repeat constructor)) newline_space), bind_Ret.
    rewrite strsep_word by (by repeat constructor). cbv iota beta.
    change (strcaseeq (text "p") (text "a")) with false. cbv iota.
    change (strcaseeq (text "p") (text "p")) with true. cbv iota.
    rewrite (parse_address_print id a Hid Ha), bind_Ret, arr_set_out by (simpl; lia). done.
Qed.

(** ** Witnesses *)

Definition localhost (p : Z) : address := Address "127.0.0.1" p.

Lemma localhost_wf p : is_int p → address_wf (localhost p).
Proof.
  intros Hp. split; [|vm_compute; lia|done].
  apply (bool_decide_unpack (word _)). by vm_compute.
Qed.

(** A shortened paxos.conf. *)
Definition demo_entries : list entry :=
  [EComment (text "# LibPaxos configuration file"); EBlank;
   EAcceptor 0 (localhost 8800); EAcceptor 7 (localhost 8801); EAcceptor 7 (localhost 8802);
   EProposer 0 (localhost 5550);
   EOption (OptionEntry "verbosity" f_verbosity option_verbosity) (VVerbosity 3);
   EOption (OptionEntry "bdb-cachesize" f_bdb_cachesize option_integer) (VInt 1073741824);
   EOption (OptionEntry "bdb-env-path" f_bdb_env_path option_string) (VStr "/var/my acceptor")].

Lemma demo_entries_ok : Forall entry_ok demo_entries.
Proof.
  repeat apply Forall_cons_2; [..|apply Forall_nil_2]; (split; [by vm_compute; lia|]); try done.
  - by repeat constructor.
  - split; [done|]. by apply localhost_wf.
  - split; [done|]. by apply localhost_wf.
  - split; [done|]. by apply localhost_wf.
  - split; [done|]. by apply localhost_wf.
  - split; [|done]. by repeat constructor.
  - split; [|done]. by repeat constructor.
  - split; [by repeat constructor|]. split.
    + by repeat constructor.
    + by eexists _, _.
    + exists x72, (text "/var/my accepto"). done.
Qed.

Lemma read_config_roundtrip_witness :
  ∃ c, read_config (Some (print_config demo_entries)) default_config =
      Ret (PaxosConfig 3 2048 1 1 128 0 1073741824 "/var/my acceptor" "acc.bdb" 0, c) ∧
    acceptors_count c = 3 ∧ take 3 (acceptors c) = [localhost 8800; localhost 8801; localhost 8802] ∧
    proposers_count c = 1 ∧ take 1 (proposers c) = [localhost 5550].
Proof.
  apply (read_config_roundtrip demo_entries default_config).
  - exact demo_entries_ok.
  - by vm_compute.
  - by vm_compute.
Defined.

Lemma config_missing_value_faults_witness :
  parse_line (text "verbosity" ++ [x20; x0a]) default_config config_zero = Fault NullDeref.
Proof.
  apply (config_missing_value_faults (text "verbosity") default_config config_zero).
  - right. split; [done|by repeat constructor].
  - reflexivity.
  - reflexivity.
Defined.

Definition ten_acceptors : config :=
  Config 0 10 (replicate (Z.to_nat MAX_ADDR) no_address) (replicate (Z.to_nat MAX_ADDR) (localhost 8800)).

Lemma config_eleventh_address_faults_witness :
  parse_line (print_entry (EAcceptor 10 (localhost 8810)) ++ [x0a]) default_config ten_acceptors =
    Fault OutOfBounds.
Proof.
  apply (config_eleventh_address_faults 10 (localhost 8810) default_config ten_acceptors
    (replicate (Z.to_nat MAX_ADDR) (localhost 8800)) []).
  - by split; split.
  - done.
  - by apply localhost_wf.
  - reflexivity.
Defined.
