(* ===== verification/EvAcceptor.v ===== *)
(** * The event-driven acceptor (src/evpaxos/evacceptor.c)

The handlers of an acceptor's connections: a promise goes back to the sender, a
vote to every connection, a refusal back to the sender.  [evacceptor_refines]
relates each message handled to a transition of [System]; [handle_req_handles]
shows that the handler reads exactly the messages that were sent. *)

From S2P Require Import Prelude Carray Quorum Messages Storage StorageMem Acceptor.
From S2P Require Import Proposer ProposerRun Learner Synod System Wire Net Config.
#[local] Open Scope Z_scope.
Import TcpReceiver.

Section evacceptor.
Context {S : Type} `{Storage S}.

(** [struct evacceptor]; the configuration and the event base are read only, and
[state] is NULL when the storage could not be opened. *)
Record evacceptor : Type := EvAcceptor {
  acceptor_id : Z;
  receiver : tcp_receiver;
  state : option (acceptor S);
}.

Definition set_state (st : acceptor S) (a : evacceptor) : evacceptor :=
  EvAcceptor (acceptor_id a) (receiver a) (Some st).

Definition handle_prepare_req (a : evacceptor) (from : bufferevent) (pr : prepare_req)
    : res (evacceptor * sends) :=
  st ← deref (state a);
  '(st, p) ← acceptor_receive_prepare st pr;
  rec ← rec_load (store st) p;
  Ret (set_state st a, [(from, MPrepareAck (prepare_ack_of rec))]).

Definition handle_accept_req (a : evacceptor) (from : bufferevent) (ar : accept_req)
    : res (evacceptor * sends) :=
  let conns := tcp_receiver_get_events (receiver a) in
  st ← deref (state a);
  '(st, p) ← acceptor_receive_accept st ar;
  rec ← rec_load (store st) p;
  if ar_ballot ar =? aa_ballot rec then
    out ← send_each (carray_count conns) (λ i, x ← carray_at conns i; deref x) (MAcceptAck rec);
    Ret (set_state st a, out)
  else Ret (set_state st a, [(from, MAcceptAck rec)]).

Definition handle_repeat_req (a : evacceptor) (from : bufferevent) (iid : Z)
    : res (evacceptor * sends) :=
  st ← deref (state a);
  '(st, p) ← acceptor_receive_repeat st iid;
  match p with
  | Some p =>
      rec ← rec_load (store st) p;
      Ret (set_state st a, [(from, MAcceptAck rec)])
  | None => Ret (set_state st a, [])
  end.

(** The [switch] of [handle_req], on the code and the buffer. *)
Definition dispatch (a : evacceptor) (from : bufferevent) (code : Z) (buf : bytes)
    : res (evacceptor * sends) :=
  if code =? msg_code prepare_reqs then
    pr ← decode_prepare_req buf; handle_prepare_req a from pr
  else if code =? msg_code accept_reqs then
    ar ← decode_accept_req buf; handle_accept_req a from ar
  else if code =? msg_code repeat_reqs then
    iid ← decode_iid buf; handle_repeat_req a from iid
  else Ret (a, []).

(** [junk] is what the stack buffer holds after the bytes of the message. *)
Definition handle_req {B} `{Evbuffer B} (from : bufferevent) (junk : bytes) (a : evacceptor) (inp : B)
    : res (evacceptor * B * sends) :=
  '(inp, m) ← recv_msg inp;
  match m with
  | None => Ret (a, inp, [])
  | Some (size, code, data) =>
      '(a, out) ← dispatch a from code (data ++ junk);
      Ret (a, inp, out)
  end.

(** What [evacceptor_init] does once the configuration [conf] is read; [opened] is
what [storage_open(id)] returns. *)
Definition evacceptor_init_conf (conf : config) (id : Z) (bound : bool) (opened : option S)
    : res (option evacceptor) :=
  if (id <? 0) || (acceptors_count conf <=? id) then Ret None
  else
    a ← arr_get (acceptors conf) id;
    r ← tcp_receiver_new a bound;
    Ret (Some (EvAcceptor id r (acceptor_new opened))).

(** [file] is the contents of the file and [p] the global [paxos_config]. *)
Definition evacceptor_init (file : option bytes) (p : paxos_config) (id : Z) (bound : bool)
    (opened : option S) : res (paxos_config * option evacceptor) :=
  '(p, conf) ← read_config file p;
  a ← evacceptor_init_conf conf id bound opened;
  Ret (p, a).

(** [close] is [storage_close]; the connections that are closed. *)
Definition evacceptor_free (close : S → Z) (a : evacceptor) : res (list bufferevent) :=
  st ← deref (state a);
  let _ := acceptor_free close st in
  tcp_receiver_free (receiver a).

(** ** Handling a message *)

Definition handle_message (from : bufferevent) (a : evacceptor) (m : message)
    : res (evacceptor * sends) :=
  match m with
  | MPrepareReq pr => handle_prepare_req a from pr
  | MAcceptReq ar => handle_accept_req a from ar
  | MRepeatReq iid => handle_repeat_req a from iid
  | _ => Ret (a, [])
  end.

Lemma req_dispatch_ok hole from junk a m :
  message_wf m → dispatch a from (msg_code (message_code m)) (message_data hole m ++ junk) =
  handle_message from a m.
Proof.
  intros Hm. unfold dispatch. destruct m as [r|k|r|k|iid|v];
    cbn [message_code msg_code message_data Z.eqb Pos.eqb handle_message]; try done.
  - by rewrite decode_prepare_req_ok.
  - by rewrite decode_accept_req_ok.
  - simpl in Hm. unfold is_u32, UINT32_MOD in Hm. unfold decode_iid.
    rewrite field_ok by lia. done.
Qed.

(** The handler takes one message off the connection and handles it. *)
Lemma handle_req_handles {B} `{EvbufferSpec B} hole from junk :
  handles hole (handle_req from junk) (handle_message from).
Proof.
  intros a inp m rest Hm E. destruct (recv_msg_ok hole inp m rest Hm E) as (inp' & Hr & Ec).
  exists inp'. split; [done|]. unfold handle_req. rewrite Hr, bind_Ret. cbv beta iota.
  by rewrite req_dispatch_ok by apply Hm.
Qed.

End evacceptor.
Arguments evacceptor : clear implicits.

(** ** Refinement of the system's transitions *)

Section refinement.
Context {S : Type} `{SS : StorageSpec S}.

(** [a]'s handler for [m] is a transition of the system, or none; every message
it sends is in the network afterwards.  A repeat request is handled whoever
sends it. *)
Lemma evacceptor_step (s : system S) id from (a a' : evacceptor S) m out :
  sys_acceptors s !! id = state a → m ∈ sys_net s ∨ (∃ iid, m = MRepeatReq iid) →
  (∀ iid, m = MRepeatReq iid → 0 < iid < UINT32_MOD) →
  handle_message from a m = Ret (a', out) →
  receiver a' = receiver a ∧
  ∃ s', rtc sys_step s s' ∧ sys_acceptors s' !! id = state a' ∧
    sys_proposers s' = sys_proposers s ∧ (∀ x, x ∈ out → x.2 ∈ sys_net s') ∧
    (∀ j, j ≠ id → sys_acceptors s' !! j = sys_acceptors s !! j) ∧ only_submits s s'.
Proof.
  intros Ha Hin Hrep Hh.
  assert (handle_message from a m = Ret (a, []) → receiver a' = receiver a ∧
    ∃ s', rtc sys_step s s' ∧ sys_acceptors s' !! id = state a' ∧
    sys_proposers s' = sys_proposers s ∧ (∀ x, x ∈ out → x.2 ∈ sys_net s') ∧
    (∀ j, j ≠ id → sys_acceptors s' !! j = sys_acceptors s !! j) ∧ only_submits s s') as Hidle.
  { rewrite Hh. intros [= -> ->]. split; [done|]. exists s. split; [apply rtc_refl|].
    do 2 (split; [done|]). split; [by intros x ?%not_elem_of_nil|]. split; [done|by intros v]. }
  assert (∀ A' k, rtc sys_step s (System (<[id := A']> (sys_acceptors s)) (sys_proposers s) (k ++ sys_net s)) →
    receiver a' = receiver a → state a' = Some A' → (∀ x, x ∈ out → x.2 ∈ k) →
    (∀ v, MSubmit v ∉ k) → receiver a' = receiver a ∧
    ∃ s', rtc sys_step s s' ∧ sys_acceptors s' !! id = state a' ∧
    sys_proposers s' = sys_proposers s ∧ (∀ x, x ∈ out → x.2 ∈ sys_net s') ∧
    (∀ j, j ≠ id → sys_acceptors s' !! j = sys_acceptors s !! j) ∧ only_submits s s') as Hgo.
  { intros A' k Hst Hr Hs Ho Hk. split; [done|]. eexists. split; [exact Hst|]. simpl.
    rewrite lookup_insert_eq. split; [done|]. split; [done|].
    split; [intros x Hx; apply elem_of_app; left; auto|]. split; [intros j Hj; by apply lookup_insert_ne|].
    intros v [Hv|Hv]%elem_of_app; [by destruct (Hk v)|done]. }
  destruct m as [pr|k|ar|k|iid|v]; try (by apply Hidle); simpl in Hh.
  - destruct Hin as [Hin|[? ?]]; [|done]. unfold handle_prepare_req in Hh. inv_res.
    apply (Hgo a0 [MPrepareAck (prepare_ack_of r1)]);
      [eapply rtc_once, sys_prepare; [by rewrite Ha|exact Hin|exact E0|exact E1]|done..|
       intros x ->%list_elem_of_singleton; by left|by intros v ?%list_elem_of_singleton].
  - destruct Hin as [Hin|[? ?]]; [|done]. unfold handle_accept_req in Hh. inv_res.
    assert (a' = set_state a0 a ∧ ∀ x, x ∈ out → x.2 = MAcceptAck r1) as [-> Hout].
    { destruct (ar_ballot ar =? aa_ballot r1); inv_res; (split; [done|]);
        [|by intros x ->%list_elem_of_singleton].
      intros x Hx. by eapply send_each_inv. }
    apply (Hgo a0 [MAcceptAck r1]);
      [eapply rtc_once, sys_accept; [by rewrite Ha|exact Hin|exact E0|exact E1]|done..|
       intros x Hx; rewrite (Hout x Hx); by left|by intros v ?%list_elem_of_singleton].
  - unfold handle_repeat_req in Hh. inv_res. destruct o as [p|]; inv_res.
    + apply (Hgo a0 [MAcceptAck r0]);
        [eapply rtc_once, sys_repeat; [by rewrite Ha|by apply Hrep|exact E0|exact E1]|done..|
         intros x ->%list_elem_of_singleton; by left|by intros v ?%list_elem_of_singleton].
    + apply (Hgo a0 []);
        [eapply rtc_once, sys_repeat_none; [by rewrite Ha|by apply Hrep|exact E0]|done..|
         by intros x ?%not_elem_of_nil|by intros v ?%not_elem_of_nil].
Qed.

(** ** Properties *)

(** C16: every message an event-driven acceptor handles is a transition of the
system: its state becomes the one a [sys_step] leads to (or stays), and
everything it sends, to whichever connections, is a message of the network
after it.  So the safety of [System] is that of the running acceptor. *)
Theorem evacceptor_refines_system (s : system S) id from (a a' : evacceptor S) m out :
  sys_acceptors s !! id = state a → m ∈ sys_net s →
  (∀ iid, m = MRepeatReq iid → 0 < iid < UINT32_MOD) →
  handle_message from a m = Ret (a', out) →
  ∃ s', rtc sys_step s s' ∧ sys_acceptors s' !! id = state a' ∧
    sys_proposers s' = sys_proposers s ∧ (∀ x, x ∈ out → x.2 ∈ sys_net s').
Proof.
  intros Ha Hin Hr Hh.
  destruct (evacceptor_step s id from a a' m out Ha ltac:(by left) Hr Hh)
    as (_ & s' & H1 & H2 & H3 & H4 & _). by exists s'.
Qed.

(** The answer to an accept request: when the recorded ballot is not above
the request's, the vote goes to every open connection, in order; otherwise
only the sender gets the record with the higher ballot. *)
Theorem evacceptor_accept_answer id from (a : evacceptor S) A h ar conns st p :
  state a = Some A → store_rep id (store A) h → 0 < ar_iid ar < UINT32_MOD → is_u32 (ar_ballot ar) →
  carray_rep (bevs (receiver a)) conns → indexable (bevs (receiver a)) →
  acceptor_receive_accept A ar = Ret (st, p) →
  ∃ a' out, handle_accept_req a from ar = Ret (a', out) ∧ state a' = Some st ∧
    store_rep id (store st) (spec_accept id h ar).1 ∧
    ((∀ r, h !! ar_iid ar = Some r → aa_ballot r ≤ ar_ballot ar) →
       out = (λ c, (c, MAcceptAck (accepted_record id ar))) <$> conns) ∧
    (∀ r, h !! ar_iid ar = Some r → ar_ballot ar < aa_ballot r → out = [(from, MAcceptAck r)]).
Proof.
  intros EA R Hi Hbu Rc Hx Hrun.
  destruct (receive_accept_refines id A h ar st p R Hi Hbu Hrun) as [R' Hl].
  unfold handle_accept_req, tcp_receiver_get_events. rewrite EA. simpl. rewrite Hrun. simpl. rewrite Hl. simpl.
  rewrite (send_each_ok _ _ _ conns).
  - destruct (spec_accept_cases id h ar) as [(r & E & Es & Hlt)|[Es Hle]]; rewrite Es in R' |- *; simpl.
    + case_Z; [lia|]. eexists _, _. split; [done|]. split; [done|]. split; [done|]. split.
      * intros Hle. pose proof (Hle r E). lia.
      * intros r' E' _. by simplify_eq.
    + case_Z; [|done]. eexists _, _. split; [done|]. split; [done|]. split; [done|]. split; [done|].
      intros r E Hlt. pose proof (Hle r E). lia.
  - unfold carray_count. apply (rep_count _ _ Rc).
  - intros i bev Hb. pose proof (lookup_lt_Some _ _ _ Hb).
    rewrite (carray_at_ok _ _ _ Rc Hx) by lia. rewrite Nat2Z.id, Hb. done.
Qed.

End refinement.

(** ** Witnesses *)

(** Acceptor 0, in memory, with two connections. *)
Definition ev_acc0 : acceptor storage_mem := Acceptor (storage_mem_open 0 (λ _, zero_record)).
Definition ev_conns : carray bufferevent :=
  from_ret (Carray 0 0 0 0 [])
    (c ← carray_new 10; c ← carray_push_back c 7; carray_push_back c 9).
Definition ev0 : evacceptor storage_mem :=
  EvAcceptor 0 (Receiver (set_sockaddr_in (Address "127.0.0.1" 8800)) ev_conns) (Some ev_acc0).

Definition ev_sys0 : system storage_mem :=
  System {[0 := ev_acc0]} ∅ [MAcceptReq (AcceptReq 1 11 [x41])].

Definition ev1 : evacceptor storage_mem :=
  (from_ret (ev0, []) (handle_message 7 ev0 (MAcceptReq (AcceptReq 1 11 [x41])))).1.

Lemma evacceptor_refines_system_witness :
  let out := [(7, MAcceptAck (AcceptAck 0 1 11 11 0 [x41]));
              (9, MAcceptAck (AcceptAck 0 1 11 11 0 [x41]))] in
  handle_message 7 ev0 (MAcceptReq (AcceptReq 1 11 [x41])) = Ret (ev1, out) ∧
  ∃ s', rtc sys_step ev_sys0 s' ∧ sys_acceptors s' !! 0 = state ev1 ∧
    sys_proposers s' = ∅ ∧ (∀ x, x ∈ out → x.2 ∈ sys_net s').
Proof.
  intros out. assert (handle_message 7 ev0 (MAcceptReq (AcceptReq 1 11 [x41])) = Ret (ev1, out)) as Hh
    by (vm_compute; reflexivity).
  split; [exact Hh|].
  apply (evacceptor_refines_system ev_sys0 0 7 ev0 ev1 (MAcceptReq (AcceptReq 1 11 [x41]))).
  - vm_compute. reflexivity.
  - by left.
  - intros iid [=].
  - exact Hh.
Defined.

Lemma ev0_conns : carray_rep (bevs (receiver ev0)) [7; 9].
Proof.
  destruct (rep_new 10 (Carray 0 0 10 0 (replicate 10 (None : option bufferevent)))) as (R & _);
    [by vm_compute|done|].
  assert (∃ c, carray_push_back (Carray 0 0 10 0 (replicate 10 None)) 7 = Ret c ∧
    carray_push_back c 9 = Ret ev_conns) as (c & H1 & H2).
  { exists (from_ret (Carray 0 0 0 0 []) (carray_push_back (Carray 0 0 10 0 (replicate 10 None)) 7)).
    split; vm_compute; reflexivity. }
  apply (push_back_inv _ _ _ _ R) in H1. by apply (push_back_inv _ _ _ _ H1) in H2.
Qed.

Definition ev_acc1 : acceptor storage_mem :=
  (from_ret (ev_acc0, 0) (acceptor_receive_accept ev_acc0 (AcceptReq 1 11 [x41]))).1.

Lemma evacceptor_accept_answer_witness :
  ∃ a' out, handle_accept_req ev0 7 (AcceptReq 1 11 [x41]) = Ret (a', out) ∧ state a' = Some ev_acc1 ∧
    store_rep 0 (store ev_acc1) (spec_accept 0 ∅ (AcceptReq 1 11 [x41])).1 ∧
    out = [(7, MAcceptAck (AcceptAck 0 1 11 11 0 [x41]));
           (9, MAcceptAck (AcceptAck 0 1 11 11 0 [x41]))].
Proof.
  destruct (evacceptor_accept_answer (H:=mem_storage) 0 7 ev0 ev_acc0 ∅ (AcceptReq 1 11 [x41]) [7; 9] ev_acc1 1)
    as (a' & out & H1 & H2 & H3 & H4 & _).
  - reflexivity.
  - apply mem_open_rep.
  - by vm_compute.
  - by vm_compute.
  - exact ev0_conns.
  - vm_compute. congruence.
  - vm_compute. reflexivity.
  - exists a', out. split; [exact H1|]. split; [exact H2|]. split; [exact H3|]. apply H4.
    intros r Hr. by rewrite lookup_empty in Hr.
Defined.

(** The bytes of a prepare request, arriving in two pieces, at acceptor 0. *)
Definition ev2 : evacceptor storage_mem :=
  (from_ret (ev0, []) (handle_message 7 ev0 (MPrepareReq (PrepareReq 1 11)))).1.

Lemma stream_delivers_messages_witness :
  let bs := sendbuf 0 (MPrepareReq (PrepareReq 1 11)) in
  ∃ inp', receive_chunks (handle_req 7 []) ev0 ([] : bytes) [take 15 bs; drop 15 bs] =
    Ret (ev2, inp', [(7, MPrepareAck (PrepareAck 0 1 11 0 []))]) ∧ evb_content inp' = [].
Proof.
  intros bs. apply (stream_delivers_messages 0 (handle_req 7 []) (handle_message 7)
    [take 15 bs; drop 15 bs] [MPrepareReq (PrepareReq 1 11)]).
  - apply handle_req_handles.
  - apply Forall_singleton. split; [by vm_compute|]. split; vm_compute; congruence.
  - reflexivity.
  - vm_compute. reflexivity.
  - vm_compute. reflexivity.
Defined.
