(* ===== verification/EvProposer.v ===== *)
(** * The event-driven proposer (src/evpaxos/evproposer.c)

Each handler is a sequence of operations of the proposer with a broadcast to
the acceptors after each request: [psteps] collects them, and
[evproposer_refines_system] relates a handled event to transitions of
[System].  The clock and the contents of fresh memory at the [i]th instance
opened by a handler are arguments ([now i], [junk i]). *)

From S2P Require Import Config.
From S2P Require Import Prelude Carray Quorum Messages Storage StorageMem Acceptor.
From S2P Require Import Proposer ProposerRun Learner Synod System SystemRuns Wire Net.
#[local] Open Scope Z_scope.
Import Peers.

(** [struct evproposer]; [tv] is the period of the timer. *)
Record evproposer : Type := EvProposer {
  id : Z;
  preexec_window : Z;
  receiver : TcpReceiver.tcp_receiver;
  state : proposer;
  acceptors : peers;
  tv : timeval;
}.

Definition set_state (st : proposer) (p : evproposer) : evproposer :=
  EvProposer (id p) (preexec_window p) (receiver p) st (acceptors p) (tv p).

Definition send_prepares (p : evproposer) (pr : prepare_req) : res sends :=
  send_each (peers_count (acceptors p)) (peers_get_buffer (acceptors p)) (MPrepareReq pr).

Definition send_accepts (p : evproposer) (ar : accept_req) : res sends :=
  send_each (peers_count (acceptors p)) (peers_get_buffer (acceptors p)) (MAcceptReq ar).

(** The clock and the memory a handler sees. *)
Record env : Type := Env { now : nat → timeval; junk : nat → nat → Z }.

(** [n] iterations of the loop of [proposer_preexecute], from the [i]th. *)
Fixpoint preexecute_loop (e : env) (n i : nat) (p : evproposer) : res (evproposer * sends) :=
  match n with
  | O => Ret (p, [])
  | S n' =>
      '(st, pr) ← proposer_prepare (state p) (now e i) (junk e i);
      let p := set_state st p in
      out ← send_prepares p pr;
      '(p, out') ← preexecute_loop e n' (S i) p;
      Ret (p, out ++ out')
  end.

Definition proposer_preexecute (e : env) (p : evproposer) : res (evproposer * sends) :=
  count ← cint (preexec_window p - proposer_prepared_count (state p));
  if count <=? 0 then Ret (p, [])
  else preexecute_loop e (Z.to_nat count) 0 p.

(** The loop of [try_accept], at most [n] iterations. *)
Fixpoint accept_loop (n : nat) (p : evproposer) : res (evproposer * sends) :=
  match n with
  | O => Fault StackOverflow
  | S n' =>
      '(st, ar) ← proposer_accept (state p);
      let p := set_state st p in
      match ar with
      | None => Ret (p, [])
      | Some ar =>
          out ← send_accepts p ar;
          '(p, out') ← accept_loop n' p;
          Ret (p, out ++ out')
      end
  end.

(** Each request takes an instance off the prepare queue. *)
Definition try_accept (e : env) (p : evproposer) : res (evproposer * sends) :=
  '(p, out) ← accept_loop (S (Z.to_nat (proposer_prepared_count (state p)))) p;
  '(p, out') ← proposer_preexecute e p;
  Ret (p, out ++ out').

Definition proposer_handle_prepare_ack (t : timeval) (p : evproposer) (ack : prepare_ack)
    : res (evproposer * sends) :=
  '(st, preempted) ← proposer_receive_prepare_ack (state p) ack t;
  let p := set_state st p in
  match preempted with
  | Some pr => out ← send_prepares p pr; Ret (p, out)
  | None => Ret (p, [])
  end.

Definition proposer_handle_accept_ack (t : timeval) (p : evproposer) (ack : accept_ack)
    : res (evproposer * sends) :=
  '(st, preempted) ← proposer_receive_accept_ack (state p) ack t;
  let p := set_state st p in
  match preempted with
  | Some pr => out ← send_prepares p pr; Ret (p, out)
  | None => Ret (p, [])
  end.

Definition proposer_handle_client_msg (p : evproposer) (value : bytes) : res evproposer :=
  st ← proposer_propose (state p) value; Ret (set_state st p).

(** The [switch] of [proposer_handle_msg] and the [try_accept] after it; [t] is
the time at which the message is handled. *)
Definition dispatch (t : timeval) (e : env) (p : evproposer) (size code : Z) (buf : bytes)
    : res (evproposer * sends) :=
  if code =? msg_code prepare_acks then
    ack ← decode_prepare_ack buf;
    '(p, out) ← proposer_handle_prepare_ack t p ack;
    '(p, out') ← try_accept e p;
    Ret (p, out ++ out')
  else if code =? msg_code accept_acks then
    ack ← decode_accept_ack buf;
    '(p, out) ← proposer_handle_accept_ack t p ack;
    '(p, out') ← try_accept e p;
    Ret (p, out ++ out')
  else if code =? msg_code submit then
    value ← tail_bytes size buf;
    p ← proposer_handle_client_msg p value;
    try_accept e p
  else Ret (p, []).

Definition proposer_handle_msg {B} `{Evbuffer B} (t : timeval) (e : env) (stack : bytes)
    (p : evproposer) (inp : B) : res (evproposer * B * sends) :=
  '(inp, m) ← recv_msg inp;
  match m with
  | None => Ret (p, inp, [])
  | Some (size, code, data) =>
      '(p, out) ← dispatch t e p size code (data ++ stack);
      Ret (p, inp, out)
  end.

Definition handle_request {B} `{Evbuffer B} (t : timeval) (e : env) (stack : bytes)
    (p : evproposer) (inp : B) : res (evproposer * B * sends) :=
  read_loop (S (Z.to_nat (evbuffer_get_length inp))) (proposer_handle_msg t e stack) p inp.

(** The two loops of [proposer_check_timeouts], at most [n] iterations each. *)
Fixpoint timeout_prepare_loop (cfg : paxos_config) (n : nat) (p : evproposer)
    (iter : timeout_iterator) : res (evproposer * timeout_iterator * sends) :=
  match n with
  | O => Fault StackOverflow
  | S n' =>
      '(st, iter, pr) ← timeout_iterator_prepare cfg (state p) iter;
      let p := set_state st p in
      match pr with
      | None => Ret (p, iter, [])
      | Some pr =>
          out ← send_prepares p pr;
          '(p, iter, out') ← timeout_prepare_loop cfg n' p iter;
          Ret (p, iter, out ++ out')
      end
  end.

Fixpoint timeout_accept_loop (cfg : paxos_config) (n : nat) (p : evproposer)
    (iter : timeout_iterator) : res (evproposer * timeout_iterator * sends) :=
  match n with
  | O => Fault StackOverflow
  | S n' =>
      '(st, iter, ar) ← timeout_iterator_accept cfg (state p) iter;
      let p := set_state st p in
      match ar with
      | None => Ret (p, iter, [])
      | Some ar =>
          out ← send_accepts p ar;
          '(p, iter, out') ← timeout_accept_loop cfg n' p iter;
          Ret (p, iter, out ++ out')
      end
  end.

Definition proposer_check_timeouts (cfg : paxos_config) (t : timeval) (p : evproposer)
    : res (evproposer * sends) :=
  let iter := proposer_timeout_iterator t in
  '(p, iter, out) ← timeout_prepare_loop cfg
     (S (Z.to_nat (carray_count (p_prepare_instances (state p))))) p iter;
  '(p, iter, out') ← timeout_accept_loop cfg
     (S (Z.to_nat (carray_count (p_accept_instances (state p))))) p iter;
  Ret (p, out ++ out').

(** What [evproposer_init] does once the configuration is read; [new_bev i] is the
connection made for the [i]th acceptor. *)
Definition evproposer_init_conf (cfg : paxos_config) (conf : config) (pid : Z) (bound : bool)
    (new_bev : Z → bufferevent) : res (option evproposer) :=
  if (pid <? 0) || (MAX_N_OF_PROPOSERS <=? pid) then Ret None
  else
    a ← arr_get (proposers conf) pid;
    r ← TcpReceiver.tcp_receiver_new a bound;
    ps ← connect_acceptors conf new_bev;
    let tv := Timeval (proposer_timeout cfg) 0 in
    st ← proposer_new pid (acceptors_count conf);
    Ret (Some (EvProposer pid (proposer_preexec_window cfg) r st ps tv)).

(** [file] is the contents of the file and [p] the global [paxos_config]. *)
Definition evproposer_init (file : option bytes) (p : paxos_config) (pid : Z) (bound : bool)
    (new_bev : Z → bufferevent) : res (paxos_config * option evproposer) :=
  '(p, conf) ← read_config file p;
  x ← evproposer_init_conf p conf pid bound new_bev;
  Ret (p, x).

(** The connections that are closed. *)
Definition evproposer_free (p : evproposer) : res (list bufferevent) :=
  out ← peers_free (acceptors p);
  out' ← TcpReceiver.tcp_receiver_free (receiver p);
  Ret (out ++ out').

(** ** Handling a message *)

Definition handle_message (t : timeval) (e : env) (p : evproposer) (m : message)
    : res (evproposer * sends) :=
  match m with
  | MPrepareAck ack =>
      '(p, out) ← proposer_handle_prepare_ack t p ack;
      '(p, out') ← try_accept e p; Ret (p, out ++ out')
  | MAcceptAck ack =>
      '(p, out) ← proposer_handle_accept_ack t p ack;
      '(p, out') ← try_accept e p; Ret (p, out ++ out')
  | MSubmit value => p ← proposer_handle_client_msg p value; try_accept e p
  | _ => Ret (p, [])
  end.

Lemma dispatch_ok hole t e stack p m :
  message_wf m → 0 ≤ hole < 2 ^ 48 →
  dispatch t e p (Z.of_nat (length (message_data hole m))) (msg_code (message_code m))
    (message_data hole m ++ stack) = handle_message t e p m.
Proof.
  intros Hm Hh. unfold dispatch. destruct m as [r|k|r|k|iid|v];
    cbn [message_code msg_code message_data Z.eqb Pos.eqb handle_message]; try done.
  - by rewrite decode_prepare_ack_ok.
  - by rewrite decode_accept_ack_ok.
  - fold (value_size v). by rewrite tail_bytes_ok.
Qed.

Lemma handle_msg_handles {B} `{EvbufferSpec B} hole t e stack :
  0 ≤ hole < 2 ^ 48 → handles hole (proposer_handle_msg t e stack) (handle_message t e).
Proof.
  intros Hh p inp m rest Hm E. destruct (recv_msg_ok hole inp m rest Hm E) as (inp' & Hr & Ec).
  exists inp'. split; [done|]. unfold proposer_handle_msg. rewrite Hr, bind_Ret. cbv beta iota.
  by rewrite dispatch_ok by (done || apply Hm).
Qed.

(** ** Handlers as sequences of operations *)

Lemma prun_app inp p0 k out p1 j out' p2 :
  prun inp p0 k out p1 → prun inp p1 j out' p2 → prun inp p0 (j + k) (out' ++ out) p2.
Proof.
  intros H1 H2. induction H2 as [|j o q o' q' H2 IH Hs]; [done|].
  rewrite <-app_assoc. simpl. by eapply prun_step.
Qed.

Lemma prun_one inp p out p' : pstep inp p out p' → prun inp p 1 out p'.
Proof. intros Hs. rewrite <-(app_nil_r out). eapply prun_step; [apply prun_nil|done]. Qed.

(** [sent_as o out]: the sends [o], oldest first, are the messages [out], newest
first, each to any number of connections. *)
Inductive sent_as : sends → list message → Prop :=
  | sa_nil : sent_as [] []
  | sa_more o out b m :
      sent_as o out → (∀ x, x ∈ b → x.2 = m) → sent_as (o ++ b) (m :: out).

Lemma sent_as_app o1 out1 o2 out2 :
  sent_as o1 out1 → sent_as o2 out2 → sent_as (o1 ++ o2) (out2 ++ out1).
Proof.
  intros H1 H2. induction H2 as [|o out b m H2 IH Hb]; simpl; [by rewrite app_nil_r|].
  rewrite app_assoc. by apply sa_more.
Qed.

Lemma sent_as_one b m : (∀ x, x ∈ b → x.2 = m) → sent_as b [m].
Proof. apply (sa_more [] []), sa_nil. Qed.

Lemma sent_as_elem o out x : sent_as o out → x ∈ o → x.2 ∈ out.
Proof.
  induction 1 as [|o out b m H IH Hb]; intros Hx; [by apply not_elem_of_nil in Hx|].
  apply elem_of_app in Hx as [Hx|Hx]; [right; auto|]. rewrite (Hb x Hx). by left.
Qed.

Section does.
Context (inp : message → Prop).

(** At most [N] operations take [p] to [p'], and what is sent on connections
is what they asked to send, in that order. *)
Definition does (N : nat) (p : evproposer) (o : sends) (p' : evproposer) : Prop :=
  id p' = id p ∧ preexec_window p' = preexec_window p ∧ acceptors p' = acceptors p ∧
  ∃ k out, prun inp (state p) k out (state p') ∧ (k ≤ N)%nat ∧ sent_as o out.

Lemma does_refl N p : does N p [] p.
Proof.
  do 3 (split; [done|]). exists 0%nat, []. split; [apply prun_nil|]. split; [lia|].
  apply sa_nil.
Qed.

Lemma does_trans N1 N2 p o p1 o' p2 :
  does N1 p o p1 → does N2 p1 o' p2 → does (N1 + N2) p (o ++ o') p2.
Proof.
  intros (? & ? & ? & k & out & Hr & Hk & Ho) (? & ? & ? & k' & out' & Hr' & Hk' & Ho').
  do 3 (split; [congruence|]). exists (k' + k)%nat, (out' ++ out).
  split; [by eapply prun_app|]. split; [lia|]. by apply sent_as_app.
Qed.

Lemma does_weaken N N' p o p' : does N p o p' → (N ≤ N')%nat → does N' p o p'.
Proof.
  intros (? & ? & ? & k & out & Hr & Hk & Ho) Hle. do 3 (split; [done|]).
  exists k, out. split; [done|]. split; [lia|done].
Qed.

Lemma does_step p out st o :
  pstep inp (state p) out st → sent_as o out → does 1 p o (set_state st p).
Proof.
  intros Hs Ho. do 3 (split; [done|]). exists 1%nat, out. split; [by apply prun_one|]. done.
Qed.

Lemma send_prepares_out p pr o : send_prepares p pr = Ret o → sent_as o [MPrepareReq pr].
Proof. intros Hs. apply sent_as_one. intros x. by eapply send_each_inv. Qed.

Lemma send_accepts_out p ar o : send_accepts p ar = Ret o → sent_as o [MAcceptReq ar].
Proof. intros Hs. apply sent_as_one. intros x. by eapply send_each_inv. Qed.

Lemma preexecute_loop_does e n i p p' o :
  preexecute_loop e n i p = Ret (p', o) → does n p o p'.
Proof.
  revert i p o. induction n as [|n IH]; intros i p o Hr; simpl in Hr; inv_res; [apply does_refl|].
  apply (does_trans 1 n _ _ (set_state p0 p)); [|by eapply IH].
  eapply does_step; [by eapply ps_prepare|]. by eapply send_prepares_out.
Qed.

Lemma accept_loop_does n p p' o : accept_loop n p = Ret (p', o) → does n p o p'.
Proof.
  revert p o. induction n as [|n IH]; intros p o Hr; simpl in Hr; inv_res.
  destruct o0 as [ar|]; inv_res.
  - apply (does_trans 1 n _ _ (set_state p0 p)); [|by eapply IH].
    eapply does_step; [by eapply (ps_accept _ _ _ (Some ar))|].
    by eapply send_accepts_out.
  - apply (does_weaken 1); [|lia].
    apply (does_step p []); [by apply (ps_accept inp _ _ None)|apply sa_nil].
Qed.

Lemma preexecute_does e p p' o :
  proposer_preexecute e p = Ret (p', o) →
  does (Z.to_nat (preexec_window p - proposer_prepared_count (state p))) p o p'.
Proof.
  unfold proposer_preexecute. intros Hr. apply bind_inv in Hr as (c & [-> _]%cint_inv & Hr).
  case_Z; inv_res; [apply does_refl|]. by eapply preexecute_loop_does.
Qed.

(** The invariant of a proposer, on the lists its queues hold. *)
Definition pinv (n : Z) (p : proposer) : Prop :=
  let w := view p in proposer_inv n p (v_values w) (v_prepare w) (v_accept w).

Lemma pinv_intro n p vs ps acs :
  proposer_inv n p vs ps acs → pinv n p ∧ view p = PView (p_next_prepare_iid p) vs ps acs.
Proof.
  intros I. pose proof (view_rep p vs ps acs (pi_rep _ _ _ _ _ I)) as E.
  unfold pinv. by rewrite E.
Qed.

Lemma pinv_count n p :
  pinv n p → proposer_prepared_count p = Z.of_nat (length (v_prepare (view p))).
Proof.
  intros I. destruct (pi_rep _ _ _ _ _ I) as [_ Rp _]. unfold proposer_prepared_count, carray_count.
  apply (rep_count _ _ Rp).
Qed.

Lemma prun_from n p0 k out p k0 :
  pinv n p0 → bounded (Z.of_nat k0) (view p0) → Z.of_nat (k0 + k) < 2 ^ 28 →
  prun inp p0 k out p → pinv n p ∧ bounded (Z.of_nat (k0 + k)) (view p) ∧ p_id p = p_id p0.
Proof.
  intros I0 B0 Hk Hr. induction Hr as [|k out p1 out' p2 Hr IH Hs].
  { rewrite Nat.add_0_r. done. }
  destruct IH as (I1 & B1 & Hid); [lia|].
  assert (no_wrap p1 (v_prepare (view p1)) (v_accept (view p1))) as W.
  { apply (bounded_no_wrap (Z.of_nat (k0 + k)) p1 (v_values (view p1))); [lia|done]. }
  destruct (pstep_move inp n p1 _ _ _ out' p2 I1 W Hs) as (vs & ps & acs & I2 & Hid2 & Hm).
  destruct (pinv_intro _ _ _ _ _ I2) as [P2 E2]. split; [done|]. split; [|congruence].
  rewrite E2. replace (Z.of_nat (k0 + Datatypes.S k)) with (Z.of_nat (k0 + k) + 1) by lia.
  eapply pmove_bounded; [apply (pi_id _ _ _ _ _ I1)|lia|exact B1|exact Hm].
Qed.

Lemma does_from n N p o p' k0 :
  pinv n (state p) → bounded (Z.of_nat k0) (view (state p)) → Z.of_nat (k0 + N) < 2 ^ 28 →
  does N p o p' →
  pinv n (state p') ∧ bounded (Z.of_nat (k0 + N)) (view (state p')) ∧ p_id (state p') = p_id (state p).
Proof.
  intros I B Hk (_ & _ & _ & k & out & Hr & Hle & _).
  destruct (prun_from n (state p) k out (state p') k0 I B) as (I' & [B1 B2] & Hid); [lia|done|].
  split; [done|]. split; [|done]. split; [lia|]. eapply Forall_impl; [exact B2|].
  unfold MAX_N_OF_PROPOSERS. simpl. lia.
Qed.

(** The length of the prepare queue. *)
Definition pending (p : evproposer) : nat := Z.to_nat (proposer_prepared_count (state p)).

Lemma try_accept_does n k0 e p p' o :
  pinv n (state p) → bounded (Z.of_nat k0) (view (state p)) →
  Z.of_nat (k0 + S (pending p)) < 2 ^ 28 → try_accept e p = Ret (p', o) →
  does (S (pending p) + Z.to_nat (preexec_window p)) p o p'.
Proof.
  intros I B Hk Hr. unfold try_accept in Hr. apply bind_inv in Hr as ([p1 o1] & H1 & Hr). simpl in Hr.
  apply bind_inv in Hr as ([p2 o2] & H2 & Hr). simpl in Hr. injection Hr as <- <-.
  apply accept_loop_does in H1. apply preexecute_does in H2.
  destruct (does_from n _ _ _ _ k0 I B Hk H1) as (I1 & _ & _). apply pinv_count in I1.
  eapply does_trans; [exact H1|]. eapply does_weaken; [exact H2|].
  destruct H1 as (_ & -> & _ & _). lia.
Qed.

Lemma prepare_ack_does t p ack p' o :
  inp (MPrepareAck ack) → proposer_handle_prepare_ack t p ack = Ret (p', o) → does 1 p o p'.
Proof.
  intros Hin Hr. unfold proposer_handle_prepare_ack in Hr. inv_res.
  destruct o0 as [pr|]; inv_res; eapply does_step; try (by eapply ps_prepare_ack).
  - by eapply send_prepares_out.
  - apply sa_nil.
Qed.

Lemma accept_ack_does t p ack p' o :
  inp (MAcceptAck ack) → proposer_handle_accept_ack t p ack = Ret (p', o) → does 1 p o p'.
Proof.
  intros Hin Hr. unfold proposer_handle_accept_ack in Hr. inv_res.
  destruct o0 as [pr|]; inv_res; eapply does_step; try (by eapply ps_accept_ack).
  - by eapply send_prepares_out.
  - apply sa_nil.
Qed.

Lemma client_does p value p' :
  inp (MSubmit value) → proposer_handle_client_msg p value = Ret p' → does 1 p [] p'.
Proof.
  intros Hin Hr. unfold proposer_handle_client_msg in Hr. inv_res.
  eapply does_step; [by eapply ps_propose|apply sa_nil].
Qed.

(** *** Timeouts *)

Lemma timeout_prepare_loop_does cfg N p iter vs ps acs p' iter' o :
  proposer_rep (state p) vs ps acs → 0 ≤ ti_pi iter ≤ Z.of_nat (length ps) →
  timeout_prepare_loop cfg N p iter = Ret (p', iter', o) →
  does N p o p' ∧ ti_ai iter' = ti_ai iter ∧
  ∃ ps', proposer_rep (state p') vs ps' acs ∧ length ps' = length ps.
Proof.
  revert p iter ps o. induction N as [|N IH]; intros p iter ps o R Hb Hr; simpl in Hr; inv_res.
  pose proof (timeout_prepare_inv (state p) vs ps acs R cfg iter p0 t o0 Hb E)
    as (Ht & Ha & Hpi & Hs & Hc).
  assert (0 ≤ ti_pi iter ≤ carray_count (p_prepare_instances (state p))) as Hb'.
  { destruct R as [_ Rp _]. unfold carray_count. rewrite (rep_count _ _ Rp). done. }
  destruct Hc as [(-> & ->)|(_ & k & i & Hk & -> & _ & _ & R')]; inv_res.
  { split; [|split; [done|eauto]]. apply (does_weaken 1); [|lia].
    apply (does_step p []); [by eapply (ps_timeout_prepare inp _ cfg iter _ _ None)|apply sa_nil]. }
  edestruct (IH (set_state p0 p) t (<[k := set_created_at (ti_timeout iter) i]> ps))
    as (Hd & Ha' & ps' & R'' & Hl); [exact R'|rewrite length_insert; lia|exact E1|].
  rewrite length_insert in Hl. split; [|split; [congruence|eauto]].
  apply (does_trans 1 N _ _ (set_state p0 p)); [|done].
  eapply does_step; [by eapply (ps_timeout_prepare inp _ cfg iter _ _ (Some _))|].
  by eapply send_prepares_out.
Qed.

Lemma timeout_accept_loop_does cfg N p iter vs ps acs p' iter' o :
  proposer_rep (state p) vs ps acs → 0 ≤ ti_ai iter ≤ Z.of_nat (length acs) →
  timeout_accept_loop cfg N p iter = Ret (p', iter', o) → does N p o p'.
Proof.
  revert p iter acs o. induction N as [|N IH]; intros p iter acs o R Hb Hr; simpl in Hr; inv_res.
  pose proof (timeout_accept_inv (state p) vs ps acs R cfg iter p0 t o0 Hb E)
    as (Ht & Ha & Hpi & Hs & Hc).
  assert (0 ≤ ti_ai iter ≤ carray_count (p_accept_instances (state p))) as Hb'.
  { destruct R as [_ _ Ra]. unfold carray_count. rewrite (rep_count _ _ Ra). done. }
  destruct Hc as [(-> & ->)|(_ & k & i & v & Hk & Hv & -> & _ & _ & R')]; inv_res.
  { apply (does_weaken 1); [|lia].
    apply (does_step p []); [by eapply (ps_timeout_accept inp _ cfg iter _ _ None)|apply sa_nil]. }
  apply (does_trans 1 N _ _ (set_state p0 p)).
  - eapply does_step; [by eapply (ps_timeout_accept inp _ cfg iter _ _ (Some _))|].
    by eapply send_accepts_out.
  - eapply (IH (set_state p0 p) t (<[k := set_created_at (ti_timeout iter) i]> acs));
      [exact R'|rewrite length_insert; lia|exact E1].
Qed.

Lemma check_timeouts_does cfg t p vs ps acs p' o :
  proposer_rep (state p) vs ps acs → proposer_check_timeouts cfg t p = Ret (p', o) →
  does (S (length ps) + S (length acs)) p o p'.
Proof.
  intros R Hr. pose proof R as [_ Rp Ra]. unfold proposer_check_timeouts, carray_count in Hr.
  rewrite (rep_count _ _ Rp), Nat2Z.id in Hr.
  apply bind_inv in Hr as ([[p1 it1] o1] & H1 & Hr). simpl in Hr.
  apply bind_inv in Hr as ([[p2 it2] o2] & H2 & Hr). simpl in Hr. injection Hr as <- <-.
  destruct (timeout_prepare_loop_does cfg _ p (proposer_timeout_iterator t) vs ps acs p1 it1 o1 R ltac:(simpl; lia) H1)
    as (D1 & Ha & ps' & R1 & _). simpl in Ha. pose proof R1 as [_ _ Ra1].
  rewrite (rep_count _ _ Ra1), Nat2Z.id in H2.
  eapply does_trans; [exact D1|].
  eapply timeout_accept_loop_does; [exact R1|rewrite Ha; lia|exact H2].
Qed.

End does.

(** ** Refinement of the system's transitions *)

Lemma pmove_pending inp n id w out w' :
  pmove inp n id w out w' → (length (v_prepare w') ≤ length (v_prepare w) + 1)%nat.
Proof. intros []; simpl; rewrite ?length_app, ?length_insert; simpl; lia. Qed.

Lemma pstep_mono (P Q : message → Prop) p out p' :
  (∀ m, P m → Q m) → pstep P p out p' → pstep Q p out p'.
Proof.
  intros HPQ [].
  - eapply ps_propose; eauto.
  - eapply ps_prepare; eauto.
  - eapply ps_prepare_ack; eauto.
  - eapply ps_accept; eauto.
  - eapply ps_accept_ack; eauto.
  - eapply ps_timeout_prepare; eauto.
  - eapply ps_timeout_accept; eauto.
Qed.

Lemma pstep_no_submit inp p out p' v : pstep inp p out p' → MSubmit v ∉ out.
Proof.
  intros Hs Hv. destruct Hs as [| |p ack now p' [?|]|p p' [?|]|p ack now p' [?|]|
    p cfg it p' it' [?|]|p cfg it p' it' [?|]]; simpl in Hv;
    by repeat (apply elem_of_cons in Hv as [Hv|Hv]; [done|]); apply not_elem_of_nil in Hv.
Qed.

Lemma prun_no_submit inp p k out p' v : prun inp p k out p' → MSubmit v ∉ out.
Proof.
  intros Hr. induction Hr as [|k out p1 out' p2 _ IH Hs]; [apply not_elem_of_nil|].
  intros [Hv|Hv]%elem_of_app; [by eapply pstep_no_submit|done].
Qed.

Section refinement.
Context {S : Type} `{SS : StorageSpec S} (n : Z).

Lemma prun_sys (s : system S) pid p0 k out p k0 :
  sys_proposers s !! pid = Some p0 → pinv n p0 → bounded (Z.of_nat k0) (view p0) →
  Z.of_nat (k0 + k) < 2 ^ 28 → prun (λ m, m ∈ sys_net s) p0 k out p →
  ∃ s', rtc sys_step s s' ∧ sys_proposers s' !! pid = Some p ∧
    sys_acceptors s' = sys_acceptors s ∧ sys_net s' = out ++ sys_net s ∧
    (∀ j, j ≠ pid → sys_proposers s' !! j = sys_proposers s !! j).
Proof.
  intros Hp I B Hk Hr. induction Hr as [|k out p1 out' p2 Hr IH Hs].
  { exists s. split; [apply rtc_refl|done]. }
  destruct IH as (s1 & Hst & Hp1 & Ha1 & Hn1 & Hj1); [lia|].
  destruct (prun_from _ n p0 k out p1 k0 I B ltac:(lia) Hr) as (I1 & B1 & _).
  assert (no_wrap p1 (v_prepare (view p1)) (v_accept (view p1))) as W.
  { apply (bounded_no_wrap (Z.of_nat (k0 + k)) p1 (v_values (view p1))); [lia|done]. }
  eexists. split; [eapply rtc_r; [exact Hst|eapply sys_propose; [exact Hp1|exact W|]]|].
  - eapply pstep_mono; [|exact Hs]. intros m Hm. simpl. rewrite Hn1. apply elem_of_app. by right.
  - simpl. rewrite lookup_insert_eq, Hn1, app_assoc. split; [done|]. split; [done|]. split; [done|].
    intros j Hj. rewrite lookup_insert_ne by done. auto.
Qed.

Lemma does_sys (s : system S) pid p N o p' k0 :
  sys_proposers s !! pid = Some (state p) → pinv n (state p) →
  bounded (Z.of_nat k0) (view (state p)) → Z.of_nat (k0 + N) < 2 ^ 28 →
  does (λ m, m ∈ sys_net s) N p o p' →
  ∃ s', rtc sys_step s s' ∧ sys_proposers s' !! pid = Some (state p') ∧
    sys_acceptors s' = sys_acceptors s ∧ (∀ x, x ∈ o → x.2 ∈ sys_net s') ∧
    (∀ j, j ≠ pid → sys_proposers s' !! j = sys_proposers s !! j) ∧ only_submits s s'.
Proof.
  intros Hp I B Hk (_ & _ & _ & k & out & Hr & Hle & Ho).
  destruct (prun_sys s pid (state p) k out (state p') k0 Hp I B) as (s' & Hst & Hp' & Ha & Hn & Hj);
    [lia|done|]. exists s'. split; [done|]. split; [done|]. split; [done|]. split; [|split; [done|]].
  - intros x Hx. rewrite Hn. apply elem_of_app. left. by eapply sent_as_elem.
  - intros v Hv. rewrite Hn in Hv. apply elem_of_app in Hv as [Hv|Hv]; [|done].
    by eapply prun_no_submit in Hv.
Qed.

End refinement.

(** ** The handlers return *)

(** Room to spare in a queue: none of its index computations overflows, and
neither does the doubling that may follow. *)
Definition spare {A} (c : carray A) : Prop := ca_size c ≤ 2 ^ 29.

Lemma push_back_spare {A} (c : carray A) l x c' :
  carray_rep c l → spare c → Z.of_nat (length l) ≤ 2 ^ 28 → carray_push_back c x = Ret c' → spare c'.
Proof.
  intros R Hs Hl Hp. unfold spare in *.
  destruct (push_back_ok c l x R) as (c1 & H1 & _ & S1); [intros ?; lia|].
  rewrite Hp in H1. injection H1 as <-. rewrite S1. unfold next_size. case_Z; lia.
Qed.

Lemma spare_roomy {A} (c : carray A) l :
  carray_rep c l → spare c → Z.of_nat (length l) ≤ 2 ^ 28 → roomy c.
Proof.
  intros R Hs Hl. split; [unfold spare in Hs; lia|]. unfold carray_count. rewrite (rep_count _ _ R). lia.
Qed.

Lemma accept_spare p vs ps acs p' o :
  proposer_rep p vs ps acs → Forall (λ i, i_closed i = 0) ps →
  spare (p_prepare_instances p) → spare (p_accept_instances p) →
  Z.of_nat (length acs) ≤ 2 ^ 28 → proposer_accept p = Ret (p', o) →
  spare (p_prepare_instances p') ∧ spare (p_accept_instances p').
Proof.
  intros R Hcl Sp Sa Hl Hr. destruct R as [Rv Rp Ra]. unfold proposer_accept in Hr.
  apply bind_inv in Hr as ([c front] & Hf & Hr).
  apply (accept_front_inv _ _ ps) in Hf as (-> & Hfr & _); [|done|done].
  destruct front as [inst|]; [|inv_res; by split]. destruct (Hfr inst eq_refl) as [Hh _].
  destruct ps as [|i0 rest]; [done|]. apply bind_inv in Hr as ([p1 v] & Ht & Hr).
  assert (p_prepare_instances p1 = p_prepare_instances p ∧ p_accept_instances p1 = p_accept_instances p)
    as [Ep Ea].
  { unfold take_value in Ht. destruct (i_value inst); inv_res; by split. }
  destruct v as [v|]; [|inv_res; rewrite Ep, Ea; by split]. simpl in Hr. rewrite Ep, Ea in Hr.
  pose proof (poke_ok _ _ 0 (set_value (i_value_ballot inst) (Some v) inst) Rp
                ltac:(simpl; lia)) as Rk.
  destruct (pop_front_ok _ _ Rk) as (c' & Hc & _ & Sc). rewrite Hc in Hr. simpl in Hr. inv_res. simpl.
  split; [unfold spare in *; simpl in Sc; congruence|]. by eapply (push_back_spare (p_accept_instances p) acs).
Qed.

Section total.
Context (n : Z) (addrs : list address).

(** A proposer in its invariant, with its connections set up, room in its
queues, and [k] elements at most in each of the instance queues. *)
Record ready (k : Z) (p : evproposer) : Prop := {
  rd_inv : pinv n (state p);
  rd_peers : peers_ok (acceptors p) addrs;
  rd_prepare : spare (p_prepare_instances (state p));
  rd_accept : spare (p_accept_instances (state p));
  rd_len : Z.of_nat (length (v_prepare (view (state p))) + length (v_accept (view (state p)))) ≤ k;
}.

Lemma accept_loop_total k p N :
  ready k p → k ≤ 2 ^ 28 → (length (v_prepare (view (state p))) < N)%nat →
  ∃ p' o, accept_loop N p = Ret (p', o) ∧ ready k p' ∧ preexec_window p' = preexec_window p ∧
    p_next_prepare_iid (state p') = p_next_prepare_iid (state p).
Proof.
  intros Hrd Hk. revert p Hrd. induction N as [|N IH]; intros p Hrd HN; [lia|].
  destruct Hrd as [I Hp Sp Sa Hl]. pose proof (pi_rep _ _ _ _ _ I) as R. pose proof R as [_ _ Ra].
  destruct (accept_total n (state p) _ _ _ I) as [[st o] Hr]; [eapply spare_roomy; [done|done|lia]|].
  pose proof (inv_closed _ _ _ _ _ I) as Hcl.
  destruct (accept_spare _ _ _ _ _ _ R Hcl Sp Sa ltac:(lia) Hr) as [Sp' Sa'].
  destruct (inv_accept n (state p) _ _ _ I st o Hr) as (vs1 & ps1 & acs1 & I1 & (_ & _ & Hnx) & _).
  destruct (accept_inv _ _ _ _ R st o Hcl Hr) as (vs' & ps' & acs' & R' & _ & Hc).
  destruct (rep_unique _ _ _ _ _ _ _ (pi_rep _ _ _ _ _ I1) R') as (-> & -> & ->).
  destruct (pinv_intro _ _ _ _ _ I1) as [P1 E1].
  assert (ready k (set_state st p) ∧ (o ≠ None → length (v_prepare (view (state p))) = Datatypes.S (length ps1)))
    as [Hrd1 Hdec].
  { destruct Hc as [(_ & E2 & E3 & -> & _)|(i & v & q & E2 & _ & _ & _ & E3 & ->)]; split; try done.
    - split; [done..|]. cbn [state set_state]. rewrite E1. simpl. by rewrite E2, E3.
    - split; [done..|]. cbn [state set_state]. rewrite E1. simpl. rewrite E2 in Hl. rewrite E3, length_app. simpl in *. lia.
    - intros _. by rewrite E2. }
  simpl. rewrite Hr. simpl. destruct o as [ar|]; [|by exists (set_state st p), []].
  unfold send_accepts. simpl. rewrite (send_peers _ _ _ Hp). simpl.
  destruct (IH (set_state st p) Hrd1) as (p' & o' & -> & ? & ? & Hnx').
  { cbn [state set_state]. rewrite E1. simpl. specialize (Hdec ltac:(done)). lia. }
  simpl. eexists _, _. split; [done|]. split; [done|]. split; [done|]. simpl in Hnx'. congruence.
Qed.

Lemma preexecute_loop_total e k j i p :
  ready k p → k + Z.of_nat j ≤ 2 ^ 28 → p_next_prepare_iid (state p) + Z.of_nat j < UINT32_MOD →
  ∃ p' o, preexecute_loop e j i p = Ret (p', o) ∧ ready (k + Z.of_nat j) p' ∧
    length (v_prepare (view (state p'))) = (length (v_prepare (view (state p))) + j)%nat.
Proof.
  revert k i p. induction j as [|j IH]; intros k i p Hrd Hk Hn.
  { exists p, []. rewrite Z.add_0_r, Nat.add_0_r. done. }
  destruct Hrd as [I Hp Sp Sa Hl]. pose proof (pi_rep _ _ _ _ _ I) as [_ Rp _].
  destruct (prepare_total n (state p) _ _ _ I ltac:(eapply spare_roomy; [done|done|lia])
    (now e i) (junk e i)) as [[st pr] Hr].
  assert (spare (p_prepare_instances st) ∧ p_accept_instances st = p_accept_instances (state p))
    as [Sp' Ea].
  { unfold proposer_prepare, instance_new in Hr. inv_res. simpl. split; [|done].
    eapply push_back_spare; [exact Rp|done|lia|done]. }
  destruct (inv_prepare n (state p) _ _ _ I (now e i) (junk e i) st pr ltac:(lia) Hr)
    as (inst & I1 & _ & _ & _ & _ & _ & _ & Hnx & _).
  destruct (pinv_intro _ _ _ _ _ I1) as [P1 E1].
  cbn [preexecute_loop]. rewrite Hr, bind_Ret. cbv beta iota. unfold send_prepares.
  cbn [acceptors set_state]. rewrite (send_peers _ _ _ Hp), bind_Ret. cbv beta.
  destruct (IH (k + 1) (Datatypes.S i) (set_state st p)) as (p' & o' & -> & Hrd' & Hlen).
  - split; [done|done|done|cbn; by rewrite Ea|]. cbn [state set_state]. rewrite E1. cbn [v_prepare v_accept]. rewrite length_app. cbn [length]. lia.
  - lia.
  - simpl. rewrite Hnx. lia.
  - rewrite bind_Ret. cbv beta iota. eexists _, _. split; [done|].
    replace (k + Z.of_nat (Datatypes.S j)) with (k + 1 + Z.of_nat j) by lia. split; [done|].
    rewrite Hlen. cbn [state set_state]. rewrite E1. cbn [v_prepare v_accept]. rewrite length_app. cbn [length]. lia.
Qed.
End total.

(** ** Properties *)

(** C31: after it handles a message a proposer has as many instances in phase 1
as its window asks for: [try_accept] returns (its loop ends, every access is
in bounds, the counters do not overflow), and leaves at least
[preexec_window] prepared instances. *)
Theorem try_accept_fills_window n addrs k e p :
  ready n addrs k p → 0 ≤ preexec_window p → k + preexec_window p ≤ 2 ^ 28 →
  p_next_prepare_iid (state p) + preexec_window p < UINT32_MOD →
  ∃ p' o, try_accept e p = Ret (p', o) ∧ ready n addrs (k + preexec_window p) p' ∧
    preexec_window p ≤ proposer_prepared_count (state p').
Proof.
  intros Hrd Hw Hk Hn. unfold try_accept. rewrite (pinv_count n) by apply Hrd. rewrite Nat2Z.id.
  destruct (accept_loop_total n addrs k p (S (length (v_prepare (view (state p))))) Hrd)
    as (p1 & o1 & H1 & Hrd1 & Hw1 & Hn1); [lia|lia|].
  rewrite H1, bind_Ret. cbv beta iota. unfold proposer_preexecute.
  pose proof (rd_inv _ _ _ _ Hrd1) as I1. rewrite (pinv_count n _ I1), Hw1.
  pose proof (rd_len _ _ _ _ Hrd1) as Hl1. rewrite cint_ok by (unfold INT_MIN, INT_MAX; lia).
  rewrite bind_Ret. cbv beta. case_Z.
  - rewrite bind_Ret. cbv beta iota. eexists _, _. split; [done|]. split.
    + destruct Hrd1. split; try done. lia.
    + rewrite (pinv_count n _ I1). lia.
  - set (j := Z.to_nat (preexec_window p - _)).
    destruct (preexecute_loop_total n addrs e k j 0 p1 Hrd1) as (p2 & o2 & H2 & Hrd2 & Hlen); [lia..|].
    rewrite H2, bind_Ret. cbv beta iota. eexists _, _. split; [done|]. split.
    + destruct Hrd2. split; try done. lia.
    + rewrite (pinv_count n) by apply Hrd2. lia.
Qed.

Section sys.
Context {S : Type} `{SS : StorageSpec S} (n : Z).
Hypothesis n_ok : 1 ≤ n ≤ INT_MAX.

Lemma reachable_pinv (s : system S) pid st :
  reachable n s → sys_proposers s !! pid = Some st → pinv n st.
Proof using n_ok.
  intros Hr Hp. apply sys_inv_reachable in Hr; [|done].
  destruct (iv_proposers _ _ Hr pid st Hp) as (vs & ps & acs & I & _).
  by apply (pinv_intro _ _ _ _ _ I).
Qed.

Lemma handle_message_does inp k0 t e p m p' o :
  pinv n (state p) → bounded (Z.of_nat k0) (view (state p)) → inp m →
  Z.of_nat (k0 + pending p + 3) < 2 ^ 28 → handle_message t e p m = Ret (p', o) →
  does inp (pending p + 3 + Z.to_nat (preexec_window p)) p o p'.
Proof using Type.
  intros I B Hin Hk Hh.
  assert (∀ p1 o1, does inp 1 p o1 p1 → ∀ p2 o2, try_accept e p1 = Ret (p2, o2) →
    does inp (pending p + 3 + Z.to_nat (preexec_window p)) p (o1 ++ o2) p2) as Hgo.
  { intros p1 o1 D1 p2 o2 H2. destruct (does_from inp n 1 p o1 p1 k0 I B ltac:(lia) D1) as (I1 & B1 & _).
    assert (pending p1 ≤ pending p + 1)%nat as Hpend.
    { pose proof (pinv_count n _ I) as C. pose proof (pinv_count n _ I1) as C1. unfold pending.
      rewrite C, C1, !Nat2Z.id. destruct D1 as (_ & _ & _ & k & out & Hr & Hle & _).
      destruct Hr as [|k out q out' q' Hr Hs]; [lia|]. destruct k as [|k]; [|lia]. inversion Hr; subst.
      assert (no_wrap (state p) (v_prepare (view (state p))) (v_accept (view (state p)))) as W.
      { apply (bounded_no_wrap (Z.of_nat k0) (state p) (v_values (view (state p)))); [lia|done]. }
      destruct (pstep_move inp n (state p) _ _ _ out' q' I W Hs) as (vs & ps & acs & I2 & _ & Hm).
      destruct (pinv_intro _ _ _ _ _ I2) as [_ ->]. apply pmove_pending in Hm. exact Hm. }
    pose proof (try_accept_does inp n (k0 + 1) e p1 p2 o2 I1 B1 ltac:(lia) H2) as D2.
    destruct D1 as (E1 & E2 & E3 & D1). eapply does_weaken; [eapply does_trans; [|exact D2]|].
    - split; [exact E1|]. split; [exact E2|]. split; [exact E3|exact D1].
    - rewrite E2. lia. }
  destruct m as [r|ack|r|ack|iid|v]; simpl in Hh; try (injection Hh as <- <-; apply does_refl).
  - apply bind_inv in Hh as ([p1 o1] & H1 & Hh). apply bind_inv in Hh as ([p2 o2] & H2 & Hh).
    injection Hh as <- <-. eapply Hgo; [by eapply prepare_ack_does|done].
  - apply bind_inv in Hh as ([p1 o1] & H1 & Hh). apply bind_inv in Hh as ([p2 o2] & H2 & Hh).
    injection Hh as <- <-. eapply Hgo; [by eapply accept_ack_does|done].
  - apply bind_inv in Hh as (p1 & H1 & Hh). change o with ([] ++ o).
    eapply Hgo; [by eapply client_does|done].
Qed.

(** The events a proposer's program handles after it has started: a message,
the timer, the first run of phase 1. *)
Definition handles_event (inp : message → Prop) (p p' : evproposer) (o : sends) : Prop :=
  (∃ t e m, inp m ∧ handle_message t e p m = Ret (p', o)) ∨
  (∃ cfg t, proposer_check_timeouts cfg t p = Ret (p', o)) ∨
  (∃ e, proposer_preexecute e p = Ret (p', o)).

(** [k0] bounds the counters of the proposer so far, and what it still does in
one event fits. *)
Definition in_budget (k0 : nat) (p : evproposer) : Prop :=
  bounded (Z.of_nat k0) (view (state p)) ∧
  Z.of_nat (k0 + pending p + length (v_accept (view (state p))) + 3) + Z.max 0 (preexec_window p) < 2 ^ 28.

Lemma event_does inp k0 p p' o :
  pinv n (state p) → in_budget k0 p → handles_event inp p p' o →
  ∃ N, does inp N p o p' ∧ Z.of_nat (k0 + N) < 2 ^ 28.
Proof using Type.
  intros I [B Hk] [(t & e & m & Hin & Hh)|[(cfg & t & Hh)|(e & Hh)]]; eexists.
  - split; [eapply handle_message_does; [done|exact B|exact Hin|lia|done]|lia].
  - split; [eapply check_timeouts_does, Hh; apply (pi_rep _ _ _ _ _ I)|].
    unfold pending in Hk. rewrite (pinv_count n _ I), Nat2Z.id in Hk. lia.
  - split; [by eapply preexecute_does|].
    rewrite (pinv_count n _ I). lia.
Qed.

(** One event of proposer [pid] is a sequence of transitions of the system. *)
Lemma evproposer_step (s : system S) pid p k0 p' o :
  reachable n s → sys_proposers s !! pid = Some (state p) → in_budget k0 p →
  handles_event (λ m, m ∈ sys_net s) p p' o →
  ∃ s', rtc sys_step s s' ∧ sys_proposers s' !! pid = Some (state p') ∧
    sys_acceptors s' = sys_acceptors s ∧ (∀ x, x ∈ o → x.2 ∈ sys_net s') ∧
    (∀ j, j ≠ pid → sys_proposers s' !! j = sys_proposers s !! j) ∧ only_submits s s'.
Proof using n_ok.
  intros Hr Hp Hb Hh. pose proof (reachable_pinv s pid _ Hr Hp) as I.
  destruct (event_does _ k0 p p' o I Hb Hh) as (N & D & HN).
  by eapply (does_sys n s pid p N o p' k0); [..|apply Hb| |].
Qed.

(** C17: every message an event-driven proposer handles, and every run of its
timeout handler, is a sequence of transitions of the system: the proposer's
state becomes the one they lead to, and everything it sends is a message of
the network after them; as long as it has performed fewer than 2^28
operations ([k0] bounds its counters so far). *)
Theorem evproposer_refines_system (s : system S) pid p k0 p' o :
  reachable n s → sys_proposers s !! pid = Some (state p) →
  bounded (Z.of_nat k0) (view (state p)) →
  Z.of_nat (k0 + pending p + length (v_accept (view (state p))) + 3) + Z.max 0 (preexec_window p) < 2 ^ 28 →
  (∃ t e m, m ∈ sys_net s ∧ handle_message t e p m = Ret (p', o)) ∨
  (∃ cfg t, proposer_check_timeouts cfg t p = Ret (p', o)) →
  ∃ s', rtc sys_step s s' ∧ sys_proposers s' !! pid = Some (state p') ∧
    sys_acceptors s' = sys_acceptors s ∧ (∀ x, x ∈ o → x.2 ∈ sys_net s').
Proof using n_ok.
  intros Hr Hp B Hk Hh. destruct (evproposer_step s pid p k0 p' o Hr Hp) as (s' & H1 & H2 & H3 & H4 & _).
  - by split.
  - destruct Hh as [Hh|Hh]; [by left|right; by left].
  - by exists s'.
Qed.

End sys.

(** ** Witnesses *)

(** Proposer 1 of [ProposerRun], with a window of two and three connections. *)
Definition demo_addrs : list address :=
  [Address "127.0.0.1" 8800; Address "127.0.0.1" 8801; Address "127.0.0.1" 8802].
Definition demo_peers : peers :=
  foldl (λ ps x, peers_connect ps x.1 x.2) peers_new (zip demo_addrs [4; 5; 6]).
Definition demo_ev (st : proposer) : evproposer :=
  EvProposer 1 2 (TcpReceiver.Receiver (Sockaddr INADDR_ANY (htons 5550)) (Carray 0 0 0 0 [])) st
    demo_peers (Timeval 1 0).
Definition demo_env : env := Env (λ _, at_zero) (λ _ _, 0).

Lemma demo_peers_ok : peers_ok demo_peers demo_addrs.
Proof. split; [done..|]. repeat (apply Forall_cons_2; [by left|]). apply Forall_nil_2. Qed.

Lemma demo0_inv : pinv 3 demo0.
Proof.
  destruct (proposer_new_inv 1 3 demo0 ltac:(by vm_compute) ltac:(by vm_compute) demo_new) as (I & _).
  by apply (pinv_intro _ _ _ _ _ I).
Qed.

Lemma demo_ready : ready 3 demo_addrs 0 (demo_ev demo0).
Proof.
  split; [exact demo0_inv|exact demo_peers_ok|vm_compute; congruence|vm_compute; congruence|].
  vm_compute. congruence.
Qed.

Lemma try_accept_fills_window_witness :
  ∃ p' o, try_accept demo_env (demo_ev demo0) = Ret (p', o) ∧ ready 3 demo_addrs 2 p' ∧
    2 ≤ proposer_prepared_count (state p').
Proof.
  apply (try_accept_fills_window 3 demo_addrs 0 demo_env (demo_ev demo0)).
  - exact demo_ready.
  - vm_compute. congruence.
  - vm_compute. congruence.
  - vm_compute. reflexivity.
Defined.

Definition demo_submitted : evproposer * sends :=
  from_ret (demo_ev demo0, []) (handle_message at_zero demo_env (demo_ev demo0) (MSubmit [x41])).

Lemma run_reachable1 : reachable 3 run_sys1.
Proof.
  exists run_sys0. split; [exact run_sys0_init|]. apply rtc_once. by apply (sys_submit run_sys0 [x41]).
Qed.

Lemma evproposer_refines_system_witness :
  ∃ s', rtc sys_step run_sys1 s' ∧ sys_proposers s' !! 1 = Some (state demo_submitted.1) ∧
    sys_acceptors s' = sys_acceptors run_sys1 ∧ (∀ x, x ∈ demo_submitted.2 → x.2 ∈ sys_net s').
Proof.
  apply (evproposer_refines_system (SS:=mem_storage_spec) 3 n3_ok run_sys1 1 (demo_ev demo0) 0).
  - exact run_reachable1.
  - vm_compute. reflexivity.
  - split; [vm_compute; congruence|]. apply Forall_nil_2.
  - vm_compute. reflexivity.
  - left. exists at_zero, demo_env, (MSubmit [x41]). split; [by left|]. vm_compute. reflexivity.
Defined.
