(* ===== verification/Ordered.v ===== *)
(** * Connections that keep the order of the messages

The assertion of [proposer_receive_accept_ack] holds because a connection
delivers the requests of a proposer in the order they were sent.  First the
proposer: the ballots of its requests for an instance never decrease
([prun_ordered]).  Then an acceptor node, with the connections of that proposer
told apart from the others ([acceptor_node_run], through connection events and
restarts on the same storage): what it answers on them is a vote whenever it has
a ballot of the proposer ([acceptor_node_run_votes]).  The theorem puts the two
together.  Requests may be lost, when a connection breaks, but not overtaken. *)

From stdpp Require Import sorting.
From S2P Require Import Prelude Carray Quorum Messages Storage StorageMem Acceptor.
From S2P Require Import Proposer ProposerRun Net EvProposer EvAcceptor.
#[local] Open Scope Z_scope.

(** The instance and the ballot of a request. *)
Definition request_key (m : message) : option (Z * Z) :=
  match m with
  | MPrepareReq r => Some (pr_iid r, pr_ballot r)
  | MAcceptReq r => Some (ar_iid r, ar_ballot r)
  | _ => None
  end.

(** [m] may follow [m']: its ballot is not below, when they ask about one instance. *)
Definition may_follow (m m' : message) : Prop :=
  ∀ iid b b', request_key m = Some (iid, b) → request_key m' = Some (iid, b') → b' ≤ b.

(** A list of requests, newest first, with ballots that do not decrease. *)
Definition in_order (out : list message) : Prop := StronglySorted may_follow out.

Lemma in_order_sublist l l' : l `sublist_of` l' → in_order l' → in_order l.
Proof.
  induction 1 as [|x l l' Hl IH|x l l' Hl IH]; unfold in_order; [done| |];
    rewrite ?StronglySorted_cons; intros [HF HS]; [|by apply IH].
  split; [|by apply IH]. apply Forall_forall. intros y Hy. rewrite Forall_forall in HF.
  apply HF. by eapply elem_of_sublist.
Qed.

(** ** The requests of a proposer *)

Section proposer.
Context (inp : message → Prop) (n id : Z).

Definition queued (w : pview) : list instance := v_prepare w ++ v_accept w.

Lemma queued_prepare w i : i ∈ v_prepare w → i ∈ queued w.
Proof. intros Hi. apply elem_of_app. by left. Qed.

Lemma queued_accept w i : i ∈ v_accept w → i ∈ queued w.
Proof. intros Hi. apply elem_of_app. by right. Qed.

Lemma unique_by_iid (l : list instance) i j :
  NoDup (i_iid <$> l) → i ∈ l → j ∈ l → i_iid i = i_iid j → i = j.
Proof.
  intros U [k Hk]%list_elem_of_lookup [k' Hk']%list_elem_of_lookup E.
  pose proof (find_unique l k k' i j U Hk Hk' (eq_sym E)) as ->. by simplify_eq.
Qed.

(** Where an instance of the queues comes from: it was there with a ballot not
above, or it is new. *)
Lemma pmove_queued w out w' j :
  pmove inp n id w out w' → j ∈ queued w' →
  (∃ i, i ∈ queued w ∧ i_iid j = i_iid i ∧ i_ballot i ≤ i_ballot j) ∨ v_next w < i_iid j.
Proof.
  intros Hm Hj.
  destruct Hm as [w|nx vs ps acs value Hin|nx vs ps acs i Hi Hb Hv Hvb Hq
    |nx vs ps acs k i q S ack Hk Hin Hi Hb HSq Hnew Hadd HSq'|nx vs ps acs k i i' Hk Hp
    |nx vs vs' ps acs i v q Hmaj Hv Hq|nx vs ps acs k i i' ack Hk Hin Hi Hb Hvb Hp
    |nx vs ps acs k i q ack Hk Hin Hi Hb Hvb Hq Hrd|nx vs ps acs k i i' ack Hk Hin Hi Hb Hp
    |nx vs ps acs k i i' Hk Hp Hjq|nx vs ps acs k i i' v Hk Hv Hp];
    unfold queued, preempted, same_round, MAX_N_OF_PROPOSERS in *; simpl in *;
    try (pose proof (list_elem_of_lookup_2 _ _ _ Hk) as Hin');
    repeat match goal with
    | H : _ ∈ _ ++ _ |- _ => apply elem_of_app in H as [H|H]
    | H : _ ∈ [_] |- _ => apply list_elem_of_singleton in H as ->
    | H : _ ∈ <[_ := _]> _ |- _ => apply elem_of_list_insert_inv in H as [->|H]
    | H : _ ∈ _ :: _ |- _ => apply elem_of_cons in H as [->|H]
    | H : _ ∈ filter _ _ |- _ => apply list_elem_of_filter in H as [_ H]
    end; try (by right; lia); left;
    first [exists j; split; [set_solver|split; [done|lia]]
          |exists i; split; [set_solver|];
           rewrite ?promise_inst_iid, ?promise_inst_ballot; simpl; split; [tauto|lia]].
Qed.

(** A move sends at most one request, for an instance that is queued after it. *)
Lemma pmove_sends w out w' :
  pmove inp n id w out w' →
  out = [] ∨ ∃ m i, out = [m] ∧ i ∈ queued w' ∧ request_key m = Some (i_iid i, i_ballot i).
Proof.
  destruct 1 as [| |nx vs ps acs i| |nx vs ps acs k i j Hk|nx vs vs' ps acs i v q
    | | |nx vs ps acs k i j ack Hk|nx vs ps acs k i j Hk (E1 & E2 & _)
    |nx vs ps acs k i j v Hk _ (E1 & E2 & _)];
    (by left) || right; eexists _; unfold queued; simpl.
  - exists i. split; [done|]. split; [set_solver|done].
  - exists j. split; [done|]. split; [|done]. apply elem_of_app. left.
    by eapply list_elem_of_lookup_2, list_lookup_insert_eq, lookup_lt_Some.
  - exists (accept_inst v q i). split; [done|]. split; [set_solver|done].
  - exists j. split; [done|]. split; [set_solver|done].
  - exists j. rewrite E1, E2. split; [done|]. split; [|done]. apply elem_of_app. left.
    by eapply list_elem_of_lookup_2, list_lookup_insert_eq, lookup_lt_Some.
  - exists j. rewrite E1, E2. split; [done|]. split; [|done]. apply elem_of_app. right.
    by eapply list_elem_of_lookup_2, list_lookup_insert_eq, lookup_lt_Some.
Qed.

(** What was sent so far, newest first, against the queues. *)
Record order_ok (out : list message) (w : pview) : Prop := {
  oo_sorted : in_order out;
  oo_queued : ∀ m iid b i, m ∈ out → request_key m = Some (iid, b) →
    i ∈ queued w → i_iid i = iid → b ≤ i_ballot i;
  oo_next : ∀ m iid b, m ∈ out → request_key m = Some (iid, b) → iid ≤ v_next w;
}.

Lemma order_ok_move out w out' w' :
  NoDup (i_iid <$> queued w') → (∀ i, i ∈ queued w' → i_iid i ≤ v_next w') →
  v_next w ≤ v_next w' → order_ok out w → pmove inp n id w out' w' → order_ok (out' ++ out) w'.
Proof.
  intros U Hle Hnx [HS HQ HN] Hm.
  assert (∀ m iid b i, m ∈ out → request_key m = Some (iid, b) →
    i ∈ queued w' → i_iid i = iid → b ≤ i_ballot i) as HQ'.
  { intros m iid b j Hin Hk Hj E. destruct (pmove_queued _ _ _ _ Hm Hj) as [(i & Hi & E1 & Hb)|Hx].
    - pose proof (HQ m iid b i Hin Hk Hi ltac:(congruence)). lia.
    - pose proof (HN m iid b Hin Hk). lia. }
  destruct (pmove_sends _ _ _ Hm) as [->|(m & i & -> & Hi & Hk)]; simpl.
  { split; [done|done|]. intros x iid b Hx Hkx. pose proof (HN x iid b Hx Hkx). lia. }
  split.
  - unfold in_order. apply StronglySorted_cons. split; [|done]. apply Forall_forall.
    intros x Hx iid b b' E E'. rewrite Hk in E. injection E as <- <-. by eapply HQ'.
  - intros x iid b j [->|Hx]%elem_of_cons E Hj Ej; [|by eapply HQ'].
    rewrite Hk in E. injection E as <- <-.
    by rewrite (unique_by_iid _ j i U Hj Hi Ej).
  - intros x iid b [->|Hx]%elem_of_cons E.
    + rewrite Hk in E. injection E as <- <-. auto.
    + pose proof (HN x iid b Hx E). lia.
Qed.

Lemma pmove_next w out w' : pmove inp n id w out w' → v_next w ≤ v_next w'.
Proof. destruct 1; simpl; lia. Qed.

End proposer.

(** From any state of the proposer, with what it sent so far. *)
Lemma prun_order_from inp n p0 k out p k0 sent :
  pinv n p0 → bounded (Z.of_nat k0) (view p0) → Z.of_nat (k0 + k) < 2 ^ 28 →
  order_ok sent (view p0) → prun inp p0 k out p →
  order_ok (out ++ sent) (view p) ∧ Forall (owned (p_id p0)) out.
Proof.
  intros I0 B0 Hk Hs0 Hr. induction Hr as [|k out p1 out' p2 Hr IH Hs]; [done|].
  destruct IH as [IH HF]; [lia|]. destruct (prun_from _ n p0 k out p1 k0 I0 B0 ltac:(lia) Hr) as (I1 & B1 & Hid).
  assert (no_wrap p1 (v_prepare (view p1)) (v_accept (view p1))) as W.
  { apply (bounded_no_wrap (Z.of_nat (k0 + k)) p1 (v_values (view p1))); [lia|done]. }
  destruct (pstep_move inp n p1 _ _ _ out' p2 I1 W Hs) as (vs & ps & acs & I2 & Hid2 & Hm).
  rewrite <-app_assoc. split.
  - rewrite (view_rep p2 vs ps acs) by apply I2.
    eapply order_ok_move; [apply I2| |by eapply pmove_next|exact IH|exact Hm].
    intros i Hi. pose proof (pi_insts _ _ _ _ _ I2) as F. rewrite Forall_forall in F. apply (F i Hi).
  - apply Forall_app. split; [|done]. rewrite <-Hid. eapply pmove_owned; [exact I1|exact I2|exact Hid2|exact Hm].
Qed.

Lemma order_ok_new id n p0 :
  1 ≤ n ≤ INT_MAX → 0 ≤ id < MAX_N_OF_PROPOSERS → proposer_new id n = Ret p0 →
  pinv n p0 ∧ bounded 0 (view p0) ∧ order_ok [] (view p0).
Proof.
  intros Hn Hid Hnew. destruct (proposer_new_inv id n p0 Hn Hid Hnew) as (I & _ & Hnx).
  destruct (pinv_intro _ _ _ _ _ I) as [P E]. split; [done|]. rewrite E. split.
  - split; [simpl; lia|]. apply Forall_nil_2.
  - split; [apply SSorted_nil| |]; by intros ??? ?%not_elem_of_nil || intros ???? ?%not_elem_of_nil.
Qed.

Lemma prun_ordered inp n id p0 k out p :
  1 ≤ n ≤ INT_MAX → 0 ≤ id < MAX_N_OF_PROPOSERS → proposer_new id n = Ret p0 →
  Z.of_nat k < 2 ^ 28 → prun inp p0 k out p → in_order out.
Proof.
  intros Hn Hid Hnew Hk Hr. destruct (order_ok_new id n p0 Hn Hid Hnew) as (I & B & O).
  destruct (prun_order_from inp n p0 k out p 0 [] I B Hk O Hr) as [[HS _ _] _].
  by rewrite app_nil_r in HS.
Qed.

(** Broadcasting each request to several connections keeps the order. *)
Lemma sent_as_order o out sent w :
  sent_as o out → order_ok (out ++ sent) w → order_ok (reverse (snd <$> o) ++ sent) w.
Proof.
  intros Ho [HS HQ HN].
  assert (∀ m, m ∈ reverse (snd <$> o) ++ sent → m ∈ out ++ sent) as Hsub.
  { intros m [Hm|Hm]%elem_of_app; apply elem_of_app; [left|by right].
    apply elem_of_reverse, list_elem_of_fmap in Hm as (x & -> & Hx). by eapply sent_as_elem. }
  split; [|eauto..]. clear HQ HN Hsub. revert HS. unfold in_order.
  induction Ho as [|o out b m Ho IH Hb]; [done|]. simpl. rewrite StronglySorted_cons. intros [HF HS].
  rewrite fmap_app, reverse_app, <-app_assoc. apply StronglySorted_app_2; [| |by apply IH].
  - intros x y Hx Hy. apply elem_of_reverse, list_elem_of_fmap in Hx as (z & -> & Hz). rewrite (Hb z Hz).
    rewrite Forall_forall in HF. apply HF. apply elem_of_app in Hy as [Hy|Hy]; apply elem_of_app; [left|by right].
    apply elem_of_reverse, list_elem_of_fmap in Hy as (u & -> & Hu). by eapply sent_as_elem.
  - assert (Forall (λ x, x = m) (reverse (snd <$> b))) as Hall.
    { apply Forall_forall. intros x Hx. apply elem_of_reverse, list_elem_of_fmap in Hx as (z & -> & Hz). auto. }
    induction Hall as [|x l -> Hl IHl]; [apply SSorted_nil|]. apply StronglySorted_cons. split; [|done].
    eapply Forall_impl; [exact Hl|]. intros y ->. intros iid b1 b2 E1 E2. rewrite E1 in E2. by simplify_eq.
Qed.

(** What a handler sends extends what the proposer sent, in order. *)
Lemma does_ordered inp n N p o p' k0 sent :
  pinv n (EvProposer.state p) → bounded (Z.of_nat k0) (view (EvProposer.state p)) →
  Z.of_nat (k0 + N) < 2 ^ 28 → order_ok sent (view (EvProposer.state p)) → does inp N p o p' →
  order_ok (reverse (snd <$> o) ++ sent) (view (EvProposer.state p')) ∧
  Forall (owned (p_id (EvProposer.state p))) (snd <$> o).
Proof.
  intros I B Hk Hs (_ & _ & _ & k & out & Hr & Hle & Ho).
  destruct (prun_order_from inp n _ k out _ k0 sent I B ltac:(lia) Hs Hr) as [O HF].
  split; [by eapply sent_as_order|]. rewrite Forall_forall in HF. apply Forall_forall.
  intros m (x & -> & Hx)%list_elem_of_fmap. apply HF. by eapply sent_as_elem.
Qed.

(** ** The answers of an acceptor *)

(** A request that does not come from proposer [id]: one of another proposer, or
a learner's. *)
Definition of_others (id : Z) (m : message) : Prop :=
  match m with
  | MPrepareReq _ | MAcceptReq _ => ∃ j, j ≠ id ∧ owned j m
  | MRepeatReq iid => 0 < iid < UINT32_MOD
  | _ => True
  end.

Section acceptor.
Context {S : Type} `{SS : StorageSpec S}.
Context (aid : Z) (a0 : evacceptor S).

(** [acceptor_node_run ins outs a]: from [a0] the node handles the messages [ins],
newest first, each with its connection, and sends [outs]; connections come and
go, and the node may be restarted on its storage. *)
Inductive acceptor_node_run : list (bufferevent * message) → sends → evacceptor S → Prop :=
  | ar_start : acceptor_node_run [] [] a0
  | ar_message ins outs a from m a' out :
      acceptor_node_run ins outs a → handle_message from a m = Ret (a', out) →
      acceptor_node_run ((from, m) :: ins) (out ++ outs) a'
  | ar_connection ins outs a e r :
      acceptor_node_run ins outs a → TcpReceiver.step (receiver a) e = Ret r →
      acceptor_node_run ins outs (EvAcceptor (acceptor_id a) r (state a))
  | ar_restart ins outs a a' A A' :
      acceptor_node_run ins outs a → state a = Some A → state a' = Some A' →
      (∀ h, store_rep aid (store A) h → store_rep aid (store A') h) →
      acceptor_node_run ins outs a'.

Context (mine : bufferevent → Prop) `{Hmine : ∀ c, Decision (mine c)}.

Implicit Types ins : list (bufferevent * message).

(** What proposer [id] asked, newest first. *)
Definition asked ins : list message := snd <$> filter (λ x, mine x.1) ins.

Lemma asked_cons from m ins :
  asked ((from, m) :: ins) = if decide (mine from) then m :: asked ins else asked ins.
Proof. unfold asked. rewrite filter_cons. simpl. by destruct (decide (mine from)). Qed.

Context (id : Z) (a0_state : acceptor S).
Hypothesis Hstate : state a0 = Some a0_state.
Hypothesis Hfresh : store_rep aid (store a0_state) ∅.

(** The messages a run is given: those on the connections of [id] are its own. *)
Definition inputs_ok ins : Prop :=
  ∀ c m, (c, m) ∈ ins → (mine c → owned id m) ∧ (¬ mine c → of_others id m).

(** Every ballot of [id] on record was asked by [id]. *)
Definition record_asked ins (h : gmap Z acceptor_record) : Prop :=
  ∀ iid r, h !! iid = Some r → aa_ballot r mod MAX_N_OF_PROPOSERS = id →
    ∃ m, m ∈ asked ins ∧ request_key m = Some (iid, aa_ballot r).

Record answers_ok ins (outs : sends) (a : evacceptor S) : Prop := {
  ao_store : ∃ A h, state a = Some A ∧ store_rep aid (store A) h ∧ history_wf aid h ∧
    record_asked ins h;
  ao_outs : ∀ c k, mine c → (c, MAcceptAck k) ∈ outs → aa_acceptor_id k = aid ∧ vote_for id k;
}.

Lemma record_asked_mono ins x h : record_asked ins h → record_asked (x :: ins) h.
Proof.
  intros Hr iid r E Hm. destruct (Hr iid r E Hm) as (m & Hin & Hk). exists m. split; [|done].
  destruct x as [c m']. rewrite asked_cons. case_decide; [by right|done].
Qed.

Lemma record_asked_insert ins from m h iid r :
  record_asked ins h → request_key m = Some (iid, aa_ballot r) →
  (aa_ballot r mod MAX_N_OF_PROPOSERS = id → mine from) →
  record_asked ((from, m) :: ins) (<[iid := r]> h).
Proof.
  intros Hr Hk Hown j r' Hj Hm. destruct (decide (iid = j)) as [<-|Hne].
  - rewrite lookup_insert_eq in Hj. simplify_eq. exists m. split; [|done].
    rewrite asked_cons, decide_True by auto. by left.
  - rewrite lookup_insert_ne in Hj by done. by apply (record_asked_mono ins (from, m) h Hr j r').
Qed.

(** Requests are in the ranges of their fields, and the ballots of [id] come on
its connections. *)
Lemma input_key ins from m iid b :
  inputs_ok ((from, m) :: ins) → request_key m = Some (iid, b) →
  0 < iid < UINT32_MOD ∧ MAX_N_OF_PROPOSERS ≤ b < UINT32_MOD ∧
  (b mod MAX_N_OF_PROPOSERS = id → mine from).
Proof using Hmine.
  intros Hi Hk. destruct (Hi from m ltac:(by left)) as [Hm Ho].
  assert (∀ j, owned j m → 0 < iid < UINT32_MOD ∧ MAX_N_OF_PROPOSERS ≤ b < UINT32_MOD ∧
    b mod MAX_N_OF_PROPOSERS = j) as Hr.
  { intros j Hj. destruct m; simpl in Hk, Hj; simplify_eq; done. }
  destruct (decide (mine from)) as [Hf|Hf]; [destruct (Hr id (Hm Hf)) as (? & ? & ?); auto|].
  destruct m; simpl in Hk; simplify_eq; destruct (Ho Hf) as (j & Hne & Hj);
    destruct (Hr j Hj) as (? & ? & E); (split; [done|]; split; [done|]); intros E'; congruence.
Qed.

(** The record a refusal shows has no ballot of [id] when [id] asks in order. *)
Lemma refusal_is_vote ins from m iid b h r :
  in_order (asked ((from, m) :: ins)) → mine from → request_key m = Some (iid, b) →
  record_asked ins h → h !! iid = Some r → b < aa_ballot r → vote_for id r.
Proof.
  rewrite asked_cons. intros Ho Hf Hk Hr E Hlt Hm. rewrite decide_True in Ho by done.
  apply StronglySorted_cons in Ho as [HF _]. rewrite Forall_forall in HF.
  destruct (Hr iid r E Hm) as (m' & Hin & Hk'). pose proof (HF m' Hin iid _ _ Hk Hk'). lia.
Qed.

(** One message. *)
Lemma prepare_answers ins outs a from pr a' out :
  inputs_ok ((from, MPrepareReq pr) :: ins) → answers_ok ins outs a →
  handle_prepare_req a from pr = Ret (a', out) →
  answers_ok ((from, MPrepareReq pr) :: ins) (out ++ outs) a'.
Proof using SS Hmine.
  intros Hi [(A & h & EA & R & Hw & Hr) Ho] Hh. unfold handle_prepare_req in Hh. rewrite EA in Hh.
  simpl in Hh. inv_res. destruct (input_key _ _ _ _ _ Hi eq_refl) as (Hiid & Hb & Hown).
  unfold MAX_N_OF_PROPOSERS in Hb.
  destruct (receive_prepare_refines aid A h pr _ _ R Hiid ltac:(unfold is_u32; lia) E) as [R' _].
  split.
  - eexists _, _. split; [done|]. split; [exact R'|]. split; [apply spec_prepare_wf; [lia|done]|].
    destruct (spec_prepare_cases aid h pr) as [(? & _ & -> & _)|[-> _]]; simpl;
      [by apply record_asked_mono|].
    apply record_asked_insert; [done| |]; by destruct (h !! pr_iid pr).
  - intros c k Hc [Hk|Hk]%elem_of_cons; [done|by apply (Ho c)].
Qed.

Lemma accept_answers ins outs a from ar a' out :
  inputs_ok ((from, MAcceptReq ar) :: ins) → in_order (asked ((from, MAcceptReq ar) :: ins)) →
  answers_ok ins outs a → handle_accept_req a from ar = Ret (a', out) →
  answers_ok ((from, MAcceptReq ar) :: ins) (out ++ outs) a'.
Proof using SS Hmine.
  intros Hi Hord [(A & h & EA & R & Hw & Hr) Ho] Hh. unfold handle_accept_req in Hh. rewrite EA in Hh.
  simpl in Hh. inv_res. destruct (input_key _ _ _ _ _ Hi eq_refl) as (Hiid & Hb & Hown).
  unfold MAX_N_OF_PROPOSERS in Hb.
  destruct (receive_accept_refines aid A h ar _ _ R Hiid ltac:(unfold is_u32; lia) E) as [R' Hl].
  rewrite Hl in E0. injection E0 as <-.
  assert (state a' = Some a1 ∧ ∀ c k, (c, MAcceptAck k) ∈ out → k = (spec_accept aid h ar).2 ∧
    (ar_ballot ar = aa_ballot k ∨ c = from)) as [EA' Hout].
  { revert Hh. case_Z; intros Hh; inv_res; (split; [done|]); intros c k Hk.
    - pose proof (send_each_inv _ _ _ _ _ E0 Hk) as [= ->]. auto.
    - apply list_elem_of_singleton in Hk as [= -> ->]. auto. }
  split.
  - eexists _, _. split; [done|]. split; [exact R'|]. split; [apply spec_accept_wf; [lia|done]|].
    destruct (spec_accept_cases aid h ar) as [(? & _ & -> & _)|[-> _]]; simpl;
      [by apply record_asked_mono|]. by apply record_asked_insert.
  - intros c k Hc [Hk|Hk]%elem_of_app; [|by apply (Ho c)]. destruct (Hout c k Hk) as [-> Hb'].
    destruct (spec_accept_cases aid h ar) as [(r2 & Er & Es & Hlt)|[Es _]]; rewrite Es in Hb' |- *;
      simpl in *; [|done].
    split; [apply (Hw _ _ Er)|]. destruct Hb' as [?| ->]; [lia|].
    by eapply (refusal_is_vote ins from _ _ _ h); [exact Hord| | | | |].
Qed.

Lemma repeat_answers ins outs a from iid a' out :
  inputs_ok ((from, MRepeatReq iid) :: ins) → answers_ok ins outs a →
  handle_repeat_req a from iid = Ret (a', out) →
  answers_ok ((from, MRepeatReq iid) :: ins) (out ++ outs) a'.
Proof using SS Hmine.
  intros Hi [(A & h & EA & R & Hw & Hr) Ho] Hh. unfold handle_repeat_req in Hh. rewrite EA in Hh.
  simpl in Hh. destruct (Hi from _ ltac:(by left)) as [Hm Hf].
  assert (¬ mine from) as Hn by (intros Hc; by apply Hm in Hc). specialize (Hf Hn). simpl in Hf.
  inv_res. destruct (receive_repeat_refines aid A h iid _ _ R Hf E) as [R' _].
  destruct o as [q|]; inv_res; (split; [eexists _, h; split; [done|]; split; [exact R'|];
    split; [done|by apply record_asked_mono]|]); [|done].
  intros c k Hc [[= -> _]|Hk]%elem_of_cons; [done|by apply (Ho c)].
Qed.

Lemma message_answers ins outs a from m a' out :
  inputs_ok ((from, m) :: ins) → in_order (asked ((from, m) :: ins)) → answers_ok ins outs a →
  handle_message from a m = Ret (a', out) → answers_ok ((from, m) :: ins) (out ++ outs) a'.
Proof using SS Hmine.
  intros Hi Hord HA Hh. destruct m; simpl in Hh;
    eauto using prepare_answers, accept_answers, repeat_answers.
  all: injection Hh as <- <-; destruct HA as [(A & h & ? & ? & ? & ?) ?]; split; [|done].
  all: exists A, h; eauto using record_asked_mono.
Qed.

Lemma acceptor_node_run_votes ins outs a :
  acceptor_node_run ins outs a → inputs_ok ins → in_order (asked ins) → answers_ok ins outs a.
Proof using SS Hmine Hstate Hfresh.
  induction 1 as [|ins outs a from m a' out Hr IH Hh|ins outs a e r Hr IH Hs
    |ins outs a a' A A' Hr IH EA EA' HA]; intros Hi Hord.
  - split; [|by intros c k _ ?%not_elem_of_nil]. exists a0_state, ∅. split; [done|].
    split; [done|]. split; [by intros ?? ?%lookup_empty_Some|by intros ?? ?%lookup_empty_Some].
  - apply (message_answers ins outs a); [done..| |done]. apply IH.
    + intros c x Hx. apply Hi. by right.
    + eapply in_order_sublist; [|exact Hord]. rewrite asked_cons. case_decide; [by apply sublist_cons|done].
  - destruct (IH Hi Hord) as [HS Ho]. by split.
  - destruct (IH Hi Hord) as [(B & h & EB & R & HW) Ho]. split; [|done]. simplify_eq. eauto 6.
Qed.

End acceptor.

(** ** Properties *)

(** C9: connections that keep the order of requests are enough for the proposer's
assertion.  A proposer sends requests whose ballots never decrease within an
instance; when an acceptor node, over any storage that meets its contract, gets
a subsequence of them in that order, mixed in any way with the requests of other
proposers and of learners, with connections that come and go and restarts on its
storage, then whatever accept acknowledgement it sends on a connection of that
proposer is a vote if it has one of its ballots, and the proposer's handler
returns on it. *)
Theorem ordered_answers_accepted {S} `{SS : StorageSpec S} inp n id p0 k out p aid
    (a0 a : evacceptor S) A0 (mine : bufferevent → Prop) `{∀ c, Decision (mine c)} ins outs :
  1 ≤ n ≤ INT_MAX → 0 ≤ id < MAX_N_OF_PROPOSERS → proposer_new id n = Ret p0 →
  Z.of_nat k < 2 ^ 28 → prun inp p0 k out p →
  0 ≤ aid < n → state a0 = Some A0 → store_rep aid (store A0) ∅ →
  acceptor_node_run aid a0 ins outs a → asked mine ins `sublist_of` out →
  (∀ c m, (c, m) ∈ ins → ¬ mine c → of_others id m) →
  in_order out ∧
  ∀ c ack, mine c → (c, MAcceptAck ack) ∈ outs →
    vote_for id ack ∧
    (roomy (p_values p) → roomy (p_prepare_instances p) → roomy (p_accept_instances p) →
     ∀ now, is_ret (proposer_receive_accept_ack p ack now) = true).
Proof.
  intros Hn Hid Hnew Hk Hp Haid EA R Hr Hsub Hothers.
  pose proof (prun_ordered _ _ _ _ _ _ _ Hn Hid Hnew Hk Hp) as Hord. split; [exact Hord|].
  destruct (prun_inv inp n id p0 Hn Hid Hnew k out p Hk Hp) as (vs & ps & acs & I & Hpid & _ & _ & HF).
  assert (answers_ok aid mine id ins outs a) as [_ Ho].
  { eapply acceptor_node_run_votes; [exact EA|exact R|exact Hr| |by eapply in_order_sublist].
    intros c m Hin. split; [|by apply Hothers]. intros Hc. rewrite Forall_forall in HF. apply HF.
    eapply elem_of_sublist; [|exact Hsub]. apply (list_elem_of_fmap_2 snd _ (c, m)).
    by apply list_elem_of_filter. }
  intros c ack Hc Hin. destruct (Ho c ack Hc Hin) as [Hack Hv]. split; [done|].
  intros Rv Rp Ra now. rewrite <-Hpid in Hv.
  destruct (accept_ack_total n p vs ps acs I Rp Ra ack now) as [? ->]; [by rewrite Hack|done|done].
Qed.

(** Proposer 1 on connection 7 is overtaken by proposer 2 on connection 9. *)
Definition overtaken_ins : list (bufferevent * message) :=
  [(7, MAcceptReq (AcceptReq 1 11 [x42])); (9, MPrepareReq (PrepareReq 1 12));
   (7, MPrepareReq (PrepareReq 1 11))].

Definition overtaken_nack : accept_ack := AcceptAck 0 1 12 0 0 [].

Definition overtaken_outs : sends :=
  [(7, MAcceptAck overtaken_nack); (9, MPrepareAck (PrepareAck 0 1 12 0 []));
   (7, MPrepareAck (PrepareAck 0 1 11 0 []))].

Definition overtaken1 : evacceptor storage_mem :=
  (from_ret (ev0, []) (handle_message 7 ev0 (MPrepareReq (PrepareReq 1 11)))).1.
Definition overtaken2 : evacceptor storage_mem :=
  (from_ret (ev0, []) (handle_message 9 overtaken1 (MPrepareReq (PrepareReq 1 12)))).1.
Definition overtaken3 : evacceptor storage_mem :=
  (from_ret (ev0, []) (handle_message 7 overtaken2 (MAcceptReq (AcceptReq 1 11 [x42])))).1.

Lemma overtaken_run : acceptor_node_run 0 ev0 overtaken_ins overtaken_outs overtaken3.
Proof.
  apply (ar_message 0 ev0 _ [_; _] overtaken2 7 _ overtaken3 [_]); [|by vm_compute].
  apply (ar_message 0 ev0 _ [_] overtaken1 9 _ overtaken2 [_]); [|by vm_compute].
  apply (ar_message 0 ev0 _ [] ev0 7 _ overtaken1 [_]); [apply ar_start|by vm_compute].
Qed.

Lemma ordered_answers_accepted_witness :
  (7, MAcceptAck overtaken_nack) ∈ overtaken_outs ∧ vote_for 1 overtaken_nack ∧
  is_ret (proposer_receive_accept_ack demo5 overtaken_nack at_zero) = true.
Proof.
  split; [by left|].
  destruct (ordered_answers_accepted any_msg 3 1 demo0 5
    [MAcceptReq (AcceptReq 1 11 [x42]); MPrepareReq (PrepareReq 1 11)] demo5 0 ev0 overtaken3 ev_acc0
    (λ c, c = 7) overtaken_ins overtaken_outs) as [_ Ho].
  - by vm_compute.
  - by vm_compute.
  - exact demo_new.
  - by vm_compute.
  - exact demo_prun5.
  - done.
  - done.
  - apply mem_open_rep.
  - exact overtaken_run.
  - vm_compute. repeat constructor.
  - intros c m Hin Hc. unfold overtaken_ins in Hin.
    repeat (apply elem_of_cons in Hin as [[= -> ->]|Hin]); [done| |done|by apply not_elem_of_nil in Hin].
    exists 2. by vm_compute.
  - destruct (Ho 7 overtaken_nack eq_refl ltac:(by left)) as [Hv Ht]. split; [exact Hv|].
    apply Ht; by vm_compute.
Defined.
