(* ===== verification/Timeouts.v ===== *)
(** * The timeout handler of a proposer

[proposer_check_timeouts] (evproposer.c) walks the two instance queues with the
timeout iterator of proposer.c.  Its effect is described on the lists the
queues hold: which instances are [overdue], what is sent for them, and that
their clocks are reset. *)

From S2P Require Import Prelude Carray Quorum Messages Storage StorageMem Acceptor.
From S2P Require Import Proposer ProposerRun Learner Synod System SystemRuns Wire Net EvProposer.
#[local] Open Scope Z_scope.
Import Peers.
#[local] Arguments Z.of_nat : simpl never.

Section timeouts.
Context (cfg : paxos_config) (t : timeval).
Implicit Types i : instance.

(** The time since the instance was created or last sent fits an [int]. *)
Definition clock_fits i : Prop :=
  INT_MIN ≤ (tv_sec t - tv_sec (i_created_at i)) * 1000000 ≤ INT_MAX.

(** No majority has answered within the timeout. *)
Definition overdue i : bool :=
  negb (quorum_reached (i_quorum i)) && from_ret false (instance_has_timedout cfg i t).

(** An overdue instance is sent again and its clock restarted. *)
Definition refresh i : instance := if overdue i then set_created_at t i else i.

Lemma timedout_total i : clock_fits i → ∃ b, instance_has_timedout cfg i t = Ret b.
Proof.
  intros Hc. unfold instance_has_timedout, timeval_diff. rewrite cint_ok by exact Hc. simpl.
  case_Z; simpl; eauto.
Qed.

(** [next_timedout] finds the next overdue instance. *)
Lemma next_timedout_ok n c l k :
  carray_rep c l → indexable c → Forall clock_fits l → (k + n = length l)%nat →
  (∃ j i, next_timedout_from n cfg c (Z.of_nat k) t = Ret (Z.of_nat (S (k + j)), Some (Z.of_nat (k + j))) ∧
     l !! (k + j)%nat = Some i ∧ overdue i = true ∧
     Forall (λ i, overdue i = false) (take j (drop k l))) ∨
  (next_timedout_from n cfg c (Z.of_nat k) t = Ret (Z.of_nat (length l), None) ∧
   Forall (λ i, overdue i = false) (drop k l)).
Proof.
  intros R Hx HF. revert k. induction n as [|n IH]; intros k Hk; cbn [next_timedout_from].
  { right. rewrite drop_ge by lia. split; [do 2 f_equal; lia|apply Forall_nil_2]. }
  destruct (lookup_lt_is_Some_2 l k) as [i Hi]; [lia|].
  rewrite (instance_at_ok c l _ i R Hx) by (rewrite ?Nat2Z.id; done || lia). rewrite bind_Ret.
  destruct (timedout_total i) as [b Hb]; [by eapply Forall_lookup_1|].
  assert (overdue i = negb (quorum_reached (i_quorum i)) && b) as Ho
    by (unfold overdue; by rewrite Hb).
  rewrite Hb. cbn [mbind res_bind].
  assert (overdue i = false → next_timedout_from n cfg c (Z.of_nat k + 1) t =
            next_timedout_from n cfg c (Z.of_nat (S k)) t) as Hs by (intros _; f_equal; lia).
  destruct (overdue i) eqn:Hov.
  - left. exists 0%nat, i. rewrite Nat.add_0_r.
    destruct (quorum_reached (i_quorum i)); [done|]. destruct b; [|done].
    split; [do 2 f_equal; lia|]. split; [done|]. split; [done|]. apply Forall_nil_2.
  - assert ((if quorum_reached (i_quorum i) then next_timedout_from n cfg c (Z.of_nat k + 1) t
      else if b then Ret (Z.of_nat k + 1, Some (Z.of_nat k))
           else next_timedout_from n cfg c (Z.of_nat k + 1) t) =
      next_timedout_from n cfg c (Z.of_nat (S k)) t) as ->.
    { rewrite <-Hs by done. destruct (quorum_reached (i_quorum i)); [done|]. by destruct b. }
    rewrite (drop_S l i k Hi).
    destruct (IH (S k)) as [(j & i' & H1 & H2 & H3 & H4)|[H1 H2]]; [lia|left|right].
    + exists (S j), i'. replace (k + S j)%nat with (S k + j)%nat by lia.
      split; [done|]. split; [done|]. split; [done|]. simpl. by apply Forall_cons_2.
    + split; [done|]. by apply Forall_cons_2.
Qed.

Lemma none_overdue (l : list instance) :
  Forall (λ i, overdue i = false) l → filter overdue l = [] ∧ refresh <$> l = l.
Proof.
  induction 1 as [|x l Hx _ [IH1 IH2]]; [done|]. rewrite filter_cons_False, fmap_cons, IH2.
  - split; [done|]. unfold refresh. by rewrite Hx.
  - intros Hc. by rewrite Hx in Hc.
Qed.

(** What is left of the queue after the first overdue instance. *)
Lemma split_overdue (l : list instance) k j i :
  l !! (k + j)%nat = Some i → overdue i = true →
  Forall (λ i, overdue i = false) (take j (drop k l)) →
  filter overdue (drop k l) = i :: filter overdue (drop (S (k + j)) l) ∧
  take (S (k + j)) (<[(k + j)%nat := set_created_at t i]> l) ++ (refresh <$> drop (S (k + j)) l) =
  take k l ++ (refresh <$> drop k l).
Proof.
  intros Hl Ho Hpre. pose proof (lookup_lt_Some _ _ _ Hl).
  assert (drop k l = take j (drop k l) ++ i :: drop (S (k + j)) l) as E.
  { rewrite <-(take_drop_middle (drop k l) j i) at 1 by (by rewrite lookup_drop).
    by rewrite drop_drop, Nat.add_succ_r. }
  destruct (none_overdue _ Hpre) as [Ef Er].
  split.
  - rewrite E at 1. rewrite filter_app, Ef, filter_cons_True; [done|]. by rewrite Ho.
  - rewrite (take_S_r _ _ (set_created_at t i)) by (by rewrite list_lookup_insert_eq).
    rewrite take_insert_ge, <-(take_take_drop l k j), <-!app_assoc by lia. f_equal.
    rewrite E at 2. rewrite fmap_app, Er. simpl. unfold refresh at 2. by rewrite Ho.
Qed.

Lemma clock_fits_insert l k i :
  Forall clock_fits l → Forall clock_fits (<[k := set_created_at t i]> l).
Proof.
  intros HF. apply Forall_insert; [done|]. unfold clock_fits. simpl. rewrite Z.sub_diag.
  by vm_compute.
Qed.

(** What is sent for an instance of the prepare queue and of the accept queue,
and to whom. *)
Definition resend_prepare i : message := MPrepareReq (PrepareReq (i_iid i) (i_ballot i)).
Definition resend_accept i : message :=
  MAcceptReq (AcceptReq (i_iid i) (i_ballot i) (from_option m_data [] (i_value i))).
Definition broadcast (ps : peers) (ms : list message) : sends :=
  m ← ms; (λ x, (bev x, m)) <$> array ps.

Lemma prepare_loop_ok N p vs ps acs addrs k ai :
  proposer_rep (state p) vs ps acs → indexable (p_prepare_instances (state p)) →
  peers_ok (acceptors p) addrs → Forall clock_fits ps →
  (k ≤ length ps)%nat → (length ps - k < N)%nat →
  ∃ p', timeout_prepare_loop cfg N p (TimeoutIterator (Z.of_nat k) ai t) =
      Ret (p', TimeoutIterator (Z.of_nat (length ps)) ai t,
           broadcast (acceptors p) (resend_prepare <$> filter overdue (drop k ps))) ∧
    acceptors p' = acceptors p ∧ p_accept_instances (state p') = p_accept_instances (state p) ∧
    proposer_rep (state p') vs (take k ps ++ (refresh <$> drop k ps)) acs.
Proof.
  revert p ps k. induction N as [|N IH]; intros p ps k R Hx Hp HF Hk HN; [lia|].
  pose proof R as [Rv Rp Ra]. cbn [timeout_prepare_loop].
  unfold timeout_iterator_prepare, next_timedout, carray_count. cbn [ti_pi ti_ai ti_timeout].
  rewrite (rep_count _ _ Rp). replace (Z.to_nat (Z.of_nat (length ps) - Z.of_nat k)) with (length ps - k)%nat by lia.
  destruct (next_timedout_ok (length ps - k) _ ps k Rp Hx HF) as [(j & i & -> & Hl & Ho & Hpre)|[-> Hall]];
    [lia|simpl..].
  - destruct (split_overdue ps k j i Hl Ho Hpre) as [Ef Et]. pose proof (lookup_lt_Some _ _ _ Hl).
    rewrite (instance_at_ok _ ps _ i Rp Hx) by (rewrite ?Nat2Z.id; done || lia). simpl.
    unfold send_prepares. simpl. rewrite (send_peers _ _ _ Hp). simpl.
    set (st := set_prepare _ (state p)).
    assert (proposer_rep st vs (<[(k + j)%nat := set_created_at t i]> ps) acs) as R1.
    { pose proof (poke_ok _ _ (Z.of_nat (k + j)) (set_created_at t i) Rp ltac:(lia)) as Rk.
      rewrite Nat2Z.id in Rk. by split. }
    destruct (IH (EvProposer.set_state st p) _ (S (k + j)) R1) as (p' & -> & Ha & Hac & R');
      [done|done|by apply clock_fits_insert|rewrite length_insert; lia..|].
    simpl. exists p'. rewrite length_insert, drop_insert_lt in * by lia.
    split; [by rewrite Ef|]. split; [done|]. split; [done|]. by rewrite <-Et.
  - exists (EvProposer.set_state (state p) p).
    destruct (none_overdue _ Hall) as [-> ->].
    by rewrite take_drop.
Qed.

Lemma accept_loop_ok N p vs ps acs addrs k pi :
  proposer_rep (state p) vs ps acs → indexable (p_accept_instances (state p)) →
  peers_ok (acceptors p) addrs → Forall clock_fits acs → Forall (λ i, i_value i ≠ None) acs →
  (k ≤ length acs)%nat → (length acs - k < N)%nat →
  ∃ p', timeout_accept_loop cfg N p (TimeoutIterator pi (Z.of_nat k) t) =
      Ret (p', TimeoutIterator pi (Z.of_nat (length acs)) t,
           broadcast (acceptors p) (resend_accept <$> filter overdue (drop k acs))) ∧
    acceptors p' = acceptors p ∧
    proposer_rep (state p') vs ps (take k acs ++ (refresh <$> drop k acs)).
Proof.
  revert p acs k. induction N as [|N IH]; intros p acs k R Hx Hp HF Hv Hk HN; [lia|].
  pose proof R as [Rv Rp Ra]. cbn [timeout_accept_loop].
  unfold timeout_iterator_accept, next_timedout, carray_count. cbn [ti_pi ti_ai ti_timeout].
  rewrite (rep_count _ _ Ra).
  replace (Z.to_nat (Z.of_nat (length acs) - Z.of_nat k)) with (length acs - k)%nat by lia.
  destruct (next_timedout_ok (length acs - k) _ acs k Ra Hx HF) as [(j & i & -> & Hl & Ho & Hpre)|[-> Hall]];
    [lia|simpl..].
  - destruct (split_overdue acs k j i Hl Ho Hpre) as [Ef Et]. pose proof (lookup_lt_Some _ _ _ Hl).
    rewrite (instance_at_ok _ acs _ i Ra Hx) by (rewrite ?Nat2Z.id; done || lia). simpl.
    pose proof (proj1 (Forall_lookup _ _) Hv _ _ Hl) as Hvi.
    destruct (i_value i) as [v|] eqn:Ev; [|done]. simpl.
    unfold send_accepts. simpl. rewrite (send_peers _ _ _ Hp). simpl.
    set (st := set_accept _ (state p)).
    assert (proposer_rep st vs ps (<[(k + j)%nat := set_created_at t i]> acs)) as R1.
    { pose proof (poke_ok _ _ (Z.of_nat (k + j)) (set_created_at t i) Ra ltac:(lia)) as Rk.
      rewrite Nat2Z.id in Rk. by split. }
    destruct (IH (EvProposer.set_state st p) _ (S (k + j)) R1) as (p' & -> & Ha & R');
      [done|done|by apply clock_fits_insert|apply Forall_insert; [done|simpl; congruence]
      |rewrite length_insert; lia..|].
    simpl. exists p'. rewrite length_insert, drop_insert_lt in * by lia.
    split; [|split; [done|by rewrite <-Et]].
    assert (resend_accept i = MAcceptReq (AcceptReq (i_iid i) (i_ballot i) (m_data v))) as Em
      by (unfold resend_accept; by rewrite Ev).
    by rewrite Ef, fmap_cons, Em.
  - exists (EvProposer.set_state (state p) p).
    destruct (none_overdue _ Hall) as [-> ->]. by rewrite take_drop.
Qed.

(** The handler resends what its own test [overdue] selects. *)
Lemma check_timeouts_ok n p vs ps acs addrs :
  proposer_inv n (state p) vs ps acs →
  indexable (p_prepare_instances (state p)) → indexable (p_accept_instances (state p)) →
  peers_ok (acceptors p) addrs → Forall clock_fits (ps ++ acs) →
  ∃ p', proposer_check_timeouts cfg t p =
      Ret (p', broadcast (acceptors p)
                 ((resend_prepare <$> filter overdue ps) ++ (resend_accept <$> filter overdue acs))) ∧
    proposer_rep (state p') vs (refresh <$> ps) (refresh <$> acs).
Proof.
  intros I Xp Xa Hp [Fp Fa]%Forall_app. pose proof (pi_rep _ _ _ _ _ I) as R. pose proof R as [_ Rp Ra].
  unfold proposer_check_timeouts, carray_count, proposer_timeout_iterator.
  rewrite (rep_count _ _ Rp), Nat2Z.id.
  change (TimeoutIterator 0 0 t) with (TimeoutIterator (Z.of_nat 0) (Z.of_nat 0) t).
  destruct (prepare_loop_ok (S (length ps)) p vs ps acs addrs 0 (Z.of_nat 0) R Xp Hp Fp) as (p1 & -> & A1 & C1 & R1);
    [lia..|]. simpl in R1. rewrite bind_Ret. cbv beta iota. rewrite C1, (rep_count _ _ Ra), Nat2Z.id.
  destruct (accept_loop_ok (S (length acs)) p1 vs _ acs addrs 0 (Z.of_nat (length ps)) R1)
    as (p2 & -> & A2 & R2); [by rewrite C1|by rewrite A1|done|apply I|lia..|].
  simpl in R2 |- *. exists p2. split; [|done]. rewrite A1, !drop_0. do 2 f_equal.
  unfold broadcast. by rewrite bind_app.
Qed.

(** ** What is due

The specification of the test, on the clock: no majority has answered, and at
least [proposer_timeout] microseconds have passed. *)
Definition elapsed_us (t1 t2 : timeval) : Z :=
  (tv_sec t2 * 1000000 + tv_usec t2) - (tv_sec t1 * 1000000 + tv_usec t1).

Definition due n i : bool :=
  (q_count (i_quorum i) <? paxos_quorum n) && (proposer_timeout cfg <=? elapsed_us (i_created_at i) t).

Definition restart_due n i : instance := if due n i then set_created_at t i else i.

(** Times as gettimeofday gives them, less than 2146 seconds apart. *)
Definition clock_sane i : Prop :=
  0 ≤ tv_usec t < 1000000 ∧ 0 ≤ tv_usec (i_created_at i) < 1000000 ∧
  Z.abs (elapsed_us (i_created_at i) t) ≤ INT_MAX - 1000000.

Lemma clock_sane_fits i : clock_sane i → clock_fits i.
Proof. unfold clock_sane, clock_fits, elapsed_us, INT_MIN, INT_MAX. lia. Qed.

Lemma due_iff n i S :
  quorum_rep (i_quorum i) n S →
  due n i = true ↔
    Z.of_nat (size S) < paxos_quorum n ∧ proposer_timeout cfg ≤ elapsed_us (i_created_at i) t.
Proof.
  intros R. unfold due. rewrite andb_true_iff, Z.ltb_lt, Z.leb_le. by rewrite (qr_count _ _ _ R).
Qed.

(** The test of the code agrees: clocks that go back count as no time. *)
Lemma overdue_due n i S :
  quorum_rep (i_quorum i) n S → clock_sane i → 0 < proposer_timeout cfg → overdue i = due n i.
Proof.
  intros R (Ht & Hi & He) Hpos. unfold overdue, due.
  assert (quorum_reached (i_quorum i) = negb (q_count (i_quorum i) <? paxos_quorum n)) as ->.
  { unfold quorum_reached. rewrite (qr_quorum _ _ _ R). apply Z.leb_antisym. }
  rewrite negb_involutive. f_equal. unfold instance_has_timedout, timeval_diff.
  rewrite cint_ok by (apply clock_sane_fits; split_and!; lia). rewrite bind_Ret. cbv beta.
  unfold elapsed_us in *. case_Z; rewrite bind_Ret; cbn [from_ret]; [case_Z; case_Z; lia|].
  rewrite to_int_small by (unfold INT_MIN, INT_MAX in *; lia). f_equal. lia.
Qed.

Lemma filter_overdue n l :
  Forall (λ i, overdue i = due n i) l →
  filter overdue l = filter (due n) l ∧ refresh <$> l = restart_due n <$> l.
Proof.
  induction 1 as [|i l E _ [IH1 IH2]]; [done|]. rewrite !fmap_cons, IH2. split.
  - destruct (due n i) eqn:D.
    + rewrite !filter_cons_True by (by rewrite ?E, ?D). by rewrite IH1.
    + rewrite !filter_cons_False by (by rewrite ?E, ?D; intros ?). done.
  - f_equal. unfold refresh, restart_due. by rewrite E.
Qed.

(** ** Property *)

(** C32: the timeout handler of a proposer terminates and sends again exactly what
is due: to every acceptor, in order, a prepare request for each instance of the
prepare queue and an accept request with its value for each instance of the
accept queue that fewer than a majority of acceptors have answered and that was
created, or last sent again, at least [proposer_timeout] microseconds of the
clock ago.  The clocks of those instances restart, and nothing else of the
queues changes.  (paxos.conf gives the option in seconds, but the code compares
it with microseconds.)  The timeout is positive and the clock has moved by less
than 2146 seconds, in either direction. *)
Theorem check_timeouts_resends n p vs ps acs addrs :
  proposer_inv n (state p) vs ps acs →
  indexable (p_prepare_instances (state p)) → indexable (p_accept_instances (state p)) →
  peers_ok (acceptors p) addrs → Forall clock_sane (ps ++ acs) → 0 < proposer_timeout cfg →
  (∀ i S, i ∈ ps ++ acs → quorum_rep (i_quorum i) n S →
     due n i = true ↔
       Z.of_nat (size S) < paxos_quorum n ∧ proposer_timeout cfg ≤ elapsed_us (i_created_at i) t) ∧
  ∃ p', proposer_check_timeouts cfg t p =
      Ret (p', broadcast (acceptors p)
                 ((resend_prepare <$> filter (due n) ps) ++ (resend_accept <$> filter (due n) acs))) ∧
    proposer_rep (state p') vs (restart_due n <$> ps) (restart_due n <$> acs).
Proof.
  intros I Xp Xa Hp F Hpos. split; [intros i S _; apply due_iff|].
  destruct (check_timeouts_ok n p vs ps acs addrs I Xp Xa Hp) as (p' & E & R).
  { eapply Forall_impl; [exact F|]. apply clock_sane_fits. }
  assert (Forall (λ i, overdue i = due n i) (ps ++ acs)) as [Fp Fa]%Forall_app.
  { pose proof (pi_insts _ _ _ _ _ I) as FI. rewrite !Forall_forall in *. intros i Hi.
    destruct (io_quorum _ _ _ _ (FI i Hi)) as [S HS]. eauto using overdue_due. }
  destruct (filter_overdue n ps Fp) as [E1 E2], (filter_overdue n acs Fa) as [E3 E4].
  exists p'. rewrite <-E1, <-E2, <-E3, <-E4. done.
Qed.

End timeouts.

(** Proposer 1 has sent a prepare request for instance 1 at time 0; with a timeout
of two seconds it is due after exactly two seconds, and not a microsecond
before. *)
Definition two_seconds : paxos_config :=
  PaxosConfig PAXOS_LOG_INFO 4 1 2000000 128 0 0 "" "" 0.

Lemma check_timeouts_resends_witness :
  let m := MPrepareReq (PrepareReq 1 11) in
  (∃ p', proposer_check_timeouts two_seconds (Timeval 2 0) (demo_ev demo2) =
    Ret (p', [(4, m); (5, m); (6, m)])) ∧
  (∃ p', proposer_check_timeouts two_seconds (Timeval 1 999999) (demo_ev demo2) = Ret (p', [])).
Proof.
  intros m. destruct (demo_inv 2 _ demo2 ltac:(reflexivity) demo_prun2) as (vs & ps & acs & I & _ & E).
  assert (vs = v_values (view demo2) ∧ ps = v_prepare (view demo2) ∧ acs = v_accept (view demo2))
    as (-> & -> & ->) by (by rewrite E).
  split.
  - destruct (check_timeouts_resends two_seconds (Timeval 2 0) 3 (demo_ev demo2) _ _ _ demo_addrs I)
      as (_ & p' & Hp & _); [vm_compute; congruence|vm_compute; congruence|exact demo_peers_ok| |done|].
    + repeat (apply Forall_cons_2; [repeat split; vm_compute; congruence|]). apply Forall_nil_2.
    + exists p'. exact Hp.
  - destruct (check_timeouts_resends two_seconds (Timeval 1 999999) 3 (demo_ev demo2) _ _ _ demo_addrs I)
      as (_ & p' & Hp & _); [vm_compute; congruence|vm_compute; congruence|exact demo_peers_ok| |done|].
    + repeat (apply Forall_cons_2; [repeat split; vm_compute; congruence|]). apply Forall_nil_2.
    + exists p'. exact Hp.
Defined.
