(* ===== verification/EvLearner.v ===== *)
(** * The event-driven learner (src/evpaxos/evlearner.c)

On an accept acknowledgement the learner updates its state and hands every
value that is next in line to the delivery callback; a timer asks the
acceptors to repeat the instances it misses.  The callback is an effect: the
deliveries are returned as a list. *)

From S2P Require Import Config.
From S2P Require Import Prelude Carray Quorum Messages Learner Wire Net.
#[local] Open Scope Z_scope.
Import Peers.

(** [struct evlearner]; the timer and the callback do not change. *)
Record evlearner : Type := EvLearner {
  state : learner;
  acceptors : peers;
}.

(** The arguments of [delfun]: value, instance, ballot, proposer. *)
Record delivery : Type := Delivery {
  d_value : bytes;
  d_iid : Z;
  d_ballot : Z;
  d_proposer : Z;
}.

Definition chunks : Z := 10000.

(** The range of instances [learner_check_holes] asks for: [to - from] is
unsigned and [from + chunks] wraps. *)
Definition hole_range (from to : Z) : Z * Z :=
  if chunks <? u32 (to - from) then (from, u32 (from + chunks)) else (from, to).

Fixpoint repeat_loop (n : nat) (iid : Z) (l : evlearner) : res sends :=
  match n with
  | O => Ret []
  | S n' =>
      out ← send_each (peers_count (acceptors l)) (peers_get_buffer (acceptors l)) (MRepeatReq iid);
      out' ← repeat_loop n' (u32 (iid + 1)) l;
      Ret (out ++ out')
  end.

Definition learner_check_holes (l : evlearner) : res sends :=
  match learner_has_holes (state l) with
  | None => Ret []
  | Some (from, to) =>
      let '(from, to) := hole_range from to in
      repeat_loop (Z.to_nat (to - from)) from l
  end.

(** [ballot % MAX_N_OF_PROPOSERS], unsigned. *)
Definition deliver_ack (ack : accept_ack) : delivery :=
  Delivery (aa_value ack) (aa_iid ack) (aa_ballot ack) (aa_ballot ack mod MAX_N_OF_PROPOSERS).

(** The loop of [learner_deliver_next_closed], at most [n] iterations. *)
Fixpoint deliver_loop (n : nat) (st : learner) : res (learner * list delivery) :=
  match n with
  | O => Fault StackOverflow
  | S n' =>
      '(st, ack) ← learner_deliver_next st;
      match ack with
      | None => Ret (st, [])
      | Some ack =>
          '(st, ds) ← deliver_loop n' st;
          Ret (st, deliver_ack ack :: ds)
      end
  end.

(** No more instances are closed than the window holds. *)
Definition learner_deliver_next_closed (l : evlearner) : res (evlearner * list delivery) :=
  '(st, ds) ← deliver_loop (S (Z.to_nat (carray_size (l_instances (state l))))) (state l);
  Ret (EvLearner st (acceptors l), ds).

Definition learner_handle_accept_ack (l : evlearner) (aa : accept_ack)
    : res (evlearner * list delivery) :=
  st ← learner_receive_accept (state l) aa;
  learner_deliver_next_closed (EvLearner st (acceptors l)).

Definition dispatch (l : evlearner) (code : Z) (buf : bytes) : res (evlearner * list delivery) :=
  if code =? msg_code accept_acks then
    aa ← decode_accept_ack buf; learner_handle_accept_ack l aa
  else Ret (l, []).

Definition learner_handle_msg {B} `{Evbuffer B} (stack : bytes) (l : evlearner) (inp : B)
    : res (evlearner * B * list delivery) :=
  '(inp, m) ← recv_msg inp;
  match m with
  | None => Ret (l, inp, [])
  | Some (size, code, data) =>
      '(l, out) ← dispatch l code (data ++ stack);
      Ret (l, inp, out)
  end.

Definition on_acceptor_msg {B} `{Evbuffer B} (stack : bytes) (l : evlearner) (inp : B)
    : res (evlearner * B * list delivery) :=
  read_loop (S (Z.to_nat (evbuffer_get_length inp))) (learner_handle_msg stack) l inp.

(** [new_bev i] is the connection made for the [i]th acceptor. *)
Definition evlearner_init_conf (cfg : paxos_config) (c : config) (new_bev : Z → bufferevent)
    : res evlearner :=
  st ← learner_new cfg (acceptors_count c);
  ps ← connect_acceptors c new_bev;
  Ret (EvLearner st ps).

(** [file] is the contents of the file and [p] the global [paxos_config]. *)
Definition evlearner_init (file : option bytes) (p : paxos_config) (new_bev : Z → bufferevent)
    : res (paxos_config * evlearner) :=
  '(p, c) ← read_config file p;
  l ← evlearner_init_conf p c new_bev;
  Ret (p, l).

Definition evlearner_free (l : evlearner) : res (list bufferevent) := peers_free (acceptors l).

(** ** Handling a message *)

Definition handle_message (l : evlearner) (m : message) : res (evlearner * list delivery) :=
  match m with
  | MAcceptAck aa => learner_handle_accept_ack l aa
  | _ => Ret (l, [])
  end.

Lemma learner_handle_msg_handles {B} `{EvbufferSpec B} hole stack :
  0 ≤ hole < 2 ^ 48 → handles hole (learner_handle_msg stack) handle_message.
Proof.
  intros Hh l inp m rest Hm E. destruct (recv_msg_ok hole inp m rest Hm E) as (inp' & Hr & Ec).
  exists inp'. split; [done|]. unfold learner_handle_msg. rewrite Hr, bind_Ret. cbv beta iota.
  unfold dispatch. destruct Hm as [Hm _]. destruct m as [r|k|r|k|iid|v];
    cbn [message_code msg_code message_data Z.eqb Pos.eqb handle_message]; try done.
  by rewrite decode_accept_ack_ok.
Qed.

(** ** Delivery *)

#[export] Instance is_ack_dec m : Decision (∃ aa, m = MAcceptAck aa).
Proof. destruct m as [| | |aa| |]; (by left; exists aa) || (right; naive_solver). Defined.

Section delivery.
Context (n sz : Z) (G : accept_ack → Prop).
Hypothesis G_ok : ∀ a, G a → ack_ok n sz a.

#[local] Lemma G_wf a : G a → aa_is_final a = 0 ∧ 0 < aa_iid a.
Proof using G_ok. by intros []%G_ok. Qed.

(** [ds] are the instances from [start] on, each closed by a majority. *)
Definition delivered_from (start : Z) (ds : list delivery) : Prop :=
  d_iid <$> ds = seqZ start (Z.of_nat (length ds)) ∧
  ∀ d, d ∈ ds → ∃ v, closed_value n G (d_iid d) v ∧ d = deliver_ack v.

Lemma delivered_nil start : delivered_from start [].
Proof. split; [done|]. by intros d ?%not_elem_of_nil. Qed.

Lemma delivered_cons start v ds :
  closed_value n G start v → delivered_from (start + 1) ds →
  delivered_from start (deliver_ack v :: ds).
Proof.
  intros (Gv & Hi & HS) [Hs Hd]. split.
  - rewrite fmap_cons, Hs. cbn [length]. rewrite (seqZ_cons start) by lia. simpl. rewrite Hi.
    do 2 f_equal; lia.
  - intros d [->|?]%elem_of_cons; [|auto]. exists v. split; [|done]. simpl. by rewrite Hi.
Qed.

Lemma delivered_app start ds1 ds2 :
  delivered_from start ds1 → delivered_from (start + Z.of_nat (length ds1)) ds2 →
  delivered_from start (ds1 ++ ds2).
Proof.
  intros [Hs1 Hd1] [Hs2 Hd2]. split.
  - rewrite fmap_app, Hs1, Hs2, length_app, Nat2Z.inj_add. rewrite seqZ_app by lia. done.
  - intros d [?|?]%elem_of_app; auto.
Qed.

(** [n'] iterations are enough when the instances in the window are below [B];
then nothing that is left can be delivered. *)
Lemma deliver_loop_ok n' st w B :
  learner_inv n G st w → ca_size (l_instances st) = sz → 0 < B → (∀ i, i ∈ w → li_iid i < B) →
  l_current_iid st ≤ INT_MAX → (Z.to_nat (B - l_current_iid st) < n')%nat →
  ∃ st' w' ds, deliver_loop n' st = Ret (st', ds) ∧ learner_inv n G st' w' ∧
    ca_size (l_instances st') = sz ∧ l_late_start st' = l_late_start st ∧
    l_current_iid st' = l_current_iid st + Z.of_nat (length ds) ∧
    (ds ≠ [] → l_current_iid st' + sz ≤ INT_MAX + 1) ∧
    delivered_from (l_current_iid st) ds ∧ learner_deliver_next st' = Ret (st', None).
Proof using G_ok.
  revert st w. induction n' as [|n' IH]; intros st w I Hsz HB Hall Hcur HN; [lia|]. simpl.
  destruct (deliver_next_ok n G G_wf st w I Hcur) as (st1 & w1 & o & E & I1 & S1 & Hbd & Ho).
  destruct (Hbd B ltac:(lia) Hall) as [Hall1 Hlt]. rewrite E. simpl. destruct o as [v|].
  - destruct Ho as (Hcv & C1 & L1 & L0). specialize (Hlt ltac:(done)).
    pose proof Hcv as (Gv & Hiv & _). destruct (G_ok v Gv) as [_ _ Hroom _].
    pose proof (lv_table _ _ _ _ I) as [R _ _]. pose proof (rep_size _ _ R).
    destruct (IH st1 w1 I1) as (st2 & w2 & ds & -> & I2 & S2 & L2 & C2 & M2 & D2 & N2);
      [congruence|done|done|lia|lia|].
    simpl. exists st2, w2, (deliver_ack v :: ds). split; [done|]. split; [done|]. split; [done|].
    split; [congruence|]. split; [simpl; lia|]. split; [|split; [|done]].
    + intros _. destruct ds as [|d ds]; [simpl in C2; lia|by apply M2].
    + apply delivered_cons; [done|]. by rewrite <-C1.
  - destruct Ho as [-> _]. exists st, w1, []. do 4 (split; [done|]). split; [simpl; lia|]. split; [done|].
    split; [apply delivered_nil|done].
Qed.

Record evl_inv (l : evlearner) : Prop := {
  ei_learner : ∃ w, learner_inv n G (state l) w;
  ei_size : ca_size (l_instances (state l)) = sz;
  ei_room : l_current_iid (state l) + sz ≤ INT_MAX + 1;
  ei_idle : learner_deliver_next (state l) = Ret (state l, None);
}.

Lemma window_bound st w i :
  learner_inv n G st w → i ∈ w → li_iid i < l_current_iid st + ca_size (l_instances st).
Proof.
  intros I [k Hk]%list_elem_of_lookup. pose proof (lv_table _ _ _ _ I) as [R _ _].
  pose proof (rep_size _ _ R). pose proof (lv_cur _ _ _ _ I).
  destruct (lv_slots _ _ _ _ I (Z.of_nat k) i) as [_ _ [->|?]]; [lia|by rewrite Nat2Z.id|lia..].
Qed.

Lemma handle_accept_ack_ok l aa :
  evl_inv l → G aa →
  ∃ l' ds start, learner_handle_accept_ack l aa = Ret (l', ds) ∧ evl_inv l' ∧
    acceptors l' = acceptors l ∧ l_late_start (state l') = 0 ∧
    l_current_iid (state l') = start + Z.of_nat (length ds) ∧ delivered_from start ds ∧
    (l_late_start (state l) = 0 → start = l_current_iid (state l)).
Proof using G_ok.
  intros [[w I] Hsz Hroom Hidle] Ga. destruct (G_ok aa Ga) as [? ? ? ?].
  pose proof (lv_table _ _ _ _ I) as [R _ _]. pose proof (rep_size _ _ R).
  unfold INT_MAX in *. unfold learner_handle_accept_ack.
  destruct (receive_accept_ok n G G_wf (state l) w aa I Ga) as (st1 & w1 & -> & I1 & L1 & C1 & S1 & _);
    [unfold INT_MAX, UINT32_MOD; lia..|].
  assert (l_current_iid st1 + sz ≤ 2147483647 + 1) as Hr1 by (rewrite C1; case_Z; lia).
  pose proof (lv_cur _ _ _ _ I1). rewrite bind_Ret. unfold learner_deliver_next_closed.
  cbn [state acceptors].
  destruct (deliver_loop_ok (S (Z.to_nat (carray_size (l_instances st1)))) st1 w1
    (l_current_iid st1 + sz) I1) as (st2 & w2 & ds & -> & I2 & S2 & L2 & C2 & M2 & D2 & N2);
    [congruence|lia| |unfold INT_MAX; lia|unfold carray_size; lia|].
  { intros i Hi. rewrite <-Hsz, <-S1. by eapply window_bound. }
  simpl. eexists _, ds, (l_current_iid st1). split; [done|]. split; [|split; [done|]].
  - split; [by exists w2|done| |done]. simpl. unfold INT_MAX in *.
    destruct ds as [|d ds]; [simpl in C2; lia|by apply M2].
  - simpl. split; [congruence|]. split; [done|]. split; [done|]. intros L0. by rewrite C1, L0.
Qed.

Lemma handle_all_ok ms l :
  evl_inv l → (∀ a, MAcceptAck a ∈ ms → G a) →
  ∃ l' ds start, handle_all handle_message l ms = Ret (l', ds) ∧ evl_inv l' ∧
    delivered_from start ds ∧ acceptors l' = acceptors l ∧
    (l_late_start (state l) = 0 → start = l_current_iid (state l)).
Proof using G_ok.
  revert l. induction ms as [|m ms IH]; intros l I HG; simpl.
  { exists l, [], (l_current_iid (state l)). split; [done|]. split; [done|].
    by split; [apply delivered_nil|]. }
  assert (∀ a, MAcceptAck a ∈ ms → G a) as HG' by (intros; apply HG; by right).
  destruct (decide (∃ aa, m = MAcceptAck aa)) as [[aa ->]|Hm].
  - destruct (handle_accept_ack_ok l aa I) as (l1 & ds1 & s1 & E1 & I1 & A1 & L1 & C1 & D1 & S1).
    { apply HG. by left. }
    simpl. rewrite E1. simpl.
    destruct (IH l1 I1 HG') as (l2 & ds2 & s2 & -> & I2 & D2 & A2 & S2). simpl.
    exists l2, (ds1 ++ ds2), s1. split; [done|]. split; [done|]. split; [|split; [congruence|done]].
    apply delivered_app; [done|]. by rewrite <-C1, <-S2.
  - assert (handle_message l m = Ret (l, [])) as -> by (destruct m; naive_solver). simpl.
    destruct (IH l I HG') as (l2 & ds2 & s2 & -> & H). simpl. eauto 10.
Qed.

End delivery.

(** More acknowledgements only weaken what is known of the stored ones. *)
Section mono.
Context (n sz : Z) (G G' : accept_ack → Prop).
Hypothesis G_sub : ∀ a, G a → G' a.

Lemma evl_inv_mono l : evl_inv n sz G l → evl_inv n sz G' l.
Proof using G_sub.
  intros [[w I] ? ? ?]. split; [|done..]. exists w. by eapply learner_inv_mono.
Qed.

Lemma delivered_mono start ds : delivered_from n G start ds → delivered_from n G' start ds.
Proof using G_sub.
  intros [Hs Hd]. split; [done|]. intros d Hin.
  destruct (Hd d Hin) as (v & (Gv & Hi & S & HS & Hq & Ha) & E). exists v. split; [|done].
  split; [auto|]. split; [done|]. exists S. split; [done|]. split; [done|].
  intros a Hin'. destruct (Ha a Hin') as (k & ? & ?). eauto.
Qed.

End mono.

(** ** The highest instances seen and closed *)

Definition marks (b : Z) (st : learner) : Prop :=
  l_highest_iid_seen st ≤ b ∧ l_highest_iid_closed st ≤ b.

Lemma learner_new_marks c k st : learner_new c k = Ret st → marks INT_MAX st.
Proof. unfold learner_new. intros Hn. inv_res. split; simpl; unfold INT_MAX; lia. Qed.

Lemma get_instance_iid st iid inst :
  learner_get_instance st iid = Ret inst → li_iid inst = iid ∨ li_iid inst = 0.
Proof.
  unfold learner_get_instance. intros Hg. inv_res.
  destruct (Z.eqb_spec (li_iid inst) iid), (Z.eqb_spec (li_iid inst) 0); auto || done.
Qed.

Lemma has_quorum_iid st inst closed inst' :
  instance_has_quorum st inst = Ret (closed, inst') → li_iid inst' = li_iid inst.
Proof.
  unfold instance_has_quorum. intros Hq. destruct (li_final_value inst); inv_res; [done|].
  destruct (l_quorum st <=? _); inv_res; done.
Qed.

Lemma update_instance_marks st ack st' b :
  learner_update_instance st ack = Ret st' → marks b st → marks b st'.
Proof.
  unfold learner_update_instance. intros Hu Hm. inv_res.
  repeat (case_match; inv_res; try done).
Qed.

Lemma receive_accept_marks st ack st' b :
  learner_receive_accept st ack = Ret st' → 0 ≤ aa_iid ack ≤ b → marks b st → marks b st'.
Proof.
  intros Hr Ha Hm. unfold learner_receive_accept in Hr.
  set (l1 := if negb (l_late_start st =? 0) then _ else _) in Hr.
  assert (marks b l1) as M1 by (unfold l1; by destruct (negb _)).
  set (l2 := if l_highest_iid_seen l1 <? aa_iid ack then _ else _) in Hr.
  assert (marks b l2) as M2.
  { unfold l2. case_Z; [|done]. destruct M1. split; simpl; lia. }
  case_Z; [by inv_res|]. case_Z; [by inv_res|]. inv_res.
  pose proof (update_instance_marks _ _ _ b E M2) as M3.
  pose proof (get_instance_iid _ _ _ E0) as Hi. pose proof (has_quorum_iid _ _ _ _ E1) as Hq.
  destruct (_ && _); inv_res; [|done]. destruct M3. split; simpl; [done|lia].
Qed.

Lemma deliver_next_marks st st' o b :
  learner_deliver_next st = Ret (st', o) → marks b st → marks b st'.
Proof. unfold learner_deliver_next. intros Hd Hm. inv_res. case_match; inv_res; done. Qed.

Lemma deliver_loop_marks k st st' ds b :
  deliver_loop k st = Ret (st', ds) → marks b st → marks b st'.
Proof.
  revert st ds. induction k as [|k IH]; intros st ds Hd Hm; simpl in Hd; inv_res.
  pose proof (deliver_next_marks _ _ _ b E Hm). case_match; inv_res; [by eapply IH|done].
Qed.

Lemma handle_accept_ack_marks l aa l' ds b :
  learner_handle_accept_ack l aa = Ret (l', ds) → 0 ≤ aa_iid aa ≤ b →
  marks b (state l) → marks b (state l').
Proof.
  intros Hh Ha Hm. apply bind_inv in Hh as (st & Hr & Hh).
  apply bind_inv in Hh as ([st' ds'] & Hd & [= <- <-]).
  eapply deliver_loop_marks; [exact Hd|]. by eapply receive_accept_marks.
Qed.

Lemma evlearner_init_ok cfg c acs pcs new_bev :
  let n := Z.of_nat (length acs) in
  config_rep c acs pcs →
  1 ≤ n ≤ INT_MAX → 0 < learner_instances cfg ≤ INT_MAX →
  ∃ l, evlearner_init_conf cfg c new_bev = Ret l ∧ l_current_iid (state l) = 1 ∧
    (learner_catch_up cfg ≠ 0 → l_late_start (state l) = 0) ∧
    peers_ok (acceptors l) acs ∧ bev <$> array (acceptors l) = new_bev <$> seqZ 0 n ∧
    ∀ G, evl_inv n (learner_instances cfg) G l.
Proof.
  intros n Hc Hn Hsz. destruct (learner_new_ok cfg n (λ _, False) Hn Hsz) as (st & w & E & I & C & S & L & _).
  destruct (connect_acceptors_ok c acs pcs new_bev Hc) as (ps & Ep & Hok & Hb).
  unfold evlearner_init_conf. destruct Hc as [[-> _ _] _]. fold n. rewrite E, bind_Ret, Ep. simpl.
  eexists. split; [done|]. simpl. split; [done|]. split; [done|]. split; [done|].
  split; [done|]. intros G. split; simpl.
  - exists w. by eapply learner_inv_mono; [|exact I].
  - done.
  - rewrite C. unfold INT_MAX in *. lia.
  - destruct (deliver_next_ok n (λ _, False) ltac:(done) st w I) as (st1 & _ & o & E1 & _ & _ & _ & Ho);
      [rewrite C; unfold INT_MAX; lia|].
    destruct o as [v|]; [by destruct Ho as [[[] _] _]|by destruct Ho as [-> _]].
Qed.

(** ** Asking for missing instances *)

Lemma repeat_loop_ok k iid l addrs :
  peers_ok (acceptors l) addrs → 0 ≤ iid → iid + Z.of_nat k < UINT32_MOD →
  repeat_loop k iid l =
    Ret (i ← seqZ iid (Z.of_nat k); (λ x, (bev x, MRepeatReq i)) <$> array (acceptors l)).
Proof.
  intros Hok. revert iid. induction k as [|k IH]; intros iid H0 Hk; simpl; [done|].
  rewrite (send_peers _ addrs) by done. simpl.
  rewrite u32_small by (unfold is_u32; lia). rewrite IH by lia. simpl.
  rewrite (seqZ_cons iid) by lia. simpl. do 4 f_equal; lia.
Qed.

Lemma repeat_loop_inv k iid l out x :
  repeat_loop k iid l = Ret out → 0 < iid → iid + Z.of_nat k < UINT32_MOD → x ∈ out →
  ∃ i, x.2 = MRepeatReq i ∧ 0 < i < UINT32_MOD.
Proof.
  revert iid out. induction k as [|k IH]; intros iid out Hr H0 Hk Hx; simpl in Hr.
  { injection Hr as <-. by apply not_elem_of_nil in Hx. }
  apply bind_inv in Hr as (o1 & H1 & Hr). apply bind_inv in Hr as (o2 & H2 & [= <-]).
  rewrite u32_small in H2 by (unfold is_u32; lia).
  apply elem_of_app in Hx as [Hx|Hx]; [|eapply (IH (iid + 1)); eauto with lia].
  exists iid. split; [by eapply send_each_inv|lia].
Qed.

(** Every instance the hole timer asks for is a valid instance number. *)
Lemma check_holes_inv l out x :
  marks INT_MAX (state l) → 0 < l_current_iid (state l) → learner_check_holes l = Ret out →
  x ∈ out → ∃ i, x.2 = MRepeatReq i ∧ 0 < i < UINT32_MOD.
Proof.
  intros [Hs Hc] H0 Hr Hx. unfold learner_check_holes in Hr.
  destruct (learner_has_holes (state l)) as [[from to]|] eqn:E;
    [|injection Hr as <-; by apply not_elem_of_nil in Hx].
  assert (from = l_current_iid (state l) ∧ to < UINT32_MOD) as [-> Hto].
  { unfold learner_has_holes, UINT32_MOD, INT_MAX in *. repeat case_Z; simplify_eq; by split; try lia. }
  destruct (hole_range (l_current_iid (state l)) to) as [f t] eqn:Eh.
  assert (f = l_current_iid (state l) ∧ t < UINT32_MOD) as [-> Ht].
  { unfold hole_range, u32 in Eh. case_Z; simplify_eq; [|done]. split; [done|].
    by apply Z.mod_pos_bound. }
  destruct (Z.leb_spec t (l_current_iid (state l))) as [Hle|Hlt].
  - replace (Z.to_nat _) with 0%nat in Hr by lia. injection Hr as <-. by apply not_elem_of_nil in Hx.
  - eapply repeat_loop_inv; [exact Hr|done|lia|done].
Qed.

(** ** Properties *)

(** C18: an event-driven learner started on a configuration and given any
messages, the acknowledgements among them well formed, never faults and its
delivery loop terminates; it hands the instances to the callback in order and
without gaps, from instance 1 on when catch-up is on, each value acknowledged
by a majority in its instance and ballot, with the proposer of that ballot;
and after the last message nothing that could be delivered is left. *)
Theorem evlearner_delivers_in_order cfg c acs pcs new_bev ms :
  let n := Z.of_nat (length acs) in
  config_rep c acs pcs →
  1 ≤ n ≤ INT_MAX → 0 < learner_instances cfg ≤ INT_MAX →
  (∀ a, MAcceptAck a ∈ ms → ack_ok n (learner_instances cfg) a) →
  ∃ l0 l ds start, evlearner_init_conf cfg c new_bev = Ret l0 ∧
    handle_all handle_message l0 ms = Ret (l, ds) ∧
    (learner_catch_up cfg ≠ 0 → start = 1) ∧
    d_iid <$> ds = seqZ start (Z.of_nat (length ds)) ∧
    (∀ d, d ∈ ds → ∃ v, closed_value n (λ a, MAcceptAck a ∈ ms) (d_iid d) v ∧ d = deliver_ack v) ∧
    learner_deliver_next (state l) = Ret (state l, None).
Proof.
  intros n Hc Hn Hsz Hms. destruct (evlearner_init_ok cfg c acs pcs new_bev Hc Hn Hsz) as (l0 & E & C & L & _ & _ & I).
  destruct (handle_all_ok n (learner_instances cfg) (λ a, MAcceptAck a ∈ ms) Hms ms l0)
    as (l & ds & start & Ed & [_ _ _ Hidle] & [Hseq Hcl] & _ & Hst); [apply I|done|].
  exists l0, l, ds, start. split; [done|]. split; [done|]. split; [|done].
  intros Hcu. rewrite <-C. auto.
Qed.

(** The hole timer asks every acceptor, in order, for the missing
instances: those from the next one to deliver up to the highest one seen, if
that one is beyond the window, or up to the highest closed one otherwise, at
most [chunks] of them; and nothing when none is missing. *)
Theorem check_holes_requests l addrs :
  let cur := l_current_iid (state l) in
  let room := cur + carray_count (l_instances (state l)) in
  let seen := l_highest_iid_seen (state l) in
  let target := if room <? seen then seen else l_highest_iid_closed (state l) in
  peers_ok (acceptors l) addrs → 0 ≤ cur → 0 ≤ carray_count (l_instances (state l)) →
  room < UINT32_MOD → cur + chunks < UINT32_MOD → seen < UINT32_MOD →
  l_highest_iid_closed (state l) < UINT32_MOD →
  learner_check_holes l =
    Ret (iid ← seqZ cur (Z.min chunks (target - cur));
         (λ x, (bev x, MRepeatReq iid)) <$> array (acceptors l)).
Proof.
  intros cur room seen target Hok H0 Hc Hr Hch Hs Hcl. unfold learner_check_holes, learner_has_holes.
  rewrite u32_small by (unfold is_u32; lia). fold cur room seen.
  assert (∀ to, cur < to < UINT32_MOD →
    (let '(from, to) := hole_range cur to in repeat_loop (Z.to_nat (to - from)) from l) =
    Ret (iid ← seqZ cur (Z.min chunks (to - cur));
         (λ x, (bev x, MRepeatReq iid)) <$> array (acceptors l))) as Hrange.
  { intros to Hto. unfold hole_range, chunks in *. rewrite !u32_small by (unfold is_u32; lia).
    case_Z; rewrite (repeat_loop_ok _ _ _ addrs) by (done || lia); do 3 f_equal; lia. }
  unfold target. destruct (Z.ltb_spec room seen); [apply Hrange; lia|].
  case_Z; [apply Hrange; lia|]. by rewrite seqZ_nil by lia.
Qed.

Definition demo_addrs : list address := [Address "a" 1; Address "b" 2; Address "c" 3].
Definition demo_conf : config :=
  Config 0 3 (replicate (Z.to_nat MAX_ADDR) no_address) (demo_addrs ++ replicate 7 no_address).
Definition demo_bev (i : Z) : bufferevent := 4 + i.

Lemma demo_conf_rep : config_rep demo_conf demo_addrs [].
Proof. by split. Qed.

Definition demo_acks : list message :=
  [MAcceptAck (AcceptAck 1 2 103 103 0 [x41]); MAcceptAck (AcceptAck 2 2 103 103 0 [x41])].

Lemma evlearner_delivers_in_order_witness :
  let ms := demo_acks ++ [MSubmit []; MAcceptAck (AcceptAck 0 1 12 12 0 [x42]);
                          MAcceptAck (AcceptAck 2 1 12 12 0 [x42])] in
  ∃ l0 l ds start, evlearner_init_conf cfg4 demo_conf demo_bev = Ret l0 ∧
    handle_all handle_message l0 ms = Ret (l, ds) ∧
    (learner_catch_up cfg4 ≠ 0 → start = 1) ∧
    d_iid <$> ds = seqZ start (Z.of_nat (length ds)) ∧
    (∀ d, d ∈ ds → ∃ v, closed_value 3 (λ a, MAcceptAck a ∈ ms) (d_iid d) v ∧ d = deliver_ack v) ∧
    learner_deliver_next (state l) = Ret (state l, None).
Proof.
  intros ms. apply (evlearner_delivers_in_order cfg4 demo_conf demo_addrs [] demo_bev ms);
    [exact demo_conf_rep|split; vm_compute; congruence..|].
  intros a Ha. unfold ms, demo_acks in Ha. simpl in Ha. repeat (apply elem_of_cons in Ha as [Ha|Ha];
    [try discriminate Ha; injection Ha as ->; split; vm_compute; intuition congruence|]).
  by apply not_elem_of_nil in Ha.
Defined.

(** A learner that holds instance 2 and misses instance 1. *)
Definition demo_holes : evlearner :=
  let l0 := from_ret (EvLearner (Learner 0 0 0 0 0 0 (Carray 0 0 0 0 [])) peers_new)
    (evlearner_init_conf cfg4 demo_conf demo_bev) in
  (from_ret (l0, []) (handle_all handle_message l0 demo_acks)).1.

Lemma check_holes_requests_witness :
  learner_check_holes demo_holes = Ret [(4, MRepeatReq 1); (5, MRepeatReq 1); (6, MRepeatReq 1)].
Proof.
  rewrite (check_holes_requests demo_holes [Address "a" 1; Address "b" 2; Address "c" 3]).
  - vm_compute. reflexivity.
  - split; [vm_compute; reflexivity..|]. repeat (apply Forall_cons_2; [left; vm_compute; reflexivity|]).
    apply Forall_nil_2.
  - vm_compute. congruence.
  - vm_compute. congruence.
  - vm_compute. reflexivity.
  - vm_compute. reflexivity.
  - vm_compute. reflexivity.
  - vm_compute. reflexivity.
Defined.
