(* ===== verification/StorageBdb.v ===== *)
(** * Berkeley DB storage (src/paxos/storage_bdb.c)

Records are kept in a Berkeley DB file, under the 4 bytes of the instance id,
as the bytes of the [acceptor_record] structure.  The storage owns one buffer
of [PAXOS_MAX_VALUE_SIZE] bytes, through which every record passes; a pointer
to a record is a pointer to that buffer, so [rec_ptr] is [unit] and NULL is
[None].

Berkeley DB and the file system are not part of the sources.  [Bdb] lists the
calls that are made, over a state [W] of the outside world, with their return
codes; [BdbSpec] is their documented behaviour: what a call does when it
returns 0 (or [DB_NOTFOUND]), and that the calls that set things up leave the
stored data alone.  Nothing is promised about failing calls, but [BdbReads]
names the assumption that reading does not fail. *)

From stdpp Require Import pretty strings sorting.
From S2P Require Import Prelude Messages Wire Storage.
#[local] Open Scope Z_scope.

(** Return codes of db.h. *)
Definition DB_NOTFOUND : Z := -30988.
Definition DB_KEYEMPTY : Z := -30995.
Definition DB_BUFFER_SMALL : Z := -30999.

(** ** The library *)

Class Bdb (W : Type) : Type := {
  db_env : Type;
  db : Type;
  db_txn : Type;
  dbc : Type;
  (** [stat(path) == 0], [mkdir], [system] *)
  stat : W → string → Z;
  mkdir : W → string → W * Z;
  system : W → string → W * Z;
  db_env_create : W → W * Z * db_env;
  env_set_nosync : W → db_env → W * Z;
  env_set_cachesize : W → db_env → Z → W * Z;
  env_open : W → db_env → string → W * Z;
  env_close : W → db_env → W * Z;
  db_create : W → option db_env → W * Z * db;
  db_open : W → db → option db_txn → string → W * Z;
  db_close : W → db → W * Z;
  txn_begin : W → db_env → W * Z * db_txn;
  txn_commit : W → db_txn → W * Z;
  (** key, [ulen] of the user's buffer; the data to copy there *)
  db_get : W → db → option db_txn → bytes → Z → W * Z * bytes;
  db_put : W → db → option db_txn → bytes → bytes → W * Z;
  db_cursor : W → db → W * Z * dbc;
  (** [c_get] with [DB_NEXT]: key and data *)
  c_get : W → dbc → W * Z * bytes * bytes;
  c_close : W → dbc → W * Z;
}.

(** ** The storage *)

Section storage.
Context {W : Type} `{Bdb W}.

(** [struct storage], with the world it acts on. *)
Record storage_bdb : Type := StorageBdb {
  bs_world : W;
  bs_db : option db;
  bs_env : option db_env;
  bs_txn : option db_txn;
  bs_acceptor_id : Z;
  bs_record_buf : bytes;
}.

Definition set_world (w : W) (s : storage_bdb) : storage_bdb :=
  StorageBdb w (bs_db s) (bs_env s) (bs_txn s) (bs_acceptor_id s) (bs_record_buf s).
Definition set_buf (buf : bytes) (s : storage_bdb) : storage_bdb :=
  StorageBdb (bs_world s) (bs_db s) (bs_env s) (bs_txn s) (bs_acceptor_id s) buf.
Definition set_env (e : db_env) (s : storage_bdb) : storage_bdb :=
  StorageBdb (bs_world s) (bs_db s) (Some e) (bs_txn s) (bs_acceptor_id s) (bs_record_buf s).
Definition set_db (d : db) (s : storage_bdb) : storage_bdb :=
  StorageBdb (bs_world s) (Some d) (bs_env s) (bs_txn s) (bs_acceptor_id s) (bs_record_buf s).
Definition set_txn (t : db_txn) (s : storage_bdb) : storage_bdb :=
  StorageBdb (bs_world s) (bs_db s) (bs_env s) (Some t) (bs_acceptor_id s) (bs_record_buf s).

Definition bdb_tx_begin (s : storage_bdb) : res storage_bdb :=
  env ← deref (bs_env s);
  let '(w, result, txn) := txn_begin (bs_world s) env in
  assert_that (result =? 0) ;;
  Ret (set_txn txn (set_world w s)).

Definition bdb_tx_commit (s : storage_bdb) : res storage_bdb :=
  txn ← deref (bs_txn s);
  let '(w, result) := txn_commit (bs_world s) txn in
  assert_that (result =? 0) ;;
  Ret (set_world w s).

Definition bdb_init_tx_handle (cfg : paxos_config) (s : storage_bdb) (db_env_path : string)
    : storage_bdb * Z :=
  let '(w, result, dbenv) := db_env_create (bs_world s) in
  if negb (result =? 0) then (set_world w s, -1) else
  let '(w, result) := if bdb_sync cfg =? 0 then env_set_nosync w dbenv else (w, result) in
  if negb (result =? 0) then (set_world w s, -1) else
  let '(w, result) := env_set_cachesize w dbenv (bdb_cachesize cfg) in
  if negb (result =? 0) then (set_world w s, -1) else
  let '(w, result) := env_open w dbenv db_env_path in
  if negb (result =? 0) then (set_world w s, -1) else
  (set_env dbenv (set_world w s), 0).

Definition bdb_init_db (s : storage_bdb) (db_path : string) : res (storage_bdb * Z) :=
  let '(w, result, dbp) := db_create (bs_world s) (bs_env s) in
  if negb (result =? 0) then Ret (set_world w s, -1) else
  s ← bdb_tx_begin (set_db dbp (set_world w s));
  let '(w, result) := db_open (bs_world s) dbp (bs_txn s) db_path in
  s ← bdb_tx_commit (set_world w s);
  if negb (result =? 0) then Ret (s, -1) else Ret (s, 0).

(** [asprintf("%s_%d")] *)
Definition env_path (cfg : paxos_config) (acceptor_id : Z) : string :=
  bdb_env_path cfg +:+ "_" +:+ pretty acceptor_id.

Definition rm_command (path : string) : string := "rm -r " +:+ path.

(** The attempt to start from an empty directory; its failure is only logged.
The command is written to an array of 600 characters. *)
Definition trash_files (w : W) (path : string) : res W :=
  if 600 <=? Z.of_nat (String.length (rm_command path)) then Fault OutOfBounds else
  let '(w, rv) := system w (rm_command path) in
  if negb (rv =? 0) then Ret w else Ret (mkdir w path).1.

(** The opened storage, or NULL and the world as it is then. *)
Definition storage_bdb_open (cfg : paxos_config) (w : W) (acceptor_id : Z)
    : res (storage_bdb + W) :=
  let db_env_path := env_path cfg acceptor_id in
  let dir_exists := stat w db_env_path =? 0 in
  let '(w, made) := if dir_exists then (w, 0) else mkdir w db_env_path in
  if negb dir_exists && negb (made =? 0) then Ret (inr w) else
  w ← (if negb (bdb_trash_files cfg =? 0) && dir_exists then trash_files w db_env_path else Ret w);
  let s := StorageBdb w None None None acceptor_id
             (replicate (Z.to_nat PAXOS_MAX_VALUE_SIZE) x00) in
  let '(s, _) := bdb_init_tx_handle cfg s db_env_path in
  '(s, ret) ← bdb_init_db s (bdb_db_filename cfg);
  if negb (ret =? 0) then Ret (inr (bs_world s)) else Ret (inl s).

Definition storage_bdb_close (s : storage_bdb) : res (W * Z) :=
  dbp ← deref (bs_db s);
  dbenv ← deref (bs_env s);
  let '(w, r1) := db_close (bs_world s) dbp in
  let '(w, r2) := env_close w dbenv in
  Ret (w, if negb (r1 =? 0) || negb (r2 =? 0) then -1 else 0).

(** *** Records *)

(** A store of [bs] at offset [off] of the buffer. *)
Definition store_at (off : nat) (bs buf : bytes) : res bytes :=
  if (off + length bs <=? length buf)%nat
  then Ret (take off buf ++ bs ++ drop (off + length bs) buf) else Fault OutOfBounds.

(** The fields of an [acceptor_record], by their offsets. *)
Definition set_acceptor_id (z : Z) : bytes → res bytes := store_at 0 (le_bytes 4 (u32 z)).
Definition set_iid (z : Z) : bytes → res bytes := store_at 4 (le_bytes 4 z).
Definition set_ballot (z : Z) : bytes → res bytes := store_at 8 (le_bytes 4 z).
Definition set_value_ballot (z : Z) : bytes → res bytes := store_at 12 (le_bytes 4 z).
Definition set_is_final (z : Z) : bytes → res bytes := store_at 16 (le_bytes 2 (z mod 65536)).
Definition set_value_size (z : Z) : bytes → res bytes := store_at 24 (le_bytes 8 z).
Definition set_value (v : bytes) : bytes → res bytes := store_at 32 v.

Definition get_iid (buf : bytes) : Z := le_val (take 4 (drop 4 buf)).
Definition get_value_size (buf : bytes) : Z := le_val (take 8 (drop 24 buf)).

Definition bdb_load (s : storage_bdb) (_ : unit) : res acceptor_record :=
  decode_accept_ack (bs_record_buf s).

(** What [put] is given: the 32-bit [dbdata.size] of [ACCEPT_ACK_SIZE]. *)
Definition record_bytes (buf : bytes) : res bytes :=
  tail_bytes (u32 (get_value_size buf + sizeof_accept_ack)) buf.

Definition bdb_put (s : storage_bdb) (iid : Z) : res (storage_bdb * unit) :=
  dbp ← deref (bs_db s);
  data ← record_bytes (bs_record_buf s);
  let '(w, result) := db_put (bs_world s) dbp (bs_txn s) (le_bytes 4 iid) data in
  assert_that (result =? 0) ;;
  Ret (set_world w s, ()).

Definition bdb_get_record (s : storage_bdb) (iid : Z) : res (storage_bdb * option unit) :=
  dbp ← deref (bs_db s);
  let '(w, result, data) := db_get (bs_world s) dbp (bs_txn s) (le_bytes 4 iid) PAXOS_MAX_VALUE_SIZE in
  if (result =? DB_NOTFOUND) || (result =? DB_KEYEMPTY) then Ret (set_world w s, None)
  else if negb (result =? 0) then Ret (set_world w s, None)
  else
    buf ← store_at 0 data (bs_record_buf s);
    assert_that (iid =? get_iid buf) ;;
    Ret (set_buf buf (set_world w s), Some ()).

Definition bdb_save_accept (s : storage_bdb) (ar : accept_req) : res (storage_bdb * unit) :=
  buf ← set_acceptor_id (bs_acceptor_id s) (bs_record_buf s);
  buf ← set_iid (ar_iid ar) buf;
  buf ← set_ballot (ar_ballot ar) buf;
  buf ← set_value_ballot (ar_ballot ar) buf;
  buf ← set_is_final 0 buf;
  buf ← set_value_size (value_size (ar_value ar)) buf;
  buf ← set_value (ar_value ar) buf;
  bdb_put (set_buf buf s) (ar_iid ar).

Definition bdb_save_prepare (s : storage_bdb) (pr : prepare_req) (rec : option unit)
    : res (storage_bdb * unit) :=
  buf ← match rec with
        | None =>
            buf ← set_acceptor_id (bs_acceptor_id s) (bs_record_buf s);
            buf ← set_iid (pr_iid pr) buf;
            buf ← set_ballot (pr_ballot pr) buf;
            buf ← set_value_ballot 0 buf;
            buf ← set_is_final 0 buf;
            set_value_size 0 buf
        | Some _ => set_ballot (pr_ballot pr) (bs_record_buf s)
        end;
  bdb_put (set_buf buf s) (pr_iid pr).

Definition bdb_save_final_value (s : storage_bdb) (value : bytes) (iid b : Z)
    : res (storage_bdb * unit) :=
  buf ← set_iid iid (bs_record_buf s);
  buf ← set_ballot b buf;
  buf ← set_value_ballot b buf;
  buf ← set_is_final 1 buf;
  buf ← set_value_size (value_size value) buf;
  buf ← set_value value buf;
  bdb_put (set_buf buf s) iid.

(** The walk of [storage_get_max_iid], at most [fuel] records: the last key and
the code that ended it. *)
Fixpoint max_iid_loop (fuel : nat) (w : W) (c : dbc) (max_iid : Z) : res (W * Z * Z) :=
  match fuel with
  | O => Fault StackOverflow
  | S fuel' =>
      let '(w, ret, key, _) := c_get w c in
      if ret =? 0 then '(iid, _) ← field 4 key; max_iid_loop fuel' w c iid
      else Ret (w, ret, max_iid)
  end.

Definition bdb_get_max_iid (fuel : nat) (s : storage_bdb) : res (storage_bdb * Z) :=
  dbp ← deref (bs_db s);
  let '(w, ret, dbcp) := db_cursor (bs_world s) dbp in
  if negb (ret =? 0) then Ret (set_world w s, 1) else
  '(w, ret, max_iid) ← max_iid_loop fuel w dbcp 0;
  if negb (ret =? DB_NOTFOUND) then Ret (set_world w s, 0) else
  Ret (set_world (c_close w dbcp).1 s, max_iid).

End storage.
Arguments storage_bdb W {_}.

#[export] Instance bdb_storage {W} `{Bdb W} : Storage (storage_bdb W) := {|
  rec_ptr := unit;
  rec_load := bdb_load;
  storage_tx_begin := bdb_tx_begin;
  storage_tx_commit := bdb_tx_commit;
  storage_get_record := bdb_get_record;
  storage_save_accept := bdb_save_accept;
  storage_save_prepare := bdb_save_prepare;
|}.

(** ** Documented behaviour of the library *)

(** Byte order, the default order of a B-tree. *)
Fixpoint lex_le (k1 k2 : bytes) : Prop :=
  match k1, k2 with
  | [], _ => True
  | _ :: _, [] => False
  | b1 :: k1', b2 :: k2' => byte_val b1 < byte_val b2 ∨ (b1 = b2 ∧ lex_le k1' k2')
  end.

(** What the world holds: the data in the file [f] of the environment in the
directory [dir], the directory an environment was opened in, the environment of
a database handle, and the file it was opened on. *)
Class BdbState (W : Type) `{Bdb W} : Type := {
  contents : W → string → string → bytes → option bytes;
  env_home : W → db_env → option string;
  db_owner : W → db → option db_env;
  db_file : W → db → option (string * string);
  (** what a cursor has still to return *)
  cursor_rest : W → dbc → list (bytes * bytes);
}.

Section spec.
Context {W : Type} `{BdbState W}.

Definition same_data (w w' : W) : Prop :=
  ∀ dir f k, contents w' dir f k = contents w dir f k.

Record keeps (w w' : W) : Prop := {
  kp_data : same_data w w';
  kp_home : ∀ e, env_home w' e = env_home w e;
  kp_owner : ∀ d, db_owner w' d = db_owner w d;
  kp_file : ∀ d, db_file w' d = db_file w d;
}.

#[global] Instance keeps_po : PreOrder keeps.
Proof.
  split; [by split|]. intros w1 w2 w3 [a1 b1 c1 d1] [a2 b2 c2 d2]. split; unfold same_data in *; congruence.
Qed.

(** The data an open handle reads and writes. *)
Definition reads (w : W) (d : db) (k : bytes) : option bytes :=
  match db_file w d with Some (dir, f) => contents w dir f k | None => None end.

Lemma keeps_reads w w' d k : keeps w w' → reads w' d k = reads w d k.
Proof. intros [a _ _ b]. unfold reads. rewrite b. destruct (db_file w d) as [[]|]; [apply a|done]. Qed.

End spec.

Class BdbSpec (W : Type) `{BdbState W} : Type := {
  stat_spec w dir f k : stat w dir ≠ 0 → contents w dir f k = None;
  mkdir_spec w dir w' r : mkdir w dir = (w', r) → same_data w w';
  rm_spec w dir w' : system w (rm_command dir) = (w', 0) → ∀ f k, contents w' dir f k = None;
  env_create_spec w w' r e : db_env_create w = (w', r, e) → same_data w w';
  set_nosync_spec w e w' r : env_set_nosync w e = (w', r) → same_data w w';
  set_cachesize_spec w e n w' r : env_set_cachesize w e n = (w', r) → same_data w w';
  env_open_spec w e dir w' :
    env_open w e dir = (w', 0) → same_data w w' ∧ env_home w' e = Some dir;
  db_create_spec w e w' d :
    db_create w (Some e) = (w', 0, d) →
    same_data w w' ∧ env_home w' e = env_home w e ∧ db_owner w' d = Some e;
  db_open_spec w d t f w' e dir :
    db_open w d t f = (w', 0) → db_owner w d = Some e → env_home w e = Some dir →
    same_data w w' ∧ db_file w' d = Some (dir, f);
  db_close_spec w d w' r : db_close w d = (w', r) → same_data w w';
  env_close_spec w e w' r : env_close w e = (w', r) → same_data w w';
  txn_begin_spec w e w' t : txn_begin w e = (w', 0, t) → keeps w w';
  txn_commit_spec w t w' : txn_commit w t = (w', 0) → keeps w w';
  db_get_spec w d t k ulen w' r data :
    db_get w d t k ulen = (w', r, data) → is_Some (db_file w d) →
    keeps w w' ∧
    (r = 0 → reads w d k = Some data ∧ Z.of_nat (length data) ≤ ulen) ∧
    (r = DB_NOTFOUND ∨ r = DB_KEYEMPTY → reads w d k = None) ∧
    (r = DB_BUFFER_SMALL → ∃ x, reads w d k = Some x ∧ ulen < Z.of_nat (length x));
  db_put_spec w d t k data w' dir f :
    db_put w d t k data = (w', 0) → db_file w d = Some (dir, f) →
    (∀ d', db_file w' d' = db_file w d') ∧
    (∀ k', reads w' d k' = if decide (k' = k) then Some data else reads w d k');
  cursor_spec w d w' c :
    db_cursor w d = (w', 0, c) → is_Some (db_file w d) →
    (∀ k x, (k, x) ∈ cursor_rest w' c ↔ reads w d k = Some x) ∧
    StronglySorted lex_le (cursor_rest w' c).*1;
  c_get_spec w c w' r k x :
    c_get w c = (w', r, k, x) →
    (r = 0 → cursor_rest w c = (k, x) :: cursor_rest w' c) ∧
    (r = DB_NOTFOUND → cursor_rest w c = []);
}.

(** Reading an open database does not fail. *)
Class BdbReads (W : Type) `{BdbState W} : Prop := {
  get_no_error w d t k ulen w' r data :
    db_get w d t k ulen = (w', r, data) → is_Some (db_file w d) →
    r = 0 ∨ r = DB_NOTFOUND ∨ r = DB_BUFFER_SMALL;
  cursor_no_error w d w' r c :
    db_cursor w d = (w', r, c) → is_Some (db_file w d) → r = 0;
  walk_no_error w c w' r k x : c_get w c = (w', r, k, x) → r = 0 ∨ r = DB_NOTFOUND;
}.

(** ** The record buffer *)

Lemma store_here (b bs post : bytes) :
  length bs = length b → store_at 0 bs (b ++ post) = Ret (bs ++ post).
Proof.
  intros Hl. unfold store_at. rewrite length_app. simpl. rewrite Hl.
  destruct (Nat.leb_spec (length b) (length b + length post)); [|lia]. by rewrite drop_app_length.
Qed.

Lemma store_skip (a bs buf : bytes) off :
  (length a ≤ off)%nat →
  store_at off bs (a ++ buf) = (x ← store_at (off - length a) bs buf; Ret (a ++ x)).
Proof.
  intros Hl. unfold store_at. rewrite length_app.
  destruct (Nat.leb_spec (off + length bs) (length a + length buf)),
    (Nat.leb_spec (off - length a + length bs) (length buf)); try lia; [|done].
  simpl. rewrite take_app_ge, drop_app_ge, <-app_assoc by lia.
  by replace (off + length bs - length a)%nat with (off - length a + length bs)%nat by lia.
Qed.

Lemma store_past off (bs buf : bytes) : (length buf < off + length bs)%nat → store_at off bs buf = Fault OutOfBounds.
Proof. intros Hl. unfold store_at. destruct (Nat.leb_spec (off + length bs) (length buf)); [lia|done]. Qed.

Lemma store_length off (bs buf buf' : bytes) : store_at off bs buf = Ret buf' → length buf' = length buf.
Proof.
  unfold store_at. destruct (Nat.leb_spec (off + length bs) (length buf)); [|done].
  intros [= <-]. rewrite !length_app, length_take, length_drop. lia.
Qed.

(** Splitting off the first [k] bytes. *)
Lemma split_bytes k (buf : bytes) : (k ≤ length buf)%nat → ∃ b rest, buf = b ++ rest ∧ length b = k.
Proof.
  intros Hk. exists (take k buf), (drop k buf). rewrite take_drop, length_take. split; [done|lia].
Qed.

(** The fields of the structure at the start of a buffer. *)
Lemma record_fields (buf : bytes) :
  (32 ≤ length buf)%nat →
  ∃ b0 b1 b2 b3 b4 b5 b6 rest, buf = b0 ++ b1 ++ b2 ++ b3 ++ b4 ++ b5 ++ b6 ++ rest ∧
    length b0 = 4%nat ∧ length b1 = 4%nat ∧ length b2 = 4%nat ∧ length b3 = 4%nat ∧
    length b4 = 2%nat ∧ length b5 = 6%nat ∧ length b6 = 8%nat.
Proof.
  intros Hl. destruct (split_bytes 4 buf) as (b0 & r0 & -> & H0); [lia|]. rewrite length_app in Hl.
  destruct (split_bytes 4 r0) as (b1 & r1 & -> & H1); [lia|]. rewrite length_app in Hl.
  destruct (split_bytes 4 r1) as (b2 & r2 & -> & H2); [lia|]. rewrite length_app in Hl.
  destruct (split_bytes 4 r2) as (b3 & r3 & -> & H3); [lia|]. rewrite length_app in Hl.
  destruct (split_bytes 2 r3) as (b4 & r4 & -> & H4); [lia|]. rewrite length_app in Hl.
  destruct (split_bytes 6 r4) as (b5 & r5 & -> & H5); [lia|]. rewrite length_app in Hl.
  destruct (split_bytes 8 r5) as (b6 & r6 & -> & H6); [lia|].
  exists b0, b1, b2, b3, b4, b5, b6, r6. done.
Qed.

Lemma byte_val_range b : 0 ≤ byte_val b < 256.
Proof. unfold byte_val. pose proof (Byte.to_N_bounded b). lia. Qed.

Lemma byte_of_val b z : z mod 256 = byte_val b → byte_of z = b.
Proof.
  intros E. unfold byte_of. rewrite E. unfold byte_val. by rewrite N2Z.id, Byte.of_to_N.
Qed.

Lemma le_val_range bs : 0 ≤ le_val bs < 256 ^ Z.of_nat (length bs).
Proof.
  induction bs as [|b bs IH]; [simpl; lia|]. cbn [le_val length].
  rewrite Nat2Z.inj_succ, Z.pow_succ_r by lia. pose proof (byte_val_range b). lia.
Qed.

Lemma le_bytes_val bs : le_bytes (length bs) (le_val bs) = bs.
Proof.
  induction bs as [|b bs IH]; [done|]. cbn [le_val length le_bytes]. pose proof (byte_val_range b).
  rewrite (Z.mul_comm 256). f_equal.
  - apply byte_of_val. rewrite Z.mod_add by lia. by apply Z.mod_small.
  - rewrite Z.div_add by lia. by rewrite Z.div_small, Z.add_0_l by done.
Qed.

(** The buffer holds [r], with [rest] behind it. *)
Definition holds (buf : bytes) (r : acceptor_record) : Prop :=
  length buf = Z.to_nat PAXOS_MAX_VALUE_SIZE ∧
  message_wf (MAcceptAck r) ∧
  ∃ hole rest, 0 ≤ hole < 2 ^ 48 ∧ buf = accept_ack_bytes hole r ++ rest.

(** The writes of [storage_save_accept] and [storage_save_prepare]. *)
Definition write_record (aid iid b vb : Z) (value : bytes) (buf : bytes) : res bytes :=
  buf ← set_acceptor_id aid buf;
  buf ← set_iid iid buf;
  buf ← set_ballot b buf;
  buf ← set_value_ballot vb buf;
  buf ← set_is_final 0 buf;
  buf ← set_value_size (value_size value) buf;
  set_value value buf.

(** Evaluates a store at a known offset of a sequence of known fields. *)
Ltac store_field :=
  repeat (rewrite store_skip by (rewrite ?length_le_bytes; lia); rewrite ?length_le_bytes;
    repeat match goal with E : length ?b = _ |- context [length ?b] => rewrite E end; cbn [Nat.sub]);
  rewrite store_here by (rewrite ?length_le_bytes; lia); repeat (rewrite bind_Ret; cbv beta).

Lemma write_record_ok aid iid b vb value buf :
  length buf = Z.to_nat PAXOS_MAX_VALUE_SIZE →
  message_wf (MAcceptAck (AcceptAck aid iid b vb 0 value)) →
  value_size value + sizeof_accept_ack ≤ PAXOS_MAX_VALUE_SIZE →
  ∃ buf', write_record aid iid b vb value buf = Ret buf' ∧ holds buf' (AcceptAck aid iid b vb 0 value).
Proof.
  intros Hlen Hwf Hv. unfold PAXOS_MAX_VALUE_SIZE, sizeof_accept_ack, value_size in *.
  destruct (record_fields buf) as (b0 & b1 & b2 & b3 & b4 & b5 & b6 & r & -> & H0 & H1 & H2 & H3 & H4 & H5 & H6);
    [lia|].
  rewrite !length_app in Hlen.
  destruct (split_bytes (length value) r) as (v0 & rest & -> & Hv0); [lia|].
  unfold write_record, set_acceptor_id, set_iid, set_ballot, set_value_ballot, set_is_final,
    set_value_size, set_value, value_size.
  do 7 store_field. eexists. split; [done|]. rewrite length_app in Hlen. split; [|split; [done|]].
  - rewrite !length_app, !length_le_bytes. unfold PAXOS_MAX_VALUE_SIZE. lia.
  - exists (le_val b5), rest. pose proof (le_val_range b5) as Hr. rewrite H5 in Hr. split; [lia|].
    unfold accept_ack_bytes, value_size. rewrite <-!app_assoc.
    cbn [aa_acceptor_id aa_iid aa_ballot aa_value_ballot aa_is_final aa_value].
    assert (le_bytes 6 (le_val b5) = b5) as -> by (by rewrite <-H5, le_bytes_val). done.
Qed.

Lemma write_record_fits aid iid b vb value buf buf' :
  length buf = Z.to_nat PAXOS_MAX_VALUE_SIZE → write_record aid iid b vb value buf = Ret buf' →
  value_size value + sizeof_accept_ack ≤ PAXOS_MAX_VALUE_SIZE.
Proof.
  intros Hlen Hw. unfold write_record in Hw. inv_res.
  unfold set_acceptor_id, set_iid, set_ballot, set_value_ballot, set_is_final, set_value_size, set_value in *.
  repeat match goal with E : store_at _ _ _ = Ret _ |- _ =>
    let L := fresh "L" in pose proof (store_length _ _ _ _ E) as L; revert L E end. intros.
  destruct (decide (value_size value + sizeof_accept_ack ≤ PAXOS_MAX_VALUE_SIZE)) as [|Hn]; [done|].
  exfalso. unfold value_size, sizeof_accept_ack, PAXOS_MAX_VALUE_SIZE in *.
  match goal with E : store_at 32 _ _ = Ret _ |- _ => rewrite store_past in E by lia end. done.
Qed.

Lemma write_record_past aid iid b vb value buf :
  length buf = Z.to_nat PAXOS_MAX_VALUE_SIZE →
  PAXOS_MAX_VALUE_SIZE < value_size value + sizeof_accept_ack →
  write_record aid iid b vb value buf = Fault OutOfBounds.
Proof.
  intros Hlen Hv. unfold PAXOS_MAX_VALUE_SIZE, sizeof_accept_ack, value_size in *.
  destruct (record_fields buf) as (b0 & b1 & b2 & b3 & b4 & b5 & b6 & r & -> & H0 & H1 & H2 & H3 & H4 & H5 & H6);
    [lia|].
  rewrite !length_app in Hlen.
  unfold write_record, set_acceptor_id, set_iid, set_ballot, set_value_ballot, set_is_final,
    set_value_size, set_value, value_size.
  do 6 store_field. apply store_past. rewrite !length_app, !length_le_bytes. lia.
Qed.

Lemma accept_ack_bytes_length hole r :
  Z.of_nat (length (accept_ack_bytes hole r)) = ACCEPT_ACK_SIZE r.
Proof.
  unfold accept_ack_bytes, ACCEPT_ACK_SIZE, value_size, sizeof_accept_ack.
  rewrite !length_app, !length_le_bytes. lia.
Qed.

Lemma take_field k (b rest : bytes) : length b = k → take k (b ++ rest) = b.
Proof. intros <-. apply take_app_length. Qed.

Lemma drop_field k j (b rest : bytes) : length b = k → drop (k + j) (b ++ rest) = drop j rest.
Proof. intros <-. rewrite drop_app_ge by lia. f_equal. lia. Qed.

Section holds.
Context (buf : bytes) (r : acceptor_record).
Hypothesis Hb : holds buf r.

Lemma holds_load : decode_accept_ack buf = Ret r.
Proof using Hb. destruct Hb as (_ & Hwf & hole & rest & Hh & ->). by apply decode_accept_ack_ok. Qed.

Lemma holds_size : ACCEPT_ACK_SIZE r ≤ PAXOS_MAX_VALUE_SIZE.
Proof using Hb.
  destruct Hb as (Hl & _ & hole & rest & _ & ->). rewrite length_app in Hl.
  rewrite <-(accept_ack_bytes_length hole). unfold PAXOS_MAX_VALUE_SIZE in *. lia.
Qed.

Lemma holds_iid : get_iid buf = aa_iid r.
Proof using Hb.
  destruct Hb as (_ & (_ & Hi & _) & hole & rest & _ & ->). unfold get_iid, accept_ack_bytes.
  rewrite <-!app_assoc, (drop_field 4 0), drop_0, take_field by (by rewrite length_le_bytes).
  by apply le_val_bytes.
Qed.

Lemma holds_value_size : get_value_size buf = value_size (aa_value r).
Proof using Hb.
  destruct Hb as (_ & (_ & _ & _ & _ & _ & Hv) & hole & rest & _ & ->).
  unfold get_value_size, accept_ack_bytes. rewrite <-!app_assoc.
  rewrite (drop_field 4 20), (drop_field 4 16), (drop_field 4 12), (drop_field 4 8), (drop_field 2 6),
    (drop_field 6 0), drop_0, take_field by (by rewrite length_le_bytes).
  apply le_val_bytes. split; [apply value_size_nonneg|exact Hv].
Qed.

Lemma holds_bytes :
  ∃ hole, 0 ≤ hole < 2 ^ 48 ∧ record_bytes buf = Ret (accept_ack_bytes hole r).
Proof using Hb.
  unfold record_bytes. rewrite holds_value_size. pose proof holds_size as Hs.
  unfold ACCEPT_ACK_SIZE, PAXOS_MAX_VALUE_SIZE, sizeof_accept_ack in *.
  pose proof (value_size_nonneg (aa_value r)).
  destruct Hb as (_ & _ & hole & rest & Hh & ->). exists hole. split; [done|].
  rewrite u32_small by (unfold is_u32, UINT32_MOD; lia).
  replace (value_size (aa_value r) + 32) with (value_size (accept_ack_bytes hole r))
    by apply accept_ack_bytes_length.
  apply tail_bytes_ok.
Qed.

Lemma holds_set_ballot b :
  is_u32 b → ∃ buf', set_ballot b buf = Ret buf' ∧
    holds buf' (AcceptAck (aa_acceptor_id r) (aa_iid r) b (aa_value_ballot r) (aa_is_final r) (aa_value r)).
Proof using Hb.
  intros Hu. destruct Hb as (Hl & Hwf & hole & rest & Hh & ->).
  unfold set_ballot, accept_ack_bytes in *. rewrite <-!app_assoc in Hl |- *.
  store_field. eexists. split; [done|]. split; [|split].
  - rewrite !length_app, !length_le_bytes in *. done.
  - simpl in *. tauto.
  - exists hole, rest. split; [done|]. unfold accept_ack_bytes. by rewrite <-!app_assoc.
Qed.

End holds.

(** A record read from the database. *)
Lemma holds_copy hole r buf :
  length buf = Z.to_nat PAXOS_MAX_VALUE_SIZE → 0 ≤ hole < 2 ^ 48 → message_wf (MAcceptAck r) →
  ACCEPT_ACK_SIZE r ≤ PAXOS_MAX_VALUE_SIZE →
  ∃ buf', store_at 0 (accept_ack_bytes hole r) buf = Ret buf' ∧ holds buf' r.
Proof.
  intros Hl Hh Hwf Hs. pose proof (accept_ack_bytes_length hole r) as Ha.
  destruct (split_bytes (length (accept_ack_bytes hole r)) buf) as (b & rest & -> & Hb).
  { unfold PAXOS_MAX_VALUE_SIZE in *. lia. }
  rewrite store_here by done. eexists. split; [done|]. split; [|split; [done|eauto]].
  rewrite length_app in *. lia.
Qed.

Lemma key_inj i j : is_u32 i → is_u32 j → le_bytes 4 i = le_bytes 4 j → i = j.
Proof.
  unfold is_u32, UINT32_MOD. intros Hi Hj E. rewrite <-(le_val_bytes 4 i), <-(le_val_bytes 4 j) by (simpl; lia).
  by rewrite E.
Qed.

#[local] Arguments le_bytes : simpl never.

(** ** The contract *)

Section contract.
Context {W : Type} `{BS : BdbSpec W}.
Implicit Types (s : storage_bdb W) (h : gmap Z acceptor_record) (rd : bytes → option bytes).

(** The data read are the records of [h]. *)
Definition stored rd h : Prop :=
  ∀ iid, 0 < iid < UINT32_MOD →
  match h !! iid with
  | None => rd (le_bytes 4 iid) = None
  | Some r => aa_iid r = iid ∧ message_wf (MAcceptAck r) ∧ ACCEPT_ACK_SIZE r ≤ PAXOS_MAX_VALUE_SIZE ∧
      ∃ hole, 0 ≤ hole < 2 ^ 48 ∧ rd (le_bytes 4 iid) = Some (accept_ack_bytes hole r)
  end.

(** An open database in which the records of [h] are stored. *)
Record bdb_rep (aid : Z) s h : Prop := {
  br_aid : bs_acceptor_id s = aid;
  br_int : is_int aid;
  br_len : length (bs_record_buf s) = Z.to_nat PAXOS_MAX_VALUE_SIZE;
  br_open : ∃ d, bs_db s = Some d ∧ is_Some (db_file (bs_world s) d) ∧ stored (reads (bs_world s) d) h;
}.

Definition bdb_current s (iid : Z) (p : option unit) : Prop :=
  match p with None => True | Some _ => ∃ r, holds (bs_record_buf s) r ∧ aa_iid r = iid end.

Lemma stored_ext rd rd' h : (∀ k, rd' k = rd k) → stored rd h → stored rd' h.
Proof. intros E Hs iid Hi. rewrite E. by apply Hs. Qed.

Lemma stored_put rd h iid r hole :
  stored rd h → aa_iid r = iid → 0 < iid < UINT32_MOD → message_wf (MAcceptAck r) →
  ACCEPT_ACK_SIZE r ≤ PAXOS_MAX_VALUE_SIZE → 0 ≤ hole < 2 ^ 48 →
  stored (λ k, if decide (k = le_bytes 4 iid) then Some (accept_ack_bytes hole r) else rd k)
    (<[iid := r]> h).
Proof.
  intros Hs Hr Hi Hwf Hz Hh j Hj. destruct (decide (j = iid)) as [->|Hne].
  - rewrite lookup_insert_eq. rewrite decide_True by done. eauto 10.
  - rewrite lookup_insert_ne by done.
    rewrite decide_False by (intros E; apply Hne, key_inj; unfold is_u32; done || lia).
    by apply Hs.
Qed.

Lemma world_rep aid s h w :
  bdb_rep aid s h → keeps (bs_world s) w → bdb_rep aid (set_world w s) h.
Proof.
  intros [? ? ? (d & Hd & Hf & Hs)] K. split; try done. exists d. split; [done|]. simpl.
  rewrite (kp_file _ _ K). split; [done|]. eapply stored_ext; [|exact Hs]. intros k. by apply keeps_reads.
Qed.

(** Storing the record the buffer holds. *)
Lemma put_rep aid s h r iid s' p :
  bdb_rep aid s h → holds (bs_record_buf s) r → aa_iid r = iid → 0 < iid < UINT32_MOD →
  bdb_put s iid = Ret (s', p) →
  bdb_rep aid s' (<[iid := r]> h) ∧ bdb_load s' p = Ret r.
Proof using BS.
  intros [Ha Hint Hl (d & Hd & [[dir f] Hf] & Hs)] Hh Hr Hi Hp. unfold bdb_put in Hp.
  destruct (holds_bytes _ _ Hh) as (hole & Hhole & Hb). rewrite Hd, Hb in Hp. simpl in Hp.
  destruct (db_put _ _ _ _ _) as [w r0] eqn:E. inv_res. apply Z.eqb_eq in E0 as ->.
  destruct (db_put_spec _ _ _ _ _ _ _ _ E Hf) as [Hfile Hread].
  split; [|by apply holds_load]. split; [done|done|done|]. exists d. split; [done|]. simpl.
  rewrite Hfile. split; [eauto|]. eapply stored_ext; [exact Hread|].
  apply stored_put; [done|done|done|apply Hh|by eapply holds_size|done].
Qed.

Lemma set_value_nil buf : (32 ≤ length buf)%nat → set_value [] buf = Ret buf.
Proof.
  intros Hl. unfold set_value, store_at. cbn [length]. rewrite Nat.add_0_r.
  destruct (Nat.leb_spec 32 (length buf)); [|lia]. simpl app. by rewrite take_drop.
Qed.

Lemma save_accept_writes s ar :
  bdb_save_accept s ar =
  (buf ← write_record (bs_acceptor_id s) (ar_iid ar) (ar_ballot ar) (ar_ballot ar) (ar_value ar)
           (bs_record_buf s);
   bdb_put (set_buf buf s) (ar_iid ar)).
Proof. unfold bdb_save_accept, write_record. do 6 (rewrite bind_assoc; apply bind_ext; intros ?). done. Qed.

Lemma save_prepare_writes s pr :
  length (bs_record_buf s) = Z.to_nat PAXOS_MAX_VALUE_SIZE →
  bdb_save_prepare s pr None =
  (buf ← write_record (bs_acceptor_id s) (pr_iid pr) (pr_ballot pr) 0 [] (bs_record_buf s);
   bdb_put (set_buf buf s) (pr_iid pr)).
Proof.
  intros Hl. unfold bdb_save_prepare, write_record. f_equal.
  do 5 (apply bind_ext_ret; intros ? ?). change (value_size []) with 0.
  match goal with |- ?m = _ => destruct m as [b|] eqn:E; [rewrite bind_Ret|done] end.
  unfold set_acceptor_id, set_iid, set_ballot, set_value_ballot, set_is_final, set_value_size in *.
  repeat match goal with E : store_at _ _ _ = Ret _ |- _ => apply store_length in E end.
  symmetry. apply set_value_nil. unfold PAXOS_MAX_VALUE_SIZE in *. lia.
Qed.

Lemma buf_rep aid s h buf :
  bdb_rep aid s h → length buf = Z.to_nat PAXOS_MAX_VALUE_SIZE → bdb_rep aid (set_buf buf s) h.
Proof. intros [? ? ? ?] Hl. by split. Qed.

Lemma save_accept_rep aid s h ar s' p :
  bdb_rep aid s h → 0 < ar_iid ar < UINT32_MOD → is_u32 (ar_ballot ar) →
  bdb_save_accept s ar = Ret (s', p) →
  bdb_rep aid s' (<[ar_iid ar := accepted_record aid ar]> h) ∧
  bdb_load s' p = Ret (accepted_record aid ar).
Proof using BS.
  intros R Hi Hb Hp. rewrite save_accept_writes in Hp. apply bind_inv in Hp as (buf & Hw & Hp).
  pose proof (write_record_fits _ _ _ _ _ _ _ (br_len _ _ _ R) Hw) as Hfit.
  rewrite (br_aid _ _ _ R) in Hw.
  destruct (write_record_ok aid (ar_iid ar) (ar_ballot ar) (ar_ballot ar) (ar_value ar) (bs_record_buf s))
    as (buf' & Hw' & Hh); [apply R| |done|].
  { pose proof (br_int _ _ _ R). unfold PAXOS_MAX_VALUE_SIZE, sizeof_accept_ack in Hfit.
    unfold message_wf, is_int, is_u32, value_wf in *. simpl. repeat split; try done; lia. }
  same_ret. apply (put_rep aid (set_buf buf' s) h); [|exact Hh|done|done|exact Hp].
  apply buf_rep; [done|apply Hh].
Qed.

Lemma save_prepare_rep aid s h pr p s' q :
  bdb_rep aid s h → 0 < pr_iid pr < UINT32_MOD → is_u32 (pr_ballot pr) →
  bdb_current s (pr_iid pr) p →
  match p with
  | None => h !! pr_iid pr = None
  | Some q => ∃ r, h !! pr_iid pr = Some r ∧ bdb_load s q = Ret r
  end →
  bdb_save_prepare s pr p = Ret (s', q) →
  bdb_rep aid s' (<[pr_iid pr := prepared_record aid pr (h !! pr_iid pr)]> h) ∧
  bdb_load s' q = Ret (prepared_record aid pr (h !! pr_iid pr)).
Proof using BS.
  intros R Hi Hb Hc Hh Hp. destruct p as [[]|].
  - destruct Hc as (r & Hr & Hri). destruct Hh as (r' & E & Hl). unfold bdb_load in Hl.
    rewrite (holds_load _ _ Hr) in Hl. injection Hl as <-. rewrite E.
    destruct (holds_set_ballot _ _ Hr (pr_ballot pr) Hb) as (buf' & Hw & Hh').
    unfold bdb_save_prepare in Hp. rewrite Hw, bind_Ret in Hp.
    apply (put_rep aid (set_buf buf' s) h); [|exact Hh'|done|done|exact Hp].
    apply buf_rep; [done|apply Hh'].
  - rewrite Hh. rewrite save_prepare_writes in Hp by apply R.
    destruct (write_record_ok aid (pr_iid pr) (pr_ballot pr) 0 [] (bs_record_buf s))
      as (buf' & Hw & Hh'); [apply R| |done|].
    { pose proof (br_int _ _ _ R). unfold message_wf, is_int, is_u32, value_wf in *. simpl.
      repeat split; try done; lia. }
    rewrite (br_aid _ _ _ R), Hw, bind_Ret in Hp.
    apply (put_rep aid (set_buf buf' s) h); [|exact Hh'|done|done|exact Hp].
    apply buf_rep; [done|apply Hh'].
Qed.

Lemma get_record_rep `{!BdbReads W} aid s h iid s' p :
  bdb_rep aid s h → 0 < iid < UINT32_MOD → bdb_get_record s iid = Ret (s', p) →
  bdb_rep aid s' h ∧ bdb_current s' iid p ∧
  match p with
  | None => h !! iid = None
  | Some q => ∃ r, h !! iid = Some r ∧ bdb_load s' q = Ret r
  end.
Proof using BS.
  intros R Hi Hg. pose proof R as [Ha Hint Hl (d & Hd & Hf & Hs)]. unfold bdb_get_record in Hg.
  rewrite Hd in Hg. simpl in Hg. destruct (db_get _ _ _ _ _) as [[w r] data] eqn:E.
  destruct (db_get_spec _ _ _ _ _ _ _ _ E Hf) as (K & H0' & Hnf & Hsmall).
  specialize (Hs iid Hi). pose proof (world_rep _ _ _ _ R K) as R'.
  destruct (get_no_error _ _ _ _ _ _ _ _ E Hf) as [->|[->| ->]]; simpl in Hg.
  - destruct (H0' eq_refl) as [Hr _]. destruct (h !! iid) as [rec|] eqn:Eh; [|congruence].
    destruct Hs as (Hri & Hwf & Hsz & hole & Hhole & Hst). rewrite Hr in Hst. injection Hst as ->.
    destruct (holds_copy hole rec (bs_record_buf s) Hl Hhole Hwf Hsz) as (buf & Hb & Hh).
    rewrite Hb, bind_Ret in Hg. apply bind_inv in Hg as (u & _ & Hg). injection Hg as <- <-.
    split; [apply buf_rep; [done|apply Hh]|]. split; [by exists rec|].
    exists rec. split; [done|]. by apply holds_load.
  - injection Hg as <- <-. split; [done|]. split; [done|].
    destruct (h !! iid); [|done]. destruct Hs as (_ & _ & _ & hole & _ & Hst).
    by rewrite Hnf in Hst by auto.
  - exfalso. destruct (Hsmall eq_refl) as (x & Hx & Hlx). destruct (h !! iid); [|congruence].
    destruct Hs as (_ & _ & Hsz & hole & _ & Hst). rewrite Hst in Hx. injection Hx as <-.
    rewrite accept_ack_bytes_length in Hlx. lia.
Qed.

Lemma tx_begin_rep aid s h s' : bdb_rep aid s h → bdb_tx_begin s = Ret s' → bdb_rep aid s' h.
Proof using BS.
  intros R Hs. unfold bdb_tx_begin in Hs. apply bind_inv in Hs as (e & _ & Hs).
  destruct (txn_begin _ _) as [[w r] t] eqn:E. inv_res. apply Z.eqb_eq in E0 as ->.
  by destruct (world_rep _ _ _ _ R (txn_begin_spec _ _ _ _ E)).
Qed.

Lemma tx_commit_rep aid s h s' :
  bdb_rep aid s h → bdb_tx_commit s = Ret s' →
  bdb_rep aid s' h ∧ ∀ p, bdb_load s' p = bdb_load s p.
Proof using BS.
  intros R Hs. unfold bdb_tx_commit in Hs. apply bind_inv in Hs as (t & _ & Hs).
  destruct (txn_commit _ _) as [w r] eqn:E. inv_res. apply Z.eqb_eq in E0 as ->.
  split; [|done]. by destruct (world_rep _ _ _ _ R (txn_commit_spec _ _ _ E)).
Qed.

End contract.

(** When reads do not fail, Berkeley DB storage meets the acceptor's contract. *)
#[export] Instance bdb_storage_spec {W} `{BdbSpec W, !BdbReads W} : StorageSpec (storage_bdb W).
Proof.
  refine {| store_rep := bdb_rep; current := bdb_current |}.
  - exact tx_begin_rep.
  - exact tx_commit_rep.
  - exact get_record_rep.
  - intros aid s h ar p s' q R Hi Hb _. by apply save_accept_rep.
  - exact save_prepare_rep.
Defined.

(** ** Opening and closing *)

Section open.
Context {W : Type} `{BS : BdbSpec W}.
Implicit Types (s : storage_bdb W) (w : W).

#[global] Instance same_data_po : PreOrder (same_data (W:=W)).
Proof. split; [done|]. intros w1 w2 w3 E1 E2 dir f k. by rewrite E2. Qed.

(** The handle is set only by a successful initialisation. *)
Lemma init_tx_handle_ok cfg s path s1 r e :
  bdb_init_tx_handle cfg s path = (s1, r) → bs_env s = None → bs_env s1 = Some e →
  same_data (bs_world s) (bs_world s1) ∧ env_home (bs_world s1) e = Some path ∧
  bs_acceptor_id s1 = bs_acceptor_id s ∧ bs_record_buf s1 = bs_record_buf s.
Proof using BS.
  intros Hi Hn He. unfold bdb_init_tx_handle in Hi.
  destruct (db_env_create (bs_world s)) as [[w1 r1] e1] eqn:E1.
  destruct (r1 =? 0) eqn:R1; cbn [negb] in Hi; [|by simplify_eq/=; congruence].
  assert (∃ w2 r2, (if bdb_sync cfg =? 0 then env_set_nosync w1 e1 else (w1, r1)) = (w2, r2) ∧
    same_data w1 w2) as (w2 & r2 & E2 & D2).
  { destruct (bdb_sync cfg =? 0); [|exists w1, r1; by split].
    destruct (env_set_nosync w1 e1) as [w2 r2] eqn:E2. eauto using set_nosync_spec. }
  rewrite E2 in Hi. destruct (r2 =? 0); cbn [negb] in Hi; [|by simplify_eq/=; congruence].
  destruct (env_set_cachesize w2 e1 (bdb_cachesize cfg)) as [w3 r3] eqn:E3.
  destruct (r3 =? 0); cbn [negb] in Hi; [|by simplify_eq/=; congruence].
  destruct (env_open w3 e1 path) as [w4 r4] eqn:E4.
  destruct (Z.eqb_spec r4 0) as [->|]; cbn [negb] in Hi; [|by simplify_eq/=; congruence].
  simplify_eq/=. destruct (env_open_spec _ _ _ _ E4) as [D4 Hh]. split; [|done].
  transitivity w1; [by eapply env_create_spec|]. transitivity w2; [done|].
  transitivity w3; [by eapply set_cachesize_spec|done].
Qed.

Lemma init_db_ok s path s1 dir e :
  bdb_init_db s path = Ret (s1, 0) → bs_env s = Some e → env_home (bs_world s) e = Some dir →
  same_data (bs_world s) (bs_world s1) ∧ bs_acceptor_id s1 = bs_acceptor_id s ∧
  bs_record_buf s1 = bs_record_buf s ∧ bs_env s1 = Some e ∧
  ∃ d, bs_db s1 = Some d ∧ db_file (bs_world s1) d = Some (dir, path).
Proof using BS.
  intros Hi He Hh. unfold bdb_init_db in Hi. rewrite He in Hi.
  destruct (db_create (bs_world s) (Some e)) as [[w1 r1] d] eqn:E1.
  destruct (Z.eqb_spec r1 0) as [->|]; cbn [negb] in Hi; [|done].
  destruct (db_create_spec _ _ _ _ E1) as (D1 & Hh1 & Ho1).
  unfold bdb_tx_begin, bdb_tx_commit in Hi. simpl in Hi. rewrite He in Hi. simpl in Hi.
  destruct (txn_begin w1 e) as [[w2 r2] t] eqn:E2.
  destruct (Z.eqb_spec r2 0) as [->|]; simpl in Hi; [|done].
  destruct (txn_begin_spec _ _ _ _ E2) as [D2 Kh Ko Kf].
  destruct (db_open w2 d (Some t) path) as [w3 r3] eqn:E3. simpl in Hi.
  destruct (txn_commit w3 t) as [w4 r4] eqn:E4.
  destruct (Z.eqb_spec r4 0) as [->|]; simpl in Hi; [|done].
  destruct (txn_commit_spec _ _ _ E4) as [D4 _ _ Kf4].
  destruct (Z.eqb_spec r3 0) as [->|]; simpl in Hi; [|done]. simplify_eq/=.
  destruct (db_open_spec _ _ _ _ _ e dir E3) as [D3 Hf]; [congruence|congruence|].
  split; [by transitivity w1; [|transitivity w2; [|transitivity w3]]|].
  do 3 (split; [done|]). exists d. split; [done|]. by rewrite Kf4.
Qed.

(** An opened storage reads the file that was there, or an empty one after the
old files have been removed. *)
Lemma open_ok cfg w aid s :
  storage_bdb_open cfg w aid = Ret (inl s) →
  bs_acceptor_id s = aid ∧ length (bs_record_buf s) = Z.to_nat PAXOS_MAX_VALUE_SIZE ∧
  ∃ d, bs_db s = Some d ∧ is_Some (bs_env s) ∧
    db_file (bs_world s) d = Some (env_path cfg aid, bdb_db_filename cfg) ∧
    (bdb_trash_files cfg = 0 → ∀ k,
       reads (bs_world s) d k = contents w (env_path cfg aid) (bdb_db_filename cfg) k) ∧
    (bdb_trash_files cfg ≠ 0 → (system w (rm_command (env_path cfg aid))).2 = 0 → ∀ k,
       reads (bs_world s) d k = None).
Proof using BS.
  intros Ho. unfold storage_bdb_open in Ho. set (path := env_path cfg aid) in *.
  pose proof (length_replicate (Z.to_nat PAXOS_MAX_VALUE_SIZE) x00) as Hbuf.
  set (buf0 := replicate _ x00) in *. clearbody buf0.
  destruct (if stat w path =? 0 then (w, 0) else mkdir w path) as [w1 made] eqn:Em.
  destruct (negb (stat w path =? 0) && negb (made =? 0)); [done|].
  apply bind_inv in Ho as (w2 & Ht & Ho).
  destruct (bdb_init_tx_handle cfg _ path) as [s1 r1] eqn:E1.
  apply bind_inv in Ho as ([s2 r2] & E2 & Ho). destruct (Z.eqb_spec r2 0) as [->|]; [|done].
  simpl in Ho. injection Ho as <-.
  destruct (bs_env s1) as [e|] eqn:Ee.
  2: { exfalso. unfold bdb_init_db in E2. rewrite Ee in E2.
       destruct (db_create (bs_world s1) None) as [[w3 r3] d3]. destruct (r3 =? 0); simpl in E2; [|done].
       unfold bdb_tx_begin in E2. simpl in E2. by rewrite Ee in E2. }
  destruct (init_tx_handle_ok _ _ _ _ _ e E1) as (D1 & Hh & Ha & Hb); [done|done|].
  destruct (init_db_ok _ _ _ path e E2 Ee Hh) as (D2 & Ha2 & Hb2 & He2 & d & Hd & Hf). simpl in *.
  split; [congruence|]. split; [by rewrite Hb2, Hb|].
  exists d. split; [done|]. rewrite He2. split; [eauto|]. split; [done|].
  assert (∀ k, reads (bs_world s2) d k = contents w2 path (bdb_db_filename cfg) k) as Hr.
  { intros k. unfold reads. rewrite Hf, (D2 path), (D1 path). done. }
  destruct (Z.eqb_spec (stat w path) 0) as [Es|Es].
  - simplify_eq. rewrite andb_true_r in Ht. split; intros Htr.
    + rewrite (proj2 (Z.eqb_eq _ _) Htr) in Ht. by simplify_eq/=.
    + intros Hrm k. rewrite Hr. apply Z.eqb_neq in Htr. rewrite Htr in Ht. simpl in Ht.
      unfold trash_files in Ht. destruct (600 <=? _); [done|].
      destruct (system w1 (rm_command path)) as [w3 r3] eqn:E3. simpl in Hrm. subst r3. simpl in Ht.
      injection Ht as <-. destruct (mkdir w3 path) as [w4 r4] eqn:E4. simpl.
      rewrite (mkdir_spec _ _ _ _ E4 path). by eapply rm_spec.
  - rewrite andb_false_r in Ht. injection Ht as <-. pose proof (mkdir_spec _ _ _ _ Em) as D.
    assert (∀ k, contents w path (bdb_db_filename cfg) k = None) as Hn by (intros; by apply stat_spec).
    split; intros; rewrite Hr, (D path); [done|apply Hn].
Qed.

End open.

(** ** A model of the library

A file is a finite map; no call fails.  The environment and the database are
those opened last, so their handles carry nothing. *)

#[export] Instance byte_eq_dec : EqDecision byte.
Proof. intros b1 b2. destruct (Byte.byte_eq_dec b1 b2); [by left|by right]. Defined.

#[export] Instance byte_countable : Countable byte.
Proof. apply (inj_countable Byte.to_N Byte.of_N). intros b. apply Byte.of_to_N. Defined.

#[export] Instance lex_le_dec k1 k2 : Decision (lex_le k1 k2).
Proof.
  revert k2. induction k1 as [|b1 k1 IH]; intros [|b2 k2]; simpl; [apply _..|].
  pose proof (IH k2). apply _.
Defined.

#[export] Instance lex_le_trans : Transitive lex_le.
Proof.
  intros k1. induction k1 as [|b1 k1 IH]; intros [|b2 k2] [|b3 k3]; simpl; [done..|].
  intros [?|[-> ?]] [?|[-> ?]]; [left; lia|by left|by left|right; eauto].
Qed.

Lemma byte_val_inj b1 b2 : byte_val b1 = byte_val b2 → b1 = b2.
Proof.
  intros E. rewrite <-(byte_of_val b1 (byte_val b2)); [|by rewrite <-E, Z.mod_small by apply byte_val_range].
  apply byte_of_val. by rewrite Z.mod_small by apply byte_val_range.
Qed.

Lemma lex_le_refl k : lex_le k k.
Proof. induction k as [|b k IH]; [done|]. by right. Qed.

#[export] Instance lex_le_total : Total lex_le.
Proof.
  intros k1. induction k1 as [|b1 k1 IH]; intros [|b2 k2]; simpl; [by left..|by right|].
  destruct (Ztrichotomy (byte_val b1) (byte_val b2)) as [?|[->%byte_val_inj|?]];
    [by left; left| |by right; left; lia].
  destruct (IH k2); [left|right]; by right.
Qed.

Record kv : Type := Kv {
  kv_data : gmap (string * string) (gmap bytes bytes);
  kv_home : option string;
  kv_file : option (string * string);
  kv_rest : list (bytes * bytes);
}.

Definition kv_read (w : kv) (dir f : string) (k : bytes) : option bytes :=
  default ∅ (kv_data w !! (dir, f)) !! k.

Definition by_key (x y : bytes * bytes) : Prop := lex_le x.1 y.1.
#[export] Instance by_key_dec x y : Decision (by_key x y).
Proof. unfold by_key. apply _. Defined.

#[export] Instance by_key_trans : Transitive by_key.
Proof. intros x y z. apply lex_le_trans. Qed.
#[export] Instance by_key_total : Total by_key.
Proof. intros x y. apply lex_le_total. Qed.

#[export] Instance kv_bdb : Bdb kv := {|
  db_env := unit; db := unit; db_txn := unit; dbc := unit;
  stat w dir := if decide (set_Exists (λ x, x.1 = dir) (dom (kv_data w))) then 0 else -1;
  mkdir w _ := (w, 0);
  system w cmd :=
    (Kv (filter (λ x, rm_command x.1.1 ≠ cmd) (kv_data w)) (kv_home w) (kv_file w) (kv_rest w), 0);
  db_env_create w := (w, 0, tt);
  env_set_nosync w _ := (w, 0);
  env_set_cachesize w _ _ := (w, 0);
  env_open w _ dir := (Kv (kv_data w) (Some dir) (kv_file w) (kv_rest w), 0);
  env_close w _ := (w, 0);
  db_create w _ := (w, 0, tt);
  db_open w _ _ f :=
    (Kv (kv_data w) (kv_home w) ((λ dir, (dir, f)) <$> kv_home w) (kv_rest w), 0);
  db_close w _ := (w, 0);
  txn_begin w _ := (w, 0, tt);
  txn_commit w _ := (w, 0);
  db_get w _ _ k ulen :=
    match kv_file w with
    | None => (w, 22, [])
    | Some (dir, f) =>
        match kv_read w dir f k with
        | None => (w, DB_NOTFOUND, [])
        | Some x => if Z.of_nat (length x) <=? ulen then (w, 0, x) else (w, DB_BUFFER_SMALL, [])
        end
    end;
  db_put w _ _ k x :=
    match kv_file w with
    | None => (w, 22)
    | Some p => (Kv (<[p := <[k := x]> (default ∅ (kv_data w !! p))]> (kv_data w))
                   (kv_home w) (kv_file w) (kv_rest w), 0)
    end;
  db_cursor w _ :=
    (Kv (kv_data w) (kv_home w) (kv_file w)
       (merge_sort by_key (map_to_list (default ∅ (kv_file w ≫= (kv_data w !!.))))), 0, tt);
  c_get w _ :=
    match kv_rest w with
    | [] => (w, DB_NOTFOUND, [], [])
    | (k, x) :: l => (Kv (kv_data w) (kv_home w) (kv_file w) l, 0, k, x)
    end;
  c_close w _ := (w, 0);
|}.

#[export] Instance kv_state : BdbState kv := {|
  contents := kv_read;
  env_home w _ := kv_home w;
  db_owner _ _ := Some tt;
  db_file w _ := kv_file w;
  cursor_rest w _ := kv_rest w;
|}.

Lemma kv_cursor_ok m :
  let l := merge_sort by_key (map_to_list (m : gmap bytes bytes)) in
  (∀ k x, (k, x) ∈ l ↔ m !! k = Some x) ∧ StronglySorted lex_le l.*1.
Proof.
  intros l. split.
  - intros k x. unfold l. rewrite merge_sort_Permutation. apply elem_of_map_to_list.
  - assert (StronglySorted by_key l) as Hs.
    { by apply StronglySorted_merge_sort; apply _. }
    induction Hs as [|x l' Hs IH Hx]; [constructor|]. constructor; [done|].
    apply Forall_fmap. eapply Forall_impl; [exact Hx|]. done.
Qed.

#[export] Instance kv_spec : BdbSpec kv.
Proof.
  split; try (by intros; simplify_eq/=; repeat split).
  - intros w dir f k Hs. simpl in *. case_decide as D; [done|]. unfold kv_read.
    destruct (kv_data w !! (dir, f)) as [m|] eqn:E; [|done]. destruct D.
    exists (dir, f). split; [|done]. apply elem_of_dom. eauto.
  - intros w dir w' Hs f k. simplify_eq/=. unfold kv_read. simpl.
    rewrite map_lookup_filter_None_2; [done|]. right. intros m _ Hn. by destruct Hn.
  - intros w [] w' [] Hc. by simplify_eq/=.
  - intros w d t f w' e dir Ho _ Hh. simplify_eq/=. rewrite Hh. by split.
  - intros w d t k ulen w' r x Hg [[dir f] Hf]. simpl in Hg, Hf. rewrite Hf in Hg.
    unfold reads. simpl. rewrite Hf. destruct (kv_read w dir f k) as [y|] eqn:E.
    + case_Z; simplify_eq; (split; [reflexivity|]); (split; [done|]); (split; [by intros [|]|]); [done|].
      intros _. exists y. split; [done|lia].
    + simplify_eq. split; [reflexivity|]. split; [done|]. by split.
  - intros w d t k x w' dir f Hp Hf. simpl in Hp, Hf. rewrite Hf in Hp. simplify_eq/=.
    split; [intros; by rewrite Hf|]. intros k'. unfold reads. simpl. rewrite Hf. unfold kv_read. simpl.
    rewrite lookup_insert_eq. simpl. case_decide; [subst; apply lookup_insert_eq|].
    by rewrite lookup_insert_ne.
  - intros w d w' c Hc [[dir f] Hf]. simpl in Hf. unfold reads. simpl. rewrite Hf.
    simplify_eq/=. rewrite Hf. simpl. apply kv_cursor_ok.
  - intros w c w' r k x Hg. simpl in *. destruct (kv_rest w) as [|[k0 x0] l]; simplify_eq/=; done.
Qed.

#[export] Instance kv_reads : BdbReads kv.
Proof.
  split.
  - intros w d t k ulen w' r x Hg [[dir f] Hf]. simpl in Hg, Hf. rewrite Hf in Hg.
    destruct (kv_read w dir f k); [case_Z|]; simplify_eq; auto.
  - intros w d w' r c Hc _. by simplify_eq/=.
  - intros w c w' r k x Hc. simpl in Hc. destruct (kv_rest w) as [|[]]; simplify_eq; auto.
Qed.

(** ** Properties *)

(** C29: over a database whose reads do not fail, the storage is a map from
instance to record: a lookup returns exactly the record stored last, a saved
accept or prepare replaces the record of its instance by the one the acceptor
expects and leaves the others, and the pointer that is returned shows it; so
encoding a record into the file and reading it back loses nothing. *)
Theorem bdb_refines_map {W} `{BdbSpec W, !BdbReads W} aid (s : storage_bdb W) h :
  bdb_rep aid s h →
  (∀ iid s' p, 0 < iid < UINT32_MOD → bdb_get_record s iid = Ret (s', p) →
     bdb_rep aid s' h ∧ match p with
                        | None => h !! iid = None
                        | Some q => ∃ r, h !! iid = Some r ∧ bdb_load s' q = Ret r
                        end) ∧
  (∀ ar s' p, 0 < ar_iid ar < UINT32_MOD → is_u32 (ar_ballot ar) →
     bdb_save_accept s ar = Ret (s', p) →
     bdb_rep aid s' (<[ar_iid ar := accepted_record aid ar]> h) ∧
     bdb_load s' p = Ret (accepted_record aid ar)) ∧
  (∀ pr s1 p s' q, 0 < pr_iid pr < UINT32_MOD → is_u32 (pr_ballot pr) →
     bdb_get_record s (pr_iid pr) = Ret (s1, p) → bdb_save_prepare s1 pr p = Ret (s', q) →
     bdb_rep aid s' (<[pr_iid pr := prepared_record aid pr (h !! pr_iid pr)]> h) ∧
     bdb_load s' q = Ret (prepared_record aid pr (h !! pr_iid pr))).
Proof.
  intros R. split; [|split].
  - intros iid s' p Hi Hg. destruct (get_record_rep _ _ _ _ _ _ R Hi Hg) as (? & _ & ?). done.
  - intros ar s' p Hi Hb. by apply save_accept_rep.
  - intros pr s1 p s' q Hi Hb Hg Hs.
    destruct (get_record_rep _ _ _ _ _ _ R Hi Hg) as (R1 & Hc & Hp). by eapply save_prepare_rep.
Qed.

(** Records survive a restart: when a storage is closed and opened again
with the same configuration and without [bdb_trash_files], the new storage
holds the same records. *)
Lemma bdb_restart_keeps_records {W} `{BdbSpec W} cfg aid (s s' : storage_bdb W) h w r d :
  bdb_rep aid s h → bs_db s = Some d →
  db_file (bs_world s) d = Some (env_path cfg aid, bdb_db_filename cfg) →
  bdb_trash_files cfg = 0 →
  storage_bdb_close s = Ret (w, r) → storage_bdb_open cfg w aid = Ret (inl s') →
  bdb_rep aid s' h.
Proof.
  intros [Ha Hint Hl (d0 & Hd0 & _ & Hs)] Hd Hf Ht Hc Ho. simplify_eq.
  unfold storage_bdb_close in Hc. rewrite Hd0 in Hc. simpl in Hc.
  destruct (bs_env s) as [e|]; [simpl in Hc|done].
  destruct (db_close (bs_world s) d0) as [w1 r1] eqn:E1. destruct (env_close w1 e) as [w2 r2] eqn:E2.
  injection Hc as <- _.
  destruct (open_ok _ _ _ _ Ho) as (Ha' & Hl' & d' & Hd' & _ & Hf' & Hk & _).
  split; [done|done|done|]. exists d'. split; [done|]. rewrite Hf'. split; [eauto|].
  eapply stored_ext; [|exact Hs]. intros k. rewrite (Hk Ht).
  rewrite (env_close_spec _ _ _ _ E2 (env_path cfg _)), (db_close_spec _ _ _ _ E1 (env_path cfg _)).
  unfold reads. by rewrite Hf.
Qed.

(** The record buffer is 16 bytes too short for the largest message: saving
an accept request writes past it exactly when the value has more than 255968
bytes, while accept requests with values of up to 255984 bytes are read. *)
Lemma bdb_save_accept_overflow {W} `{BdbSpec W} aid (s : storage_bdb W) h ar :
  bdb_rep aid s h → 0 < ar_iid ar < UINT32_MOD → is_u32 (ar_ballot ar) →
  (bdb_save_accept s ar = Fault OutOfBounds ↔ 255968 < value_size (ar_value ar)) ∧
  PAXOS_MAX_VALUE_SIZE - sizeof_accept_req = 255984.
Proof.
  intros R Hi Hb. split; [|done]. rewrite save_accept_writes.
  destruct (decide (255968 < value_size (ar_value ar))) as [Hv|Hv].
  { rewrite write_record_past by (apply R || (unfold PAXOS_MAX_VALUE_SIZE, sizeof_accept_ack; lia)). done. }
  split; [|done]. intros Hp. exfalso. revert Hp.
  destruct (write_record_ok (bs_acceptor_id s) (ar_iid ar) (ar_ballot ar) (ar_ballot ar) (ar_value ar)
    (bs_record_buf s)) as (buf & -> & Hh).
  - apply R.
  - pose proof (br_int _ _ _ R). rewrite (br_aid _ _ _ R).
    unfold message_wf, is_int, is_u32, value_wf in *. simpl. repeat split; try done; lia.
  - unfold PAXOS_MAX_VALUE_SIZE, sizeof_accept_ack. lia.
  - rewrite bind_Ret. destruct (br_open _ _ _ R) as (d & Hd & _). unfold bdb_put. simpl. rewrite Hd. simpl.
    destruct (holds_bytes _ _ Hh) as (hole & _ & ->). simpl.
    destruct (db_put _ _ _ _ _) as [w r]. by destruct (r =? 0).
Qed.

(** The walk ends after the last record and returns its key. *)
Lemma max_iid_loop_ok {W} `{BdbSpec W, !BdbReads W} fuel (w : W) c m :
  (length (cursor_rest w c) < fuel)%nat →
  (∀ k x, (k, x) ∈ cursor_rest w c → ∃ iid, is_u32 iid ∧ k = le_bytes 4 iid) →
  ∃ w', max_iid_loop fuel w c m =
    Ret (w', DB_NOTFOUND, default m ((λ y, le_val y.1) <$> last (cursor_rest w c))).
Proof.
  revert w m. induction fuel as [|fuel IH]; intros w m Hl Hk; [lia|]. simpl.
  destruct (c_get w c) as [[[w1 r] k] x] eqn:E.
  destruct (c_get_spec _ _ _ _ _ _ E) as [H0' Hnf].
  destruct (walk_no_error _ _ _ _ _ _ E) as [->| ->]; simpl.
  - specialize (H0' eq_refl). rewrite H0' in Hl, Hk |- *. simpl in Hl.
    destruct (Hk k x) as (iid & Hi & ->); [by left|].
    rewrite <-(app_nil_r (le_bytes 4 iid)), field_ok by exact Hi. rewrite app_nil_r, bind_Ret.
    destruct (IH w1 iid) as (w' & ->); [lia|intros; eapply Hk; by right|]. exists w'.
    do 2 f_equal. rewrite last_cons. destruct (last (cursor_rest w1 c)); [done|].
    change (iid = le_val (le_bytes 4 iid)). symmetry. by apply le_val_bytes.
  - rewrite (Hnf eq_refl). eauto.
Qed.

(** What a database without records answers for. *)
Lemma empty_rep {W} `{BdbState W} aid (s : storage_bdb W) d :
  bs_acceptor_id s = aid → is_int aid → length (bs_record_buf s) = Z.to_nat PAXOS_MAX_VALUE_SIZE →
  bs_db s = Some d → is_Some (db_file (bs_world s) d) → (∀ k, reads (bs_world s) d k = None) →
  bdb_rep aid s ∅.
Proof.
  intros Ha Hi Hl Hd Hf Hk. split; [done|done|done|]. exists d. split; [done|]. split; [done|].
  intros iid _. by rewrite lookup_empty.
Qed.

Lemma sorted_last {A} (R : A → A → Prop) l x y :
  StronglySorted R l → last l = Some y → x ∈ l → x = y ∨ R x y.
Proof.
  intros Hs. induction Hs as [|z l Hs IH Hz]; [done|]. rewrite last_cons. intros Hl Hx.
  destruct (last l) as [y'|] eqn:E; simplify_eq.
  - apply elem_of_cons in Hx as [->|Hx]; [|by apply IH]. right.
    rewrite Forall_forall in Hz. apply Hz. by apply last_Some_elem_of.
  - apply last_None in E as ->. apply list_elem_of_singleton in Hx. by left.
Qed.

(** With enough fuel for the records in the file, [storage_get_max_iid]
returns; and it returns the instance whose key is last in byte order, not the
highest one: keys are little-endian. *)
Lemma bdb_max_iid_last_key {W} `{BdbSpec W, !BdbReads W} aid (s : storage_bdb W) h d :
  bdb_rep aid s h → bs_db s = Some d →
  (∀ k, is_Some (reads (bs_world s) d k) → ∃ iid, 0 < iid < UINT32_MOD ∧ k = le_bytes 4 iid) →
  ∃ n, ∀ fuel, (n < fuel)%nat → ∃ s' m, bdb_get_max_iid fuel s = Ret (s', m) ∧
    ((m = 0 ∧ ∀ iid, 0 < iid < UINT32_MOD → h !! iid = None) ∨
     (is_Some (h !! m) ∧ ∀ iid, 0 < iid < UINT32_MOD → is_Some (h !! iid) →
        lex_le (le_bytes 4 iid) (le_bytes 4 m))).
Proof.
  intros [_ _ _ (d0 & Hd0 & Hf & Hs)] Hd Hkeys. simplify_eq.
  destruct (db_cursor (bs_world s) d0) as [[w r] c] eqn:E. pose proof (cursor_no_error _ _ _ _ _ E Hf) as ->.
  destruct (cursor_spec _ _ _ _ E Hf) as [Hin Hsort]. exists (length (cursor_rest w c)).
  assert (∀ iid, 0 < iid < UINT32_MOD → is_Some (h !! iid) →
    ∃ x, (le_bytes 4 iid, x) ∈ cursor_rest w c) as Hrec.
  { intros iid Hi [r Hr]. specialize (Hs iid Hi). rewrite Hr in Hs.
    destruct Hs as (_ & _ & _ & hole & _ & Hx). exists (accept_ack_bytes hole r). by apply Hin. }
  assert (∀ k x, (k, x) ∈ cursor_rest w c → ∃ iid, 0 < iid < UINT32_MOD ∧ k = le_bytes 4 iid ∧
    is_Some (h !! iid)) as Hiid.
  { intros k x Hx%Hin. destruct (Hkeys k) as (iid & Hi & ->); [by rewrite Hx|]. exists iid.
    split; [done|]. split; [done|]. specialize (Hs iid Hi). destruct (h !! iid); [done|congruence]. }
  intros fuel Hfuel. unfold bdb_get_max_iid. rewrite Hd0. cbn [deref]. rewrite bind_Ret, E.
  change (negb (0 =? 0)) with false. cbv iota. destruct (max_iid_loop_ok fuel w c 0 Hfuel) as (w' & ->).
  { intros k x (iid & Hi & -> & _)%Hiid. exists iid. unfold is_u32. split; [lia|done]. }
  rewrite bind_Ret. change (negb (DB_NOTFOUND =? DB_NOTFOUND)) with false. cbv iota.
  destruct (last (cursor_rest w c)) as [[k x]|] eqn:El; eexists _, _; (split; [done|]).
  - right. change (default 0 (_ <$> Some (k, x))) with (le_val k). destruct (Hiid k x) as (iid & Hi & -> & Hh); [by apply last_Some_elem_of|].
    rewrite le_val_bytes by (unfold UINT32_MOD in Hi; simpl; lia). split; [done|].
    intros j Hj (y & Hy)%Hrec; [|done].
    destruct (sorted_last lex_le (cursor_rest w c).*1 (le_bytes 4 j) (le_bytes 4 iid) Hsort)
      as [->|?]; [by rewrite fmap_last, El| |apply lex_le_refl|done].
    apply list_elem_of_fmap. by exists (le_bytes 4 j, y).
  - left. split; [done|]. intros iid Hi. destruct (h !! iid) as [r|] eqn:Eh; [|done].
    destruct (Hrec iid Hi) as (x & Hx); [by rewrite Eh|]. apply last_None in El. rewrite El in Hx.
    by apply not_elem_of_nil in Hx.
Qed.

(** ** Witnesses *)

(** Acceptor 1 with the default configuration, freshly opened. *)
Definition kv_opened : storage_bdb kv :=
  StorageBdb (Kv ∅ (Some "/tmp/acceptor_1") (Some ("/tmp/acceptor_1", "acc.bdb")) [])
    (Some tt) (Some tt) (Some tt) 1 (replicate (Z.to_nat PAXOS_MAX_VALUE_SIZE) x00).

Lemma kv_open_ok : storage_bdb_open default_config (Kv ∅ None None []) 1 = Ret (inl kv_opened).
Proof. reflexivity. Qed.

Lemma kv_opened_rep : bdb_rep 1 kv_opened ∅.
Proof.
  apply (empty_rep 1 kv_opened tt); [done|by vm_compute|apply length_replicate|done|by eexists|].
  intros k. unfold reads. simpl. unfold kv_read. simpl. by rewrite lookup_empty.
Qed.

(** Then with instances 256 and 1 accepted. *)
Definition kv_one : storage_bdb kv :=
  (from_ret (kv_opened, tt) (bdb_save_accept kv_opened (AcceptReq 256 11 [x41]))).1.

Definition kv_two : storage_bdb kv :=
  (from_ret (kv_opened, tt) (bdb_save_accept kv_one (AcceptReq 1 11 [x42]))).1.

Lemma from_ret_pair {A B} (d : A * B) (m : res (A * B)) :
  is_ret m = true → m = Ret ((from_ret d m).1, (from_ret d m).2).
Proof. by destruct m as [[a b]|]. Qed.

Definition kv_history : gmap Z acceptor_record :=
  <[1 := AcceptAck 1 1 11 11 0 [x42]]> (<[256 := AcceptAck 1 256 11 11 0 [x41]]> ∅).

Lemma kv_one_rep : bdb_rep 1 kv_one (<[256 := AcceptAck 1 256 11 11 0 [x41]]> ∅).
Proof.
  eapply (save_accept_rep 1 kv_opened ∅ (AcceptReq 256 11 [x41]) kv_one _ kv_opened_rep);
    [by vm_compute|by vm_compute|]. apply (from_ret_pair (kv_opened, tt)). by vm_compute.
Qed.

Lemma kv_two_rep : bdb_rep 1 kv_two kv_history.
Proof.
  eapply (save_accept_rep 1 kv_one _ (AcceptReq 1 11 [x42]) kv_two _ kv_one_rep);
    [by vm_compute|by vm_compute|]. apply (from_ret_pair (kv_opened, tt)). by vm_compute.
Qed.

(** [storage_get_max_iid] does not return the highest instance: with records
for the instances 1 and 256 it returns 1. *)
Lemma bdb_max_iid_not_max :
  ∃ (s s' : storage_bdb kv) h, bdb_rep 1 s h ∧ is_Some (h !! 256) ∧
    bdb_get_max_iid 3 s = Ret (s', 1).
Proof.
  exists kv_two, (from_ret (kv_two, 0) (bdb_get_max_iid 3 kv_two)).1, kv_history.
  split; [exact kv_two_rep|]. split; [by eexists|].
  rewrite (from_ret_pair (kv_two, 0) (bdb_get_max_iid 3 kv_two)) at 1 by (by vm_compute).
  do 2 f_equal.
Qed.

Lemma bdb_refines_map_witness :
  (∀ iid s' p, 0 < iid < UINT32_MOD → bdb_get_record kv_two iid = Ret (s', p) →
     bdb_rep 1 s' kv_history ∧ match p with
                        | None => kv_history !! iid = None
                        | Some q => ∃ r, kv_history !! iid = Some r ∧ bdb_load s' q = Ret r
                        end) ∧
  (∀ ar s' p, 0 < ar_iid ar < UINT32_MOD → is_u32 (ar_ballot ar) →
     bdb_save_accept kv_two ar = Ret (s', p) →
     bdb_rep 1 s' (<[ar_iid ar := accepted_record 1 ar]> kv_history) ∧
     bdb_load s' p = Ret (accepted_record 1 ar)) ∧
  (∀ pr s1 p s' q, 0 < pr_iid pr < UINT32_MOD → is_u32 (pr_ballot pr) →
     bdb_get_record kv_two (pr_iid pr) = Ret (s1, p) → bdb_save_prepare s1 pr p = Ret (s', q) →
     bdb_rep 1 s' (<[pr_iid pr := prepared_record 1 pr (kv_history !! pr_iid pr)]> kv_history) ∧
     bdb_load s' q = Ret (prepared_record 1 pr (kv_history !! pr_iid pr))).
Proof. apply (bdb_refines_map 1 kv_two kv_history). exact kv_two_rep. Defined.

(** The record of instance 256 as it is in the file. *)
Definition kv_disk : gmap (string * string) (gmap bytes bytes) :=
  {[ ("/tmp/acceptor_1", "acc.bdb") :=
       {[ le_bytes 4 256 := accept_ack_bytes 0 (AcceptAck 1 256 11 11 0 [x41]) ]} ]}.

Definition kv_world : kv := Kv kv_disk (Some "/tmp/acceptor_1") (Some ("/tmp/acceptor_1", "acc.bdb")) [].

Lemma kv_one_world : bs_world kv_one = kv_world.
Proof. vm_compute. reflexivity. Qed.

Lemma bdb_restart_keeps_records_witness :
  ∃ s', storage_bdb_close kv_one = Ret (kv_world, 0) ∧
    storage_bdb_open default_config kv_world 1 = Ret (inl s') ∧
    bdb_rep 1 s' (<[256 := AcceptAck 1 256 11 11 0 [x41]]> ∅).
Proof.
  eexists. assert (storage_bdb_close kv_one = Ret (kv_world, 0)) as Hc by (vm_compute; reflexivity).
  split; [exact Hc|]. split; [reflexivity|].
  apply (bdb_restart_keeps_records default_config 1 kv_one _ _ kv_world 0 tt).
  - exact kv_one_rep.
  - vm_compute. reflexivity.
  - rewrite kv_one_world. reflexivity.
  - reflexivity.
  - exact Hc.
  - reflexivity.
Defined.

Lemma bdb_save_accept_overflow_witness :
  let ar := AcceptReq 1 11 (replicate (Z.to_nat 255970) x41) in
  (bdb_save_accept kv_opened ar = Fault OutOfBounds ↔ 255968 < value_size (ar_value ar)) ∧
  PAXOS_MAX_VALUE_SIZE - sizeof_accept_req = 255984.
Proof.
  intros ar. apply (bdb_save_accept_overflow 1 kv_opened ∅ ar).
  - exact kv_opened_rep.
  - by vm_compute.
  - by vm_compute.
Defined.

Lemma bdb_max_iid_last_key_witness :
  ∃ n, ∀ fuel, (n < fuel)%nat → ∃ s' m, bdb_get_max_iid fuel kv_one = Ret (s', m) ∧
    ((m = 0 ∧ ∀ iid, 0 < iid < UINT32_MOD → (<[256 := AcceptAck 1 256 11 11 0 [x41]]> ∅ : gmap Z _) !! iid = None) ∨
     (is_Some ((<[256 := AcceptAck 1 256 11 11 0 [x41]]> ∅ : gmap Z _) !! m) ∧
      ∀ iid, 0 < iid < UINT32_MOD → is_Some ((<[256 := AcceptAck 1 256 11 11 0 [x41]]> ∅ : gmap Z _) !! iid) →
        lex_le (le_bytes 4 iid) (le_bytes 4 m))).
Proof.
  apply (bdb_max_iid_last_key 1 kv_one (<[256 := AcceptAck 1 256 11 11 0 [x41]]> ∅) tt).
  - exact kv_one_rep.
  - vm_compute. reflexivity.
  - rewrite kv_one_world. unfold reads. simpl. unfold kv_read. simpl.
    intros k [x Hx]. unfold kv_disk in Hx. rewrite lookup_singleton_eq in Hx. simpl in Hx.
    apply lookup_singleton_Some in Hx as [<- _]. exists 256. by vm_compute.
Defined.
