(* ===== verification/Limits.v ===== *)
(** * The largest value an acceptor survives

An accept request is read into a stack buffer when its data has at most
[PAXOS_MAX_VALUE_SIZE] bytes, so its value may have up to 255984 of them.  The
Berkeley DB storage then copies the value behind the header of its record
buffer, which has that size too (storage_bdb.c): the last 16 of those bytes do
not fit.  The property follows a request from the bytes on its connection to the
write, which is checked against the bytes of the buffer. *)

From S2P Require Import Prelude Carray Quorum Messages Storage StorageMem Acceptor.
From S2P Require Import Proposer ProposerRun Wire Net EvAcceptor StorageBdb.
#[local] Open Scope Z_scope.

Section bdb.
Context {W : Type} `{BR : BdbSpec W, RD : !BdbReads W}.
Implicit Types (s : storage_bdb W) (ar : accept_req).

(** Reading a record returns. *)
Lemma bdb_get_total aid s h iid :
  bdb_rep aid s h → 0 < iid < UINT32_MOD → ∃ s' p, bdb_get_record s iid = Ret (s', p).
Proof using BR RD.
  intros [Ha Hint Hl (d & Hd & Hf & Hs)] Hi. unfold bdb_get_record. rewrite Hd. cbn [deref]. rewrite bind_Ret. cbv beta.
  destruct (db_get _ _ _ _ _) as [[w r] data] eqn:E.
  destruct (db_get_spec _ _ _ _ _ _ _ _ E Hf) as (_ & H0' & _ & _). specialize (Hs iid Hi).
  destruct (get_no_error _ _ _ _ _ _ _ _ E Hf) as [->|[->| ->]]; cbn [Z.eqb orb negb DB_NOTFOUND DB_KEYEMPTY DB_BUFFER_SMALL Pos.eqb]; [|by eexists _, _..].
  destruct (H0' eq_refl) as [Hr _]. destruct (h !! iid) as [rec|] eqn:Eh; [|congruence].
  destruct Hs as (Hri & Hwf & Hsz & hole & Hhole & Hst). rewrite Hr in Hst. injection Hst as ->.
  destruct (holds_copy hole rec (bs_record_buf s) Hl Hhole Hwf Hsz) as (buf & -> & Hh).
  rewrite bind_Ret. cbv beta. rewrite (holds_iid _ _ Hh), Hri, Z.eqb_refl. simpl. by eexists _, _.
Qed.

(** A request that is not refused is written to the record buffer. *)
Lemma receive_accept_limit aid s s1 h ar :
  bdb_rep aid s h → 0 < ar_iid ar < UINT32_MOD → is_u32 (ar_ballot ar) →
  (∀ r, h !! ar_iid ar = Some r → aa_ballot r ≤ ar_ballot ar) → bdb_tx_begin s = Ret s1 →
  acceptor_receive_accept (Acceptor s) ar = Fault OutOfBounds ↔ 255968 < value_size (ar_value ar).
Proof using BR RD.
  intros R Hi Hb Hh Ht. pose proof (tx_begin_rep aid s h s1 R Ht) as R1.
  destruct (bdb_get_total aid s1 h (ar_iid ar) R1 Hi) as (s2 & p & Eg).
  destruct (get_record_rep aid s1 h _ s2 p R1 Hi Eg) as (R2 & _ & Hp).
  destruct (bdb_save_accept_overflow aid s2 h ar R2 Hi Hb) as [Hs _].
  assert (acceptor_receive_accept (Acceptor s) ar =
    ('(s3, q) ← storage_save_accept s2 ar; s4 ← storage_tx_commit s3; Ret (Acceptor s4, q))) as Ea.
  { unfold acceptor_receive_accept. simpl. rewrite Ht, bind_Ret. cbv beta.
    rewrite Eg, bind_Ret. cbv beta iota. unfold apply_accept. destruct p as [q|]; [|done].
    destruct Hp as (r & Hr & Hl). simpl. rewrite Hl, bind_Ret. cbv beta.
    case_Z; [|done]. pose proof (Hh r Hr). lia. }
  rewrite Ea, <-Hs. clear Ea. simpl. destruct (bdb_save_accept s2 ar) as [[s3 q]|e]; simpl;
    [|split; by intros [= ->]].
  split; [|done]. unfold bdb_tx_commit. destruct (bs_txn s3) as [t|]; simpl; [|done].
  destruct (txn_commit _ _) as [w r]. by destruct (r =? 0).
Qed.

(** ** Property *)

(** C39: on Berkeley DB storage an acceptor writes past the end of its record buffer
exactly when it is sent a value of more than 255968 bytes: any accept request
with up to 255984 bytes is read from its connection, whatever else is on it, and
if its ballot is not refused and the transaction starts, handling it is an access
out of bounds if and only if the value has more than 255968 bytes. *)
Theorem bdb_value_limit {B} `{EvbufferSpec B} hole from junk aid a s s1 h (inp : B) rest ar conns :
  EvAcceptor.state a = Some (Acceptor s) → carray_rep (TcpReceiver.bevs (receiver a)) conns →
  indexable (TcpReceiver.bevs (receiver a)) → bdb_rep aid s h →
  0 < ar_iid ar < UINT32_MOD → is_u32 (ar_ballot ar) → value_size (ar_value ar) ≤ 255984 →
  (∀ r, h !! ar_iid ar = Some r → aa_ballot r ≤ ar_ballot ar) → bdb_tx_begin s = Ret s1 →
  evb_content inp = wire hole (MAcceptReq ar) ++ rest →
  handle_req from junk a inp = Fault OutOfBounds ↔ 255968 < value_size (ar_value ar).
Proof using BR RD.
  intros Ea Rc Hx R Hi Hb Hv Hh Ht E.
  rewrite <-(receive_accept_limit aid s s1 h ar R Hi Hb Hh Ht).
  destruct (handle_req_handles hole from junk a inp (MAcceptReq ar) rest) as (inp' & _ & ->); [|done|].
  { split.
    - split; [unfold is_u32, UINT32_MOD in *; lia|]. split; [done|]. unfold value_wf. lia.
    - cbn [message_data]. unfold accept_req_bytes. rewrite !length_app, !length_le_bytes.
      unfold value_size, PAXOS_MAX_VALUE_SIZE in *. lia. }
  simpl. unfold handle_accept_req. rewrite Ea. simpl.
  destruct (acceptor_receive_accept (Acceptor s) ar) as [[st p]|e] eqn:Er; simpl;
    [|split; by intros [= ->]].
  split; [|done]. destruct (receive_accept_refines (SS:=bdb_storage_spec) aid (Acceptor s) h ar st p R Hi Hb Er) as [_ Hl].
  simpl in Hl. rewrite Hl. simpl. case_Z; [|done].
  unfold TcpReceiver.tcp_receiver_get_events. rewrite (send_each_ok _ _ _ conns); [done| |].
  - unfold carray_count. apply (rep_count _ _ Rc).
  - intros i bev Hbev. pose proof (lookup_lt_Some _ _ _ Hbev).
    rewrite (carray_at_ok _ _ _ Rc Hx) by lia. by rewrite Nat2Z.id, Hbev.
Qed.

End bdb.

(** ** Witness *)

(** Acceptor 1 on an empty Berkeley DB storage, with two connections. *)
Definition limit_node : evacceptor (storage_bdb kv) :=
  EvAcceptor 1 (TcpReceiver.Receiver (TcpReceiver.set_sockaddr_in (Net.Address "127.0.0.1" 8801)) ev_conns)
    (Some (Acceptor kv_opened)).

Definition large_request : accept_req := AcceptReq 1 11 (replicate (Z.to_nat 255970) x41).

Lemma bdb_value_limit_witness :
  handle_req 7 [] limit_node (wire 0 (MAcceptReq large_request) ++ [x42]) = Fault OutOfBounds.
Proof.
  apply (bdb_value_limit 0 7 [] 1 limit_node kv_opened
    (from_ret kv_opened (bdb_tx_begin kv_opened)) ∅ (wire 0 (MAcceptReq large_request) ++ [x42]) [x42]
    large_request [7; 9]).
  - reflexivity.
  - exact ev0_conns.
  - by vm_compute.
  - exact kv_opened_rep.
  - by vm_compute.
  - by vm_compute.
  - by vm_compute.
  - intros r Hr. by rewrite lookup_empty in Hr.
  - reflexivity.
  - reflexivity.
  - by vm_compute.
Defined.
