(* ===== verification/Storages.v ===== *)
(** * Interchangeable storages

An acceptor is linked with one of the two storages.  Here a run of an acceptor
is the list of its replies to a list of requests, [acceptor_run], and
[spec_run] computes the same on the map of records.  Any storage that meets
the contract replies as [spec_run] does, so two of them cannot be told apart;
the in-memory table also replies to everything, as long as the instances stay
in a window of its size and the values fit in its buffers. *)

From S2P Require Import Prelude Messages Storage StorageMem StorageBdb Acceptor.
#[local] Open Scope Z_scope.

(** What an acceptor is asked. *)
Inductive request : Type :=
  | RPrepare (pr : prepare_req)
  | RAccept (ar : accept_req)
  | RRepeat (iid : Z).

Definition request_iid (q : request) : Z :=
  match q with RPrepare pr => pr_iid pr | RAccept ar => ar_iid ar | RRepeat iid => iid end.

(** Instances are numbered from 1, ballots are 32-bit integers. *)
Definition request_ok (q : request) : Prop :=
  0 < request_iid q < UINT32_MOD ∧
  match q with
  | RPrepare pr => is_u32 (pr_ballot pr)
  | RAccept ar => is_u32 (ar_ballot ar)
  | RRepeat _ => True
  end.

Section run.
Context {S : Type} `{Storage S}.

(** One request, with the record the returned pointer shows. *)
Definition acceptor_serve (a : acceptor S) (q : request)
    : res (acceptor S * option acceptor_record) :=
  match q with
  | RPrepare pr =>
      '(a, p) ← acceptor_receive_prepare a pr; r ← rec_load (store a) p; Ret (a, Some r)
  | RAccept ar =>
      '(a, p) ← acceptor_receive_accept a ar; r ← rec_load (store a) p; Ret (a, Some r)
  | RRepeat iid =>
      '(a, p) ← acceptor_receive_repeat a iid;
      match p with
      | None => Ret (a, None)
      | Some p => r ← rec_load (store a) p; Ret (a, Some r)
      end
  end.

Fixpoint acceptor_run (a : acceptor S) (qs : list request)
    : res (acceptor S * list (option acceptor_record)) :=
  match qs with
  | [] => Ret (a, [])
  | q :: qs =>
      '(a, r) ← acceptor_serve a q;
      '(a, rs) ← acceptor_run a qs;
      Ret (a, r :: rs)
  end.

End run.

(** ** The same on the map of records *)

Section spec.
Context (aid : Z).
Implicit Types h : gmap Z acceptor_record.

Definition spec_serve h (q : request) : gmap Z acceptor_record * option acceptor_record :=
  match q with
  | RPrepare pr => let '(h, r) := spec_prepare aid h pr in (h, Some r)
  | RAccept ar => let '(h, r) := spec_accept aid h ar in (h, Some r)
  | RRepeat iid => (h, h !! iid)
  end.

Fixpoint spec_run h (qs : list request)
    : gmap Z acceptor_record * list (option acceptor_record) :=
  match qs with
  | [] => (h, [])
  | q :: qs =>
      let '(h, r) := spec_serve h q in
      let '(h, rs) := spec_run h qs in (h, r :: rs)
  end.

(** A request only touches the record of its instance. *)
Lemma spec_serve_dom h q iid :
  is_Some ((spec_serve h q).1 !! iid) → iid = request_iid q ∨ is_Some (h !! iid).
Proof.
  destruct q as [pr|ar|i]; simpl; [| |by right].
  - destruct (spec_prepare_cases aid h pr) as [(r & _ & -> & _)|[-> _]]; simpl; [by right|].
    rewrite lookup_insert_is_Some. intros [->|[_ ?]]; [by left|by right].
  - destruct (spec_accept_cases aid h ar) as [(r & _ & -> & _)|[-> _]]; simpl; [by right|].
    rewrite lookup_insert_is_Some. intros [->|[_ ?]]; [by left|by right].
Qed.

End spec.

(** ** Any storage that meets the contract *)

Section contract.
Context {S : Type} `{SS : StorageSpec S}.

Lemma serve_refines aid (a a' : acceptor S) h q r :
  store_rep aid (store a) h → request_ok q → acceptor_serve a q = Ret (a', r) →
  store_rep aid (store a') (spec_serve aid h q).1 ∧ r = (spec_serve aid h q).2.
Proof.
  intros R [Hi Hb] E. destruct q as [pr|ar|i]; simpl in *; inv_res.
  - destruct (receive_prepare_refines aid a h pr a' _ R Hi Hb E0) as [R' Hl]. same_ret.
    by destruct (spec_prepare aid h pr).
  - destruct (receive_accept_refines aid a h ar a' _ R Hi Hb E0) as [R' Hl]. same_ret.
    by destruct (spec_accept aid h ar).
  - destruct (receive_repeat_refines aid a h i _ _ R Hi E0) as [R' Hp].
    destruct o as [p|]; inv_res; [|done]. destruct Hp as (r2 & Hh & Hl). same_ret. done.
Qed.

Lemma run_refines aid (a a' : acceptor S) h qs rs :
  store_rep aid (store a) h → Forall request_ok qs → acceptor_run a qs = Ret (a', rs) →
  store_rep aid (store a') (spec_run aid h qs).1 ∧ rs = (spec_run aid h qs).2.
Proof.
  intros R Hq. revert a h rs R. induction Hq as [|q qs Hok _ IH]; intros a h rs R E; simpl in E.
  { by inv_res. }
  inv_res. destruct (serve_refines aid a _ h q _ R Hok E0) as [R1 ->].
  destruct (IH _ _ _ R1 E1) as [R2 ->]. simpl.
  destruct (spec_serve aid h q), (spec_run aid _ qs). done.
Qed.

End contract.

(** ** The in-memory table *)

(** The window the table can hold: instances of different slots. *)
Definition in_window (lo iid : Z) : Prop := lo ≤ iid < lo + MAX_RECORDS.

Definition window_request (lo : Z) (q : request) : Prop :=
  request_ok q ∧ in_window lo (request_iid q) ∧
  match q with RAccept ar => mem_fits (ar_value ar) = true | _ => True end.

Definition window_history (lo : Z) (h : gmap Z acceptor_record) : Prop :=
  ∀ iid, is_Some (h !! iid) → in_window lo iid.

Lemma window_slot lo i j : in_window lo i → in_window lo j → mem_slot i = mem_slot j → i = j.
Proof.
  unfold in_window, mem_slot. intros Hi Hj E.
  cut (i - lo = j - lo); [lia|].
  apply (mod_add_inj lo (i - lo) (j - lo) MAX_RECORDS); [reflexivity|lia|lia|].
  by replace (lo + (i - lo)) with i by lia; replace (lo + (j - lo)) with j by lia.
Qed.

Lemma mem_get_window aid s h lo iid :
  mem_rep aid s h → window_history lo h → in_window lo iid → 0 < iid →
  ∃ p, mem_get_record s iid = Ret (s, p).
Proof.
  intros R Hw Hi Hpos. destruct (arr_get_total (sm_records s) (mem_slot iid)) as [b Hb].
  { rewrite (mr_len _ _ _ R). apply mem_slot_range. }
  unfold mem_get_record, mem_load. rewrite Hb. simpl.
  destruct (Z.ltb_spec iid (aa_iid b)) as [Hlt|_]; [|case_Z; eauto].
  apply arr_get_inv in Hb as [Hs Hl].
  destruct (mr_slot _ _ _ R _ _ Hs Hl) as [_ Hkn _].
  destruct (Hkn ltac:(lia)) as [Hm Hh].
  pose proof (window_slot lo (aa_iid b) iid ltac:(eauto) Hi Hm). lia.
Qed.

Lemma mem_store_total aid s h k r :
  mem_rep aid s h → 0 ≤ k < MAX_RECORDS → ∃ s', mem_store s k r = Ret s'.
Proof.
  intros R Hk. unfold mem_store. rewrite arr_set_ok by (rewrite (mr_len _ _ _ R); lia).
  simpl. eauto.
Qed.

Lemma mem_load_total aid s h k :
  mem_rep aid s h → 0 ≤ k < MAX_RECORDS → ∃ r, mem_load s k = Ret r.
Proof. intros R Hk. apply arr_get_total. by rewrite (mr_len _ _ _ R). Qed.

(** What the lookup found is a slot of the table. *)
Lemma mem_found_slot aid s h iid q :
  mem_rep aid s h → 0 < iid → mem_get_record s iid = Ret (s, Some q) → 0 ≤ q < MAX_RECORDS.
Proof.
  intros R Hpos E.
  destruct (mem_get_record_spec aid s h iid s (Some q) R Hpos E) as (_ & (r & _ & -> & _) & _).
  apply mem_slot_range.
Qed.

Lemma mem_save_prepare_total aid s h pr p :
  mem_rep aid s h → (∀ q, p = Some q → 0 ≤ q < MAX_RECORDS) →
  is_ret (mem_save_prepare s pr p) = true.
Proof.
  intros R Hp. unfold mem_save_prepare. destruct p as [q|].
  - destruct (mem_load_total aid s h q R (Hp q eq_refl)) as [r ->]. simpl.
    destruct (mem_store_total aid s h q (AcceptAck (aa_acceptor_id r) (aa_iid r) (pr_ballot pr)
      (aa_value_ballot r) (aa_is_final r) (aa_value r)) R (Hp q eq_refl)) as [s' ->]. done.
  - destruct (mem_store_total aid s h (mem_slot (pr_iid pr)) (AcceptAck (sm_acceptor_id s)
      (pr_iid pr) (pr_ballot pr) 0 0 []) R (mem_slot_range _)) as [s' ->]. done.
Qed.

Lemma mem_save_accept_total aid s h ar :
  mem_rep aid s h → mem_fits (ar_value ar) = true → is_ret (mem_save_accept s ar) = true.
Proof.
  intros R Hf. unfold mem_save_accept. rewrite Hf.
  destruct (mem_store_total aid s h (mem_slot (ar_iid ar)) (AcceptAck (sm_acceptor_id s)
    (ar_iid ar) (ar_ballot ar) (ar_ballot ar) 0 (ar_value ar)) R (mem_slot_range _)) as [s' ->].
  done.
Qed.

Lemma is_ret_inv {A} (m : res A) : is_ret m = true → ∃ a, m = Ret a.
Proof. destruct m; [eauto|done]. Qed.

Lemma mem_apply_prepare_total aid s h pr p :
  mem_rep aid s h → (∀ q, p = Some q → 0 ≤ q < MAX_RECORDS) →
  is_ret (apply_prepare s pr p) = true.
Proof.
  intros R Hp. pose proof (mem_save_prepare_total aid s h pr p R Hp) as Hs.
  destruct p as [q|]; [|done]. unfold apply_prepare. simpl.
  destruct (mem_load_total aid s h q R (Hp q eq_refl)) as [r Hr].
  unfold mem_save_prepare in Hs. rewrite Hr in Hs |- *. simpl in Hs |- *.
  destruct (pr_ballot pr <=? aa_ballot r); [done|].
  destruct (aa_is_final r =? 0); [exact Hs|done].
Qed.

Lemma mem_apply_accept_total aid s h ar p :
  mem_rep aid s h → mem_fits (ar_value ar) = true →
  (∀ q, p = Some q → 0 ≤ q < MAX_RECORDS) → is_ret (apply_accept s ar p) = true.
Proof.
  intros R Hf Hp. pose proof (mem_save_accept_total aid s h ar R Hf) as Hs.
  destruct p as [q|]; [|done]. unfold apply_accept. simpl.
  destruct (mem_load_total aid s h q R (Hp q eq_refl)) as [r ->]. simpl.
  destruct (ar_ballot ar <? aa_ballot r); [done|exact Hs].
Qed.

Lemma mem_serve_total aid lo (a : acceptor storage_mem) h q :
  mem_rep aid (store a) h → window_history lo h → window_request lo q →
  ∃ a' r, acceptor_serve a q = Ret (a', r).
Proof.
  intros R Hw ([Hi Hb] & Hin & Hv). pose proof (R : store_rep aid (store a) h) as Rs.
  destruct (mem_get_window aid (store a) h lo (request_iid q) R Hw Hin ltac:(lia)) as [p Hg].
  assert (∀ k, p = Some k → 0 ≤ k < MAX_RECORDS) as Hp.
  { intros k ->. apply (mem_found_slot aid (store a) h (request_iid q)); [done|lia|done]. }
  destruct q as [pr|ar|i]; simpl in Hi, Hb, Hin, Hv, Hg |- *.
  - destruct (is_ret_inv _ (mem_apply_prepare_total aid _ h pr p R Hp)) as [[s' k] E].
    assert (acceptor_receive_prepare a pr = Ret (Acceptor s', k)) as Ha.
    { unfold acceptor_receive_prepare. simpl. rewrite Hg. simpl. by rewrite E. }
    destruct (receive_prepare_refines aid a h pr _ _ Rs Hi Hb Ha) as [_ Hl].
    rewrite Ha. simpl in Hl |- *. rewrite Hl. simpl. eauto.
  - destruct (is_ret_inv _ (mem_apply_accept_total aid _ h ar p R Hv Hp)) as [[s' k] E].
    assert (acceptor_receive_accept a ar = Ret (Acceptor s', k)) as Ha.
    { unfold acceptor_receive_accept. simpl. rewrite Hg. simpl. by rewrite E. }
    destruct (receive_accept_refines aid a h ar _ _ Rs Hi Hb Ha) as [_ Hl].
    rewrite Ha. simpl in Hl |- *. rewrite Hl. simpl. eauto.
  - unfold acceptor_receive_repeat. simpl. rewrite Hg. simpl. destruct p as [k|]; [|eauto].
    destruct (mem_load_total aid (store a) h k R (Hp k eq_refl)) as [r ->]. simpl. eauto.
Qed.

Lemma mem_run_total aid lo (a : acceptor storage_mem) h qs :
  mem_rep aid (store a) h → window_history lo h → Forall (window_request lo) qs →
  ∃ a' rs, acceptor_run a qs = Ret (a', rs).
Proof.
  intros R Hw Hq. revert a h R Hw. induction Hq as [|q qs Hok _ IH]; intros a h R Hw; simpl.
  { eauto. }
  destruct (mem_serve_total aid lo a h q R Hw Hok) as (a1 & r & E). rewrite E. simpl.
  destruct (serve_refines (SS:=mem_storage_spec) aid a a1 h q r R (proj1 Hok) E) as [R1 _].
  destruct (IH a1 _ R1) as (a2 & rs & ->); [|simpl; eauto].
  intros iid [->|Hs]%spec_serve_dom; [apply Hok|by apply Hw].
Qed.

(** ** Properties *)

(** C27: storages are interchangeable: an acceptor over any storage that meets
the contract and one over the in-memory table, with the same records, give the
same replies to the same requests and end with the same records; and the
in-memory one does reply to all of them, as long as the instances stay in a
window of [MAX_RECORDS] and the values fit in its buffers. *)
Theorem storages_interchangeable {S} `{StorageSpec S} aid lo h
    (a : acceptor S) (m : acceptor storage_mem) qs :
  store_rep aid (store a) h → mem_rep aid (store m) h →
  window_history lo h → Forall (window_request lo) qs →
  ∃ m' rs, acceptor_run m qs = Ret (m', rs) ∧
    ∀ a' rs', acceptor_run a qs = Ret (a', rs') →
      rs' = rs ∧ ∃ h', store_rep aid (store a') h' ∧ mem_rep aid (store m') h'.
Proof.
  intros Ra Rm Hw Hq.
  destruct (mem_run_total aid lo m h qs Rm Hw Hq) as (m' & rs & Em).
  exists m', rs. split; [done|]. intros a' rs' Ea.
  assert (Forall request_ok qs) as Hok by (eapply Forall_impl; [done|]; by intros q [? _]).
  destruct (run_refines (SS:=mem_storage_spec) aid m m' h qs rs Rm Hok Em) as [Rm' ->].
  destruct (run_refines aid a a' h qs rs' Ra Hok Ea) as [Ra' ->]. eauto.
Qed.

(** Berkeley DB and the table, both opened empty by acceptor 1. *)
Definition bdb_node : acceptor (storage_bdb kv) := Acceptor kv_opened.
Definition mem_node : acceptor storage_mem := Acceptor (storage_mem_open 1 (λ _, zero_record)).

Definition requests : list request :=
  [RPrepare (PrepareReq 1 101); RAccept (AcceptReq 1 101 [x41]); RRepeat 1; RRepeat 2;
   RPrepare (PrepareReq 1 201); RAccept (AcceptReq 1 101 [x42])].

Lemma storages_interchangeable_witness :
  (from_ret (bdb_node, []) (acceptor_run bdb_node requests)).2 =
  (from_ret (mem_node, []) (acceptor_run mem_node requests)).2.
Proof.
  destruct (storages_interchangeable (S:=storage_bdb kv) 1 1 ∅ bdb_node mem_node requests)
    as (m' & rs & Em & Ha).
  - exact kv_opened_rep.
  - apply mem_open_rep.
  - intros iid [r Hr]. rewrite lookup_empty in Hr. discriminate Hr.
  - unfold requests, window_request, request_ok, in_window, is_u32, MAX_RECORDS, UINT32_MOD.
    repeat (apply Forall_cons_2; [simpl; repeat split; lia|]). apply Forall_nil_2.
  - rewrite Em.
    assert (is_ret (acceptor_run bdb_node requests) = true) as Hr by (vm_compute; reflexivity).
    destruct (is_ret_inv _ Hr) as [[a' rs'] Ea]. destruct (Ha a' rs' Ea) as [-> _].
    rewrite Ea. reflexivity.
Defined.
