(* ===== verification/Progress.v ===== *)
(** * Progress

Paxos promises no progress when proposers compete, but a proposer that is
alone, with a majority of acceptors that answer, must get its clients' values
chosen and delivered.  A round is what the nodes do for one value when no
message is lost: prepare, promises, accept request, acknowledgements to the
proposer and to a learner, delivery.  The rounds are composed from the C
functions of the three roles; the lemmas follow the round step by step, and
the property runs as many rounds as there are client values. *)

From S2P Require Import Prelude Carray Quorum Messages Storage StorageMem Acceptor.
From S2P Require Import Proposer ProposerRun Learner Storages.
#[local] Open Scope Z_scope.

(** ** A round *)

(** A request to some acceptors, with their answers. *)
Fixpoint broadcast (nodes : list (acceptor storage_mem)) (q : request)
    : res (list (acceptor storage_mem) * list acceptor_record) :=
  match nodes with
  | [] => Ret ([], [])
  | a :: nodes =>
      '(a, r) ← acceptor_serve a q;
      r ← deref r;
      '(nodes, rs) ← broadcast nodes q;
      Ret (a :: nodes, r :: rs)
  end.

Fixpoint receive_accepts (p : proposer) (acks : list accept_ack) (now : timeval) : res proposer :=
  match acks with
  | [] => Ret p
  | ack :: acks =>
      '(p, _) ← proposer_receive_accept_ack p ack now;
      receive_accepts p acks now
  end.

Fixpoint learn_accepts (l : learner) (acks : list accept_ack) : res learner :=
  match acks with
  | [] => Ret l
  | ack :: acks => l ← learner_receive_accept l ack; learn_accepts l acks
  end.

Fixpoint propose_all (p : proposer) (vals : list bytes) : res proposer :=
  match vals with
  | [] => Ret p
  | v :: vals => p ← proposer_propose p v; propose_all p vals
  end.

Definition cluster : Type := proposer * list (acceptor storage_mem) * learner.

Definition paxos_round (now : timeval) (junk : nat → Z) (c : cluster)
    : res (cluster * option accept_ack) :=
  let '(p, nodes, l) := c in
  '(p, pr) ← proposer_prepare p now junk;
  '(nodes, promises) ← broadcast nodes (RPrepare pr);
  p ← receive_promises p (prepare_ack_of <$> promises) now;
  '(p, r) ← proposer_accept p;
  ar ← deref r;
  '(nodes, acks) ← broadcast nodes (RAccept ar);
  p ← receive_accepts p acks now;
  l ← learn_accepts l acks;
  '(l, o) ← learner_deliver_next l;
  Ret ((p, nodes, l), o).

(** The acknowledgements delivered by [k] rounds. *)
Fixpoint paxos_rounds (k : nat) (now : timeval) (junk : nat → Z) (c : cluster)
    : res (cluster * list accept_ack) :=
  match k with
  | O => Ret (c, [])
  | S k =>
      '(c, o) ← paxos_round now junk c;
      v ← deref o;
      '(c, vs) ← paxos_rounds k now junk c;
      Ret (c, v :: vs)
  end.

(** ** The acceptors *)

Definition node_reps (hs : Z → gmap Z acceptor_record) : list Z → list (acceptor storage_mem) → Prop :=
  Forall2 (λ id a, mem_rep id (store a) (hs id)).

Lemma node_reps_ext hs hs' ids nodes :
  (∀ id, id ∈ ids → hs id = hs' id) → node_reps hs ids nodes → node_reps hs' ids nodes.
Proof.
  intros E HF. induction HF as [|id a ids nodes R _ IH]; constructor.
  - rewrite <-E by (by left). done.
  - apply IH. intros j Hj. apply E. by right.
Qed.

Lemma broadcast_ok lo q (r : Z → acceptor_record) hs ids nodes :
  node_reps hs ids nodes → window_request lo q →
  (∀ id, id ∈ ids → window_history lo (hs id) ∧ (spec_serve id (hs id) q).2 = Some (r id)) →
  ∃ nodes', broadcast nodes q = Ret (nodes', r <$> ids) ∧
    node_reps (λ id, (spec_serve id (hs id) q).1) ids nodes'.
Proof.
  intros HF Hq. induction HF as [|id a ids nodes R _ IH]; intros Hr; simpl.
  { exists []. split; [done|constructor]. }
  destruct (Hr id ltac:(by left)) as [Hw Hid].
  destruct (mem_serve_total id lo a (hs id) q R Hw Hq) as (a' & o & E).
  destruct (serve_refines (SS:=mem_storage_spec) id a a' (hs id) q o R (proj1 Hq) E) as [R' ->].
  rewrite E, Hid. simpl. destruct IH as (nodes' & -> & HF'); [intros; apply Hr; by right|].
  simpl. exists (a' :: nodes'). split; [done|]. by constructor.
Qed.

(** The records an acceptor has of the instances before [iid]. *)
Definition before (lo iid : Z) (h : gmap Z acceptor_record) : Prop :=
  ∀ i, is_Some (h !! i) → lo ≤ i < iid.

Lemma before_window lo iid h : before lo iid h → iid < lo + MAX_RECORDS → window_history lo h.
Proof. intros Hb Hi i Hs. specialize (Hb i Hs). unfold in_window. lia. Qed.

Lemma before_fresh lo iid h : before lo iid h → h !! iid = None.
Proof. intros Hb. destruct (h !! iid) eqn:E; [|done]. destruct (Hb iid); [by eexists|lia]. Qed.

Lemma before_insert lo iid h r : lo ≤ iid → before lo iid h → before lo (iid + 1) (<[iid := r]> h).
Proof.
  intros Hlo Hb i [->|[_ Hi%Hb]]%lookup_insert_is_Some; lia.
Qed.

Section phases.
Context (n lo iid b : Z) (v : bytes).
Hypothesis Hiid : lo ≤ iid < lo + MAX_RECORDS.
Hypothesis Hpos : 0 < iid < UINT32_MOD.
Hypothesis Hb : is_u32 b.
Hypothesis Hfit : mem_fits v = true.

(** The first phase, on acceptors that know nothing of the instance. *)
Lemma prepare_phase hs ids nodes :
  node_reps hs ids nodes → (∀ id, id ∈ ids → before lo iid (hs id)) →
  ∃ nodes', broadcast nodes (RPrepare (PrepareReq iid b)) =
      Ret (nodes', (λ id, AcceptAck id iid b 0 0 []) <$> ids) ∧
    node_reps (λ id, <[iid := AcceptAck id iid b 0 0 []]> (hs id)) ids nodes'.
Proof using Hiid Hpos Hb.
  intros HF Hbf. destruct (broadcast_ok lo (RPrepare (PrepareReq iid b))
    (λ id, AcceptAck id iid b 0 0 []) hs ids nodes HF) as (nodes' & E & HF').
  - by split; [|split].
  - intros id Hid. specialize (Hbf id Hid). split; [eapply before_window; [done|lia]|].
    simpl. unfold spec_prepare. simpl. by rewrite (before_fresh lo).
  - exists nodes'. split; [done|]. eapply node_reps_ext; [|exact HF']. intros id Hid.
    simpl. unfold spec_prepare. simpl. by rewrite (before_fresh lo) by auto.
Qed.

(** The second phase, right after the first. *)
Lemma accept_phase hs ids nodes :
  node_reps (λ id, <[iid := AcceptAck id iid b 0 0 []]> (hs id)) ids nodes →
  (∀ id, id ∈ ids → before lo iid (hs id)) →
  ∃ nodes', broadcast nodes (RAccept (AcceptReq iid b v)) =
      Ret (nodes', (λ id, AcceptAck id iid b b 0 v) <$> ids) ∧
    node_reps (λ id, <[iid := AcceptAck id iid b b 0 v]> (hs id)) ids nodes'.
Proof using Hiid Hpos Hb Hfit.
  intros HF Hbf.
  assert (∀ id, spec_serve id (<[iid := AcceptAck id iid b 0 0 []]> (hs id))
    (RAccept (AcceptReq iid b v)) =
    (<[iid := AcceptAck id iid b b 0 v]> (hs id), Some (AcceptAck id iid b b 0 v))) as Hs.
  { intros id. simpl. unfold spec_accept. simpl. rewrite lookup_insert_eq. simpl.
    by rewrite Z.ltb_irrefl, insert_insert_eq. }
  destruct (broadcast_ok lo (RAccept (AcceptReq iid b v)) (λ id, AcceptAck id iid b b 0 v)
    _ ids nodes HF) as (nodes' & E & HF').
  - by split; [|split].
  - intros id Hid. cbv beta. rewrite Hs. split; [|done].
    intros i [->|[_ Hi]]%lookup_insert_is_Some; [done|].
    by apply (before_window lo iid (hs id)); [auto|lia|].
  - exists nodes'. split; [done|]. eapply node_reps_ext; [|exact HF']. intros id _.
    cbv beta. by rewrite Hs.
Qed.

End phases.

(** ** The proposer *)

(** [k] free slots in an array that will not have to grow. *)
Definition room {A} (c : carray A) (k : Z) : Prop :=
  carray_count c + k ≤ ca_size c ∧ ca_size c < 2 ^ 30.

Lemma room_roomy {A} (c : carray A) k : 0 ≤ k → room c k → roomy c.
Proof. intros Hk [Hc Hs]. unfold roomy. lia. Qed.

Lemma push_back_keeps_room {A} (c c' : carray A) l x k :
  carray_rep c l → 0 ≤ k → room c (k + 1) → carray_push_back c x = Ret c' →
  carray_rep c' (l ++ [x]) ∧ ca_size c' = ca_size c ∧ room c' k.
Proof.
  intros R Hk [Hc Hs] E. unfold carray_count in Hc. rewrite (rep_count _ _ R) in Hc.
  destruct (push_back_room c l x R ltac:(lia)) as (c1 & E1 & R1 & S1 & _). same_ret.
  split; [done|]. split; [done|]. unfold room, carray_count. rewrite (rep_count _ _ R1), S1.
  rewrite length_app. simpl. lia.
Qed.

Section lone.
Context (n : Z) (now : timeval).

(** An acknowledgement for the only instance in the accept queue, from an
acceptor not yet counted. *)
Lemma receive_accept_counted p vs inst S ack :
  proposer_inv n p vs [] [inst] → indexable (p_accept_instances p) →
  aa_iid ack = i_iid inst → aa_ballot ack = i_ballot inst → aa_value_ballot ack = i_ballot inst →
  quorum_rep (i_quorum inst) n S → 0 ≤ aa_acceptor_id ack < n →
  q_acceptor_ids (i_quorum inst) !! Z.to_nat (aa_acceptor_id ack) = Some 0 →
  ∃ p' q, proposer_receive_accept_ack p ack now = Ret (p', None) ∧
    quorum_rep q n ({[aa_acceptor_id ack]} ∪ S) ∧
    q_acceptor_ids q = <[Z.to_nat (aa_acceptor_id ack) := 1]> (q_acceptor_ids (i_quorum inst)) ∧
    same_ids p p' ∧ p_values p' = p_values p ∧ p_prepare_instances p' = p_prepare_instances p ∧
    ca_size (p_accept_instances p') = ca_size (p_accept_instances p) ∧
    proposer_inv n p' vs [] (if quorum_reached q then [] else [set_quorum q inst]).
Proof.
  intros I Hx Hi Hb Hvb HS Hid Hf. destruct (pi_rep _ _ _ _ _ I) as [Rv Rp Ra].
  destruct (quorum_add_fresh _ _ _ _ HS Hid Hf) as (q & Hq & HS' & Hfl).
  pose proof (instance_at_ok _ _ 0 inst Ra Hx ltac:(lia) eq_refl) as Hat.
  set (c := carray_poke (p_accept_instances p) 0 (set_quorum q inst)).
  assert (carray_rep c [set_quorum q inst]) as Rc by (apply (poke_ok _ [inst] 0); [done|simpl; lia]).
  assert (proposer_inv n (set_accept c p) vs [] [set_quorum q inst]) as I1.
  { apply (inv_update_a n p vs [] [inst] I (set_accept c p) vs 0 inst); try done.
    eapply inst_ok_quorum; [|done]. by apply (inv_lookup_a _ _ _ _ _ I 0). }
  assert (proposer_receive_accept_ack p ack now =
    if quorum_reached q then c' ← instance_remove c (set_quorum q inst); Ret (set_accept c' p, None)
    else Ret (set_accept c p, None)) as E.
  { unfold proposer_receive_accept_ack, instance_find, carray_count.
    rewrite (rep_count _ _ Ra). simpl. rewrite Hat. simpl. rewrite Hi, Z.eqb_refl. simpl.
    rewrite Hat. simpl. rewrite Hb, Hvb, Z.eqb_refl. simpl. rewrite Hq. done. }
  destruct (quorum_reached q) eqn:Hr; [|by exists (set_accept c p), q; rewrite Hr].
  destruct (carray_map_ok instance_match (set_quorum q inst) 0 c _ Rc Hx) as (c' & Ec & _ & Sc).
  unfold instance_remove, carray_reject in E. rewrite Ec in E.
  exists (set_accept c' p), q. rewrite Hr. do 6 (split; [done|]). split; [done|].
  pose proof (instance_remove_inv c _ (set_quorum q inst) c' Rc Ec) as Rc'.
  assert (filter (λ y, i_iid y ≠ i_iid inst) [set_quorum q inst] = []) as Hnil
    by (rewrite filter_cons_False; [done|]; intros Hne; by apply Hne).
  pose proof (inv_filter_a n _ _ _ _ I1 (set_accept c' p) (λ y, i_iid y ≠ i_iid inst)) as I2.
  rewrite Hnil in I2. apply I2; [|done]. simpl in Rc'. rewrite Hnil in Rc'. by split.
Qed.

(** The acknowledgements that make up the quorum empty the accept queue. *)
Lemma receive_accepts_ok acks p vs inst S :
  proposer_inv n p vs [] [inst] → indexable (p_accept_instances p) →
  quorum_rep (i_quorum inst) n S → NoDup (aa_acceptor_id <$> acks) → acks ≠ [] →
  Z.of_nat (size S) + Z.of_nat (length acks) = paxos_quorum n →
  (∀ ack, ack ∈ acks → aa_iid ack = i_iid inst ∧ aa_ballot ack = i_ballot inst ∧
     aa_value_ballot ack = i_ballot inst ∧ 0 ≤ aa_acceptor_id ack < n ∧
     q_acceptor_ids (i_quorum inst) !! Z.to_nat (aa_acceptor_id ack) = Some 0) →
  ∃ p', receive_accepts p acks now = Ret p' ∧ same_ids p p' ∧ p_values p' = p_values p ∧
    p_prepare_instances p' = p_prepare_instances p ∧
    ca_size (p_accept_instances p') = ca_size (p_accept_instances p) ∧
    proposer_inv n p' vs [] [].
Proof.
  revert p inst S. induction acks as [|ack acks IH]; intros p inst S I Hx HS U Hne Hsz Hall; [done|].
  destruct (Hall ack ltac:(by left)) as (Ei & Eb & Evb & Hid & Hf).
  destruct (receive_accept_counted p vs inst S ack) as
    (p1 & q & E & HS1 & Hfl & Hids & Ev & Ep & Sa & I1); [done..|].
  simpl in U. apply NoDup_cons in U as [Hnin U].
  assert (aa_acceptor_id ack ∉ S) as HnS.
  { intros Hin. destruct (qr_flag _ _ _ HS _ Hin) as [_ Hfl1]. congruence. }
  assert (size ({[aa_acceptor_id ack]} ∪ S) = size S + 1)%nat as Hs1
    by (rewrite size_union, size_singleton by set_solver; lia).
  simpl. rewrite E. simpl. simpl in Hsz. pose proof (quorum_reached_iff _ _ _ HS1) as Hq.
  rewrite Hs1 in Hq. destruct (quorum_reached q) eqn:Er.
  - assert (acks = []) as -> by (destruct acks; [done|]; simpl in Hsz; destruct Hq as [Hq _];
      specialize (Hq eq_refl); lia).
    simpl. exists p1. done.
  - destruct (IH p1 (set_quorum q inst) ({[aa_acceptor_id ack]} ∪ S))
      as (p2 & E2 & Hids2 & Ev2 & Ep2 & Sa2 & I2); [done|unfold indexable; by rewrite Sa|done|done| | |..].
    + intros ->. simpl in Hsz. destruct Hq as [_ Hq]. discriminate Hq. lia.
    + lia.
    + intros a Ha. destruct (Hall a ltac:(by right)) as (? & ? & ? & ? & Hfa).
      do 4 (split; [done|]). simpl. rewrite Hfl, list_lookup_insert_ne; [done|].
      intros Heq. apply Hnin. replace (aa_acceptor_id ack) with (aa_acceptor_id a) by lia.
      by apply list_elem_of_fmap_2.
    + exists p2. split; [done|]. split; [by eapply same_ids_trans|].
      do 3 (split; [congruence|]). done.
Qed.

End lone.

(** The arrays [proposer_accept] touches when it sends a request. *)
Lemma accept_arrays n p vs ps acs p' r :
  proposer_inv n p vs ps acs → proposer_accept p = Ret (p', Some r) →
  ca_size (p_values p') = ca_size (p_values p) ∧
  ca_size (p_prepare_instances p') = ca_size (p_prepare_instances p) ∧
  ∃ x, carray_push_back (p_accept_instances p) x = Ret (p_accept_instances p').
Proof.
  intros I E. destruct (pi_rep _ _ _ _ _ I) as [Rv Rp Ra]. unfold proposer_accept in E.
  apply bind_inv in E as ([c front] & Ef & E).
  apply (accept_front_inv _ _ ps) in Ef as (-> & Hh & _); [|done|by eapply inv_closed].
  destruct front as [inst|]; [|by inv_res]. destruct (Hh inst eq_refl) as [Hhd _].
  assert (∃ rest, ps = inst :: rest) as [rest ->] by (destruct ps; simplify_eq/=; eauto).
  set (p0 := set_prepare _ p) in E.
  apply bind_inv in E as ([p1 v] & Et & E).
  assert (ca_size (p_values p1) = ca_size (p_values p) ∧
    p_prepare_instances p1 = p_prepare_instances p ∧
    p_accept_instances p1 = p_accept_instances p) as (Sv & Ep & Ea).
  { unfold take_value in Et. destruct (i_value inst); [by inv_res|].
    destruct (pop_front_ok _ _ Rv) as (c & Ec & _ & Sc). simpl in Et. rewrite Ec in Et.
    simpl in Et. by inv_res. }
  destruct v as [v|]; [|by inv_res]. rewrite Ep, Ea in E.
  pose proof (poke_ok _ _ 0 (set_value (i_value_ballot inst) (Some v) inst) Rp) as Rp'.
  destruct (pop_front_ok _ _ (Rp' ltac:(simpl; lia))) as (c & Ec & _ & Sc).
  rewrite Ec in E. simpl in E. inv_res. simpl. eauto.
Qed.

(** What the promises and acknowledgements of a round say. *)
Definition promise_with (vb iid b id : Z) : prepare_ack := PrepareAck id iid b vb [].
Definition promise_for : Z → Z → Z → prepare_ack := promise_with 0.
Definition accepted_by (iid b : Z) (v : bytes) (id : Z) : accept_ack := AcceptAck id iid b b 0 v.

(** The state between rounds: no instance is open, the values wait. *)
Record idle (n : Z) (p : proposer) (vs : list paxos_msg) : Prop := {
  id_inv : proposer_inv n p vs [] [];
  id_values : room (p_values p) (paxos_quorum n);
  id_prepare : room (p_prepare_instances p) 1;
  id_accept : room (p_accept_instances p) 1;
}.

Lemma room_size {A} (c c' : carray A) l l' k :
  carray_rep c l → carray_rep c' l' → (length l' ≤ length l)%nat → ca_size c' = ca_size c →
  room c k → room c' k.
Proof.
  unfold room, carray_count. intros R R' Hl Hs. rewrite (rep_count _ _ R), (rep_count _ _ R'), Hs. lia.
Qed.

Section proposer_round.
Context (n : Z) (now : timeval) (junk : nat → Z) (ids : list Z).
Hypothesis Hids : ids ≡ₚ seqZ 0 (paxos_quorum n).

Lemma quorum_ids : NoDup ids ∧ Z.of_nat (length ids) = Z.max 0 (paxos_quorum n) ∧
  ∀ id, id ∈ ids → 0 ≤ id < paxos_quorum n.
Proof using Hids.
  rewrite Hids. split; [apply NoDup_seqZ|]. split; [rewrite length_seqZ; lia|].
  intros id. rewrite Hids, elem_of_seqZ. lia.
Qed.

(** The three steps, with what the next one needs of the open instance. *)
Record opened (inst : instance) (iid b : Z) (v : option paxos_msg) : Prop := {
  op_iid : i_iid inst = iid;
  op_ballot : i_ballot inst = b;
  op_value : i_value inst = v;
  op_quorum : quorum_rep (i_quorum inst) n ∅;
  op_low : low_flags_clear n (i_quorum inst);
}.

(** Same arrays as far as their sizes go. *)
Definition same_sizes (p p' : proposer) : Prop :=
  ca_size (p_values p') = ca_size (p_values p) ∧
  ca_size (p_prepare_instances p') = ca_size (p_prepare_instances p) ∧
  ca_size (p_accept_instances p') = ca_size (p_accept_instances p).

Lemma prepare_opens p vs :
  idle n p vs → p_next_prepare_iid p + 1 < UINT32_MOD →
  let iid := p_next_prepare_iid p + 1 in
  let b := MAX_N_OF_PROPOSERS + p_id p in
  ∃ p1 inst, proposer_prepare p now junk = Ret (p1, PrepareReq iid b) ∧
    proposer_inv n p1 vs [inst] [] ∧ opened inst iid b None ∧
    same_sizes p p1 ∧ p_accept_instances p1 = p_accept_instances p ∧
    p_id p1 = p_id p ∧ p_next_prepare_iid p1 = iid.
Proof using Type.
  intros [I Hv Hp Ha] Hw iid b. pose proof (pi_n _ _ _ _ _ I) as Hn.
  destruct (prepare_total n p vs [] [] I (room_roomy _ 1 ltac:(lia) Hp) now junk) as [[p1 out] E].
  destruct (inv_prepare n p vs [] [] I now junk p1 out Hw E)
    as (inst & I1 & Ei & Ev & _ & Eb & HS & Hid & Hnx & ->).
  destruct (prepare_inv _ _ _ _ (pi_rep _ _ _ _ _ I) _ _ _ _ E) as (q & Hq & R1 & _).
  rewrite (pi_acceptors _ _ _ _ _ I) in Hq.
  destruct (rep_unique _ _ _ _ _ _ _ (pi_rep _ _ _ _ _ I1) R1) as (_ & [= Einst] & _).
  exists p1, inst. rewrite Ei, Eb in E. split; [done|]. split; [done|]. split.
  { split; [done|done|done|done|]. rewrite <-Einst. by apply (quorum_init_low n junk). }
  unfold proposer_prepare in E. inv_res. simpl.
  destruct (pi_rep _ _ _ _ _ I) as [_ Rp _].
  match goal with H : carray_push_back _ _ = Ret _ |- _ =>
    destruct (push_back_keeps_room _ _ _ _ 0 Rp ltac:(lia) Hp H) as (_ & Sp & _) end.
  done.
Qed.

(** Promises that carry no value, whatever value ballot [vb] they report. *)
Lemma promises_send vb p inst m vs iid b :
  proposer_inv n p (m :: vs) [inst] [] → opened inst iid b None →
  room (p_values p) (paxos_quorum n) → ca_size (p_prepare_instances p) < 2 ^ 30 →
  room (p_accept_instances p) 1 →
  ∃ p2 p3 inst3, receive_promises p (promise_with vb iid b <$> ids) now = Ret p2 ∧
    proposer_accept p2 = Ret (p3, Some (AcceptReq iid b (m_data m))) ∧
    proposer_inv n p3 vs [] [inst3] ∧ opened inst3 iid b (Some m) ∧
    same_sizes p p3 ∧ same_ids p p3.
Proof using Hids.
  intros I [Ei Eb Ev HS Hlow] [Hc Hs] Hp Ha. destruct quorum_ids as (U & Hlen & Hid).
  pose proof (pi_n _ _ _ _ _ I) as Hn. pose proof (paxos_quorum_bounds n ltac:(lia)) as Hq.
  destruct (pi_rep _ _ _ _ _ I) as [Rv _ _]. unfold carray_count in Hc. rewrite (rep_count _ _ Rv) in Hc.
  assert ((∀ ack, ack ∈ promise_with vb iid b <$> ids → pa_value ack = []) ∧
    pa_acceptor_id <$> (promise_with vb iid b <$> ids) = ids) as [Hempty Eids].
  { split; [by intros ack (id & -> & _)%list_elem_of_fmap|].
    rewrite <-list_fmap_compose. apply list_fmap_id. }
  destruct (receive_promises_ok n now (promise_with vb iid b <$> ids) p (m :: vs) [inst] [] 0 inst ∅)
    as (p2 & vs2 & inst2 & E2 & I2 & Sv & Sp & Hs2 & Ea & (Ei2 & Eb2 & _ & Hv2 & _) & HS2 & Hvs2);
    [done|unfold indexable; lia|rewrite length_fmap; lia|done|done|by rewrite Eids| |].
  { intros ack (id & -> & Hin)%list_elem_of_fmap. specialize (Hid id Hin). simpl.
    split; [done|]. split; [done|]. split; [lia|]. by apply Hlow. }
  rewrite (Hvs2 Hempty) in I2. rewrite Eids, (right_id_L ∅ (∪)) in HS2. simpl in I2.
  rewrite <-Ea in Ha.
  destruct (accept_total n p2 _ _ _ I2 (room_roomy _ 1 ltac:(lia) Ha)) as [[p3 out] E3].
  assert (quorum_reached (i_quorum inst2) = true) as Hreach.
  { apply (quorum_reached_iff _ _ _ HS2). rewrite size_list_to_set by done. lia. }
  assert (i_value inst2 = None) as Hn2.
  { destruct Hv2 as [[-> _]|(ack & Hin & Hne & _)]; [done|]. by destruct Hne; apply Hempty. }
  destruct (accept_inv _ _ _ _ (pi_rep _ _ _ _ _ I2) _ _ (inv_closed _ _ _ _ _ I2) E3)
    as (vs3 & ps3 & acs3 & R3 & Hs3 & Hcase).
  destruct Hcase as [(_ & _ & _ & _ & Hno)|(i & v & q & [= <- <-] & _ & Hv3 & Hqc & -> & ->)].
  { by destruct (Hno inst2 eq_refl Hreach). }
  destruct Hv3 as [[? _]|[_ [= <- <-]]]; [congruence|].
  destruct (inv_accept n p2 _ _ _ I2 p3 _ E3) as (vs' & ps' & acs' & I3 & _).
  destruct (rep_unique _ _ _ _ _ _ _ (pi_rep _ _ _ _ _ I3) R3) as (<- & <- & <-).
  destruct (accept_arrays n p2 _ _ _ p3 _ I2 E3) as (Sv3 & Sp3 & x & Ex).
  destruct (pi_rep _ _ _ _ _ I2) as [_ _ Ra2].
  destruct (push_back_keeps_room _ _ _ _ 0 Ra2 ltac:(lia) Ha Ex) as (_ & Sa3 & _).
  destruct (quorum_clear_ok _ _ _ HS2) as (q' & Hq' & HSq & _). same_ret.
  rewrite Ei2, Eb2 in E3.
  exists p2, p3, (accept_inst m q' inst2). split; [done|]. split; [done|]. split; [done|].
  split; [split; simpl; try done; [congruence..|by apply (quorum_clear_low _ _ _ _ HS2)]|].
  split; [|by eapply same_ids_trans]. split; [congruence|]. split; congruence.
Qed.

Lemma lone_proposer_round p m vs :
  idle n p (m :: vs) → p_next_prepare_iid p + 1 < UINT32_MOD →
  let iid := p_next_prepare_iid p + 1 in
  let b := MAX_N_OF_PROPOSERS + p_id p in
  ∃ p1 p2 p3 p4, proposer_prepare p now junk = Ret (p1, PrepareReq iid b) ∧
    receive_promises p1 (promise_for iid b <$> ids) now = Ret p2 ∧
    proposer_accept p2 = Ret (p3, Some (AcceptReq iid b (m_data m))) ∧
    receive_accepts p3 (accepted_by iid b (m_data m) <$> ids) now = Ret p4 ∧
    idle n p4 vs ∧ p_id p4 = p_id p ∧ p_next_prepare_iid p4 = iid.
Proof using Hids.
  intros Hidle Hw iid b. destruct quorum_ids as (U & Hlen & Hid).
  destruct (prepare_opens p _ Hidle Hw) as (p1 & inst & E1 & I1 & O1 & (Sv1 & Sp1 & Sa1) & Ea1 & Hid1 & Hnx1).
  destruct Hidle as [I Hv Hp Ha]. destruct (pi_rep _ _ _ _ _ I) as [Rv Rp Ra].
  destruct (pi_rep _ _ _ _ _ I1) as [Rv1 Rp1 Ra1].
  destruct (promises_send 0 p1 inst m vs iid b I1 O1) as (p2 & p3 & inst3 & E2 & E3 & I3 & O3 & (Sv3 & Sp3 & Sa3) & Hs3).
  { by eapply (room_size (p_values p)). }
  { destruct Hp. lia. }
  { by rewrite Ea1. }
  destruct O3 as [Ei Eb Ev HS Hlow].
  pose proof (pi_n _ _ _ _ _ I) as Hn. pose proof (paxos_quorum_bounds n ltac:(lia)) as Hq.
  assert (aa_acceptor_id <$> (accepted_by iid b (m_data m) <$> ids) = ids) as Eids
    by (rewrite <-list_fmap_compose; apply list_fmap_id).
  destruct (receive_accepts_ok n now (accepted_by iid b (m_data m) <$> ids) p3 vs inst3 ∅)
    as (p4 & E4 & Hs4 & Ev4 & Ep4 & Sa4 & I4); [done| |done|by rewrite Eids| | | |].
  { destruct Ha. unfold indexable. lia. }
  { intros E. apply (f_equal length) in E. rewrite length_fmap in E. simpl in E. lia. }
  { rewrite length_fmap, size_empty. lia. }
  { intros ack (id & -> & Hin)%list_elem_of_fmap. specialize (Hid id Hin). simpl.
    do 3 (split; [done|]). split; [lia|]. by apply Hlow. }
  exists p1, p2, p3, p4. do 4 (split; [done|]). destruct (pi_rep _ _ _ _ _ I4) as [Rv4 Rp4 Ra4].
  destruct (same_ids_trans _ _ _ Hs3 Hs4) as (-> & _ & ->).
  split; [split; [done|..]|done].
  - apply (room_size (p_values p) _ (m :: vs) vs); [done|done|simpl; lia|congruence|done].
  - apply (room_size (p_prepare_instances p) _ [] []); [done|done|done|congruence|done].
  - apply (room_size (p_accept_instances p) _ [] []); [done|done|done|congruence|done].
Qed.

End proposer_round.

(** ** The learner *)

Section learner_round.
(** [n] acceptors that only ever acknowledge, for the instance [iid], the
ballot [b] and the value [f iid]. *)
Context (n b : Z) (f : Z → option bytes).

Definition ack_for (a : accept_ack) : Prop :=
  aa_is_final a = 0 ∧ 0 < aa_iid a ∧ aa_ballot a = b ∧ f (aa_iid a) = Some (aa_value a).

Lemma ack_for_ok a : ack_for a → aa_is_final a = 0 ∧ 0 < aa_iid a.
Proof. by intros (? & ? & _). Qed.

(** A learner that has delivered everything before [iid] and knows nothing of
the instances from [top] on. *)
Record listening (l : learner) (w : list linstance) (iid top : Z) : Prop := {
  ln_inv : learner_inv n ack_for l w;
  ln_cur : l_current_iid l = iid;
  ln_late : l_late_start l = 0;
  ln_top : ∀ i, i ∈ w → li_iid i < top;
}.

Lemma learn_accepts_ok ids l w iid v S inst :
  let k := Z.to_nat (iid mod ca_size (l_instances l)) in
  listening l w iid (iid + 1) → 0 < iid ≤ INT_MAX → iid + ca_size (l_instances l) < UINT32_MOD →
  f iid = Some v → (∀ id, id ∈ ids → 0 ≤ id < n) →
  w !! k = Some inst → slot_heard iid b S inst →
  ∃ l' w' inst', learn_accepts l (accepted_by iid b v <$> ids) = Ret l' ∧
    listening l' w' iid (iid + 1) ∧ ca_size (l_instances l') = ca_size (l_instances l) ∧
    w' !! k = Some inst' ∧ slot_heard iid b (list_to_set ids ∪ S) inst'.
Proof.
  intros k. unfold k. clear k. revert l w S inst.
  induction ids as [|id ids IH]; intros l w S inst [I C L T] Hiid Hmax Hf Hids Hk HS; simpl.
  { exists l, w, inst. do 4 (split; [done|]). by rewrite (left_id_L ∅ (∪)). }
  pose proof (lv_table _ _ _ _ I) as [R _ _]. pose proof (rep_size _ _ R).
  destruct (receive_accept_ok n ack_for ack_for_ok l w (accepted_by iid b v id) I)
    as (l1 & w1 & -> & I1 & L1 & C1 & S1 & T1 & H1); simpl in *.
  { split; [done|]. split; [simpl; lia|done]. }
  { apply Hids. by left. }
  { lia. }
  { lia. }
  { congruence. }
  rewrite L in C1. simpl in C1.
  destruct (H1 S inst) as (inst1 & Hk1 & HS1); [by intros a (_ & _ & -> & _)|lia|done|done|].
  destruct (IH l1 w1 ({[id]} ∪ S) inst1) as (l2 & w2 & inst2 & E2 & Ln & S2 & Hk2 & HS2).
  { split; [done|congruence|done|]. apply T1; [lia|done]. }
  { done. }
  { by rewrite S1. }
  { done. }
  { intros j Hj. apply Hids. by right. }
  { by rewrite S1. }
  { by left. }
  exists l2, w2, inst2. rewrite S1 in Hk2, S2. do 4 (split; [done|]).
  by replace ({[id]} ∪ list_to_set ids ∪ S) with (list_to_set ids ∪ ({[id]} ∪ S)) by set_solver.
Qed.

(** The acknowledgements of a majority are delivered. *)
Lemma learner_round ids l w iid v :
  listening l w iid iid → 0 < iid ≤ INT_MAX → iid + ca_size (l_instances l) < UINT32_MOD →
  f iid = Some v → NoDup ids → (∀ id, id ∈ ids → 0 ≤ id < n) →
  paxos_quorum n ≤ Z.of_nat (length ids) →
  ∃ l1 l2 w2 a, learn_accepts l (accepted_by iid b v <$> ids) = Ret l1 ∧
    learner_deliver_next l1 = Ret (l2, Some a) ∧ aa_iid a = iid ∧ aa_value a = v ∧
    listening l2 w2 (iid + 1) (iid + 1) ∧ ca_size (l_instances l2) = ca_size (l_instances l).
Proof.
  intros [I C L T] Hiid Hmax Hf U Hids Hq. pose proof (lv_n _ _ _ _ I).
  pose proof (paxos_quorum_bounds n ltac:(lia)) as Hb.
  pose proof (lv_table _ _ _ _ I) as [R _ _]. pose proof (rep_size _ _ R).
  destruct (get_instance_ok n ack_for l w iid I) as (inst & _ & Hk & Hs & _); [lia|lia|].
  assert (li_iid inst = 0) as Hz.
  { pose proof (T inst ltac:(by eapply list_elem_of_lookup_2)).
    destruct (si_iid _ _ _ _ _ _ Hs); lia. }
  destruct (learn_accepts_ok ids l w iid v ∅ inst) as
    (l1 & w1 & inst1 & E1 & [I1 C1 L1 T1] & S1 & Hk1 & HS1); [|done..|by right|].
  { split; [done..|]. intros i Hi. specialize (T i Hi). lia. }
  rewrite (right_id_L ∅ (∪)) in HS1.
  assert (size (list_to_set ids : gset Z) = length ids) as Hsz by (by apply size_list_to_set).
  destruct HS1 as [HS1|[_ E]]; [|rewrite E, size_empty in Hsz; lia].
  destruct (deliver_next_ok n ack_for ack_for_ok l1 w1 I1) as
    (l2 & w2 & o & E2 & I2 & S2 & T2 & Ho); [lia|].
  destruct (T2 (iid + 1) ltac:(lia) T1) as [T2' _].
  rewrite C1, S1 in Ho. destruct o as [a|].
  - destruct Ho as (((_ & _ & _ & Ha) & Hai & _) & C2 & L2 & _). rewrite Hai, Hf in Ha.
    exists l1, l2, w2, a. split; [done|]. split; [done|]. split; [done|]. split; [congruence|].
    split; [by split|congruence].
  - destruct Ho as [_ Ho]. specialize (Ho b _ inst1 Hk1 HS1). rewrite Hsz in Ho.
    enough (list_to_set ids ⊆ acceptor_set n) as Hsub by (specialize (Ho Hsub); lia).
    intros id Hid%elem_of_list_to_set. by apply elem_of_acceptor_set, Hids.
Qed.

End learner_round.

(** ** Rounds *)

(** Acceptors that have just opened the in-memory table. *)
Definition mem_nodes (ids : list Z) (junk : nat → acceptor_record) : list (acceptor storage_mem) :=
  (λ id, Acceptor (storage_mem_open id junk)) <$> ids.

Lemma mem_open_nodes ids junk : node_reps (λ _, ∅) ids (mem_nodes ids junk).
Proof. induction ids as [|id ids IH]; constructor; [apply mem_open_rep|exact IH]. Qed.

Section rounds.
Context (n pid : Z) (f : Z → option bytes) (now : timeval) (junk : nat → Z) (ids : list Z).
Hypothesis Hids : ids ≡ₚ seqZ 0 (paxos_quorum n).

(** The cluster before the round of instance [iid], [vs] the values waiting. *)
Record between (c : cluster) (iid : Z) (vs : list paxos_msg) : Prop := {
  bt_proposer : idle n c.1.1 vs;
  bt_id : p_id c.1.1 = pid;
  bt_next : p_next_prepare_iid c.1.1 = iid - 1;
  bt_nodes : ∃ hs, node_reps hs ids c.1.2 ∧ ∀ id, id ∈ ids → before 1 iid (hs id);
  bt_learner : ∃ w, listening n (MAX_N_OF_PROPOSERS + pid) f c.2 w iid iid;
  bt_room : ca_size (l_instances c.2) ≤ INT_MAX;
}.

(** One round chooses and delivers the first waiting value. *)
Lemma round_delivers c iid m vs :
  between c iid (m :: vs) → 0 < iid < MAX_RECORDS → f iid = Some (m_data m) →
  mem_fits (m_data m) = true →
  ∃ c' a, paxos_round now junk c = Ret (c', Some a) ∧ aa_iid a = iid ∧
    aa_value a = m_data m ∧ between c' (iid + 1) vs.
Proof using Hids.
  destruct c as [[p nodes] l]. intros [Hp Hpid Hnx (hs & HF & Hbf) [w Hl] Hroom] Hiid Hf Hfit.
  simpl in *. unfold MAX_RECORDS in Hiid. pose proof (pi_n _ _ _ _ _ (id_inv _ _ _ Hp)) as Hn.
  pose proof (pi_id _ _ _ _ _ (id_inv _ _ _ Hp)) as Hpid'. rewrite Hpid in Hpid'.
  destruct (quorum_ids n ids Hids) as (U & Hlen & Hrange).
  pose proof (paxos_quorum_bounds n ltac:(lia)) as Hq.
  destruct (lone_proposer_round n now junk ids Hids p m vs Hp) as
    (p1 & p2 & p3 & p4 & E1 & E2 & E3 & E4 & Hp4 & Hid4 & Hnx4);
    [rewrite Hnx; unfold UINT32_MOD; lia|].
  rewrite Hpid, Hnx, Z.sub_add in *. set (b := MAX_N_OF_PROPOSERS + pid) in *.
  assert (is_u32 b) as Hb by (unfold is_u32, b, MAX_N_OF_PROPOSERS, UINT32_MOD in *; lia).
  destruct (prepare_phase 1 iid b ltac:(unfold MAX_RECORDS; lia) ltac:(unfold UINT32_MOD; lia) Hb
    hs ids nodes HF Hbf) as (nodes1 & B1 & HF1).
  destruct (accept_phase 1 iid b (m_data m) ltac:(unfold MAX_RECORDS; lia)
    ltac:(unfold UINT32_MOD; lia) Hb Hfit hs ids nodes1) as (nodes2 & B2 & HF2); [done|done|].
  destruct (learner_round n b f ids l w iid (m_data m) Hl) as
    (l1 & l2 & w2 & a & E5 & E6 & Hai & Hav & Hl2 & S2);
    [unfold INT_MAX; lia|unfold INT_MAX, UINT32_MOD in *; lia|done|done| |lia|].
  { intros id Hid%Hrange. lia. }
  exists (p4, nodes2, l2), a. split.
  { unfold paxos_round. rewrite E1. simpl. rewrite B1. simpl. rewrite <-list_fmap_compose.
    unfold compose, prepare_ack_of. simpl. unfold promise_for, promise_with in E2. rewrite E2. simpl.
    rewrite E3. simpl. rewrite B2. simpl. unfold accepted_by in E4, E5. rewrite E4. simpl.
    rewrite E5. simpl. by rewrite E6. }
  split; [done|]. split; [done|]. split; simpl; [done|done|lia| |by exists w2|lia].
  eexists. split; [exact HF2|]. intros id Hid. apply before_insert; [lia|auto].
Qed.

Lemma rounds_deliver vs c iid :
  between c iid vs → 0 < iid → iid + Z.of_nat (length vs) ≤ MAX_RECORDS →
  (∀ j m, vs !! j = Some m → f (iid + Z.of_nat j) = Some (m_data m) ∧ mem_fits (m_data m) = true) →
  ∃ c' acks, paxos_rounds (length vs) now junk c = Ret (c', acks) ∧
    aa_iid <$> acks = seqZ iid (Z.of_nat (length vs)) ∧ aa_value <$> acks = m_data <$> vs ∧
    between c' (iid + Z.of_nat (length vs)) [].
Proof using Hids.
  revert c iid. induction vs as [|m vs IH]; intros c iid Hc Hpos Hmax Hf.
  { exists c, []. simpl. rewrite Z.add_0_r. done. }
  simpl in Hmax. destruct (Hf 0%nat m eq_refl) as [Hf0 Hfit]. rewrite Z.add_0_r in Hf0.
  destruct (round_delivers c iid m vs Hc) as (c1 & a & E & Hai & Hav & Hc1); [lia|done|done|].
  destruct (IH c1 (iid + 1) Hc1) as (c2 & acks & E2 & Hi & Hv & Hc2); [lia|lia| |].
  { intros j m' Hj. specialize (Hf (S j) m' Hj).
    by replace (iid + 1 + Z.of_nat j) with (iid + Z.of_nat (S j)) by lia. }
  exists c2, (a :: acks). split; [simpl; rewrite E; simpl; by rewrite E2|].
  rewrite !fmap_cons, Hai, Hav, Hi, Hv. cbn [length]. split; [|split; [done|]].
  - rewrite (seqZ_cons iid) by lia. do 2 f_equal; lia.
  - by replace (iid + Z.of_nat (S (length vs))) with (iid + 1 + Z.of_nat (length vs)) by lia.
Qed.

End rounds.

(** ** The start *)

Lemma propose_all_ok n vals p ms :
  idle n p ms → room (p_values p) (paxos_quorum n + Z.of_nat (length vals)) → 0 ≤ paxos_quorum n →
  ∃ p', propose_all p vals = Ret p' ∧ idle n p' (ms ++ (wrap_value <$> vals)) ∧
    p_id p' = p_id p ∧ p_next_prepare_iid p' = p_next_prepare_iid p.
Proof.
  revert p ms. induction vals as [|v vals IH]; intros p ms [I Hv Hp Ha] Hr Hq.
  { exists p. simpl. by rewrite app_nil_r. }
  destruct (propose_total n p ms [] [] I (room_roomy _ _ Hq Hv) v) as [p1 E].
  destruct (propose_inv _ _ _ _ (pi_rep _ _ _ _ _ I) _ _ E) as [R1 Hs1].
  pose proof (inv_same n p ms [] [] I p1 _ R1 Hs1) as I1.
  assert (p_prepare_instances p1 = p_prepare_instances p ∧
    p_accept_instances p1 = p_accept_instances p ∧
    carray_push_back (p_values p) (wrap_value v) = Ret (p_values p1)) as (Ep & Ea & Ev).
  { unfold proposer_propose in E. by inv_res. }
  destruct (pi_rep _ _ _ _ _ I) as [Rv _ _].
  assert (room (p_values p) (paxos_quorum n + Z.of_nat (length vals) + 1)) as Hr'.
  { destruct Hr. split; [|done]. simpl in *. lia. }
  destruct (push_back_keeps_room _ _ _ _ (paxos_quorum n + Z.of_nat (length vals)) Rv
    ltac:(lia) Hr' Ev) as (_ & _ & Hr1).
  destruct (IH p1 (ms ++ [wrap_value v])) as (p2 & E2 & H2 & Hid2 & Hnx2); [|done|done|].
  { split; [done| |by rewrite Ep|by rewrite Ea]. destruct Hr1. split; [lia|done]. }
  exists p2. simpl. rewrite E. simpl. split; [done|]. destruct Hs1 as (? & _ & ?).
  rewrite <-app_assoc in H2. split; [done|]. split; congruence.
Qed.

Lemma proposer_new_idle id n :
  1 ≤ n ≤ INT_MAX → 0 ≤ id < MAX_N_OF_PROPOSERS → paxos_quorum n ≤ 128 →
  ∃ p, proposer_new id n = Ret p ∧ idle n p [] ∧ p_id p = id ∧ p_next_prepare_iid p = 0 ∧
    room (p_values p) 128.
Proof.
  intros Hn Hid Hq. destruct (is_ret_inv (proposer_new id n)) as [p E]; [reflexivity|].
  destruct (proposer_new_inv id n p Hn Hid E) as (I & Ei & Enx).
  injection E as <-. eexists. split; [reflexivity|].
  assert (∀ A k, k ≤ 128 → room (Carray (A:=A) 0 0 128 0 (replicate 128 None)) k) as Hr.
  { intros A k Hk. unfold room, carray_count. simpl. lia. }
  split; [split; [exact I|..]; apply Hr; lia|]. split; [done|]. split; [done|]. by apply Hr.
Qed.

(** ** Properties *)

(** C8: progress without contention.  A single proposer with the answers of the
acceptors below the quorum size, in any order, and a learner that starts at
the first instance: all the values its clients submit are chosen and
delivered, each once, in the order they were submitted, in one round per
value; nothing in the three roles faults on the way and no value is left at
the proposer. *)
Theorem lone_proposer_delivers cfg n id vals ids now junk mem_junk :
  1 ≤ n ≤ INT_MAX → 0 ≤ id < MAX_N_OF_PROPOSERS →
  0 < learner_instances cfg ≤ INT_MAX → learner_catch_up cfg ≠ 0 →
  Z.of_nat (length vals) + paxos_quorum n ≤ 128 →
  Forall (λ v, mem_fits v = true) vals → ids ≡ₚ seqZ 0 (paxos_quorum n) →
  ∃ p0 p l c acks, proposer_new id n = Ret p0 ∧ propose_all p0 vals = Ret p ∧
    learner_new cfg n = Ret l ∧
    paxos_rounds (length vals) now junk (p, mem_nodes ids mem_junk, l) = Ret (c, acks) ∧
    aa_iid <$> acks = seqZ 1 (Z.of_nat (length vals)) ∧ aa_value <$> acks = vals ∧
    held (view c.1.1) = [].
Proof.
  intros Hn Hid Hsz Hcu Hroom Hfit Hids. pose proof (paxos_quorum_bounds n ltac:(lia)) as Hq.
  destruct (proposer_new_idle id n Hn Hid) as (p0 & E0 & H0 & Hid0 & Hnx0 & Hr0); [lia|].
  destruct (propose_all_ok n vals p0 [] H0) as (p & E & Hp & Hidp & Hnx);
    [destruct Hr0; split; [lia|done]|lia|].
  set (f := λ iid, vals !! Z.to_nat (iid - 1)).
  destruct (learner_new_ok cfg n (ack_for (MAX_N_OF_PROPOSERS + id) f) Hn Hsz)
    as (l & w & El & Il & Cl & Sl & Ll & Zl).
  destruct (rounds_deliver n id f now junk ids Hids (wrap_value <$> vals)
    (p, mem_nodes ids mem_junk, l) 1) as (c & acks & Er & Hi & Hv & Hc).
  - split; simpl; [done|congruence|lia| | |lia].
    + exists (λ _, ∅). split; [apply mem_open_nodes|]. intros j _ i [x Hx]. by rewrite lookup_empty in Hx.
    + exists w. split; [done|done|auto|]. intros i Hin. rewrite (Zl i Hin). lia.
  - lia.
  - rewrite length_fmap. unfold MAX_RECORDS. lia.
  - intros j m (v & -> & Hj)%list_lookup_fmap_Some. simpl. unfold f.
    replace (Z.to_nat (1 + Z.of_nat j - 1)) with j by lia. split; [done|].
    by apply (Forall_lookup_1 _ _ _ _ Hfit Hj).
  - rewrite length_fmap in Er, Hi. exists p0, p, l, c, acks. do 5 (split; [done|]). split.
    + rewrite Hv, <-list_fmap_compose. apply list_fmap_id.
    + destruct Hc as [[Ic _ _ _] _ _ _ _ _]. by rewrite (view_rep _ [] [] [] (pi_rep _ _ _ _ _ Ic)).
Qed.

Definition no_junk : nat → acceptor_record := λ _, zero_record.

(** Three values through three acceptors, the answers in reverse order. *)
Lemma lone_proposer_delivers_witness :
  ∃ p0 p l c acks, proposer_new 1 3 = Ret p0 ∧ propose_all p0 [[x41]; []; [x42; x43]] = Ret p ∧
    learner_new cfg4 3 = Ret l ∧
    paxos_rounds 3 (Timeval 0 0) (λ _, 7) (p, mem_nodes [1; 0] no_junk, l) = Ret (c, acks) ∧
    aa_iid <$> acks = seqZ 1 3 ∧ aa_value <$> acks = [[x41]; []; [x42; x43]] ∧
    held (view c.1.1) = [].
Proof.
  apply (lone_proposer_delivers cfg4 3 1 [[x41]; []; [x42; x43]] [1; 0] (Timeval 0 0) (λ _, 7) no_junk).
  - unfold INT_MAX. lia.
  - unfold MAX_N_OF_PROPOSERS. lia.
  - unfold INT_MAX. simpl. lia.
  - discriminate.
  - vm_compute. discriminate.
  - repeat (apply Forall_cons; split; [reflexivity|]). apply Forall_nil_2.
  - vm_compute. constructor.
Defined.

(** The hypothesis on the acceptors is needed: when those that answer are 1 and
2 of three, the flag of acceptor 2 survives [quorum_clear], its acknowledgement
is not counted, and the instance stays open at the proposer although the
value is chosen and delivered.  (Here fresh memory is zero; otherwise the
promise of acceptor 2 is not counted either.) *)
Definition high_id_round : res (option bytes * list bytes * Z) :=
  p0 ← proposer_new 1 3;
  p ← propose_all p0 [[x41]];
  l ← learner_new cfg4 3;
  '(c, o) ← paxos_round (Timeval 0 0) (λ _, 0) (p, mem_nodes [1; 2] no_junk, l);
  let '(p, _, _) := c in
  Ret (option_map aa_value o, map m_data (held (view p)), carray_count (p_accept_instances p)).

Lemma high_id_stalls_proposer : high_id_round = Ret (Some [x41], [[x41]], 1).
Proof. vm_compute. reflexivity. Qed.
