(* ===== verification/Heap.v ===== *)
(** * A heap of C objects and its separation logic

The models of the other files pass a structure with everything it points to as
one value.  The pointer-level models ([MemCarray], [MemProposer],
[MemLearner]) are programs over a heap instead: a finite map from locations to
the objects [malloc] returned and [free] has not released yet.  [cmd] is their
monad; a read, a write or a second [free] of a released object is a [Fault].

Assertions about heaps form a linear separation logic ([heapProp], a [bi] for
the Iris proof mode): [P ∗ Q] splits the heap, [emp] is the empty heap, and no
assertion can be dropped, so what a function does not free it must account
for.  [wp m Φ] says that [m] returns, without a fault, and that [Φ] holds of
the result and of all that is left of the heap it started from. *)

From iris.bi Require Export bi.
From iris.proofmode Require Export proofmode.
From S2P Require Import Prelude.
#[local] Open Scope Z_scope.

Definition loc : Type := positive.

Notation heap V := (gmap loc V).

(** ** Programs *)

Definition cmd (V A : Type) : Type := heap V → res (A * heap V).

#[export] Instance cmd_ret V : MRet (cmd V) := λ A a h, Ret (a, h).
#[export] Instance cmd_bind V : MBind (cmd V) := λ A B f m h, '(a, h) ← m h; f a h.

Section programs.
Context {V : Type}.

(** What does not touch the heap. *)
Definition pureC {A} (m : res A) : cmd V A := λ h, a ← m; Ret (a, h).

(** [malloc], with the contents it is given at once. *)
Definition alloc (v : V) : cmd V loc := λ h, let l := fresh (dom h) in Ret (l, <[l := v]> h).

Definition read (l : loc) : cmd V V := λ h,
  match h !! l with Some v => Ret (v, h) | None => Fault OutOfBounds end.

Definition write (l : loc) (v : V) : cmd V () := λ h,
  match h !! l with Some _ => Ret (tt, <[l := v]> h) | None => Fault OutOfBounds end.

Definition free (l : loc) : cmd V () := λ h,
  match h !! l with Some _ => Ret (tt, delete l h) | None => Fault OutOfBounds end.

(** A read through a pointer of a given type: [sel] picks the objects of it. *)
Definition read_as {T} (sel : V → option T) (l : loc) : cmd V T :=
  v ← read l; pureC (deref (sel v)).

(** [for (i = from; ...; i++)], [n] iterations. *)
Fixpoint cfor_range {S} (n : nat) (i : Z) (body : Z → S → cmd V S) (s : S) : cmd V S :=
  match n with
  | O => mret s
  | S n' => s' ← body i s; cfor_range n' (i + 1) body s'
  end.

Definition cfor_to {S} (bound : Z) (body : Z → S → cmd V S) (s : S) : cmd V S :=
  cfor_range (Z.to_nat bound) 0 body s.

End programs.

(** ** Assertions *)

Record heapProp (V : Type) : Type := HeapProp { holds : heap V → Prop }.
Arguments HeapProp {V} _.
Arguments holds {V} _ _ : simpl never.

Section assertions.
Context {V : Type}.
Implicit Types (P Q R : heapProp V) (h : heap V).

Record hp_entails P Q : Prop := { hp_holds : ∀ h, holds P h → holds Q h }.
Local Instance hp_equiv : Equiv (heapProp V) := λ P Q, hp_entails P Q ∧ hp_entails Q P.
Local Instance hp_equivalence : Equivalence (≡@{heapProp V}).
Proof.
  split.
  - intros P. by split; split.
  - intros P Q [H1 H2]. by split.
  - intros P Q R [[H1] [H2]] [[H3] [H4]]. split; split; auto.
Qed.
Canonical Structure heapPropO := discreteO (heapProp V).

Definition hp_emp : heapProp V := HeapProp (λ h, h = ∅).
Definition hp_pure (φ : Prop) : heapProp V := HeapProp (λ _, φ).
Definition hp_and P Q : heapProp V := HeapProp (λ h, holds P h ∧ holds Q h).
Definition hp_or P Q : heapProp V := HeapProp (λ h, holds P h ∨ holds Q h).
Definition hp_impl P Q : heapProp V := HeapProp (λ h, holds P h → holds Q h).
Definition hp_forall A (Ψ : A → heapProp V) : heapProp V := HeapProp (λ h, ∀ a, holds (Ψ a) h).
Definition hp_exist A (Ψ : A → heapProp V) : heapProp V := HeapProp (λ h, ∃ a, holds (Ψ a) h).
Definition hp_sep P Q : heapProp V :=
  HeapProp (λ h, ∃ h1 h2, h = h1 ∪ h2 ∧ h1 ##ₘ h2 ∧ holds P h1 ∧ holds Q h2).
Definition hp_wand P Q : heapProp V :=
  HeapProp (λ h, ∀ h', h ##ₘ h' → holds P h' → holds Q (h ∪ h')).
Definition hp_persistently P : heapProp V := hp_pure (hp_entails hp_emp P).

Lemma hp_bi_mixin :
  BiMixin hp_entails hp_emp hp_pure hp_and hp_or hp_impl hp_forall hp_exist hp_sep hp_wand.
Proof.
  assert (∀ P Q, P ≡ Q → (∀ h, holds P h → holds Q h) ∧ (∀ h, holds Q h → holds P h)) as Heq.
  { by intros P Q [[H1] [H2]]. }
  split.
  - split; [by intros P; split|]. intros P Q R [H1] [H2]. split. auto.
  - done.
  - intros n φ ψ [H1 H2]. split; split; intros h; [exact H1|exact H2].
  - intros n P P' [H1 H2]%Heq Q Q' [H3 H4]%Heq. split; split; intros h [? ?]; split; auto.
  - intros n P P' [H1 H2]%Heq Q Q' [H3 H4]%Heq.
    split; split; intros h [?|?]; ((by left; auto) || (by right; auto)).
  - intros n P P' [H1 H2]%Heq Q Q' [H3 H4]%Heq. split; split; intros h Hh ?; [apply H3|apply H4];
      apply Hh; auto.
  - intros A n Ψ Ψ' H. split; split; intros h Hh a; destruct (Heq _ _ (H a)) as [H1 H2]; auto.
  - intros A n Ψ Ψ' H. split; split; intros h [a Ha]; destruct (Heq _ _ (H a)) as [H1 H2];
      exists a; auto.
  - intros n P P' [H1 H2]%Heq Q Q' [H3 H4]%Heq. split; split; intros h (h1 & h2 & ? & ? & ? & ?);
      exists h1, h2; auto.
  - intros n P P' [H1 H2]%Heq Q Q' [H3 H4]%Heq. split; split; intros h Hh h' Hd ?;
      [apply H3|apply H4]; apply Hh; auto.
  - intros φ P H. by split.
  - intros φ P H. split. intros h Hφ. by apply (H Hφ).
  - intros P Q. split. by intros h [? ?].
  - intros P Q. split. by intros h [? ?].
  - intros P Q R [H1] [H2]. split. intros h Hh. split; auto.
  - intros P Q. split. intros h Hh. by left.
  - intros P Q. split. intros h Hh. by right.
  - intros P Q R [H1] [H2]. split. intros h [?|?]; auto.
  - intros P Q R [H]. split. intros h Hp Hq. apply H. by split.
  - intros P Q R [H]. split. intros h [Hp Hq]. by apply H.
  - intros A P Ψ H. split. intros h Hp a. by apply (H a).
  - intros A Ψ a. split. intros h Hh. apply Hh.
  - intros A Ψ a. split. intros h Hh. by exists a.
  - intros A Φ Q H. split. intros h [a Ha]. by apply (H a).
  - intros P P' Q Q' [H1] [H2]. split. intros h (h1 & h2 & ? & ? & ? & ?). exists h1, h2. auto.
  - intros P. split. intros h Hp. exists ∅, h. rewrite (left_id_L ∅ (∪)).
    split; [done|]. split; [apply map_disjoint_empty_l|]. done.
  - intros P. split. intros h (h1 & h2 & -> & ? & -> & ?). by rewrite (left_id_L ∅ (∪)).
  - intros P Q. split. intros h (h1 & h2 & -> & ? & ? & ?). exists h2, h1.
    by rewrite map_union_comm.
  - intros P Q R. split. intros h (h12 & h3 & -> & Hd & (h1 & h2 & -> & ? & ? & ?) & ?).
    apply map_disjoint_union_l in Hd as [? ?]. exists h1, (h2 ∪ h3).
    split; [by rewrite (assoc_L (∪))|]. split; [by apply map_disjoint_union_r|].
    split; [done|]. by exists h2, h3.
  - intros P Q R [H]. split. intros h Hp h' Hd Hq. apply H. by exists h, h'.
  - intros P Q R [H]. split. intros h (h1 & h2 & -> & Hd & Hp & Hq). by apply H.
Qed.

Lemma hp_bi_persistently_mixin :
  BiPersistentlyMixin hp_entails hp_emp hp_and hp_exist hp_sep hp_persistently.
Proof.
  eapply bi_persistently_mixin_discrete; [done| |done|exact hp_bi_mixin].
  intros A Φ [H]. destruct (H ∅) as [a Ha]; [done|]. exists a. split. by intros h ->.
Qed.

Lemma hp_bi_later_mixin :
  BiLaterMixin hp_entails hp_pure hp_or hp_impl hp_forall hp_exist hp_sep hp_persistently id.
Proof. eapply bi_later_mixin_id; [done|exact hp_bi_mixin]. Qed.

End assertions.

Canonical Structure heapPropI (V : Type) : bi :=
  {| bi_ofe_mixin := ofe_mixin_of (heapProp V);
     bi_bi_mixin := hp_bi_mixin; bi_bi_persistently_mixin := hp_bi_persistently_mixin;
     bi_bi_later_mixin := hp_bi_later_mixin |}.

#[export] Instance heapProp_pure_forall V : BiPureForall (heapPropI V).
Proof. intros A φ. by split. Qed.

Definition pointsto {V} (l : loc) (v : V) : heapProp V := HeapProp (λ h, h = {[l := v]}).

Notation "l ↦ v" := (pointsto l v) (at level 20, format "l  ↦  v") : bi_scope.

Definition wp {V A} (m : cmd V A) (Φ : A → heapProp V) : heapProp V := HeapProp (λ h,
  ∀ hf, h ##ₘ hf → ∃ a h', m (h ∪ hf) = Ret (a, h' ∪ hf) ∧ h' ##ₘ hf ∧ holds (Φ a) h').

(** [follows m cm Φ]: [cm] behaves as the value model [m] says, its errors
included: it returns, and [Φ] relates the two results, or it faults as [m] does. *)
Definition follows {V A B} (m : res A) (cm : cmd V B) (Φ : A → B → heapProp V) : heapProp V :=
  HeapProp (λ h, ∀ hf, h ##ₘ hf →
    match m with
    | Ret a => ∃ b h', cm (h ∪ hf) = Ret (b, h' ∪ hf) ∧ h' ##ₘ hf ∧ holds (Φ a b) h'
    | Fault e => cm (h ∪ hf) = Fault e
    end).

(** ** Rules *)

Section rules.
Context {V : Type}.
Implicit Types (P Q : heapProp V) (l : loc) (v : V).

Lemma wp_ret {A} (a : A) (Φ : A → heapProp V) : Φ a ⊢ wp (mret a) Φ.
Proof. split. intros h Ha hf Hd. by exists a, h. Qed.

Lemma wp_bind {A B} (m : cmd V A) (f : A → cmd V B) (Φ : B → heapProp V) :
  wp m (λ a, wp (f a) Φ) ⊢ wp (m ≫= f) Φ.
Proof.
  split. intros h Hm hf Hd. destruct (Hm hf Hd) as (a & h1 & E & Hd1 & Hf).
  destruct (Hf hf Hd1) as (b & h2 & E2 & Hd2 & HΦ). exists b, h2. split; [|done].
  unfold mbind, cmd_bind. rewrite E. exact E2.
Qed.

Lemma wp_assoc {A B C} (m : cmd V A) (f : A → cmd V B) (g : B → cmd V C) (Φ : C → heapProp V) :
  wp ((m ≫= f) ≫= g) Φ ⊢ wp (m ≫= λ x, f x ≫= g) Φ.
Proof.
  split. intros h Hm hf Hd. destruct (Hm hf Hd) as (c & h' & E & H). exists c, h'. split; [|done].
  rewrite -E. unfold mbind, cmd_bind. by destruct (m (h ∪ hf)) as [[a h1]|e].
Qed.

Lemma wp_wand {A} (m : cmd V A) (Φ Ψ : A → heapProp V) :
  wp m Φ ⊢ (∀ a, Φ a -∗ Ψ a) -∗ wp m Ψ.
Proof.
  split. intros h Hm h' Hd HΦ hf Hd'. apply map_disjoint_union_l in Hd' as [Hd1 Hd2].
  destruct (Hm (h' ∪ hf)) as (a & h1 & E & Hd3 & Ha).
  { by apply map_disjoint_union_r. }
  apply map_disjoint_union_r in Hd3 as [Hd3 Hd4].
  exists a, (h1 ∪ h'). rewrite -!(assoc_L (∪)). split; [done|].
  split; [by apply map_disjoint_union_l|]. rewrite map_union_comm //. by apply (HΦ a).
Qed.

Lemma wp_frame {A} (m : cmd V A) (Φ : A → heapProp V) R :
  wp m Φ ∗ R ⊢ wp m (λ a, Φ a ∗ R).
Proof. iIntros "[Hm HR]". iApply (wp_wand with "Hm"). iIntros (a) "H". iFrame. Qed.

Lemma wp_pureC {A} (m : res A) a (Φ : A → heapProp V) : m = Ret a → Φ a ⊢ wp (pureC m) Φ.
Proof. intros ->. split. intros h Ha hf Hd. by exists a, h. Qed.

Lemma wp_pure_bind {A B} (m : res A) a (f : A → cmd V B) (Φ : B → heapProp V) :
  m = Ret a → wp (f a) Φ ⊢ wp (pureC m ≫= f) Φ.
Proof. intros E. by rewrite -wp_bind -(wp_pureC _ _ _ E). Qed.

Lemma wp_alloc v (Φ : loc → heapProp V) : (∀ l, l ↦ v -∗ Φ l) ⊢ wp (alloc v) Φ.
Proof.
  split. intros h HΦ hf Hd. set (l := fresh (dom (h ∪ hf))).
  assert (h !! l = None ∧ hf !! l = None) as [Hl Hlf].
  { apply lookup_union_None, not_elem_of_dom, is_fresh. }
  exists l, (<[l := v]> h). unfold alloc. fold l. rewrite insert_union_l. split; [done|].
  split; [by apply map_disjoint_insert_l|]. rewrite insert_union_singleton_r //.
  apply (HΦ l); [|done]. by apply map_disjoint_singleton_r.
Qed.

Lemma pointsto_inv l v h hf : holds (l ↦ v)%I h → (h ∪ hf) !! l = Some v.
Proof. intros ->. apply lookup_union_Some_l, lookup_singleton_eq. Qed.

Lemma wp_read l v (Φ : V → heapProp V) : l ↦ v ∗ (l ↦ v -∗ Φ v) ⊢ wp (read l) Φ.
Proof.
  split. intros h (h1 & h2 & -> & Hd & Hl & HΦ) hf Hdf. exists v, (h1 ∪ h2).
  unfold read. rewrite -(assoc_L (∪)) (pointsto_inv _ _ _ _ Hl). split; [done|].
  split; [done|]. rewrite map_union_comm //. by apply HΦ.
Qed.

Lemma wp_write l v w (Φ : () → heapProp V) : l ↦ v ∗ (l ↦ w -∗ Φ tt) ⊢ wp (write l w) Φ.
Proof.
  split. intros h (h1 & h2 & -> & Hd & Hl & HΦ) hf Hdf. exists tt, ({[l := w]} ∪ h2).
  unfold write. rewrite -(assoc_L (∪)) (pointsto_inv _ _ _ _ Hl). rewrite Hl in Hd Hdf |- *.
  apply map_disjoint_singleton_l in Hd. rewrite -(assoc_L (∪)) insert_union_l.
  rewrite insert_singleton_eq. split; [done|]. apply map_disjoint_union_l in Hdf as [Hdf1 Hdf2].
  split.
  - apply map_disjoint_union_l. split; [|done]. apply map_disjoint_singleton_l.
    by apply map_disjoint_singleton_l in Hdf1.
  - rewrite map_union_comm; [|by apply map_disjoint_singleton_l]. apply HΦ; [|done].
    by apply map_disjoint_singleton_r.
Qed.

Lemma wp_free l v (Φ : () → heapProp V) : l ↦ v ∗ Φ tt ⊢ wp (free l) Φ.
Proof.
  split. intros h (h1 & h2 & -> & Hd & Hl & HΦ) hf Hdf. exists tt, h2.
  unfold free. rewrite -(assoc_L (∪)) (pointsto_inv _ _ _ _ Hl). rewrite Hl in Hd Hdf |- *.
  apply map_disjoint_union_l in Hdf as [Hdf1 Hdf2]. split; [|done].
  rewrite -insert_union_singleton_l delete_insert_id //.
  apply lookup_union_None. by rewrite -!map_disjoint_singleton_l.
Qed.

Lemma wp_read_as {T} (sel : V → option T) l v t (Φ : T → heapProp V) :
  sel v = Some t → l ↦ v ∗ (l ↦ v -∗ Φ t) ⊢ wp (read_as sel l) Φ.
Proof.
  iIntros (E) "[Hl HΦ]". iApply wp_bind. iApply wp_read. iFrame "Hl". iIntros "Hl".
  rewrite E. iApply wp_pureC; [done|]. by iApply "HΦ".
Qed.

(** A counted loop that follows one of a value model; [R k] relates their states
before the iteration [k]. *)
Lemma wp_for_sim {S T} (R : Z → S → T → heapProp V) n i (body : Z → S → res S) cbody s s' t :
  (∀ k s1 s2 t1, i ≤ k < i + Z.of_nat n → body k s1 = Ret s2 →
     R k s1 t1 ⊢ wp (cbody k t1) (R (k + 1) s2)) →
  for_range n i body s = Ret s' → R i s t ⊢ wp (cfor_range n i cbody t) (R (i + Z.of_nat n) s').
Proof.
  revert i s t. induction n as [|n IH]; intros i s t Hb E; simpl in *.
  { injection E as <-. rewrite Z.add_0_r. apply wp_ret. }
  apply bind_inv in E as (s1 & E1 & E). rewrite -wp_bind (Hb i s s1 t); [|lia|done].
  replace (i + Z.of_nat (Datatypes.S n)) with (i + 1 + Z.of_nat n) by lia.
  iIntros "Hm". iApply (wp_wand with "Hm"). iIntros (t1) "Ht". iApply (IH (i + 1) s1); [|done|done].
  intros k a1 a2 b1 Hk. apply Hb. lia.
Qed.

Lemma wp_for_to_sim {S T} (R : Z → S → T → heapProp V) b (body : Z → S → res S) cbody s s' t :
  (∀ k s1 s2 t1, 0 ≤ k < b → body k s1 = Ret s2 → R k s1 t1 ⊢ wp (cbody k t1) (R (k + 1) s2)) →
  for_to b body s = Ret s' → R 0 s t ⊢ wp (cfor_to b cbody t) (R (Z.max 0 b) s').
Proof.
  intros Hb E. replace (Z.max 0 b) with (0 + Z.of_nat (Z.to_nat b)) by lia.
  apply (wp_for_sim _ _ _ body); [|done]. intros k s1 s2 t1 Hk. apply Hb. lia.
Qed.

(** A loop without a state in the value model. *)
Lemma wp_for_to {T} (I : Z → T → heapProp V) b cbody t :
  0 ≤ b → (∀ k t1, 0 ≤ k < b → I k t1 ⊢ wp (cbody k t1) (I (k + 1))) →
  I 0 t ⊢ wp (cfor_to b cbody t) (I b).
Proof.
  intros Hp Hb. destruct (for_range_total (λ _ _, True) (Z.to_nat b) 0 (λ _ s, Ret s) ()) as ([] & E & _).
  { eauto. }
  { done. }
  pose proof (wp_for_to_sim (λ k (_ : ()) t, I k t) b (λ _ s, Ret s) cbody () () t) as H.
  rewrite Z.max_r in H; [|done]. apply H; [|done]. intros k s1 s2 t1 Hk _. by apply Hb.
Qed.

(** Programs that follow a value model. *)
Lemma follows_wp {A B} (m : res A) (cm : cmd V B) a (Φ : A → B → heapProp V) :
  m = Ret a → wp cm (Φ a) ⊢ follows m cm Φ.
Proof. intros ->. split. intros h Hm hf Hd. by apply Hm. Qed.

Lemma follows_ret {A B} (a : A) (b : B) (Φ : A → B → heapProp V) : Φ a b ⊢ follows (Ret a) (mret b) Φ.
Proof. rewrite -(follows_wp _ _ a) //. apply wp_ret. Qed.

Lemma follows_fault {A B C} (m : res A) e (cf : C → cmd V B) (Φ : A → B → heapProp V) P :
  m = Fault e → P ⊢ follows m (pureC (Fault e) ≫= cf) Φ.
Proof. intros ->. split. by intros h _ hf _. Qed.

Lemma follows_bind {A B A' B'} (m : res A) (cm : cmd V B) (f : A → res A') (cf : B → cmd V B')
    (Φ : A' → B' → heapProp V) :
  follows m cm (λ a b, follows (f a) (cf b) Φ) ⊢ follows (m ≫= f) (cm ≫= cf) Φ.
Proof.
  split. intros h Hm hf Hd. specialize (Hm hf Hd). unfold mbind, cmd_bind. destruct m as [a|e]; simpl.
  - destruct Hm as (b & h1 & -> & Hd1 & Hf). exact (Hf hf Hd1).
  - by rewrite Hm.
Qed.

Lemma follows_then {A B A' B'} (m : res A) (cm : cmd V B) (f : A → res A') (cf : B → cmd V B')
    (Ψ : A → B → heapProp V) (Φ : A' → B' → heapProp V) :
  (∀ a b, m = Ret a → Ψ a b ⊢ follows (f a) (cf b) Φ) →
  follows m cm Ψ ⊢ follows (m ≫= f) (cm ≫= cf) Φ.
Proof.
  intros H. split. intros h Hm hf Hd. specialize (Hm hf Hd). unfold mbind, cmd_bind.
  destruct m as [a|e]; simpl.
  - destruct Hm as (b & h1 & -> & Hd1 & Hf). exact (hp_holds _ _ (H a b eq_refl) h1 Hf hf Hd1).
  - by rewrite Hm.
Qed.

Lemma follows_end {A B C} (m : res A) (cm : cmd V B) (cf : B → cmd V C)
    (Ψ : A → B → heapProp V) (Φ : A → C → heapProp V) :
  (∀ a b, m = Ret a → Ψ a b ⊢ wp (cf b) (Φ a)) → follows m cm Ψ ⊢ follows m (cm ≫= cf) Φ.
Proof.
  intros H. rewrite (follows_then m cm Ret cf Ψ Φ).
  - by destruct m.
  - intros a b E. rewrite (H a b E). by apply follows_wp.
Qed.

(** A step of the program alone, and a step of both that leaves the heap alone. *)
Lemma follows_step {A B C} (m : res A) (cm : cmd V B) (cf : B → cmd V C) (Φ : A → C → heapProp V) :
  wp cm (λ b, follows m (cf b) Φ) ⊢ follows m (cm ≫= cf) Φ.
Proof.
  split. intros h Hm hf Hd. destruct (Hm hf Hd) as (b & h1 & E & Hd1 & Hf).
  unfold mbind, cmd_bind. rewrite E. exact (Hf hf Hd1).
Qed.

Lemma follows_pure {A B C} (m : res A) (f : A → res B) (cf : A → cmd V C) (Φ : B → C → heapProp V) P :
  (∀ a, m = Ret a → P ⊢ follows (f a) (cf a) Φ) → P ⊢ follows (m ≫= f) (pureC m ≫= cf) Φ.
Proof.
  intros H. rewrite -follows_bind. destruct m as [a|e].
  - rewrite (H a) // -(follows_wp _ _ a) // -(wp_pureC _ a) //.
  - split. by intros h _ hf _.
Qed.

Lemma follows_wand {A B} (m : res A) (cm : cmd V B) (Φ Ψ : A → B → heapProp V) :
  follows m cm Φ ⊢ (∀ a b, Φ a b -∗ Ψ a b) -∗ follows m cm Ψ.
Proof.
  destruct m as [a|e].
  - split. intros h Hm h' Hd HΦ. refine (hp_holds _ _ (wp_wand cm (Φ a) (Ψ a)) h Hm h' Hd _).
    exact (HΦ a).
  - split. intros h Hm h' Hd _ hf Hd'. apply map_disjoint_union_l in Hd' as [Hd1 Hd2].
    rewrite -(assoc_L (∪)). apply Hm. by apply map_disjoint_union_r.
Qed.

(** Two points-to assertions are about different locations. *)
Lemma pointsto_ne l1 l2 v1 v2 : l1 ↦ v1 ∗ l2 ↦ v2 ⊢ ⌜l1 ≠ l2⌝.
Proof.
  split. intros h (h1 & h2 & -> & Hd & -> & ->) ->.
  apply map_disjoint_singleton_l in Hd. by rewrite lookup_singleton_eq in Hd.
Qed.

(** Assertions about concrete heaps. *)
Lemma holds_insert l v P h : h !! l = None → holds P h → holds (l ↦ v ∗ P)%I (<[l := v]> h).
Proof.
  intros Hl HP. exists {[l := v]}, h. split; [apply insert_union_singleton_l|].
  split; [by apply map_disjoint_singleton_l|]. by split.
Qed.

Lemma holds_entails P Q h : (P ⊢ Q) → holds P h → holds Q h.
Proof. intros [H]. apply H. Qed.

(** What a proved triple says of a run: the frame is untouched. *)
Lemma wp_adequate {A} P (m : cmd V A) (Φ : A → heapProp V) h hf :
  (P ⊢ wp m Φ) → holds P h → h ##ₘ hf →
  ∃ a h', m (h ∪ hf) = Ret (a, h' ∪ hf) ∧ h' ##ₘ hf ∧ holds (Φ a) h'.
Proof. intros [H] Hp Hd. by apply H. Qed.

Lemma follows_adequate {A B} P (m : res A) (cm : cmd V B) (Φ : A → B → heapProp V) h hf :
  (P ⊢ follows m cm Φ) → holds P h → h ##ₘ hf →
  match m with
  | Ret a => ∃ b h', cm (h ∪ hf) = Ret (b, h' ∪ hf) ∧ h' ##ₘ hf ∧ holds (Φ a b) h'
  | Fault e => cm (h ∪ hf) = Fault e
  end.
Proof. intros [H] Hp Hd. by apply H. Qed.

(** A program that starts from nothing and ends with nothing leaves any heap
as it found it. *)
Lemma wp_closed {A} (m : cmd V A) (φ : A → Prop) h :
  (emp ⊢ wp m (λ a, <affine> ⌜φ a⌝)) → ∃ a, m h = Ret (a, h) ∧ φ a.
Proof.
  intros H. destruct (wp_adequate emp%I m _ ∅ h H) as (a & h' & E & _ & Ha & Hφ).
  { done. }
  { apply map_disjoint_empty_l. }
  rewrite (left_id_L ∅ (∪)) in E. exists a. change (h' = ∅) in Ha. subst h'.
  by rewrite (left_id_L ∅ (∪)) in E.
Qed.

End rules.

(** ** Tactics

[wp_rd "H"] and [wp_wr "H"] step over a read or a write through the pointer of
hypothesis [H], [wp_fr "H"] over a [free], [wp_new l "H"] over a [malloc],
[wp_pure E] over a computation that [E] says returns, [wp_call lem with pat] over a call specified
by [lem] that takes the hypotheses [pat]. *)

Ltac wp_unbind := try iApply wp_bind.

Tactic Notation "wp_rd" constr(H) :=
  wp_unbind; iApply wp_read_as; [|iFrame H; iIntros H]; [reflexivity|].
Tactic Notation "wp_wr" constr(H) :=
  wp_unbind; iApply wp_write; iFrame H; iIntros H.
Tactic Notation "wp_fr" constr(H) :=
  wp_unbind; iApply wp_free; iFrame H.
Tactic Notation "wp_new" ident(l) constr(H) :=
  wp_unbind; iApply wp_alloc; iIntros (l) H.
Tactic Notation "wp_pure" constr(E) :=
  wp_unbind; iApply (wp_pureC _ _ _ E).
Tactic Notation "wp_call" uconstr(lem) "with" constr(pat) :=
  wp_unbind; iApply (wp_wand with pat); [iApply lem; first [eassumption|reflexivity|by iFrame|idtac]|].

(** Over a computation that a hypothesis says returns. *)
Tactic Notation "wp_p" := wp_unbind; iApply wp_pureC; [first [eassumption|reflexivity]|].

(** Splits an equation [_ ≫= _ = Ret _] into the equations of its parts. *)
Ltac inv_binds :=
  cbv beta in *;
  repeat match goal with
  | H : Ret _ = Ret _ |- _ => injection H as H; try subst
  | H : Fault _ = Ret _ |- _ => discriminate H
  | H : mret _ = Ret _ |- _ => unfold mret, res_ret in H
  | H : (_ ≫= _) = Ret _ |- _ =>
      let a := fresh "r" in let E := fresh "E" in
      apply bind_inv in H as (a & E & H); simpl in H
  | p : (_ * _)%type |- _ => destruct p
  end.
