(* ===== verification/Memory.v ===== *)
(** * The objects of libpaxos in memory

[block] lists what the C code allocates, one constructor per type: structures,
with their pointers as locations, and arrays.  The structures of quorum.h are
fields of the instances they are part of.  libevent's objects (connections,
listeners, timers) are blocks too, which hold what the models of [Net] say of
them; callbacks and the event base, which never change, are left out. *)

From S2P Require Import Prelude Heap Messages Net.
#[local] Open Scope Z_scope.

(** [struct carray]; its array of pointers is a block of its own, in which
[None] is a slot that was never written. *)
Record c_carray : Type := CCarray {
  cc_head : Z;
  cc_tail : Z;
  cc_size : Z;
  cc_count : Z;
  cc_array : loc;
}.

(** [struct quorum] *)
Record c_quorum : Type := CQuorum {
  cq_count : Z;
  cq_quorum : Z;
  cq_acceptors : Z;
  cq_acceptor_ids : option loc;
}.

(** [struct instance] of proposer.c *)
Record c_instance : Type := CInstance {
  ci_iid : Z;
  ci_ballot : Z;
  ci_value_ballot : Z;
  ci_value : option loc;
  ci_closed : Z;
  ci_quorum : c_quorum;
  ci_created_at : timeval;
}.

(** [struct proposer] *)
Record c_proposer : Type := CProposer {
  cp_id : Z;
  cp_acceptors : Z;
  cp_values : loc;
  cp_next_prepare_iid : Z;
  cp_prepare_instances : loc;
  cp_accept_instances : loc;
}.

(** [struct timeout_iterator] *)
Record c_timeout_iterator : Type := CTimeoutIterator {
  ct_pi : Z;
  ct_ai : Z;
  ct_timeout : timeval;
  ct_proposer : loc;
}.

(** [struct instance] of learner.c *)
Record c_linstance : Type := CLInstance {
  cl_iid : Z;
  cl_last_update_ballot : Z;
  cl_acks : loc;
  cl_final_value : option loc;
}.

(** [struct learner] *)
Record c_learner : Type := CLearner {
  cr_quorum : Z;
  cr_acceptors : Z;
  cr_late_start : Z;
  cr_current_iid : Z;
  cr_highest_iid_seen : Z;
  cr_highest_iid_closed : Z;
  cr_instances : loc;
}.

(** [struct tcp_receiver] *)
Record c_tcp_receiver : Type := CReceiver {
  ctr_listener : loc;
  ctr_bevs : loc;
}.

(** [struct peer] *)
Record c_peer : Type := CPeer {
  cpe_string : loc;
  cpe_port : Z;
  cpe_bev : loc;
  cpe_reconnect_ev : loc;
}.

(** [struct peers]; its array is [NULL] as long as it is empty. *)
Record c_peers : Type := CPeers {
  cps_count : Z;
  cps_peers : option loc;
}.

(** [struct address] and [struct config] *)
Record c_address : Type := CAddress {
  cad_string : option loc;
  cad_port : Z;
}.
Record c_config : Type := CConfig {
  ccf_proposers_count : Z;
  ccf_acceptors_count : Z;
  ccf_proposers : list c_address;
  ccf_acceptors : list c_address;
}.

(** [struct evlearner] *)
Record c_evlearner : Type := CEvLearner {
  cel_state : loc;
  cel_acceptors : loc;
  cel_hole_timer : loc;
}.

(** [struct evproposer] *)
Record c_evproposer : Type := CEvProposer {
  cep_id : Z;
  cep_preexec_window : Z;
  cep_receiver : loc;
  cep_state : loc;
  cep_acceptors : loc;
  cep_timeout_ev : loc;
}.

(** [struct storage] of storage_mem.c; its table is part of it. *)
Record c_storage : Type := CStorage {
  cst_acceptor_id : Z;
  cst_records : list (option loc);
}.

(** [struct acceptor] *)
Record c_acceptor : Type := CAcceptor {
  cac_store : loc;
}.

(** [struct evacceptor]; two of its pointers are set after the rest. *)
Record c_evacceptor : Type := CEvAcceptor {
  cea_acceptor_id : Z;
  cea_conf : loc;
  cea_receiver : option loc;
  cea_state : option loc;
}.

(** [paxos_config]; its strings are literals or copies made by the reader of the
configuration file. *)
Record c_paxos_config : Type := CPaxosConfig {
  cx_verbosity : Z;
  cx_learner_instances : Z;
  cx_learner_catch_up : Z;
  cx_proposer_timeout : Z;
  cx_proposer_preexec_window : Z;
  cx_bdb_sync : Z;
  cx_bdb_cachesize : Z;
  cx_bdb_env_path : loc;
  cx_bdb_db_filename : loc;
  cx_bdb_trash_files : Z;
}.

Inductive block : Type :=
  | BCarray (c : c_carray)
  | BSlots (l : list (option loc))
  | BInts (l : list Z)
  | BMsg (m : paxos_msg)
  | BInstance (i : c_instance)
  | BProposer (p : c_proposer)
  | BIterator (t : c_timeout_iterator)
  | BPrepareReq (m : prepare_req)
  | BAcceptReq (m : accept_req)
  | BAck (m : accept_ack)
  | BAcks (l : list (option (option loc)))
  | BLInstance (i : c_linstance)
  | BLearner (l : c_learner)
  | BString (s : string)
  | BConfig (c : c_config)
  | BBev (target : option sockaddr_in)   (** where it was told to connect *)
  | BListener (a : sockaddr_in)
  | BTimer (pending : bool)              (** whether it is running *)
  | BReceiver (r : c_tcp_receiver)
  | BPeer (p : c_peer)
  | BPeers (p : c_peers)
  | BEvLearner (l : c_evlearner)
  | BEvProposer (p : c_evproposer)
  | BRecord (r : acceptor_record)        (** a record buffer of the table *)
  | BStorage (s : c_storage)
  | BAcceptor (a : c_acceptor)
  | BEvAcceptor (a : c_evacceptor)
  | BGlobals (p : c_paxos_config).

Definition as_carray (b : block) := match b with BCarray c => Some c | _ => None end.
Definition as_slots (b : block) := match b with BSlots l => Some l | _ => None end.
Definition as_ints (b : block) := match b with BInts l => Some l | _ => None end.
Definition as_msg (b : block) := match b with BMsg m => Some m | _ => None end.
Definition as_instance (b : block) := match b with BInstance i => Some i | _ => None end.
Definition as_proposer (b : block) := match b with BProposer p => Some p | _ => None end.
Definition as_iterator (b : block) := match b with BIterator t => Some t | _ => None end.
Definition as_prepare_req (b : block) := match b with BPrepareReq m => Some m | _ => None end.
Definition as_accept_req (b : block) := match b with BAcceptReq m => Some m | _ => None end.
Definition as_ack (b : block) := match b with BAck m => Some m | _ => None end.
Definition as_acks (b : block) := match b with BAcks l => Some l | _ => None end.
Definition as_linstance (b : block) := match b with BLInstance i => Some i | _ => None end.
Definition as_learner (b : block) := match b with BLearner l => Some l | _ => None end.

Definition as_string (b : block) := match b with BString s => Some s | _ => None end.
Definition as_config (b : block) := match b with BConfig c => Some c | _ => None end.
Definition as_bev (b : block) := match b with BBev t => Some t | _ => None end.
Definition as_timer (b : block) := match b with BTimer t => Some t | _ => None end.
Definition as_receiver (b : block) := match b with BReceiver r => Some r | _ => None end.
Definition as_peer (b : block) := match b with BPeer p => Some p | _ => None end.
Definition as_peers (b : block) := match b with BPeers p => Some p | _ => None end.
Definition as_evlearner (b : block) := match b with BEvLearner l => Some l | _ => None end.
Definition as_evproposer (b : block) := match b with BEvProposer p => Some p | _ => None end.
Definition as_record (b : block) := match b with BRecord r => Some r | _ => None end.
Definition as_storage (b : block) := match b with BStorage s => Some s | _ => None end.
Definition as_acceptor (b : block) := match b with BAcceptor a => Some a | _ => None end.
Definition as_evacceptor (b : block) := match b with BEvAcceptor a => Some a | _ => None end.
Definition as_globals (b : block) := match b with BGlobals p => Some p | _ => None end.

Notation cmdb := (cmd block).
Notation mprop := (heapProp block).
