(* ===== verification/MemCarray.v ===== *)
(** * The ring buffer in memory (src/paxos/carray.c)

The functions of carray.c on a heap: the structure and its array are two
blocks, [carray_grow] replaces the array and frees the old one, [_carray_map]
allocates a new buffer.  [a ↦c c] says that the structure at [a] and its array
are the value [c] of [Carray], whose elements are locations; each function does
to the blocks what the one of [Carray] does to the value.

[queue R a c] adds what the elements point to: the buffer at [a] holds, in the
order of the value [c], pointers to objects that [R] relates to the elements of
[c].  Slots outside of the queue hold stale pointers, which own nothing. *)

From S2P Require Import Prelude Heap Carray Messages Memory.
#[local] Open Scope Z_scope.

(** ** The functions *)

Definition c_carray_new (size : Z) : cmdb loc :=
  pureC (assert_that (negb (size <? 0))) ;;
  arr ← alloc (BSlots (replicate (Z.to_nat size) None));
  alloc (BCarray (CCarray 0 0 size 0 arr)).

Definition c_carray_free (a : loc) : cmdb () :=
  s ← read_as as_carray a;
  free (cc_array s) ;;
  free a.

Definition c_carray_count (a : loc) : cmdb Z := s ← read_as as_carray a; mret (cc_count s).
Definition c_carray_size (a : loc) : cmdb Z := s ← read_as as_carray a; mret (cc_size s).
Definition c_carray_empty (a : loc) : cmdb bool := s ← read_as as_carray a; mret (cc_count s =? 0).
Definition c_carray_full (a : loc) : cmdb bool :=
  s ← read_as as_carray a; mret (cc_count s =? cc_size s).

(** [a->array[i]], with an index that is in range or a [Fault]. *)
Definition c_slot (s : c_carray) (i : Z) : cmdb loc :=
  arr ← read_as as_slots (cc_array s);
  x ← pureC (arr_get arr i);
  pureC (read_slot x).

Definition c_set_slot (s : c_carray) (i : Z) (p : loc) : cmdb () :=
  arr ← read_as as_slots (cc_array s);
  arr ← pureC (arr_set arr i (Some p));
  write (cc_array s) (BSlots arr).

Definition c_carray_at (a : loc) (i : Z) : cmdb (option loc) :=
  e ← c_carray_empty a;
  if (e : bool) then mret None
  else
    s ← read_as as_carray a;
    j ← pureC (cint (cc_head s + i));
    k ← pureC (crem j (cc_size s));
    v ← c_slot s k;
    mret (Some v).

(** The body of [carray_push_back] after the buffer has room. *)
Definition c_push_slot (a p : loc) : cmdb () :=
  s ← read_as as_carray a;
  c_set_slot s (cc_tail s) p ;;
  t ← pureC (cint (cc_tail s + 1));
  t ← pureC (crem t (cc_size s));
  c ← pureC (cint (cc_count s + 1));
  write a (BCarray (CCarray (cc_head s) t (cc_size s) c (cc_array s))).

Definition c_carray_grow_with (push : loc → loc → cmdb ()) (a : loc) : cmdb () :=
  s ← read_as as_carray a;
  sz ← pureC (cint (cc_size s * 2));
  tmp ← c_carray_new sz;
  count ← c_carray_count a;
  cfor_to count (λ i _,
    x ← c_carray_at a i;
    v ← pureC (deref x);
    push tmp v) tt ;;
  free (cc_array s) ;;
  t ← read_as as_carray tmp;
  write a (BCarray (CCarray 0 (cc_tail t) (cc_size t) (cc_count s) (cc_array t))) ;;
  free tmp.

Fixpoint c_carray_push_back_n (depth : nat) (a p : loc) : cmdb () :=
  match depth with
  | O => pureC (Fault StackOverflow)
  | S depth' =>
      full ← c_carray_full a;
      (if (full : bool) then c_carray_grow_with (c_carray_push_back_n depth') a else mret tt) ;;
      c_push_slot a p
  end.

Definition c_carray_push_back : loc → loc → cmdb () := c_carray_push_back_n 2.

Definition c_carray_push_front (a p : loc) : cmdb () :=
  full ← c_carray_full a;
  (if (full : bool) then c_carray_grow_with c_carray_push_back a else mret tt) ;;
  e ← c_carray_empty a;
  if (e : bool) then c_carray_push_back a p
  else
    s ← read_as as_carray a;
    let h := if 0 <=? cc_head s - 1 then cc_head s - 1 else cc_size s - 1 in
    c_set_slot s h p ;;
    c ← pureC (cint (cc_count s + 1));
    write a (BCarray (CCarray h (cc_tail s) (cc_size s) c (cc_array s))).

Definition c_carray_front (a : loc) : cmdb (option loc) :=
  e ← c_carray_empty a;
  if (e : bool) then mret None
  else
    s ← read_as as_carray a;
    v ← c_slot s (cc_head s);
    mret (Some v).

Definition c_carray_pop_front (a : loc) : cmdb (option loc) :=
  e ← c_carray_empty a;
  if (e : bool) then mret None
  else
    s ← read_as as_carray a;
    v ← c_slot s (cc_head s);
    h ← pureC (cint (cc_head s + 1));
    h ← pureC (crem h (cc_size s));
    write a (BCarray (CCarray h (cc_tail s) (cc_size s) (cc_count s - 1) (cc_array s))) ;;
    mret (Some v).

(** [_carray_map] *)
Definition c_carray_map (a : loc) (match_fn : loc → loc → cmdb Z) (arg : loc) (mtch : Z)
    : cmdb loc :=
  s ← read_as as_carray a;
  new ← c_carray_new (cc_size s);
  count ← c_carray_count a;
  cfor_to count (λ i _,
    x ← c_carray_at a i;
    p ← pureC (deref x);
    m ← match_fn arg p;
    if m =? mtch then c_carray_push_back new p else mret tt) tt ;;
  mret new.

Definition c_carray_reject (a : loc) (match_fn : loc → loc → cmdb Z) (arg : loc) : cmdb loc :=
  c_carray_map a match_fn arg 0.

(** ** The buffer as a value *)

Definition struct_of (c : carray loc) (arr : loc) : c_carray :=
  CCarray (ca_head c) (ca_tail c) (ca_size c) (ca_count c) arr.

(** With the array it has now, and with whatever array it has. *)
Definition at_buf (a arr : loc) (c : carray loc) : mprop :=
  (a ↦ BCarray (struct_of c arr) ∗ arr ↦ BSlots (ca_array c))%I.

Definition at_carray (a : loc) (c : carray loc) : mprop := (∃ arr, at_buf a arr c)%I.
Notation "a ↦c c" := (at_carray a c) (at level 20, format "a  ↦c  c") : bi_scope.

Section values.
Implicit Types (a p : loc) (c : carray loc).

Lemma c_carray_new_ok size c :
  carray_new size = Ret c → ⊢ wp (c_carray_new size) (λ a, a ↦c c).
Proof.
  unfold carray_new, c_carray_new. iIntros (E). destruct (size <? 0) eqn:Hs; [done|].
  injection E as <-. wp_pure (eq_refl (Ret tt)). wp_new arr "Harr". wp_new a "Ha".
  iExists arr. iFrame.
Qed.

Lemma c_carray_free_ok a c : a ↦c c ⊢ wp (c_carray_free a) (λ _, emp).
Proof.
  iIntros "(%arr & Ha & Harr)". unfold c_carray_free. wp_rd "Ha". simpl. wp_fr "Harr".
  wp_fr "Ha".
Qed.

Lemma c_slot_ok c arr i x v (Φ : loc → mprop) :
  arr_get (ca_array c) i = Ret x → read_slot x = Ret v →
  arr ↦ BSlots (ca_array c) ∗ (arr ↦ BSlots (ca_array c) -∗ Φ v) ⊢
  wp (c_slot (struct_of c arr) i) Φ.
Proof.
  iIntros (Ex Ev) "[Harr HΦ]". unfold c_slot. simpl. wp_rd "Harr". wp_p. wp_p.
  by iApply "HΦ".
Qed.

Lemma c_set_slot_ok c arr i p l :
  arr_set (ca_array c) i (Some p) = Ret l →
  arr ↦ BSlots (ca_array c) ⊢ wp (c_set_slot (struct_of c arr) i p) (λ _, arr ↦ BSlots l).
Proof.
  iIntros (E) "Harr". unfold c_set_slot. simpl. wp_rd "Harr". wp_p. by wp_wr "Harr".
Qed.

Lemma c_carray_empty_ok a arr c (Φ : bool → mprop) :
  at_buf a arr c ∗ (at_buf a arr c -∗ Φ (carray_empty c)) ⊢ wp (c_carray_empty a) Φ.
Proof.
  iIntros "[[Ha Harr] HΦ]". unfold c_carray_empty. wp_rd "Ha". iApply wp_ret.
  iApply "HΦ". iFrame.
Qed.

Lemma c_carray_full_ok a arr c (Φ : bool → mprop) :
  at_buf a arr c ∗ (at_buf a arr c -∗ Φ (carray_full c)) ⊢ wp (c_carray_full a) Φ.
Proof.
  iIntros "[[Ha Harr] HΦ]". unfold c_carray_full. wp_rd "Ha". iApply wp_ret.
  iApply "HΦ". iFrame.
Qed.

Lemma c_carray_count_ok a arr c (Φ : Z → mprop) :
  at_buf a arr c ∗ (at_buf a arr c -∗ Φ (carray_count c)) ⊢ wp (c_carray_count a) Φ.
Proof.
  iIntros "[[Ha Harr] HΦ]". unfold c_carray_count. wp_rd "Ha". iApply wp_ret.
  iApply "HΦ". iFrame.
Qed.

Lemma c_buf_at_ok a arr c i x :
  carray_at c i = Ret x →
  at_buf a arr c ⊢ wp (c_carray_at a i) (λ r, <affine> ⌜r = x⌝ ∗ at_buf a arr c).
Proof.
  iIntros (E) "Ha". unfold carray_at in E. unfold c_carray_at. wp_unbind.
  iApply c_carray_empty_ok. iFrame "Ha". iIntros "[Ha Harr]".
  destruct (carray_empty c); inv_binds.
  - iApply wp_ret. iSplitR; [done|]. iFrame.
  - wp_rd "Ha". wp_p. wp_p. wp_unbind. iApply c_slot_ok; [done|done|]. iFrame "Harr".
    iIntros "Harr". iApply wp_ret. iSplitR; [done|]. iFrame.
Qed.

Lemma c_carray_at_ok a c i x :
  carray_at c i = Ret x → a ↦c c ⊢ wp (c_carray_at a i) (λ r, <affine> ⌜r = x⌝ ∗ a ↦c c).
Proof.
  iIntros (E) "[%arr Ha]". iApply (wp_wand with "[Ha]"); [by iApply c_buf_at_ok|].
  iIntros (r) "[$ Ha]". by iExists arr.
Qed.

Lemma c_push_slot_ok a p c c' :
  push_slot c p = Ret c' → a ↦c c ⊢ wp (c_push_slot a p) (λ _, a ↦c c').
Proof.
  iIntros (E) "(%arr & Ha & Harr)". unfold push_slot in E. unfold c_push_slot. inv_binds.
  wp_rd "Ha". wp_call c_set_slot_ok with "[Harr]". iIntros (_) "Harr". wp_p. wp_p. wp_p.
  wp_wr "Ha". iExists arr. iFrame.
Qed.

Lemma c_grow_ok (push : carray loc → loc → res (carray loc)) c_push a c c' :
  (∀ t p t' b, push t p = Ret t' → b ↦c t ⊢ wp (c_push b p) (λ _, b ↦c t')) →
  carray_grow_with push c = Ret c' → a ↦c c ⊢ wp (c_carray_grow_with c_push a) (λ _, a ↦c c').
Proof.
  iIntros (Hpush E) "(%arr & Ha & Harr)". unfold carray_grow_with in E. unfold c_carray_grow_with.
  inv_binds. wp_rd "Ha". wp_p. wp_call c_carray_new_ok with "[]". iIntros (tmp) "Htmp".
  wp_unbind. iApply c_carray_count_ok. iSplitL "Ha Harr"; [iFrame|]. iIntros "Ha".
  wp_unbind. iApply (wp_wand with "[Htmp Ha]").
  { iApply (wp_for_to_sim (λ _ t (_ : ()), tmp ↦c t ∗ at_buf a arr c)%I); [|exact E2|iFrame].
    iIntros (k t1 t2 _ Hk Eb) "[Ht Ha]". inv_binds. wp_call c_buf_at_ok with "[Ha]".
    iIntros (x) "[-> Ha]". wp_p. iApply (wp_wand with "[Ht]"); [by iApply Hpush|].
    iIntros (_) "Ht". iFrame. }
  iIntros (_) "[(%tarr & Ht & Htarr) [Ha Harr]]". simpl. wp_fr "Harr". wp_rd "Ht". wp_wr "Ha".
  wp_fr "Ht". iExists tarr. iFrame.
Qed.

Lemma c_push_back_n_ok d a p c c' :
  carray_push_back_n d c p = Ret c' →
  a ↦c c ⊢ wp (c_carray_push_back_n d a p) (λ _, a ↦c c').
Proof.
  revert a p c c'. induction d as [|d IH]; intros a p c c' E; [done|]. simpl in *.
  apply bind_inv in E as (c1 & E1 & E). iIntros "[%arr Ha]". wp_unbind.
  iApply c_carray_full_ok. iFrame "Ha". iIntros "Ha". wp_unbind.
  iApply (wp_wand _ (λ _, (a ↦c c1)%I) with "[Ha]").
  { destruct (carray_full c); [|inv_binds; iApply wp_ret; by iExists arr].
    iApply (c_grow_ok (carray_push_back_n d)); [|exact E1|by iExists arr].
    intros t q t' b Et. by apply IH. }
  iIntros (_) "Ha". by iApply c_push_slot_ok.
Qed.

Lemma c_push_back_ok a p c c' :
  carray_push_back c p = Ret c' → a ↦c c ⊢ wp (c_carray_push_back a p) (λ _, a ↦c c').
Proof. apply c_push_back_n_ok. Qed.

Lemma c_push_front_ok a p c c' :
  carray_push_front c p = Ret c' → a ↦c c ⊢ wp (c_carray_push_front a p) (λ _, a ↦c c').
Proof.
  intros E. unfold carray_push_front in E. unfold c_carray_push_front.
  apply bind_inv in E as (c1 & E1 & E). iIntros "[%arr Ha]". wp_unbind.
  iApply c_carray_full_ok. iFrame "Ha". iIntros "Ha". wp_unbind.
  iApply (wp_wand _ (λ _, (a ↦c c1)%I) with "[Ha]").
  { destruct (carray_full c); [|inv_binds; iApply wp_ret; by iExists arr].
    iApply (c_grow_ok carray_push_back); [|exact E1|by iExists arr].
    intros t q t' b. apply c_push_back_ok. }
  clear arr. iIntros (_) "[%arr Ha]". wp_unbind. iApply c_carray_empty_ok. iFrame "Ha".
  iIntros "[Ha Harr]". unfold push_head in E. destruct (carray_empty c1).
  - iApply c_push_back_ok; [done|]. iExists arr. iFrame.
  - inv_binds. wp_rd "Ha". wp_call c_set_slot_ok with "[Harr]". iIntros (_) "Harr". wp_p.
    wp_wr "Ha". iExists arr. iFrame.
Qed.

Lemma c_front_ok a c x :
  carray_front c = Ret x → a ↦c c ⊢ wp (c_carray_front a) (λ r, <affine> ⌜r = x⌝ ∗ a ↦c c).
Proof.
  iIntros (E) "[%arr Ha]". unfold carray_front in E. unfold c_carray_front. wp_unbind.
  iApply c_carray_empty_ok. iFrame "Ha". iIntros "[Ha Harr]".
  destruct (carray_empty c); inv_binds.
  - iApply wp_ret. iSplitR; [done|]. iExists arr. iFrame.
  - wp_rd "Ha". wp_unbind. iApply c_slot_ok; [done|done|]. iFrame "Harr".
    iIntros "Harr". iApply wp_ret. iSplitR; [done|]. iExists arr. iFrame.
Qed.

Lemma c_pop_front_ok a c x c' :
  carray_pop_front c = Ret (x, c') →
  a ↦c c ⊢ wp (c_carray_pop_front a) (λ r, <affine> ⌜r = x⌝ ∗ a ↦c c').
Proof.
  iIntros (E) "[%arr Ha]". unfold carray_pop_front in E. unfold c_carray_pop_front. wp_unbind.
  iApply c_carray_empty_ok. iFrame "Ha". iIntros "[Ha Harr]".
  destruct (carray_empty c); inv_binds.
  - iApply wp_ret. iSplitR; [done|]. iExists arr. iFrame.
  - wp_rd "Ha". wp_unbind. iApply c_slot_ok; [done|done|]. iFrame "Harr".
    iIntros "Harr". wp_p. wp_p. wp_wr "Ha". iApply wp_ret. iSplitR; [done|]. iExists arr. iFrame.
Qed.

End values.

(** ** The operations do not look at the elements *)

Definition rmap {A B} (f : A → B) (m : res A) : res B := a ← m; Ret (f a).

Lemma rmap_bind {A B C} (f : A → B) (m : res A) (g : B → res C) :
  rmap f m ≫= g = m ≫= (λ a, g (f a)).
Proof. by destruct m. Qed.

Lemma bind_rmap {A B C} (m : res A) (g : A → res B) (f : B → C) :
  rmap f (m ≫= g) = m ≫= (λ a, rmap f (g a)).
Proof. by destruct m. Qed.

Lemma rmap_inv {A B} (f : A → B) (m : res A) b : rmap f m = Ret b → ∃ a, m = Ret a ∧ b = f a.
Proof. destruct m as [a|]; [|done]. intros [= <-]. eauto. Qed.

Lemma for_range_rmap {S T} (g : S → T) n i body body' s :
  (∀ k s, body' k (g s) = rmap g (body k s)) →
  for_range n i body' (g s) = rmap g (for_range n i body s).
Proof.
  intros Hb. revert i s. induction n as [|n IH]; intros i s; [done|]. simpl.
  rewrite Hb rmap_bind bind_rmap. by apply bind_ext.
Qed.

(** A buffer without its elements: the state of its indices, and which slots
have been written. *)
Section shapes.
Context {A : Type}.
Implicit Types (c : carray A).

Definition blank (x : option A) : option () := (λ _, ()) <$> x.

Definition shape c : carray () :=
  Carray (ca_head c) (ca_tail c) (ca_size c) (ca_count c) (blank <$> ca_array c).

Lemma shape_arr_get (l : list (option A)) i :
  arr_get (blank <$> l) i = rmap blank (arr_get l i).
Proof.
  unfold arr_get. case_match; [done|]. rewrite list_lookup_fmap. by destruct (l !! _).
Qed.

Lemma shape_arr_set (l : list (option A)) i x :
  arr_set (blank <$> l) i (Some ()) =
  rmap (fmap blank) (arr_set l i (Some x)).
Proof.
  unfold arr_set. rewrite length_fmap. case_match; [done|]. simpl. by rewrite list_fmap_insert.
Qed.

Lemma shape_read_slot (x : option A) :
  read_slot (blank x) = rmap (λ _, ()) (read_slot x).
Proof. by destruct x. Qed.

Lemma shape_at c i : carray_at (shape c) i = rmap blank (carray_at c i).
Proof.
  unfold carray_at. destruct c as [h t sz n arr]. unfold carray_empty. simpl.
  case_match; [done|]. destruct (cint (h + i)) as [j|]; [|done]. simpl.
  destruct (crem j sz) as [k|]; [|done]. simpl. rewrite shape_arr_get rmap_bind bind_rmap.
  apply bind_ext. intros [x|]; done.
Qed.

Lemma shape_push_slot c x : push_slot (shape c) () = rmap shape (push_slot c x).
Proof.
  unfold push_slot. simpl. rewrite (shape_arr_set _ _ x) rmap_bind bind_rmap. apply bind_ext.
  intros arr. do 3 (rewrite bind_rmap; apply bind_ext; intros ?). done.
Qed.

Lemma shape_new size : carray_new size = rmap shape (carray_new (A:=A) size).
Proof. unfold carray_new. case_match; [done|]. unfold shape. simpl. by rewrite fmap_replicate. Qed.

Lemma shape_grow (push : carray A → A → res (carray A)) push' c :
  (∀ t x, push' (shape t) () = rmap shape (push t x)) →
  carray_grow_with push' (shape c) = rmap shape (carray_grow_with push c).
Proof.
  intros Hp. unfold carray_grow_with. simpl. rewrite bind_rmap. apply bind_ext. intros sz.
  rewrite (shape_new sz) rmap_bind bind_rmap. apply bind_ext. intros tmp.
  unfold for_to. rewrite (for_range_rmap shape _ _ (λ i tmp, x ← carray_at c i; v ← deref x; push tmp v)).
  - rewrite rmap_bind bind_rmap. by apply bind_ext.
  - intros k t. rewrite shape_at rmap_bind bind_rmap. apply bind_ext. intros [x|]; [|done].
    simpl. apply Hp.
Qed.

Lemma shape_push_back_n d c x :
  carray_push_back_n d (shape c) () = rmap shape (carray_push_back_n d c x).
Proof.
  revert c x. induction d as [|d IH]; intros c x; [done|]. simpl. rewrite bind_rmap.
  unfold carray_full. simpl. destruct (_ =? _).
  - rewrite (shape_grow (carray_push_back_n d)); [|done]. rewrite rmap_bind. apply bind_ext.
    intros c'. apply shape_push_slot.
  - simpl. apply shape_push_slot.
Qed.

Lemma shape_push_front c x : carray_push_front (shape c) () = rmap shape (carray_push_front c x).
Proof.
  unfold carray_push_front. rewrite bind_rmap.
  assert (∀ c, push_head (shape c) () = rmap shape (push_head c x)) as Hh.
  { intros c'. unfold push_head. unfold carray_empty. simpl. destruct (_ =? _).
    - apply shape_push_back_n.
    - change (prev_head (shape c')) with (prev_head c').
      rewrite (shape_arr_set _ _ x) rmap_bind bind_rmap. apply bind_ext. intros arr.
      rewrite bind_rmap. by apply bind_ext. }
  unfold carray_full. simpl. destruct (_ =? _); [|apply Hh].
  unfold carray_grow. rewrite (shape_grow carray_push_back); [|intros; apply shape_push_back_n].
  rewrite rmap_bind. by apply bind_ext.
Qed.

Lemma shape_pop_front c :
  carray_pop_front (shape c) =
  rmap (λ xc, (blank xc.1, shape xc.2)) (carray_pop_front c).
Proof.
  unfold carray_pop_front. unfold carray_empty. simpl. destruct (_ =? _); [done|].
  rewrite shape_arr_get rmap_bind bind_rmap. apply bind_ext. intros [x|]; [|done]. simpl.
  destruct (cint (ca_head c + 1)) as [h|]; [|done]. simpl. by destruct (crem h (ca_size c)).
Qed.

Lemma shape_poke c i x : 
  (∃ y, ca_array c !! Z.to_nat ((ca_head c + i) mod ca_size c) = Some (Some y)) →
  shape (carray_poke c i x) = shape c.
Proof.
  intros [y Hy]. unfold shape, carray_poke. simpl. f_equal.
  rewrite list_fmap_insert list_insert_id; [done|]. by rewrite list_lookup_fmap Hy.
Qed.

End shapes.

(** ** Queues of pointers *)

(** The buffer [cl] of locations stands for the buffer [c]: same indices, the
locations [locs] for the elements [l]. *)
Record qrep {A} (c : carray A) (cl : carray loc) (locs : list loc) (l : list A) : Prop := {
  qp_shape : shape cl = shape c;
  qp_locs : carray_rep cl locs;
  qp_list : carray_rep c l;
}.

Definition elems {A} (R : loc → A → mprop) (locs : list loc) (l : list A) : mprop :=
  ([∗ list] x;y ∈ locs;l, R x y)%I.

Definition queue {A} (R : loc → A → mprop) (a : loc) (c : carray A) : mprop :=
  (∃ cl locs l, a ↦c cl ∗ <affine> ⌜qrep c cl locs l⌝ ∗ elems R locs l)%I.

Section qrep.
Context {A : Type}.
Implicit Types (c : carray A) (cl : carray loc) (x : loc) (y : A) (locs : list loc) (l : list A).

(** The two buffers agree on everything but the elements. *)
Lemma shape_fields {B} (c : carray A) (d : carray B) :
  shape d = shape c → ca_head d = ca_head c ∧ ca_size d = ca_size c ∧ ca_count d = ca_count c.
Proof. by intros [= ? ? ? ? ?]. Qed.

Lemma qrep_length c cl locs l : qrep c cl locs l → length locs = length l.
Proof.
  intros [Hs Rl R]. apply shape_fields in Hs as (_ & _ & Hc).
  pose proof (rep_count _ _ R). pose proof (rep_count _ _ Rl). lia.
Qed.

Lemma qrep_count c cl locs l :
  qrep c cl locs l → carray_count cl = carray_count c ∧ carray_count c = Z.of_nat (length l).
Proof.
  intros [Hs _ R]. apply shape_fields in Hs as (_ & _ & Hc). split; [done|]. apply (rep_count _ _ R).
Qed.

Lemma qrep_push_back c cl locs l y c' x :
  qrep c cl locs l → carray_push_back c y = Ret c' →
  ∃ cl', carray_push_back cl x = Ret cl' ∧ qrep c' cl' (locs ++ [x]) (l ++ [y]).
Proof.
  intros [Hs Rl R] E. pose proof (shape_push_back_n 2 c y) as H1.
  pose proof (shape_push_back_n 2 cl x) as H2. rewrite Hs H1 in H2.
  unfold carray_push_back in *. rewrite E in H2. simpl in H2. symmetry in H2.
  apply rmap_inv in H2 as (cl' & E' & Hs'). exists cl'. split; [done|]. split; [done|..].
  - by apply (push_back_inv cl).
  - by apply (push_back_inv c).
Qed.

Lemma qrep_push_front c cl locs l y c' x :
  qrep c cl locs l → carray_push_front c y = Ret c' →
  ∃ cl', carray_push_front cl x = Ret cl' ∧ qrep c' cl' (x :: locs) (y :: l).
Proof.
  intros [Hs Rl R] E. pose proof (shape_push_front c y) as H1.
  pose proof (shape_push_front cl x) as H2. rewrite Hs H1 E in H2. simpl in H2. symmetry in H2.
  apply rmap_inv in H2 as (cl' & E' & Hs'). exists cl'. split; [done|]. split; [done|..].
  - by apply (push_front_inv cl).
  - by apply (push_front_inv c).
Qed.

Lemma qrep_front c cl locs l o :
  qrep c cl locs l → carray_front c = Ret o → o = head l ∧ carray_front cl = Ret (head locs).
Proof. intros [_ Rl R]. rewrite (front_ok _ _ R) (front_ok _ _ Rl). by intros [= <-]. Qed.

Lemma qrep_pop_front c cl locs l o c' :
  qrep c cl locs l → carray_pop_front c = Ret (o, c') →
  o = head l ∧ ∃ cl', carray_pop_front cl = Ret (head locs, cl') ∧
    qrep c' cl' (tail locs) (tail l).
Proof.
  intros [Hs Rl R] E. destruct (pop_front_ok _ _ R) as (c1 & E1 & R1 & _).
  destruct (pop_front_ok _ _ Rl) as (cl1 & El & Rl1 & _). rewrite E in E1. injection E1 as -> <-.
  split; [done|]. exists cl1. split; [done|]. split; [|done..].
  pose proof (shape_pop_front c) as H1. pose proof (shape_pop_front cl) as H2.
  rewrite Hs H1 E El in H2. simpl in H2. congruence.
Qed.

(** The slot of an index; the overflow of [head + i] is the same in both. *)
Lemma qrep_at c cl locs l i o :
  qrep c cl locs l → 0 ≤ i < Z.of_nat (length l) → carray_at c i = Ret o →
  ∃ x y, locs !! Z.to_nat i = Some x ∧ l !! Z.to_nat i = Some y ∧ o = Some y ∧
    carray_at cl i = Ret (Some x).
Proof.
  intros Q Hi E. pose proof (qrep_length _ _ _ _ Q) as Hlen. destruct Q as [Hs Rl R].
  apply shape_fields in Hs as (Hh & _). rewrite (carray_at_eq _ _ _ R Hi) in E.
  rewrite (carray_at_eq _ _ _ Rl) ?Hh; [|lia]. case_match; [|done].
  destruct (lookup_lt_is_Some_2 locs (Z.to_nat i)) as [x Hx]; [lia|].
  destruct (lookup_lt_is_Some_2 l (Z.to_nat i)) as [y Hy]; [lia|].
  exists x, y. injection E as <-. by rewrite Hx Hy.
Qed.

Lemma qrep_poke c cl locs l k y y' :
  qrep c cl locs l → 0 ≤ k → l !! Z.to_nat k = Some y →
  qrep (carray_poke c k y') cl locs (<[Z.to_nat k := y']> l).
Proof.
  intros [Hs Rl R] Hk Hy. pose proof (lookup_lt_Some _ _ _ Hy). split; [|done|].
  - rewrite shape_poke //. exists y. pose proof (rep_live _ _ R _ _ Hy) as H1.
    by rewrite Z2Nat.id in H1.
  - apply poke_ok; [done|lia].
Qed.

Lemma qrep_new size c :
  carray_new size = Ret c → 0 < size ≤ INT_MAX →
  ∃ cl, carray_new size = Ret cl ∧ qrep c cl [] [].
Proof.
  intros E Hs. destruct (carray_new_ret (A:=loc) size) as [cl El]; [lia|]. exists cl.
  split; [done|]. destruct (rep_new _ _ Hs E) as [R _]. destruct (rep_new _ _ Hs El) as [Rl _].
  split; [|done..]. pose proof (shape_new (A:=A) size) as H1. pose proof (shape_new (A:=loc) size) as H2.
  rewrite H1 E El in H2. simpl in H2; congruence.
Qed.

End qrep.

(** ** Elements *)

Section elems.
Context {A : Type} (R : loc → A → mprop).
Implicit Types (locs : list loc) (l : list A).

Lemma elems_length locs l : elems R locs l ⊢ <affine> ⌜length locs = length l⌝ ∗ elems R locs l.
Proof.
  iIntros "H". unfold elems. iDestruct (big_sepL2_length with "H") as %E. by iFrame.
Qed.

(** Taking one element out, and putting another value back. *)
Lemma elems_acc locs l k x y :
  locs !! k = Some x → l !! k = Some y →
  elems R locs l ⊢ R x y ∗ (∀ y', R x y' -∗ elems R locs (<[k := y']> l)).
Proof.
  iIntros (Hx Hy) "H". unfold elems.
  iDestruct (big_sepL2_insert_acc with "H") as "[$ H]"; [done..|].
  iIntros (y') "Hy". iSpecialize ("H" $! x y' with "Hy"). by rewrite (list_insert_id locs).
Qed.

Lemma elems_acc_same locs l k x y :
  locs !! k = Some x → l !! k = Some y → elems R locs l ⊢ R x y ∗ (R x y -∗ elems R locs l).
Proof.
  iIntros (Hx Hy) "H". iDestruct (elems_acc with "H") as "[$ H]"; [done..|].
  iIntros "Hy". iSpecialize ("H" with "Hy"). by rewrite list_insert_id.
Qed.

Lemma elems_app locs1 locs2 l1 l2 :
  length locs1 = length l1 → elems R locs1 l1 ∗ elems R locs2 l2 ⊢ elems R (locs1 ++ locs2) (l1 ++ l2).
Proof. iIntros (E) "[H1 H2]". unfold elems. rewrite big_sepL2_app_same_length; [iFrame|by left]. Qed.

Lemma elems_snoc locs l x y :
  elems R locs l ∗ R x y ⊢ elems R (locs ++ [x]) (l ++ [y]).
Proof.
  iIntros "[H Hx]". iDestruct (elems_length with "H") as (E) "H". iApply elems_app; [done|].
  unfold elems. simpl. iFrame.
Qed.

End elems.

(** ** Filtering a queue

[_carray_map] leaves the buffer and its elements alone and makes a new buffer
of some of the same pointers. *)

Section filtering.
Context {A B : Type} (R : loc → A → mprop) (match_fn : B → A → Z) (b : B) (mtch : Z).

Definition kept (ps : list (loc * A)) : list (loc * A) :=
  filter (λ p, match_fn b p.2 = mtch) ps.

Lemma c_map_ok c cl locs l c' a arg c_match :
  qrep c cl locs l → carray_map c match_fn b mtch = Ret c' →
  (∀ k x y, locs !! k = Some x → l !! k = Some y →
     elems R locs l ⊢ wp (c_match arg x) (λ r, <affine> ⌜r = match_fn b y⌝ ∗ elems R locs l)) →
  a ↦c cl ∗ elems R locs l ⊢ wp (c_carray_map a c_match arg mtch) (λ new, ∃ cl',
    a ↦c cl ∗ new ↦c cl' ∗ elems R locs l ∗
    <affine> ⌜qrep c' cl' (kept (zip locs l)).*1 (kept (zip locs l)).*2⌝).
Proof.
  iIntros (Q E Hm) "[[%arr Ha] He]". unfold carray_map in E. apply bind_inv in E as (c0 & E0 & E).
  pose proof (qrep_length _ _ _ _ Q) as Hlen. destruct (qrep_count _ _ _ _ Q) as [Hcl Hc].
  destruct (shape_fields _ _ (qp_shape _ _ _ _ Q)) as (_ & Hsz & _).
  destruct (qrep_new _ _ E0 (rep_size _ _ (qp_list _ _ _ _ Q))) as (cl0 & El & Q0).
  unfold c_carray_map. iDestruct "Ha" as "[Ha Harr]". wp_rd "Ha". simpl. rewrite Hsz.
  wp_call (c_carray_new_ok _ _ El) with "[]". iIntros (new) "Hnew".
  wp_unbind. iApply c_carray_count_ok. iSplitL "Ha Harr"; [iFrame|]. iIntros "Ha". rewrite Hcl.
  wp_unbind. iApply (wp_wand with "[Hnew Ha He]").
  { iApply (wp_for_to_sim (λ k t (_ : ()), ∃ cl', at_buf a arr cl ∗ new ↦c cl' ∗ elems R locs l ∗
      <affine> ⌜qrep t cl' (kept (take (Z.to_nat k) (zip locs l))).*1
                (kept (take (Z.to_nat k) (zip locs l))).*2⌝)%I); [|exact E|].
    - iIntros (k t1 t2 _ Hk Eb) "(%cl1 & Ha & Hnew & He & %Q1)". inv_binds.
      destruct (qrep_at _ _ _ _ k _ Q ltac:(lia) E1) as (x & y & Hx & Hy & -> & Ex).
      injection E2 as ->. wp_call c_buf_at_ok with "[Ha]". iIntros (r) "[-> Ha]". wp_p.
      wp_unbind. iApply (wp_wand with "[He]"); [by iApply (Hm _ x r0)|]. iIntros (m) "[-> He]".
      assert (take (Z.to_nat (k + 1)) (zip locs l) = take (Z.to_nat k) (zip locs l) ++ [(x, r0)]) as Et.
      { rewrite Z2Nat.inj_add; [|lia..]. rewrite Nat.add_1_r. apply take_S_r.
        by apply lookup_zip_Some. }
      rewrite Et. unfold kept. rewrite filter_app. simpl.
      destruct (Z.eqb_spec (match_fn b r0) mtch) as [Em|Em].
      + destruct (qrep_push_back _ _ _ _ _ _ x Q1 Eb) as (cl2 & E2 & Q2).
        iApply (wp_wand with "[Hnew]"); [by iApply c_push_back_ok|]. iIntros (_) "Hnew".
        iExists cl2. iFrame. iPureIntro. rewrite (filter_cons_True _ (x, r0)); [|done].
        by rewrite !fmap_app.
      + inv_binds. iApply wp_ret. iExists cl1. iFrame. iPureIntro.
        rewrite (filter_cons_False _ (x, r0)); [|done].
        by rewrite app_nil_r.
    - iExists cl0. iFrame. iPureIntro. by rewrite take_0. }
  iIntros (_) "(%cl' & Ha & Hnew & He & %Q')". iApply wp_ret. iExists cl'. iFrame.
  iPureIntro. rewrite take_ge in Q'; [done|].
  rewrite length_zip. lia.
Qed.

End filtering.
