(* ===== verification/MemQueue.v ===== *)
(** * Queues of objects in memory

A ring buffer together with the objects its slots point to: [queue R a c] of
[MemCarray].  The operations of carray.c, as calls that move an object into the
buffer or out of it; [focus R a c k x y] is a queue in which [x] is known to be
the object [y] at index [k], as it is after [carray_at], [carray_front] or a
search.  [fetched] is the pointer such a call returns, or [NULL]. *)

From S2P Require Import Prelude Heap Carray Messages Memory MemCarray.
#[local] Open Scope Z_scope.

Section queues.
Context {A : Type} (R : loc → A → mprop).
Implicit Types (a x : loc) (c : carray A) (y : A) (k : Z) (o : option A).

Definition focus (a : loc) (c : carray A) (k : Z) (x : loc) (y : A) : mprop :=
  (∃ cl locs l, a ↦c cl ∗ elems R locs l ∗
    <affine> ⌜qrep c cl locs l ∧ 0 ≤ k ∧ locs !! Z.to_nat k = Some x ∧ l !! Z.to_nat k = Some y⌝)%I.

Definition fetched (a : loc) (c : carray A) (k : Z) (o : option A) (r : option loc) : mprop :=
  match r, o with
  | Some x, Some y => focus a c k x y
  | None, None => queue R a c
  | _, _ => False%I
  end.

(** An object that was taken out, or [NULL]. *)
Definition taken (o : option A) (r : option loc) : mprop :=
  match r, o with Some x, Some y => R x y | None, None => emp%I | _, _ => False%I end.

Lemma focus_queue a c k x y : focus a c k x y ⊢ queue R a c.
Proof. iIntros "(%cl & %locs & %l & Ha & He & %H)". iExists cl, locs, l. iFrame. by destruct H. Qed.

Lemma focus_acc a c k x y :
  focus a c k x y ⊢ R x y ∗ ((∀ y', R x y' -∗ focus a (carray_poke c k y') k x y') ∧
                             (R x y -∗ focus a c k x y)).
Proof.
  iIntros "(%cl & %locs & %l & Ha & He & %H)". destruct H as (Q & Hk & Hx & Hy).
  iDestruct (elems_acc with "He") as "[$ He]"; [done..|]. iSplit.
  - iIntros (y') "Hy". iExists cl, locs, _. iFrame "Ha". iSplitL "He Hy"; [by iApply "He"|].
    iPureIntro. split; [by eapply qrep_poke|]. do 2 (split; [done|]).
    apply list_lookup_insert_eq. by eapply lookup_lt_Some.
  - iIntros "Hy". iExists cl, locs, l. iFrame "Ha".
    iSpecialize ("He" with "Hy"). rewrite list_insert_id //. by iFrame.
Qed.

Lemma queue_new size c :
  carray_new size = Ret c → 0 < size ≤ INT_MAX → ⊢ wp (c_carray_new size) (λ a, queue R a c).
Proof.
  intros E Hs. destruct (qrep_new _ _ E Hs) as (cl & El & Q).
  iApply (wp_wand with "[]"); [by iApply (c_carray_new_ok _ _ El)|]. iIntros (a) "Ha".
  iExists cl, [], []. iFrame. iSplitR; [done|]. by iApply big_sepL2_nil.
Qed.

Lemma queue_count a c (Φ : Z → mprop) :
  queue R a c ∗ (queue R a c -∗ Φ (carray_count c)) ⊢ wp (c_carray_count a) Φ.
Proof.
  iIntros "[(%cl & %locs & %l & [%arr Ha] & %Q & He) HΦ]". iApply c_carray_count_ok. iFrame "Ha".
  iIntros "Ha". destruct (qrep_count _ _ _ _ Q) as [-> _]. iApply "HΦ". iExists cl, locs, l.
  by iFrame.
Qed.

Lemma queue_size a c (Φ : Z → mprop) :
  queue R a c ∗ (queue R a c -∗ Φ (carray_size c)) ⊢ wp (c_carray_size a) Φ.
Proof.
  iIntros "[(%cl & %locs & %l & (%arr & Ha & Harr) & %Q & He) HΦ]". unfold c_carray_size.
  wp_rd "Ha". iApply wp_ret. simpl.
  destruct (shape_fields _ _ (qp_shape _ _ _ _ Q)) as (_ & Hs & _). rewrite Hs. iApply "HΦ".
  iExists cl, locs, l. iFrame. by iFrame.
Qed.

Lemma queue_push_back a c x y c' :
  carray_push_back c y = Ret c' →
  queue R a c ∗ R x y ⊢ wp (c_carray_push_back a x) (λ _, focus a c' (carray_count c) x y).
Proof.
  iIntros (E) "[(%cl & %locs & %l & Ha & %Q & He) Hx]".
  destruct (qrep_push_back _ _ _ _ _ _ x Q E) as (cl' & E' & Q').
  pose proof (qrep_length _ _ _ _ Q) as Hlen. destruct (qrep_count _ _ _ _ Q) as [_ Hc].
  iApply (wp_wand with "[Ha]"); [by iApply c_push_back_ok|]. iIntros (_) "Ha".
  iExists cl', _, _. iFrame "Ha". iSplitL; [iApply elems_snoc; iFrame|].
  iPureIntro. split; [done|]. rewrite Hc. split; [lia|]. rewrite Nat2Z.id. split.
  - by rewrite lookup_app_r ?Hlen ?Nat.sub_diag; [|lia].
  - by rewrite lookup_app_r ?Nat.sub_diag; [|lia].
Qed.

Lemma queue_push_front a c x y c' :
  carray_push_front c y = Ret c' →
  queue R a c ∗ R x y ⊢ wp (c_carray_push_front a x) (λ _, focus a c' 0 x y).
Proof.
  iIntros (E) "[(%cl & %locs & %l & Ha & %Q & He) Hx]".
  destruct (qrep_push_front _ _ _ _ _ _ x Q E) as (cl' & E' & Q').
  iApply (wp_wand with "[Ha]"); [by iApply c_push_front_ok|]. iIntros (_) "Ha".
  iExists cl', (x :: locs), (y :: l). iFrame "Ha". iSplitL; [|done]. unfold elems. simpl. iFrame.
Qed.

Lemma queue_front a c o :
  carray_front c = Ret o → queue R a c ⊢ wp (c_carray_front a) (fetched a c 0 o).
Proof.
  iIntros (E) "(%cl & %locs & %l & Ha & %Q & He)".
  destruct (qrep_front _ _ _ _ _ Q E) as [-> El]. pose proof (qrep_length _ _ _ _ Q) as Hlen.
  iApply (wp_wand with "[Ha]"); [by iApply c_front_ok|]. iIntros (r) "[-> Ha]".
  destruct locs as [|x locs], l as [|y l]; try done; simpl; iExists cl, _, _; iFrame; done.
Qed.

Lemma queue_pop_front a c o c' :
  carray_pop_front c = Ret (o, c') →
  queue R a c ⊢ wp (c_carray_pop_front a) (λ r, taken o r ∗ queue R a c').
Proof.
  iIntros (E) "(%cl & %locs & %l & Ha & %Q & He)".
  destruct (qrep_pop_front _ _ _ _ _ _ Q E) as (-> & cl' & El & Q').
  pose proof (qrep_length _ _ _ _ Q) as Hlen.
  iApply (wp_wand with "[Ha]"); [by iApply c_pop_front_ok|]. iIntros (r) "[-> Ha]".
  destruct locs as [|x locs], l as [|y l]; try done; unfold elems; simpl.
  - iSplitR; [done|]. iExists cl', [], []. by iFrame.
  - iDestruct "He" as "[$ He]". iExists cl', locs, l. by iFrame.
Qed.

Lemma queue_at a c k o :
  0 ≤ k < carray_count c → carray_at c k = Ret o →
  queue R a c ⊢ wp (c_carray_at a k) (λ r, ∃ x y, <affine> ⌜r = Some x ∧ o = Some y⌝ ∗ focus a c k x y).
Proof.
  iIntros (Hk E) "(%cl & %locs & %l & Ha & %Q & He)".
  destruct (qrep_count _ _ _ _ Q) as [_ Hc].
  destruct (qrep_at _ _ _ _ k _ Q ltac:(lia) E) as (x & y & Hx & Hy & -> & Ex).
  iApply (wp_wand with "[Ha]"); [by iApply c_carray_at_ok|]. iIntros (r) "[-> Ha]".
  iExists x, y. iSplitR; [done|]. iExists cl, locs, l. iFrame. iPureIntro. by destruct Hk.
Qed.

(** A full ring buffer that was never popped, indexed by any [int]. *)
Definition ring (c : carray A) : Prop := ca_head c = 0 ∧ carray_count c = ca_size c.

Lemma ring_table c l : ring c → carray_rep c l → table_rep c l.
Proof.
  intros [Hh Hc] Rc. split; [done|done|]. rewrite -Hc. symmetry. apply (rep_count _ _ Rc).
Qed.

Lemma poke_mod c i y : carray_poke c (i mod ca_size c) y = carray_poke c i y.
Proof. unfold carray_poke. by rewrite Zplus_mod_idemp_r. Qed.

Lemma queue_ring_at a c i o :
  ring c → 0 ≤ i ≤ INT_MAX → carray_at c i = Ret o →
  queue R a c ⊢ wp (c_carray_at a i) (λ r, ∃ x y,
    <affine> ⌜r = Some x ∧ o = Some y⌝ ∗ focus a c (i mod ca_size c) x y).
Proof.
  iIntros (Hr Hi E) "(%cl & %locs & %l & Ha & %Q & He)".
  pose proof (ring_table _ _ Hr (qp_list _ _ _ _ Q)) as T. pose proof Hr as [Hh Hc].
  destruct (shape_fields _ _ (qp_shape _ _ _ _ Q)) as (Hh' & Hs' & Hc').
  pose proof (qrep_length _ _ _ _ Q) as Hlen. pose proof (rep_size _ _ (qp_list _ _ _ _ Q)) as Hs.
  assert (table_rep cl locs) as T'.
  { split; [apply Q|congruence|]. rewrite Hs' Hlen. apply T. }
  rewrite (table_at _ _ _ T Hi) in E. injection E as <-.
  pose proof (table_at _ _ _ T' Hi) as El. rewrite Hs' in El.
  pose proof (Z.mod_pos_bound i (ca_size c) ltac:(lia)) as Hm. pose proof (tr_full _ _ T) as Hf.
  destruct (lookup_lt_is_Some_2 locs (Z.to_nat (i mod ca_size c))) as [x Hx]; [lia|].
  destruct (lookup_lt_is_Some_2 l (Z.to_nat (i mod ca_size c))) as [y Hy]; [lia|].
  iApply (wp_wand with "[Ha]"); [by iApply c_carray_at_ok|]. iIntros (r) "[-> Ha]".
  iExists x, y. iSplitR; [iPureIntro; by rewrite Hx Hy|]. iExists cl, locs, l. iFrame. iPureIntro.
  split; [done|]. split; [lia|done].
Qed.

(** [elems] as a list of pairs. *)
Lemma elems_zip locs l :
  length locs = length l → elems R locs l ⊣⊢ [∗ list] p ∈ zip locs l, R p.1 p.2.
Proof.
  intros Hlen. unfold elems. rewrite big_sepL2_alt. iSplit; [by iIntros "[_ $]"|].
  iIntros "$". by iPureIntro.
Qed.

(** [carray_reject] by the key [f] of the object [x], one of those in the buffer,
makes a buffer of all others. *)
Lemma queue_reject {K} `{EqDecision K} (f : A → K) match_fn c_match (arg : loc) a c k x y l c' :
  carray_rep c l → NoDup (f <$> l) → carray_reject c match_fn y = Ret c' →
  (∀ y', match_fn y y' = 0 ↔ f y' ≠ f y) →
  (∀ locs l x' y' j, locs !! Z.to_nat k = Some x → l !! Z.to_nat k = Some y →
     locs !! j = Some x' → l !! j = Some y' →
     elems R locs l ⊢ wp (c_match arg x') (λ r, <affine> ⌜r = match_fn y y'⌝ ∗ elems R locs l)) →
  focus a c k x y ⊢ wp (c_carray_reject a c_match arg) (λ b, ∃ cl,
    a ↦c cl ∗ R x y ∗ queue R b c').
Proof.
  iIntros (Rc U E Hf Hm) "(%cl & %locs & %l' & Ha & He & %H)". destruct H as (Q & Hk & Hx & Hy).
  assert (l' = l) as -> by (rewrite -(rep_contents _ _ Rc); symmetry; apply rep_contents, Q).
  pose proof (qrep_length _ _ _ _ Q) as Hlen. unfold c_carray_reject.
  iApply (wp_wand with "[Ha He]").
  { iApply (c_map_ok R match_fn y 0 _ _ _ _ _ _ _ _ Q E); [|iFrame]. intros j x' y' Hx' Hy'.
    by apply (Hm locs l x' y' j). }
  iIntros (b) "(%cl' & Ha & Hb & He & %Q')". iExists cl. iFrame "Ha". rewrite elems_zip //.
  assert (NoDup ((f ∘ snd) <$> zip locs l)) as U'.
  { rewrite list_fmap_compose snd_zip //. lia. }
  assert (zip locs l !! Z.to_nat k = Some (x, y)) as Hxy by by apply lookup_zip_Some.
  pose proof (filter_key (f ∘ snd) _ _ _ U' Hxy) as HP. simpl in HP.
  rewrite HP. simpl. iDestruct "He" as "[$ He]".
  assert (kept match_fn y 0 (zip locs l) = filter (λ p, f p.2 ≠ f y) (zip locs l)) as Ek.
  { unfold kept. apply list_filter_iff. intros [x' y']. apply Hf. }
  rewrite Ek in Q'. iExists cl', _, _. iFrame "Hb". iSplitR; [done|].
  rewrite elems_zip; [|by rewrite !length_fmap]. by rewrite zip_fst_snd.
Qed.

(** What is left of a queue when its objects have been freed. *)
Lemma queue_drain_loop a c (fr : loc → cmdb ()) :
  indexable c → (∀ x y, R x y ⊢ wp (fr x) (λ _, emp)) →
  queue R a c ⊢ wp (n ← c_carray_count a;
                    cfor_to n (λ i _, x ← c_carray_at a i; v ← pureC (deref x); fr v) tt)
                  (λ _, ∃ cl, a ↦c cl).
Proof.
  iIntros (Hx Hfr) "(%cl & %locs & %l & [%arr Ha] & %Q & He)".
  destruct (qrep_count _ _ _ _ Q) as [Hcl Hc]. pose proof (qrep_length _ _ _ _ Q) as Hlen.
  wp_unbind. iApply c_carray_count_ok. iFrame "Ha". iIntros "Ha". rewrite Hcl Hc.
  iApply (wp_wand with "[Ha He]").
  { iApply (wp_for_to (λ k _, a ↦c cl ∗ elems R (drop (Z.to_nat k) locs) (drop (Z.to_nat k) l))%I);
      [lia| |iFrame; by iExists arr].
    iIntros (k _ Hk) "[Ha He]".
    destruct (qrep_at _ _ _ _ k (l !! Z.to_nat k) Q ltac:(lia)) as (x & y & Hlx & Hly & _ & Ex).
    { rewrite (carray_at_ok _ _ _ (qp_list _ _ _ _ Q)) //; lia. }
    wp_call c_carray_at_ok with "[Ha]". iIntros (r) "[-> Ha]". wp_p.
    rewrite (drop_S _ _ _ Hlx) (drop_S _ _ _ Hly). unfold elems at 1. simpl.
    iDestruct "He" as "[Hx He]". iApply (wp_wand with "[Hx]"); [by iApply Hfr|]. iIntros (_) "_".
    iFrame. by rewrite Z2Nat.inj_add ?Nat.add_1_r; [|lia..]. }
  iIntros (_) "[Ha He]". rewrite Nat2Z.id !drop_ge; [|lia..]. unfold elems. simpl.
  iDestruct "He" as "_". by iExists cl.
Qed.

(** ... and its structure. *)
Lemma queue_drain a c (fr : loc → cmdb ()) :
  indexable c → (∀ x y, R x y ⊢ wp (fr x) (λ _, emp)) →
  queue R a c ⊢ wp (n ← c_carray_count a;
                    cfor_to n (λ i _, x ← c_carray_at a i; v ← pureC (deref x); fr v) tt ;;
                    c_carray_free a) (λ _, emp).
Proof.
  iIntros (Hx Hfr) "Hq". iApply wp_assoc. iApply wp_bind. iApply (wp_wand with "[Hq]").
  { by iApply queue_drain_loop. }
  iIntros (_) "[%cl Ha]". by iApply c_carray_free_ok.
Qed.

End queues.

(** The objects of a queue seen in another way. *)
Lemma queue_impl {A} (R R' : loc → A → mprop) a (c : carray A) l :
  carray_rep c l → (∀ x y, y ∈ l → R x y ⊢ R' x y) → queue R a c ⊢ queue R' a c.
Proof.
  iIntros (Rc H) "(%cl & %locs & %l' & Ha & %Q & He)".
  assert (l' = l) as -> by (rewrite -(rep_contents _ _ Rc); symmetry; apply rep_contents, Q).
  iExists cl, locs, l. iFrame "Ha". iSplitR; [done|]. unfold elems.
  iApply (big_sepL2_mono with "He"). intros k x y _ Hy. apply H. by eapply list_elem_of_lookup_2.
Qed.
