(* ===== verification/MemProposer.v ===== *)
(** * The proposer in memory (src/paxos/proposer.c, src/paxos/quorum.c)

The functions of proposer.c on a heap, with their [malloc]s and [free]s.  The
value model, [Proposer], says that the queues hold the instances themselves and
that a pointer to one is its index; here the queues hold pointers, an instance
points to its value and to the flags of its quorum, and a promoted or preempted
instance is the same object in another queue.

[at_proposer l p] is the memory of a proposer: exactly the blocks reachable
from [l], which together are the value [p].  Each function turns the memory of
[p] into the memory of what the function of [Proposer] makes of [p], and
[proposer_free] turns it into nothing: no object is used after it was freed,
freed twice or lost. *)

From S2P Require Import Prelude Heap Carray Quorum Messages Memory MemCarray MemQueue Proposer ProposerRun.
#[local] Open Scope Z_scope.

(** ** quorum.c; a [struct quorum*] is the address of its instance *)

Definition set_c_quorum (q : c_quorum) (i : c_instance) : c_instance :=
  CInstance (ci_iid i) (ci_ballot i) (ci_value_ballot i) (ci_value i) (ci_closed i) q
    (ci_created_at i).

Definition c_quorum_clear (inst : loc) : cmdb () :=
  i ← read_as as_instance inst;
  let q := ci_quorum i in
  write inst (BInstance (set_c_quorum (CQuorum 0 (cq_quorum q) (cq_acceptors q)
    (cq_acceptor_ids q)) i)) ;;
  cfor_to (cq_quorum q) (λ k _,
    ids ← pureC (deref (cq_acceptor_ids q));
    l ← read_as as_ints ids;
    l ← pureC (arr_set l k 0);
    write ids (BInts l)) tt.

Definition c_quorum_init (inst : loc) (acceptors : Z) (junk : nat → Z) : cmdb () :=
  i ← read_as as_instance inst;
  ids ← alloc (BInts (junk <$> seq 0 (Z.to_nat acceptors)));
  write inst (BInstance (set_c_quorum (CQuorum (cq_count (ci_quorum i))
    (paxos_quorum acceptors) acceptors (Some ids)) i)) ;;
  c_quorum_clear inst.

Definition c_quorum_destroy (inst : loc) : cmdb () :=
  i ← read_as as_instance inst;
  ids ← pureC (deref (cq_acceptor_ids (ci_quorum i)));
  free ids.

Definition c_quorum_add (inst : loc) (id : Z) : cmdb Z :=
  i ← read_as as_instance inst;
  let q := ci_quorum i in
  ids ← pureC (deref (cq_acceptor_ids q));
  l ← read_as as_ints ids;
  x ← pureC (arr_get l id);
  if x =? 0 then
    c ← pureC (cint (cq_count q + 1));
    write inst (BInstance (set_c_quorum (CQuorum c (cq_quorum q) (cq_acceptors q) (Some ids)) i)) ;;
    l ← pureC (arr_set l id 1);
    write ids (BInts l) ;;
    mret 1
  else mret 0.

Definition c_quorum_reached (inst : loc) : cmdb bool :=
  i ← read_as as_instance inst;
  mret (cq_quorum (ci_quorum i) <=? cq_count (ci_quorum i)).

(** ** Instances *)

Definition c_wrap_value (value : bytes) : cmdb loc := alloc (BMsg (PaxosMsg submit value)).

Definition c_instance_new (iid ballot acceptors : Z) (now : timeval) (junk : nat → Z) : cmdb loc :=
  inst ← alloc (BInstance (CInstance iid ballot 0 None 0 (CQuorum (junk 0%nat) (junk 1%nat)
    (junk 2%nat) None) now));
  c_quorum_init inst acceptors junk ;;
  mret inst.

Definition c_instance_free (inst : loc) : cmdb () :=
  c_quorum_destroy inst ;;
  i ← read_as as_instance inst;
  match ci_value i with Some v => free v | None => mret tt end ;;
  free inst.

Fixpoint c_instance_find_from (n : nat) (i : Z) (c : loc) (iid : Z) : cmdb (option loc) :=
  match n with
  | O => mret None
  | S n' =>
      x ← c_carray_at c i;
      inst ← pureC (deref x);
      s ← read_as as_instance inst;
      if ci_iid s =? iid then c_carray_at c i else c_instance_find_from n' (i + 1) c iid
  end.

Definition c_instance_find (c : loc) (iid : Z) : cmdb (option loc) :=
  n ← c_carray_count c;
  c_instance_find_from (Z.to_nat n) 0 c iid.

Definition c_instance_match (a b : loc) : cmdb Z :=
  x ← read_as as_instance a;
  y ← read_as as_instance b;
  mret (cbool (ci_iid x =? ci_iid y)).

Definition c_instance_remove (c inst : loc) : cmdb loc :=
  tmp ← c_carray_reject c c_instance_match inst;
  c_carray_free c ;;
  mret tmp.

(** ** proposer.c *)

Definition c_proposer_next_ballot (p : loc) (b : Z) : cmdb Z :=
  s ← read_as as_proposer p;
  mret (if 0 <? b then u32 (MAX_N_OF_PROPOSERS + b) else u32 (MAX_N_OF_PROPOSERS + cp_id s)).

Definition c_proposer_new (id acceptors : Z) : cmdb loc :=
  values ← c_carray_new 128;
  prepare_instances ← c_carray_new 128;
  accept_instances ← c_carray_new 128;
  alloc (BProposer (CProposer id acceptors values 0 prepare_instances accept_instances)).

Definition c_free_values (values : loc) : cmdb () :=
  n ← c_carray_count values;
  cfor_to n (λ i _, x ← c_carray_at values i; v ← pureC (deref x); free v) tt ;;
  c_carray_free values.

Definition c_free_instances (instances : loc) : cmdb () :=
  n ← c_carray_count instances;
  cfor_to n (λ i _, x ← c_carray_at instances i; v ← pureC (deref x); c_instance_free v) tt ;;
  c_carray_free instances.

Definition c_proposer_free (p : loc) : cmdb () :=
  s ← read_as as_proposer p;
  c_free_values (cp_values s) ;;
  c_free_instances (cp_prepare_instances s) ;;
  c_free_instances (cp_accept_instances s) ;;
  free p.

Definition c_proposer_propose (p : loc) (value : bytes) : cmdb () :=
  msg ← c_wrap_value value;
  s ← read_as as_proposer p;
  c_carray_push_back (cp_values s) msg.

Definition c_proposer_prepared_count (p : loc) : cmdb Z :=
  s ← read_as as_proposer p;
  c_carray_count (cp_prepare_instances s).

Definition c_proposer_prepare (p : loc) (now : timeval) (junk : nat → Z) : cmdb prepare_req :=
  s ← read_as as_proposer p;
  let iid := u32 (cp_next_prepare_iid s + 1) in
  write p (BProposer (CProposer (cp_id s) (cp_acceptors s) (cp_values s) iid
    (cp_prepare_instances s) (cp_accept_instances s))) ;;
  b ← c_proposer_next_ballot p 0;
  inst ← c_instance_new iid b (cp_acceptors s) now junk;
  c_carray_push_back (cp_prepare_instances s) inst ;;
  i ← read_as as_instance inst;
  mret (PrepareReq (ci_iid i) (ci_ballot i)).

Definition c_prepare_preempt (p inst : loc) (now : timeval) : cmdb prepare_req :=
  i ← read_as as_instance inst;
  b ← c_proposer_next_ballot p (ci_ballot i);
  write inst (BInstance (CInstance (ci_iid i) b (ci_value_ballot i) (ci_value i) (ci_closed i)
    (ci_quorum i) (ci_created_at i))) ;;
  c_quorum_clear inst ;;
  i ← read_as as_instance inst;
  write inst (BInstance (CInstance (ci_iid i) (ci_ballot i) (ci_value_ballot i) (ci_value i)
    (ci_closed i) (ci_quorum i) now)) ;;
  mret (PrepareReq (ci_iid i) (ci_ballot i)).

(** [inst->value_ballot = vb; inst->value = v] *)
Definition c_set_value (inst : loc) (vb : Z) (v : option loc) : cmdb () :=
  i ← read_as as_instance inst;
  write inst (BInstance (CInstance (ci_iid i) (ci_ballot i) vb v (ci_closed i) (ci_quorum i)
    (ci_created_at i))).

(** The value a promise carries. *)
Definition c_promise_value (p inst : loc) (ack : prepare_ack) : cmdb () :=
  if 0 <? value_size (pa_value ack) then
    i ← read_as as_instance inst;
    match ci_value i with
    | None =>
        v ← c_wrap_value (pa_value ack);
        c_set_value inst (pa_value_ballot ack) (Some v)
    | Some old =>
        if ci_value_ballot i <? pa_value_ballot ack then
          s ← read_as as_proposer p;
          c_carray_push_back (cp_values s) old ;;
          v ← c_wrap_value (pa_value ack);
          c_set_value inst (pa_value_ballot ack) (Some v)
        else mret tt
    end
  else mret tt.

Definition c_proposer_receive_prepare_ack (p : loc) (ack : prepare_ack) (now : timeval)
    : cmdb (option prepare_req) :=
  s ← read_as as_proposer p;
  found ← c_instance_find (cp_prepare_instances s) (pa_iid ack);
  match found with
  | None => mret None
  | Some inst =>
      i ← read_as as_instance inst;
      if pa_ballot ack <? ci_ballot i then mret None
      else if pa_ballot ack =? ci_ballot i then
        added ← c_quorum_add inst (pa_acceptor_id ack);
        if added =? 0 then mret None
        else c_promise_value p inst ack ;; mret None
      else
        out ← c_prepare_preempt p inst now;
        mret (Some out)
  end.

(** The loop at the top of [proposer_accept]. *)
Fixpoint c_accept_front (n : nat) (prepare_instances : loc) : cmdb (option loc) :=
  match n with
  | O => pureC (Fault StackOverflow)
  | S n' =>
      x ← c_carray_front prepare_instances;
      match x with
      | None => mret None
      | Some inst =>
          i ← read_as as_instance inst;
          if negb (ci_closed i =? 0) then
            y ← c_carray_pop_front prepare_instances;
            y ← pureC (deref y);
            c_instance_free y ;;
            c_accept_front n' prepare_instances
          else
            r ← c_quorum_reached inst;
            if negb r then mret None else mret (Some inst)
      end
  end.

(** The copy of an instance's round in a new [accept_req]. *)
Definition c_accept_req (inst : loc) : cmdb loc :=
  i ← read_as as_instance inst;
  v ← pureC (deref (ci_value i));
  m ← read_as as_msg v;
  alloc (BAcceptReq (AcceptReq (ci_iid i) (ci_ballot i) (m_data m))).

(** [inst->value = carray_pop_front(p->values)], when it has none. *)
Definition c_take_value (p inst : loc) : cmdb () :=
  s ← read_as as_proposer p;
  i ← read_as as_instance inst;
  match ci_value i with
  | None =>
      v ← c_carray_pop_front (cp_values s);
      c_set_value inst (ci_value_ballot i) v
  | Some _ => mret tt
  end.

Definition c_proposer_accept (p : loc) : cmdb (option loc) :=
  s ← read_as as_proposer p;
  n ← c_carray_count (cp_prepare_instances s);
  x ← c_accept_front (S (Z.to_nat n)) (cp_prepare_instances s);
  match x with
  | None => mret None
  | Some inst =>
      c_take_value p inst ;;
      i ← read_as as_instance inst;
      match ci_value i with
      | None => mret None
      | Some _ =>
          y ← c_carray_pop_front (cp_prepare_instances s);
          inst ← pureC (deref y);
          c_quorum_clear inst ;;
          c_carray_push_back (cp_accept_instances s) inst ;;
          req ← c_accept_req inst;
          mret (Some req)
      end
  end.

(** [p->accept_instances = c] *)
Definition c_set_accept (p c : loc) : cmdb () :=
  s ← read_as as_proposer p;
  write p (BProposer (CProposer (cp_id s) (cp_acceptors s) (cp_values s) (cp_next_prepare_iid s)
    (cp_prepare_instances s) c)).

Definition c_proposer_receive_accept_ack (p : loc) (ack : accept_ack) (now : timeval)
    : cmdb (option prepare_req) :=
  s ← read_as as_proposer p;
  found ← c_instance_find (cp_accept_instances s) (aa_iid ack);
  match found with
  | None => mret None
  | Some inst =>
      i ← read_as as_instance inst;
      if aa_ballot ack =? ci_ballot i then
        pureC (assert_that (aa_value_ballot ack =? ci_ballot i)) ;;
        added ← c_quorum_add inst (aa_acceptor_id ack);
        if added =? 0 then mret None
        else
          r ← c_quorum_reached inst;
          (if (r : bool) then
             c ← c_instance_remove (cp_accept_instances s) inst;
             c_set_accept p c ;;
             c_instance_free inst
           else mret tt) ;;
          mret None
      else
        c ← c_instance_remove (cp_accept_instances s) inst;
        c_set_accept p c ;;
        c_carray_push_front (cp_prepare_instances s) inst ;;
        out ← c_prepare_preempt p inst now;
        mret (Some out)
  end.

(** ** The memory of a proposer *)

Definition at_msg (x : loc) (m : paxos_msg) : mprop := (x ↦ BMsg m)%I.

Definition at_value (v : option loc) (m : option paxos_msg) : mprop :=
  match v, m with
  | Some x, Some m => at_msg x m
  | None, None => emp%I
  | _, _ => False%I
  end.

Definition inst_struct (i : instance) (v : option loc) (ids : loc) : c_instance :=
  CInstance (i_iid i) (i_ballot i) (i_value_ballot i) v (i_closed i)
    (CQuorum (q_count (i_quorum i)) (q_quorum (i_quorum i)) (q_acceptors (i_quorum i)) (Some ids))
    (i_created_at i).

(** An instance without its value, which [v] points to. *)
Definition at_body (x : loc) (i : instance) (v : option loc) : mprop :=
  (∃ ids, x ↦ BInstance (inst_struct i v ids) ∗ ids ↦ BInts (q_acceptor_ids (i_quorum i)))%I.

Definition at_instance (x : loc) (i : instance) : mprop :=
  (∃ v, at_body x i v ∗ at_value v (i_value i))%I.

Definition prop_struct (p : proposer) (vs pr ac : loc) : c_proposer :=
  CProposer (p_id p) (p_acceptors p) vs (p_next_prepare_iid p) pr ac.

Definition at_proposer (l : loc) (p : proposer) : mprop :=
  (∃ vs pr ac, l ↦ BProposer (prop_struct p vs pr ac) ∗ queue at_msg vs (p_values p) ∗
     queue at_instance pr (p_prepare_instances p) ∗ queue at_instance ac (p_accept_instances p))%I.

(** A request handed to the caller, who frees it. *)
Definition at_request (r : option loc) (out : option accept_req) : mprop :=
  match r, out with
  | Some x, Some q => x ↦ BAcceptReq q
  | None, None => emp
  | _, _ => False
  end%I.

(** The pointer a search returns for the index [o], and the object it is. *)
Definition found (a : loc) (c : carray instance) (o : option Z) (r : option loc) : mprop :=
  match o with
  | None => <affine> ⌜r = None⌝ ∗ queue at_instance a c
  | Some k => ∃ x i, <affine> ⌜r = Some x⌝ ∗ focus at_instance a c k x i ∗
      <affine> ⌜∀ j, instance_at c k = Ret j → j = i⌝
  end%I.

(** ** Quorums and instances *)

Section instances.
Implicit Types (x : loc) (i : instance) (v : option loc).

Lemma c_quorum_clear_ok x i v q :
  quorum_clear (i_quorum i) = Ret q →
  at_body x i v ⊢ wp (c_quorum_clear x) (λ _, at_body x (set_quorum q i) v).
Proof.
  iIntros (E) "(%ids & Hx & Hids)". unfold quorum_clear in E. apply bind_inv in E as (l & E & [= <-]).
  unfold c_quorum_clear. wp_rd "Hx". simpl. wp_wr "Hx". iApply (wp_wand with "[Hids]").
  { iApply (wp_for_to_sim (λ _ l (_ : ()), ids ↦ BInts l)%I); [|exact E|done].
    iIntros (k l1 l2 _ _ Eb) "H". wp_p. wp_rd "H". wp_p. by wp_wr "H". }
  iIntros (_) "Hids". iExists ids. iFrame.
Qed.

Lemma c_quorum_reached_ok x i v (Φ : bool → mprop) :
  at_body x i v ∗ (at_body x i v -∗ Φ (quorum_reached (i_quorum i))) ⊢ wp (c_quorum_reached x) Φ.
Proof.
  iIntros "[(%ids & Hx & Hids) HΦ]". unfold c_quorum_reached. wp_rd "Hx". iApply wp_ret.
  iApply "HΦ". iExists ids. iFrame.
Qed.

Lemma c_quorum_add_ok x i v id r q :
  quorum_add (i_quorum i) id = Ret (r, q) →
  at_body x i v ⊢ wp (c_quorum_add x id) (λ r', <affine> ⌜r' = r⌝ ∗ at_body x (set_quorum q i) v).
Proof.
  iIntros (E) "(%ids & Hx & Hids)". unfold quorum_add in E. unfold c_quorum_add.
  apply bind_inv in E as (y & Ey & E). wp_rd "Hx". wp_p. wp_rd "Hids". wp_p.
  destruct (y =? 0).
  - inv_binds. wp_p. wp_wr "Hx". wp_p. wp_wr "Hids". iApply wp_ret. iSplitR; [done|].
    iExists ids. iFrame.
  - inv_binds. iApply wp_ret. iSplitR; [done|]. iExists ids. destruct i. iFrame.
Qed.

Lemma c_instance_new_ok iid b acceptors now junk i :
  instance_new iid b acceptors now junk = Ret i →
  ⊢ wp (c_instance_new iid b acceptors now junk) (λ x, at_instance x i).
Proof.
  iIntros (E). unfold instance_new, quorum_init in E. apply bind_inv in E as (q & Eq & [= <-]).
  unfold c_instance_new. wp_new x "Hx". wp_unbind.
  iApply (wp_wand _ (λ _, at_body x (Instance iid b 0 None 0 q now) None) with "[Hx]").
  - unfold c_quorum_init. wp_rd "Hx". wp_new ids "Hids". wp_wr "Hx". simpl.
    set (q0 := Quorum (junk 0%nat) (paxos_quorum acceptors) acceptors
      (junk <$> seq 0 (Z.to_nat acceptors))).
    iApply (c_quorum_clear_ok x (Instance iid b 0 None 0 q0 now)); [exact Eq|].
    iExists ids. iFrame.
  - iIntros (_) "Hx". iApply wp_ret. iExists None. by iFrame.
Qed.

Lemma c_instance_free_ok x i : at_instance x i ⊢ wp (c_instance_free x) (λ _, emp).
Proof.
  iIntros "(%v & (%ids & Hx & Hids) & Hv)". unfold c_instance_free, c_quorum_destroy.
  wp_unbind. wp_rd "Hx". wp_p. wp_fr "Hids". wp_rd "Hx". simpl.
  wp_unbind. iApply (wp_wand _ (λ _, emp)%I with "[Hv]").
  - destruct v, (i_value i); simpl; try iDestruct "Hv" as %[]; [by wp_fr "Hv"|by iApply wp_ret].
  - iIntros (_) "_". by wp_fr "Hx".
Qed.

(** A value written to an instance. *)
Lemma c_set_value_ok x i v vb v' m :
  at_body x i v ⊢ wp (c_set_value x vb v') (λ _, at_body x (set_value vb m i) v').
Proof.
  iIntros "(%ids & Hx & Hids)". unfold c_set_value. wp_rd "Hx". wp_wr "Hx". iExists ids. iFrame.
Qed.

Lemma c_instance_find_from_ok a c cl locs (l : list instance) iid n (i : Z) o :
  qrep c cl locs l → 0 ≤ i → i + Z.of_nat n = Z.of_nat (length l) →
  instance_find_from n i c iid = Ret o →
  a ↦c cl ∗ elems at_instance locs l ⊢ wp (c_instance_find_from n i a iid) (λ r,
    a ↦c cl ∗ elems at_instance locs l ∗
    <affine> ⌜r = o ≫= (λ k, locs !! Z.to_nat k)⌝ ∗
    <affine> ⌜∀ k, o = Some k → 0 ≤ k < Z.of_nat (length l)⌝).
Proof.
  intros Q. revert i. induction n as [|n IH]; intros i Hi Hn E; simpl in *.
  { injection E as <-. iIntros "[Ha He]". iApply wp_ret. by iFrame. }
  unfold instance_at in E. inv_binds.
  destruct (qrep_at _ _ _ _ i _ Q ltac:(lia) E1) as (x & y & Hx & Hy & -> & Ex). injection E0 as ->.
  iIntros "[Ha He]". wp_call c_carray_at_ok with "[Ha]". iIntros (x') "[-> Ha]". wp_p.
  iDestruct (elems_acc_same with "He") as "[(%v & (%ids & Hi & Hids) & Hv) He]"; [done..|].
  wp_rd "Hi". simpl. iDestruct ("He" with "[Hi Hids Hv]") as "He".
  { iExists v. iFrame. }
  destruct (i_iid r =? iid).
  - injection E as <-. iApply (wp_wand with "[Ha]"); [by iApply c_carray_at_ok|].
    iIntros (r') "[-> Ha]". iFrame. iSplit; iPureIntro; [by simpl; rewrite Hx|].
    intros k [= <-]. lia.
  - iApply IH; [lia..|done|]. iFrame.
Qed.

Lemma c_instance_find_ok a c iid o :
  instance_find c iid = Ret o →
  queue at_instance a c ⊢ wp (c_instance_find a iid) (found a c o).
Proof.
  iIntros (E) "(%cl & %locs & %l & Ha & %Q & He)". unfold c_instance_find.
  destruct (qrep_count _ _ _ _ Q) as [Hcl Hc]. pose proof (qrep_length _ _ _ _ Q) as Hlen.
  iDestruct "Ha" as "[%arr Ha]". wp_unbind. iApply c_carray_count_ok. iFrame "Ha". iIntros "Ha".
  rewrite Hcl. iApply (wp_wand with "[Ha He]").
  { iApply c_instance_find_from_ok; [done..|lia|exact E|]. by iFrame. }
  iIntros (r) "(Ha & He & -> & %Hk)". destruct o as [k|]; simpl; [|iSplitR; [done|]].
  - specialize (Hk k eq_refl). destruct (lookup_lt_is_Some_2 locs (Z.to_nat k)) as [x Hx]; [lia|].
    destruct (lookup_lt_is_Some_2 l (Z.to_nat k)) as [y Hy]; [lia|].
    iExists x, y. iSplitR; [done|]. iSplitL; [iExists cl, locs, l; iFrame; iPureIntro; by destruct Hk|].
    iPureIntro. intros i Hi. apply (instance_at_inv _ _ _ _ (qp_list _ _ _ _ Q)) in Hi; [|lia].
    congruence.
  - iExists cl, locs, l. by iFrame.
Qed.

(** [carray_reject] leaves out the object [x] and no other. *)
Lemma c_instance_remove_ok a c k x y l c' :
  carray_rep c l → NoDup (i_iid <$> l) → instance_remove c y = Ret c' →
  focus at_instance a c k x y ⊢ wp (c_instance_remove a x) (λ b,
    at_instance x y ∗ queue at_instance b c').
Proof.
  iIntros (Rc U E) "H". unfold c_instance_remove. wp_unbind. iApply (wp_wand with "[H]").
  { iApply (queue_reject at_instance i_iid instance_match _ _ a c k x y l c' Rc U E with "H").
    - intros y'. unfold instance_match. case_Z; simpl; split; congruence.
    - iIntros (locs l' x' y' j Hx Hy Hx' Hy') "He". unfold c_instance_match.
      iDestruct (elems_acc_same with "He") as "[(%v & (%ids & Hi & Hids) & Hv) He]";
        [exact Hx|exact Hy|].
      wp_rd "Hi". simpl. iDestruct ("He" with "[Hi Hids Hv]") as "He".
      { iExists v. iFrame. }
      iDestruct (elems_acc_same with "He") as "[(%w & (%jds & Hi & Hids) & Hv) He]";
        [exact Hx'|exact Hy'|].
      wp_rd "Hi". simpl. iApply wp_ret. iSplitR; [done|]. iApply "He". iExists w. iFrame. }
  iIntros (b) "(%cl & Ha & Hx & Hb)". wp_call c_carray_free_ok with "[Ha]".
  iIntros (_) "_". iApply wp_ret. iFrame.
Qed.

End instances.

(** ** What the operations leave alone *)

Lemma quorum_add_refused q id added q' :
  quorum_add q id = Ret (added, q') → (added =? 0) = true → q' = q.
Proof.
  unfold quorum_add. intros H Ha. apply bind_inv in H as (y & _ & H). destruct (y =? 0); inv_binds; done.
Qed.

Lemma pop_front_front {A} (c c' : carray A) o f :
  carray_pop_front c = Ret (o, c') → carray_front c = Ret f → o = f.
Proof.
  unfold carray_pop_front, carray_front. intros H1 H2. destruct (carray_empty c); inv_binds; congruence.
Qed.

Lemma set_quorum_same i : set_quorum (i_quorum i) i = i.
Proof. by destruct i. Qed.

Lemma promise_value_kept p i ack p' i' :
  promise_value p i ack = Ret (p', i') → ∃ vs, p' = set_values vs p.
Proof.
  unfold promise_value. intros H. assert (p = set_values (p_values p) p) as Hp by by destruct p.
  repeat case_match; inv_binds; eauto.
Qed.

Lemma take_value_kept p i p' o :
  take_value p i = Ret (p', o) →
  ∃ vs, p' = set_values vs p ∧ (o = None → i_value i = None).
Proof.
  unfold take_value. assert (p = set_values (p_values p) p) as Hp by by destruct p.
  destruct (i_value i) as [v|]; intros H; inv_binds; by eexists.
Qed.

Lemma set_value_none i : i_value i = None → set_value (i_value_ballot i) None i = i.
Proof. destruct i. simpl. by intros ->. Qed.

Lemma prepare_preempt_value p i now i' out :
  prepare_preempt p i now = Ret (i', out) → i_value i' = i_value i.
Proof. unfold prepare_preempt. intros H. by inv_binds. Qed.

(** ** The operations *)

Section operations.
Implicit Types (l x : loc) (p : proposer) (i : instance).

Notation at_struct l p vs pr ac := (l ↦ BProposer (prop_struct p vs pr ac))%I.

Lemma c_next_ballot_ok l p vs pr ac b (Φ : Z → mprop) :
  at_struct l p vs pr ac ∗ (at_struct l p vs pr ac -∗ Φ (proposer_next_ballot p b)) ⊢
  wp (c_proposer_next_ballot l b) Φ.
Proof.
  iIntros "[Hl HΦ]". unfold c_proposer_next_ballot. wp_rd "Hl". iApply wp_ret. by iApply "HΦ".
Qed.

Lemma c_proposer_new_ok id acceptors p :
  proposer_new id acceptors = Ret p → ⊢ wp (c_proposer_new id acceptors) (λ l, at_proposer l p).
Proof.
  iIntros (E). unfold proposer_new in E. inv_binds. unfold c_proposer_new.
  wp_call (queue_new at_msg) with "[]"; [unfold INT_MAX; lia|]. iIntros (vs) "Hv".
  wp_call (queue_new at_instance) with "[]"; [unfold INT_MAX; lia|]. iIntros (pr) "Hp".
  wp_call (queue_new at_instance) with "[]"; [unfold INT_MAX; lia|]. iIntros (ac) "Ha".
  wp_new l "Hl". iExists vs, pr, ac. iFrame.
Qed.

Lemma c_proposer_free_ok l p :
  indexable (p_values p) → indexable (p_prepare_instances p) → indexable (p_accept_instances p) →
  at_proposer l p ⊢ wp (c_proposer_free l) (λ _, emp).
Proof.
  iIntros (Xv Xp Xa) "(%vs & %pr & %ac & Hl & Hv & Hp & Ha)". unfold c_proposer_free. wp_rd "Hl".
  wp_call (queue_drain at_msg vs _ _ Xv) with "[Hv]".
  { iIntros (x m) "Hm". by wp_fr "Hm". }
  iIntros (_) "_". wp_call (queue_drain at_instance pr _ _ Xp) with "[Hp]"; [apply c_instance_free_ok|].
  iIntros (_) "_". wp_call (queue_drain at_instance ac _ _ Xa) with "[Ha]"; [apply c_instance_free_ok|].
  iIntros (_) "_". by wp_fr "Hl".
Qed.

Lemma c_proposer_propose_ok l p value p' :
  proposer_propose p value = Ret p' →
  at_proposer l p ⊢ wp (c_proposer_propose l value) (λ _, at_proposer l p').
Proof.
  iIntros (E) "(%vs & %pr & %ac & Hl & Hv & Hp & Ha)". unfold proposer_propose in E. inv_binds.
  unfold c_proposer_propose, c_wrap_value. wp_new x "Hx". wp_rd "Hl". simpl.
  iApply (wp_wand with "[Hv Hx]").
  { iApply (queue_push_back at_msg); [exact E0|]. iFrame. }
  iIntros (_) "Hv". rewrite focus_queue. iExists vs, pr, ac. iFrame.
Qed.

Lemma c_proposer_prepared_count_ok l p :
  at_proposer l p ⊢ wp (c_proposer_prepared_count l) (λ r,
    <affine> ⌜r = proposer_prepared_count p⌝ ∗ at_proposer l p).
Proof.
  iIntros "(%vs & %pr & %ac & Hl & Hv & Hp & Ha)". unfold c_proposer_prepared_count. wp_rd "Hl".
  iApply (queue_count at_instance). iFrame "Hp". iIntros "Hp". iSplitR; [done|].
  iExists vs, pr, ac. iFrame.
Qed.

Lemma c_proposer_prepare_ok l p now junk p' out :
  proposer_prepare p now junk = Ret (p', out) →
  at_proposer l p ⊢ wp (c_proposer_prepare l now junk) (λ r, <affine> ⌜r = out⌝ ∗ at_proposer l p').
Proof.
  iIntros (E) "(%vs & %pr & %ac & Hl & Hv & Hp & Ha)". unfold proposer_prepare in E. inv_binds.
  unfold c_proposer_prepare. wp_rd "Hl". wp_wr "Hl". wp_unbind.
  iApply (c_next_ballot_ok l (Proposer (p_id p) (p_acceptors p) (p_values p)
    (u32 (p_next_prepare_iid p + 1)) (p_prepare_instances p) (p_accept_instances p)) vs pr ac).
  iFrame "Hl". iIntros "Hl". wp_call c_instance_new_ok with "[]". iIntros (x) "Hx".
  wp_unbind. iApply (wp_wand with "[Hp Hx]"); [iApply (queue_push_back at_instance); [exact E1|iFrame]|].
  iIntros (_) "Hp". iDestruct (focus_acc with "Hp") as "[(%v & (%ids & Hx & Hids) & Hval) [_ Hp]]".
  wp_rd "Hx". iApply wp_ret. iSplitR; [done|]. iDestruct ("Hp" with "[Hx Hids Hval]") as "Hp".
  { iExists v. iFrame. }
  rewrite focus_queue. iExists vs, pr, ac. iFrame.
Qed.

Lemma c_prepare_preempt_ok l p vs pr ac x i v now i' out :
  prepare_preempt p i now = Ret (i', out) →
  at_struct l p vs pr ac ∗ at_body x i v ⊢ wp (c_prepare_preempt l x now) (λ r,
    <affine> ⌜r = out⌝ ∗ at_struct l p vs pr ac ∗ at_body x i' v).
Proof.
  iIntros (E) "[Hl (%ids & Hx & Hids)]". unfold prepare_preempt in E. inv_binds.
  unfold c_prepare_preempt. wp_rd "Hx". wp_unbind. iApply c_next_ballot_ok. iFrame "Hl".
  iIntros "Hl". wp_wr "Hx". wp_unbind. iApply (wp_wand with "[Hx Hids]").
  { iApply (c_quorum_clear_ok x (set_ballot (proposer_next_ballot p (i_ballot i)) i) v); [exact E0|].
    iExists ids. iFrame. }
  iIntros (_) "(%jds & Hx & Hids)". wp_rd "Hx". wp_wr "Hx". iApply wp_ret. by iFrame.
Qed.

Lemma c_promise_value_ok l p vs pr ac x i ack p' i' :
  promise_value p i ack = Ret (p', i') →
  at_struct l p vs pr ac ∗ queue at_msg vs (p_values p) ∗ at_instance x i ⊢
  wp (c_promise_value l x ack) (λ _,
    at_struct l p vs pr ac ∗ queue at_msg vs (p_values p') ∗ at_instance x i').
Proof.
  iIntros (E) "(Hl & Hv & (%v & (%ids & Hx & Hids) & Hval))". unfold promise_value in E.
  unfold c_promise_value. destruct (0 <? value_size (pa_value ack)); inv_binds.
  2:{ iApply wp_ret. iFrame. }
  wp_rd "Hx". simpl. destruct v as [old|], (i_value i) as [m|] eqn:Em; simpl;
    try iDestruct "Hval" as %[].
  - destruct (i_value_ballot i <? pa_value_ballot ack); inv_binds.
    2:{ iApply wp_ret. iFrame. rewrite Em. by iFrame. }
    wp_rd "Hl". simpl. wp_unbind. iApply (wp_wand with "[Hv Hval]").
    { iApply (queue_push_back at_msg); [exact E0|]. iFrame. }
    iIntros (_) "Hv". rewrite focus_queue. unfold c_wrap_value. wp_new y "Hy".
    iApply (wp_wand with "[Hx Hids]"); [iApply c_set_value_ok; iExists ids; iFrame|].
    iIntros (_) "Hx". iFrame.
  - inv_binds. unfold c_wrap_value. wp_new y "Hy".
    iApply (wp_wand with "[Hx Hids]"); [iApply c_set_value_ok; iExists ids; iFrame|].
    iIntros (_) "Hx". iFrame.
Qed.

Lemma c_receive_prepare_ack_ok l p ack now p' out :
  proposer_receive_prepare_ack p ack now = Ret (p', out) →
  at_proposer l p ⊢ wp (c_proposer_receive_prepare_ack l ack now) (λ r,
    <affine> ⌜r = out⌝ ∗ at_proposer l p').
Proof.
  iIntros (E) "(%vs & %pr & %ac & Hl & Hv & Hp & Ha)". unfold proposer_receive_prepare_ack in E.
  apply bind_inv in E as (o & Eo & E). unfold c_proposer_receive_prepare_ack. wp_rd "Hl". simpl.
  wp_call c_instance_find_ok with "[Hp]". iIntros (r) "Hp". destruct o as [k|]; simpl.
  2:{ inv_binds. iDestruct "Hp" as "[-> Hp]". iApply wp_ret. iSplitR; [done|].
      iExists vs, pr, ac. iFrame. }
  iDestruct "Hp" as "(%x & %i & -> & Hp & %Hi)". apply bind_inv in E as (j & Ej & E).
  rewrite -> (Hi _ Ej) in E. iDestruct (focus_acc with "Hp") as "[(%v & (%ids & Hx & Hids) & Hval) Hp]".
  wp_rd "Hx". simpl. iAssert (at_body x i v) with "[Hx Hids]" as "Hx"; [iExists ids; iFrame|].
  destruct (pa_ballot ack <? i_ballot i); [|destruct (pa_ballot ack =? i_ballot i)].
  - inv_binds. iApply wp_ret. iSplitR; [done|]. iDestruct "Hp" as "[_ Hp]".
    iDestruct ("Hp" with "[Hx Hval]") as "Hp"; [iExists v; iFrame|]. rewrite focus_queue.
    iExists vs, pr, ac. iFrame.
  - apply bind_inv in E as ([added q] & Eq & E). wp_call c_quorum_add_ok with "[Hx]".
    iIntros (r) "[-> Hx]". destruct (added =? 0) eqn:Eadd.
    + inv_binds. iApply wp_ret. iSplitR; [done|]. iDestruct "Hp" as "[_ Hp]".
      rewrite -> (quorum_add_refused _ _ _ _ Eq Eadd), set_quorum_same.
      iDestruct ("Hp" with "[Hx Hval]") as "Hp"; [iExists v; iFrame|]. rewrite focus_queue.
      iExists vs, pr, ac. iFrame.
    + apply bind_inv in E as ([p1 i1] & Ep & E). inv_binds. wp_unbind.
      iApply (wp_wand with "[Hl Hv Hx Hval]").
      { iApply c_promise_value_ok; [exact Ep|]. iFrame. }
      iIntros (_) "(Hl & Hv & Hx)". iApply wp_ret. iSplitR; [done|]. iDestruct "Hp" as "[Hp _]".
      iDestruct ("Hp" with "Hx") as "Hp". rewrite focus_queue.
      destruct (promise_value_kept _ _ _ _ _ Ep) as [vs' ->].
      iExists vs, pr, ac. iFrame.
  - apply bind_inv in E as ([i1 o1] & Ep & E). inv_binds. wp_unbind.
    iApply (wp_wand with "[Hl Hx]").
    { iApply c_prepare_preempt_ok; [exact Ep|]. iFrame. }
    iIntros (r) "(-> & Hl & Hx)". iApply wp_ret. iSplitR; [done|]. iDestruct "Hp" as "[Hp _]".
    iDestruct ("Hp" $! i1 with "[Hx Hval]") as "Hp".
    { iExists v. rewrite (prepare_preempt_value _ _ _ _ _ Ep). iFrame. }
    rewrite focus_queue. iExists vs, pr, ac. iFrame.
Qed.

Lemma c_accept_front_ok n a c c' o :
  accept_front n c = Ret (c', o) →
  queue at_instance a c ⊢ wp (c_accept_front n a) (fetched at_instance a c' 0 o).
Proof.
  revert c. induction n as [|n IH]; intros c E; [done|]. simpl in *.
  apply bind_inv in E as (f & Ef & E). iIntros "Ha".
  wp_call (queue_front at_instance) with "[Ha]". iIntros (r) "Ha".
  destruct r as [x|], f as [i|]; simpl; try iDestruct "Ha" as %[]; [|inv_binds; by iApply wp_ret].
  iDestruct (focus_acc with "Ha") as "[(%v & (%ids & Hx & Hids) & Hval) [_ Ha]]".
  wp_rd "Hx". simpl. iAssert (at_body x i v) with "[Hx Hids]" as "Hx"; [iExists ids; iFrame|].
  destruct (negb (i_closed i =? 0)).
  - apply bind_inv in E as ([o1 c1] & Ep & E).
    iDestruct ("Ha" with "[Hx Hval]") as "Ha"; [iExists v; iFrame|]. rewrite focus_queue.
    wp_call (queue_pop_front at_instance) with "[Ha]". iIntros (r) "[Hr Ha]".
    rewrite -> (pop_front_front _ _ _ _ Ep Ef). destruct r as [y|]; simpl; [|by iDestruct "Hr" as %[]].
    wp_p. wp_call c_instance_free_ok with "[Hr]". iIntros (_) "_". by iApply IH.
  - wp_unbind. iApply c_quorum_reached_ok. iFrame "Hx". iIntros "Hx".
    iDestruct ("Ha" with "[Hx Hval]") as "Ha"; [iExists v; iFrame|].
    destruct (quorum_reached (i_quorum i)); simpl in *; inv_binds; iApply wp_ret; simpl; [done|].
    by rewrite focus_queue.
Qed.

Lemma c_take_value_ok l p vs pr ac x i v p' o :
  take_value p i = Ret (p', o) →
  at_struct l p vs pr ac ∗ queue at_msg vs (p_values p) ∗ at_body x i v ∗ at_value v (i_value i) ⊢
  wp (c_take_value l x) (λ _, ∃ v',
    at_struct l p' vs pr ac ∗ queue at_msg vs (p_values p') ∗
    at_body x (set_value (i_value_ballot i) o i) v' ∗ at_value v' o).
Proof.
  iIntros (E) "(Hl & Hv & (%ids & Hx & Hids) & Hval)". unfold take_value in E. unfold c_take_value.
  wp_rd "Hl". wp_rd "Hx". simpl. destruct v as [y|], (i_value i) as [m|] eqn:Em; simpl;
    try iDestruct "Hval" as %[]; inv_binds.
  - iApply wp_ret. iExists (Some y). iFrame.
  - wp_call (queue_pop_front at_msg) with "[Hv]". iIntros (r) "[Hr Hv]".
    iApply (wp_wand with "[Hx Hids]").
    { iApply (c_set_value_ok x i None _ r o). iExists ids. iFrame. }
    iIntros (_) "Hx". iExists r. iFrame.
Qed.

Lemma c_accept_req_ok x i m :
  deref (i_value i) = Ret m →
  at_instance x i ⊢ wp (c_accept_req x) (λ r,
    r ↦ BAcceptReq (AcceptReq (i_iid i) (i_ballot i) (m_data m)) ∗ at_instance x i).
Proof.
  iIntros (E) "(%v & (%ids & Hx & Hids) & Hval)". unfold c_accept_req. wp_rd "Hx". simpl.
  destruct (i_value i) as [m'|] eqn:Em; [|done]. injection E as ->.
  destruct v as [y|]; simpl; [|by iDestruct "Hval" as %[]]. wp_p. unfold at_msg. wp_rd "Hval".
  iApply wp_alloc. iIntros (r) "$". iExists (Some y). rewrite Em. iFrame.
Qed.

Lemma c_proposer_accept_ok l p p' out :
  proposer_accept p = Ret (p', out) →
  at_proposer l p ⊢ wp (c_proposer_accept l) (λ r, at_request r out ∗ at_proposer l p').
Proof.
  iIntros (E) "(%vs & %pr & %ac & Hl & Hv & Hp & Ha)". unfold proposer_accept in E.
  apply bind_inv in E as ([c f] & Ef & E). unfold c_proposer_accept. wp_rd "Hl".
  wp_unbind. iApply (queue_count at_instance). iFrame "Hp". iIntros "Hp".
  wp_call c_accept_front_ok with "[Hp]". simpl. iIntros (r) "Hp".
  destruct r as [x|], f as [i|]; simpl; try iDestruct "Hp" as %[].
  2:{ inv_binds. iApply wp_ret. iSplitR; [done|]. iExists vs, pr, ac. iFrame. }
  apply bind_inv in E as ([p1 o] & Et & E).
  iDestruct (focus_acc with "Hp") as "[(%v & Hx & Hval) Hp]".
  wp_unbind. iApply (wp_wand with "[Hl Hv Hx Hval]").
  { iApply c_take_value_ok; [exact Et|]. iFrame. }
  iIntros (_) "(%v' & Hl & Hv & (%ids & Hx & Hids) & Hval)". wp_rd "Hx". simpl.
  destruct (take_value_kept _ _ _ _ Et) as (vs' & -> & Ho). simpl in E.
  destruct v' as [y|], o as [m|]; simpl; try iDestruct "Hval" as %[].
  2:{ inv_binds. iApply wp_ret. iSplitR; [done|]. iDestruct "Hp" as "[_ Hp]".
      rewrite -> (set_value_none i) by auto.
      iDestruct ("Hp" with "[Hx Hids]") as "Hp"; [iExists None; rewrite Ho //; iFrame|].
      rewrite focus_queue. iExists vs, pr, ac. iFrame. }
  iDestruct "Hp" as "[Hp _]". iDestruct ("Hp" $! (set_value (i_value_ballot i) (Some m) i)
    with "[Hx Hids Hval]") as "Hp"; [by iFrame|].
  rewrite focus_queue. apply bind_inv in E as ([o1 c1] & Epop & E).
  wp_call (queue_pop_front at_instance) with "[Hp]". iIntros (r) "[Hr Hp]".
  apply bind_inv in E as (i1 & Ei1 & E). destruct o1 as [?|]; [|done]. injection Ei1 as ->.
  destruct r as [x1|]; simpl; [|by iDestruct "Hr" as %[]]. wp_p.
  iDestruct "Hr" as "(%w & Hx & Hval)". inv_binds. wp_call c_quorum_clear_ok with "[Hx]".
  iIntros (_) "Hx". wp_unbind. iApply (wp_wand with "[Ha Hx Hval]").
  { iApply (queue_push_back at_instance); [exact E1|]. iFrame. }
  iIntros (_) "Ha". iDestruct (focus_acc with "Ha") as "[Hx [_ Ha]]".
  wp_call (c_accept_req_ok x1 (set_quorum r i1) _ E2) with "[Hx]". iIntros (req) "[Hreq Hx]". iApply wp_ret. iFrame "Hreq".
  iDestruct ("Ha" with "Hx") as "Ha". rewrite focus_queue. iExists vs, pr, ac. iFrame.
Qed.

Lemma c_set_accept_ok l p vs pr ac c :
  at_struct l p vs pr ac ⊢ wp (c_set_accept l c) (λ _, at_struct l p vs pr c).
Proof. iIntros "Hl". unfold c_set_accept. wp_rd "Hl". by wp_wr "Hl". Qed.

(** An instance taken out of the queue it is in. *)
Lemma c_remove_ok {A} l p vs pr ac c k x i acs c' (m : cmdb A) Φ :
  carray_rep c acs → NoDup (i_iid <$> acs) → instance_remove c i = Ret c' →
  at_struct l p vs pr ac ∗ focus at_instance ac c k x i ∗
  (∀ b, at_struct l p vs pr b -∗ at_instance x i -∗ queue at_instance b c' -∗ wp m Φ) ⊢
  wp (b ← c_instance_remove ac x; c_set_accept l b ;; m) Φ.
Proof.
  iIntros (R U E) "(Hl & Ha & HΦ)".
  wp_call (c_instance_remove_ok _ _ _ _ _ _ _ R U E) with "[Ha]". iIntros (b) "[Hx Hb]".
  wp_call c_set_accept_ok with "[Hl]". iIntros (_) "Hl". iApply ("HΦ" with "Hl Hx Hb").
Qed.

Lemma c_receive_accept_ack_ok l p ack now p' out acs :
  carray_rep (p_accept_instances p) acs → NoDup (i_iid <$> acs) →
  proposer_receive_accept_ack p ack now = Ret (p', out) →
  at_proposer l p ⊢ wp (c_proposer_receive_accept_ack l ack now) (λ r,
    <affine> ⌜r = out⌝ ∗ at_proposer l p').
Proof.
  iIntros (R U E) "(%vs & %pr & %ac & Hl & Hv & Hp & Ha)". unfold proposer_receive_accept_ack in E.
  apply bind_inv in E as (o & Eo & E). unfold c_proposer_receive_accept_ack. wp_rd "Hl". simpl.
  wp_call c_instance_find_ok with "[Ha]". iIntros (r) "Ha". destruct o as [k|]; simpl.
  2:{ inv_binds. iDestruct "Ha" as "[-> Ha]". iApply wp_ret. iSplitR; [done|].
      iExists vs, pr, ac. iFrame. }
  pose proof (instance_find_inv _ _ _ _ R Eo) as (Hk & i0 & Hl & _).
  iDestruct "Ha" as "(%x & %i & -> & Ha & %Hi)". apply bind_inv in E as (j & Ej & E).
  assert (acs !! Z.to_nat k = Some j) as Hj.
  { apply (instance_at_inv _ acs) in Ej; [done..|]. apply lookup_lt_Some in Hl. lia. }
  rewrite -> (Hi _ Ej) in *. clear i0 Hl j Ej Hi.
  iDestruct (focus_acc with "Ha") as "[(%v & (%ids & Hx & Hids) & Hval) Ha]".
  wp_rd "Hx". simpl. iAssert (at_body x i v) with "[Hx Hids]" as "Hx"; [iExists ids; iFrame|].
  destruct (aa_ballot ack =? i_ballot i).
  - apply bind_inv in E as ([] & Easrt & E). wp_p. apply bind_inv in E as ([added q] & Eq & E).
    wp_call c_quorum_add_ok with "[Hx]". iIntros (r) "[-> Hx]". destruct (added =? 0) eqn:Eadd.
    + inv_binds. iApply wp_ret. iSplitR; [done|]. iDestruct "Ha" as "[_ Ha]".
      rewrite -> (quorum_add_refused _ _ _ _ Eq Eadd), set_quorum_same.
      iDestruct ("Ha" with "[Hx Hval]") as "Ha"; [iExists v; iFrame|]. rewrite focus_queue.
      iExists vs, pr, ac. iFrame.
    + wp_unbind. iApply c_quorum_reached_ok. iFrame "Hx". iIntros "Hx".
      iDestruct "Ha" as "[Ha _]". iDestruct ("Ha" $! (set_quorum q i) with "[Hx Hval]") as "Ha"; [iExists v; iFrame|].
      simpl in *. destruct (quorum_reached q).
      * apply bind_inv in E as (c' & Er & E). inv_binds.
        pose proof (poke_ok _ _ k (set_quorum q i) R ltac:(apply lookup_lt_Some in Hj; lia)) as R'.
        assert (NoDup (i_iid <$> <[Z.to_nat k := set_quorum q i]> acs)) as U'.
        { by rewrite (fmap_insert_same _ _ i). }
        wp_unbind. iApply (c_remove_ok _ _ _ _ _ _ _ _ _ _ _ _ _ R' U' Er). iFrame "Hl Ha".
        iIntros (b) "Hl Hx Hb". iApply (wp_wand with "[Hx]"); [by iApply c_instance_free_ok|].
        iIntros (_) "_". iApply wp_ret. iSplitR; [done|]. iExists vs, pr, b. iFrame.
      * inv_binds. wp_unbind. iApply wp_ret. iApply wp_ret. iSplitR; [done|]. rewrite focus_queue.
        iExists vs, pr, ac. iFrame.
  - apply bind_inv in E as (c' & Er & E). apply bind_inv in E as (c2 & Epush & E).
    apply bind_inv in E as ([i1 o1] & Ep & E). inv_binds. iDestruct "Ha" as "[_ Ha]".
    iDestruct ("Ha" with "[Hx Hval]") as "Ha"; [iExists v; iFrame|].
    iApply (c_remove_ok _ _ _ _ _ _ _ _ _ _ _ _ _ R U Er). iFrame "Hl Ha".
    iIntros (b) "Hl Hx Hb". wp_unbind. iApply (wp_wand with "[Hp Hx]").
    { iApply (queue_push_front at_instance); [exact Epush|]. iFrame. }
    iIntros (_) "Hp". iDestruct (focus_acc with "Hp") as "[(%w & Hx & Hval) [Hp _]]".
    wp_unbind. iApply (wp_wand with "[Hl Hx]").
    { iApply (c_prepare_preempt_ok l (set_prepare c2 (set_accept c' p))); [exact Ep|]. iFrame. }
    iIntros (r) "(-> & Hl & Hx)". iApply wp_ret. iSplitR; [done|].
    iDestruct ("Hp" $! i1 with "[Hx Hval]") as "Hp".
    { iExists w. rewrite (prepare_preempt_value _ _ _ _ _ Ep). iFrame. }
    rewrite focus_queue. iExists vs, pr, b. iFrame.
Qed.

End operations.
