(* ===== verification/MemTimeouts.v ===== *)
(** * Timeout iterators in memory (src/paxos/proposer.c)

A [struct timeout_iterator] holds a pointer to its proposer: the instance a
timed out request is made of is an object of the proposer's queues, whose clock
is reset through the pointer that [next_timedout] returns. *)

From S2P Require Import Prelude Heap Carray Quorum Messages Memory MemCarray MemQueue Proposer.
From S2P Require Import MemProposer.
#[local] Open Scope Z_scope.

Definition c_proposer_timeout_iterator (p : loc) (now : timeval) : cmdb loc :=
  alloc (BIterator (CTimeoutIterator 0 0 now p)).

Definition c_timeout_iterator_free (iter : loc) : cmdb () := free iter.

Definition c_instance_has_timedout (cfg : paxos_config) (inst : loc) (now : timeval) : cmdb bool :=
  i ← read_as as_instance inst;
  diff ← pureC (timeval_diff (ci_created_at i) now);
  mret (proposer_timeout cfg <=? diff).

(** The loop of [next_timedout] from index [i], [n] iterations left. *)
Fixpoint c_next_timedout_from (n : nat) (cfg : paxos_config) (c : loc) (i : Z) (t : timeval)
    : cmdb (Z * option loc) :=
  match n with
  | O => mret (i, None)
  | S n' =>
      x ← c_carray_at c i;
      inst ← pureC (deref x);
      r ← c_quorum_reached inst;
      if (r : bool) then c_next_timedout_from n' cfg c (i + 1) t
      else
        timedout ← c_instance_has_timedout cfg inst t;
        if (timedout : bool) then mret (i + 1, Some inst)
        else c_next_timedout_from n' cfg c (i + 1) t
  end.

Definition c_next_timedout (cfg : paxos_config) (c : loc) (i : Z) (t : timeval)
    : cmdb (Z * option loc) :=
  n ← c_carray_count c;
  c_next_timedout_from (Z.to_nat (n - i)) cfg c i t.

(** [inst->created_at = t] *)
Definition c_set_created_at (inst : loc) (t : timeval) : cmdb () :=
  i ← read_as as_instance inst;
  write inst (BInstance (CInstance (ci_iid i) (ci_ballot i) (ci_value_ballot i) (ci_value i)
    (ci_closed i) (ci_quorum i) t)).

Definition c_timeout_iterator_prepare (cfg : paxos_config) (iter : loc) : cmdb (option loc) :=
  t ← read_as as_iterator iter;
  p ← read_as as_proposer (ct_proposer t);
  r ← c_next_timedout cfg (cp_prepare_instances p) (ct_pi t) (ct_timeout t);
  write iter (BIterator (CTimeoutIterator r.1 (ct_ai t) (ct_timeout t) (ct_proposer t))) ;;
  match r.2 with
  | None => mret None
  | Some inst =>
      i ← read_as as_instance inst;
      req ← alloc (BPrepareReq (PrepareReq (ci_iid i) (ci_ballot i)));
      c_set_created_at inst (ct_timeout t) ;;
      mret (Some req)
  end.

Definition c_timeout_iterator_accept (cfg : paxos_config) (iter : loc) : cmdb (option loc) :=
  t ← read_as as_iterator iter;
  p ← read_as as_proposer (ct_proposer t);
  r ← c_next_timedout cfg (cp_accept_instances p) (ct_ai t) (ct_timeout t);
  write iter (BIterator (CTimeoutIterator (ct_pi t) r.1 (ct_timeout t) (ct_proposer t))) ;;
  match r.2 with
  | None => mret None
  | Some inst =>
      req ← c_accept_req inst;
      c_set_created_at inst (ct_timeout t) ;;
      mret (Some req)
  end.

(** ** Triples *)

(** The memory of an iterator over the proposer at [l]. *)
Definition at_iterator (it l : loc) (t : timeout_iterator) : mprop :=
  (it ↦ BIterator (CTimeoutIterator (ti_pi t) (ti_ai t) (ti_timeout t) l))%I.

Definition at_prepare_req (r : option loc) (out : option prepare_req) : mprop :=
  match r, out with
  | Some x, Some q => x ↦ BPrepareReq q
  | None, None => emp
  | _, _ => False
  end%I.

Section iterators.
Implicit Types (l x it : loc) (p : proposer) (i : instance).

Lemma c_has_timedout_ok cfg x i v now b (Φ : bool → mprop) :
  instance_has_timedout cfg i now = Ret b →
  at_body x i v ∗ (at_body x i v -∗ Φ b) ⊢ wp (c_instance_has_timedout cfg x now) Φ.
Proof.
  iIntros (E) "[(%ids & Hx & Hids) HΦ]". unfold instance_has_timedout in E. inv_binds.
  unfold c_instance_has_timedout. wp_rd "Hx". wp_p. iApply wp_ret. iApply "HΦ". iExists ids. iFrame.
Qed.

Lemma c_next_timedout_from_ok n cfg a c (k : Z) t k' o :
  0 ≤ k → Z.of_nat n ≤ carray_count c - k → next_timedout_from n cfg c k t = Ret (k', o) →
  queue at_instance a c ⊢ wp (c_next_timedout_from n cfg a k t) (λ r,
    <affine> ⌜r.1 = k'⌝ ∗ found a c o r.2).
Proof.
  revert k. induction n as [|n IH]; intros k Hk Hn E; simpl in *.
  { inv_binds. iIntros "Ha". iApply wp_ret. by iFrame. }
  apply bind_inv in E as (i & Ei & E). pose proof Ei as Ei'. unfold instance_at in Ei'.
  apply bind_inv in Ei' as (y0 & E1 & E0). iIntros "Ha". wp_unbind. iApply (wp_wand with "[Ha]").
  { iApply (queue_at at_instance); [|exact E1|iFrame]. lia. }
  iIntros (y) "(%x & %j & %Ej & Ha)". destruct Ej as [-> ->]. injection E0 as ->. wp_p.
  iDestruct (focus_acc with "Ha") as "[(%v & Hx & Hval) [_ Ha]]".
  wp_unbind. iApply c_quorum_reached_ok. iFrame "Hx". iIntros "Hx".
  destruct (quorum_reached (i_quorum i)).
  - iDestruct ("Ha" with "[Hx Hval]") as "Ha"; [iExists v; iFrame|]. rewrite focus_queue.
    iApply IH; [lia..|done|done].
  - apply bind_inv in E as (b & Eb & E). wp_unbind. iApply c_has_timedout_ok; [exact Eb|].
    iFrame "Hx". iIntros "Hx". iDestruct ("Ha" with "[Hx Hval]") as "Ha"; [iExists v; iFrame|].
    destruct b.
    + inv_binds. iApply wp_ret. iSplitR; [done|]. simpl. iExists x, i. iFrame. iSplit; [done|].
      iPureIntro. intros j. rewrite Ei. by intros [= ->].
    + rewrite focus_queue. iApply IH; [lia..|done|done].
Qed.

Lemma c_next_timedout_ok cfg a c (k : Z) t k' o :
  0 ≤ k → next_timedout cfg c k t = Ret (k', o) →
  queue at_instance a c ⊢ wp (c_next_timedout cfg a k t) (λ r,
    <affine> ⌜r.1 = k'⌝ ∗ found a c o r.2).
Proof.
  iIntros (Hk E) "Ha". unfold next_timedout in E. unfold c_next_timedout. wp_unbind.
  iApply (queue_count at_instance). iFrame "Ha". iIntros "Ha".
  destruct (decide (carray_count c - k < 0)) as [Hn|Hn].
  - replace (Z.to_nat (carray_count c - k)) with O in * by lia. simpl in *. inv_binds.
    iApply wp_ret. by iFrame.
  - iApply (c_next_timedout_from_ok with "Ha"); [lia..|exact E].
Qed.

Lemma c_set_created_at_ok x i t :
  at_instance x i ⊢ wp (c_set_created_at x t) (λ _, at_instance x (set_created_at t i)).
Proof.
  iIntros "(%v & (%ids & Hx & Hids) & Hval)". unfold c_set_created_at. wp_rd "Hx". wp_wr "Hx".
  iExists v. iFrame. 
Qed.

Lemma c_timeout_prepare_ok cfg it l t p p' t' out :
  0 ≤ ti_pi t → timeout_iterator_prepare cfg p t = Ret (p', t', out) →
  at_iterator it l t ∗ at_proposer l p ⊢ wp (c_timeout_iterator_prepare cfg it) (λ r,
    at_prepare_req r out ∗ at_iterator it l t' ∗ at_proposer l p').
Proof.
  iIntros (Ht E) "[Hit (%vs & %pr & %ac & Hl & Hv & Hp & Ha)]".
  unfold timeout_iterator_prepare in E. apply bind_inv in E as ([k o] & En & E).
  unfold c_timeout_iterator_prepare, at_iterator. wp_rd "Hit". simpl. wp_rd "Hl". simpl.
  wp_call (c_next_timedout_ok _ _ _ _ _ _ _ Ht En) with "[Hp]". iIntros (r) "[-> Hp]".
  wp_wr "Hit". destruct o as [j|]; simpl.
  2:{ inv_binds. iDestruct "Hp" as "[-> Hp]". iApply wp_ret. iSplitR; [done|]. iFrame. }
  iDestruct "Hp" as "(%x & %i & -> & Hp & %Hi)". apply bind_inv in E as (i' & Ei & E). inv_binds.
  rewrite -> (Hi _ Ei).
  iDestruct (focus_acc with "Hp") as "[(%v & (%ids & Hx & Hids) & Hval) [Hp _]]".
  wp_rd "Hx". simpl. wp_new req "Hreq". wp_unbind. iApply (wp_wand with "[Hx Hids Hval]").
  { iApply (c_set_created_at_ok x i). iExists v. iFrame. }
  iIntros (_) "Hx". iApply wp_ret. iDestruct ("Hp" with "Hx") as "Hp". rewrite focus_queue. iFrame.
Qed.

Lemma c_timeout_accept_ok cfg it l t p p' t' out :
  0 ≤ ti_ai t → timeout_iterator_accept cfg p t = Ret (p', t', out) →
  at_iterator it l t ∗ at_proposer l p ⊢ wp (c_timeout_iterator_accept cfg it) (λ r,
    at_request r out ∗ at_iterator it l t' ∗ at_proposer l p').
Proof.
  iIntros (Ht E) "[Hit (%vs & %pr & %ac & Hl & Hv & Hp & Ha)]".
  unfold timeout_iterator_accept in E. apply bind_inv in E as ([k o] & En & E).
  unfold c_timeout_iterator_accept, at_iterator. wp_rd "Hit". simpl. wp_rd "Hl". simpl.
  wp_call (c_next_timedout_ok _ _ _ _ _ _ _ Ht En) with "[Ha]". iIntros (r) "[-> Ha]".
  wp_wr "Hit". destruct o as [j|]; simpl.
  2:{ inv_binds. iDestruct "Ha" as "[-> Ha]". iApply wp_ret. iSplitR; [done|]. iFrame. }
  iDestruct "Ha" as "(%x & %i & -> & Ha & %Hi)". apply bind_inv in E as (i' & Ei & E).
  apply bind_inv in E as (m & Em & E). inv_binds. rewrite -> (Hi _ Ei) in *.
  iDestruct (focus_acc with "Ha") as "[Hx [Ha _]]".
  wp_call (c_accept_req_ok x i _ Em) with "[Hx]". iIntros (req) "[Hreq Hx]".
  wp_unbind. iApply (wp_wand with "[Hx]"); [by iApply c_set_created_at_ok|].
  iIntros (_) "Hx". iApply wp_ret. iDestruct ("Ha" with "Hx") as "Ha". rewrite focus_queue. iFrame.
Qed.

End iterators.
