(* ===== verification/EvProposerRun.v ===== *)
(** * The whole life of an event-driven proposer (src/evpaxos/evproposer.c)

[run_event] is one callback of the event loop: a message, or the timer.  Each
performs several operations of the proposer; [steady K] says that the node has
performed at most [K] of them, counting those that its prepare queue still
owes, which bounds how many the loop of [try_accept] performs.  Every event
returns, and adds at most [2 * preexec_window + 3] ([node_total]). *)

From S2P Require Import Prelude Carray Quorum Messages Storage StorageMem Acceptor Proposer ProposerRun.
From S2P Require Import Learner Synod System SystemRuns Wire Net EvProposer Timeouts ProposerLife.
#[local] Open Scope Z_scope.
Import Peers.

Inductive node_event : Type :=
  | NMessage (t : timeval) (e : env) (m : message)
  | NTimer (t : timeval).

Definition run_event (cfg : paxos_config) (ev : node_event) (p : evproposer) : res (evproposer * sends) :=
  match ev with
  | NMessage t e m => handle_message t e p m
  | NTimer t => proposer_check_timeouts cfg t p
  end.

Fixpoint run_node (cfg : paxos_config) (evs : list node_event) (p : evproposer)
    : res (evproposer * sends) :=
  match evs with
  | [] => Ret (p, [])
  | ev :: evs' =>
      '(p, out) ← run_event cfg ev p;
      '(p, out') ← run_node cfg evs' p;
      Ret (p, out ++ out')
  end.

(** The acknowledgements name acceptors of the configuration, and accept
acknowledgements with ballots of the proposer [pid] are votes. *)
Definition ack_wf (n pid : Z) (m : message) : Prop :=
  match m with
  | MPrepareAck ack => 0 ≤ pa_acceptor_id ack < n
  | MAcceptAck ack => 0 ≤ aa_acceptor_id ack < n ∧ vote_for pid ack
  | _ => True
  end.

Definition event_ok (n pid t0 : Z) (ev : node_event) : Prop :=
  match ev with
  | NMessage t e m => in_window t0 t ∧ (∀ i, in_window t0 (now e i)) ∧ ack_wf n pid m
  | NTimer t => in_window t0 t
  end.

(** ** What the timeout handler leaves alone *)

Definition same_frame (p p' : proposer) : Prop :=
  p_next_prepare_iid p' = p_next_prepare_iid p ∧ ca_size (p_values p') = ca_size (p_values p) ∧
  ca_size (p_prepare_instances p') = ca_size (p_prepare_instances p) ∧
  ca_size (p_accept_instances p') = ca_size (p_accept_instances p).

Lemma same_frame_trans p1 p2 p3 : same_frame p1 p2 → same_frame p2 p3 → same_frame p1 p3.
Proof. intros (? & ? & ? & ?) (? & ? & ? & ?). split_and!; congruence. Qed.

Section timer.
Context (cfg : paxos_config).

Lemma iter_prepare_frame p iter p' iter' out :
  timeout_iterator_prepare cfg p iter = Ret (p', iter', out) → same_frame p p'.
Proof.
  unfold timeout_iterator_prepare. intros E. apply bind_inv in E as ([i o] & _ & E).
  destruct o; [apply bind_inv in E as (? & _ & E)|]; by injection E as <- _ _.
Qed.

Lemma iter_accept_frame p iter p' iter' out :
  timeout_iterator_accept cfg p iter = Ret (p', iter', out) → same_frame p p'.
Proof.
  unfold timeout_iterator_accept. intros E. apply bind_inv in E as ([i o] & _ & E).
  destruct o; [apply bind_inv in E as (? & _ & E); apply bind_inv in E as (? & _ & E)|];
    by injection E as <- _ _.
Qed.

Lemma prepare_loop_frame N p iter p' iter' out :
  timeout_prepare_loop cfg N p iter = Ret (p', iter', out) → same_frame (state p) (state p').
Proof.
  revert p iter iter' out. induction N as [|N IH]; intros p iter iter' out E; simpl in E; [done|].
  apply bind_inv in E as ([[st it] [pr|]] & E1 & E); apply iter_prepare_frame in E1; [|by injection E as <- _ _].
  apply bind_inv in E as (o & _ & E). apply bind_inv in E as ([[p2 it2] o2] & E2 & E).
  injection E as <- _ _. eapply same_frame_trans; [exact E1|]. apply (IH _ _ _ _ E2).
Qed.

Lemma accept_loop_frame N p iter p' iter' out :
  timeout_accept_loop cfg N p iter = Ret (p', iter', out) → same_frame (state p) (state p').
Proof.
  revert p iter iter' out. induction N as [|N IH]; intros p iter iter' out E; simpl in E; [done|].
  apply bind_inv in E as ([[st it] [ar|]] & E1 & E); apply iter_accept_frame in E1; [|by injection E as <- _ _].
  apply bind_inv in E as (o & _ & E). apply bind_inv in E as ([[p2 it2] o2] & E2 & E).
  injection E as <- _ _. eapply same_frame_trans; [exact E1|]. apply (IH _ _ _ _ E2).
Qed.

Lemma check_timeouts_frame t p p' out :
  proposer_check_timeouts cfg t p = Ret (p', out) → same_frame (state p) (state p').
Proof.
  unfold proposer_check_timeouts. intros E. apply bind_inv in E as ([[p1 it1] o1] & E1 & E).
  apply bind_inv in E as ([[p2 it2] o2] & E2 & E). injection E as <- _.
  eapply same_frame_trans; [by eapply prepare_loop_frame|by eapply accept_loop_frame].
Qed.

End timer.

(** ** Steady states *)

Section node.
Context (cfg : paxos_config) (n pid t0 W : Z) (addrs : list address).
Hypothesis W_pos : 0 ≤ W.

Record steady (K : Z) (p : evproposer) : Prop := {
  sd_live : ∃ k vs ps acs, live n pid t0 k (state p) vs ps acs ∧ 0 ≤ k ∧ k + Z.of_nat (length ps) ≤ K;
  sd_peers : peers_ok (acceptors p) addrs;
  sd_window : preexec_window p = W;
}.

Lemma steady_live K p : steady K p → ∃ k vs ps acs, live n pid t0 k (state p) vs ps acs ∧ 0 ≤ k ≤ K.
Proof using Type. intros [(k & vs & ps & acs & H & Hk & Hl) _ _]. exists k, vs, ps, acs. split; [done|lia]. Qed.

Lemma steady_mono K K' p : steady K p → K ≤ K' → steady K' p.
Proof using Type.
  intros [(k & vs & ps & acs & H & Hk & Hl) ? ?] HK. split; [|done..]. exists k, vs, ps, acs. split; [done|lia].
Qed.

Lemma steady_intro K k p st :
  steady K p → 0 ≤ k → (∃ vs ps acs, live n pid t0 k st vs ps acs ∧ k + Z.of_nat (length ps) ≤ K) →
  steady K (set_state st p).
Proof using Type.
  intros [_ ? ?] Hk (vs & ps & acs & H & Hl). split; [|done..]. by exists k, vs, ps, acs.
Qed.

(** An operation lengthens the prepare queue by one instance at most. *)
Lemma live_pending k p vs ps acs out p' vs' ps' acs' :
  k < 2 ^ 28 → live n pid t0 k p vs ps acs → pstep any_msg p out p' → proposer_rep p' vs' ps' acs' →
  (length ps' ≤ length ps + 1)%nat.
Proof using Type.
  intros Hk [I Hid B _ _ _] Hs R'.
  destruct (pstep_move any_msg n p vs ps acs out p' I) as (vs1 & ps1 & acs1 & I' & _ & Hm);
    [by eapply (bounded_no_wrap k)|done|].
  destruct (rep_unique _ _ _ _ _ _ _ (pi_rep _ _ _ _ _ I') R') as (-> & -> & ->).
  by apply pmove_pending in Hm.
Qed.

(** One operation of the proposer, from a steady node. *)
Lemma steady_step K p out st :
  K + 2 < 2 ^ 28 → steady K p → pstep any_msg (state p) out st →
  (∀ k vs ps acs, 0 ≤ k < 2 ^ 28 → live n pid t0 k (state p) vs ps acs → lives_on n pid t0 k st) →
  steady (K + 2) (set_state st p).
Proof using Type.
  intros HK HS Hs Hl. destruct (sd_live _ _ HS) as (k & vs & ps & acs & H & Hk & Hlen).
  destruct (Hl k vs ps acs ltac:(lia) H) as (vs' & ps' & acs' & H').
  apply (steady_intro _ (k + 1)); [eapply steady_mono; [exact HS|lia]|lia|]. exists vs', ps', acs'. split; [done|].
  pose proof (live_pending k _ _ _ _ _ _ _ _ _ ltac:(lia) H Hs (pi_rep _ _ _ _ _ (lv_inv _ _ _ _ _ _ _ _ H'))).
  lia.
Qed.

Lemma accept_loop_steady K N p :
  K + 1 < 2 ^ 28 → steady K p → (EvProposer.pending p < N)%nat →
  ∃ p' o, accept_loop N p = Ret (p', o) ∧ steady (K + 1) p'.
Proof using Type.
  intros HK. revert p. induction N as [|N IH]; intros p HS HN; [lia|].
  destruct HS as [(k & vs & ps & acs & H & Hk & Hlen) Hp HW].
  destruct (accept_lives n pid t0 k (state p) vs ps acs ltac:(lia) H) as ([st o] & E & vs1 & ps1 & acs1 & H1).
  pose proof (pi_rep _ _ _ _ _ (lv_inv _ _ _ _ _ _ _ _ H)) as R.
  pose proof (pi_rep _ _ _ _ _ (lv_inv _ _ _ _ _ _ _ _ H1)) as R1. simpl in R1.
  destruct (accept_inv _ _ _ _ R st o (inv_closed _ _ _ _ _ (lv_inv _ _ _ _ _ _ _ _ H)) E)
    as (vs' & ps' & acs' & R' & _ & Hc).
  destruct (rep_unique _ _ _ _ _ _ _ R1 R') as (-> & -> & ->).
  assert (EvProposer.pending p = length ps) as EP.
  { unfold EvProposer.pending, proposer_prepared_count, carray_count. destruct R as [_ Rp _]. by rewrite (rep_count _ _ Rp), Nat2Z.id. }
  simpl. rewrite E. simpl. destruct Hc as [(-> & -> & -> & -> & _)|(i & v & q & -> & _ & _ & _ & -> & ->)].
  - eexists _, _. split; [done|]. split; [|done..]. exists (k + 1), vs, ps, acs. split; [done|]. lia.
  - unfold send_accepts. simpl. rewrite (send_peers _ _ _ Hp). simpl in *.
    destruct (IH (set_state st p)) as (p' & o' & -> & HS').
    + split; [|done..]. exists (k + 1), vs1, ps1, (acs ++ [accept_inst v q i]). split; [done|lia].
    + unfold EvProposer.pending, proposer_prepared_count, carray_count. simpl. destruct R1 as [_ Rp _].
      rewrite (rep_count _ _ Rp), Nat2Z.id. lia.
    + simpl. eauto.
Qed.

Lemma preexecute_loop_steady e j i K p :
  (∀ i, in_window t0 (now e i)) → K + 2 * Z.of_nat j < 2 ^ 28 → steady K p →
  ∃ p' o, preexecute_loop e j i p = Ret (p', o) ∧ steady (K + 2 * Z.of_nat j) p'.
Proof using Type.
  intros He. revert K i p. induction j as [|j IH]; intros K i p HK HS.
  { exists p, []. rewrite Z.add_0_r. done. }
  destruct (steady_live _ _ HS) as (k & vs & ps & acs & H & Hk).
  destruct (prepare_lives n pid t0 k (state p) vs ps acs ltac:(lia) H (now e i) (junk e i) (He i))
    as ([st pr] & E & _).
  assert (steady (K + 2) (set_state st p)) as HS'.
  { eapply steady_step; [lia|done|by eapply ps_prepare|]. intros k' vs' ps' acs' Hk' H'.
    destruct (prepare_lives n pid t0 k' (state p) vs' ps' acs' Hk' H' (now e i) (junk e i) (He i)) as (r & E' & L).
    rewrite E in E'. by injection E' as <-. }
  cbn [preexecute_loop]. rewrite E, bind_Ret. cbv beta iota. unfold send_prepares.
  rewrite (send_peers _ _ _ (sd_peers _ _ HS')), bind_Ret. cbv beta.
  destruct (IH (K + 2) (Datatypes.S i) (set_state st p)) as (p' & o' & -> & HS2); [lia|done|].
  rewrite bind_Ret. cbv beta iota. eexists _, _. split; [done|].
  by replace (K + 2 * Z.of_nat (Datatypes.S j)) with (K + 2 + 2 * Z.of_nat j) by lia.
Qed.

Lemma preexecute_steady e K p :
  (∀ i, in_window t0 (now e i)) → K + 2 * W < 2 ^ 28 → steady K p →
  ∃ p' o, proposer_preexecute e p = Ret (p', o) ∧ steady (K + 2 * W) p'.
Proof using W_pos.
  intros He HK HS. unfold proposer_preexecute. rewrite (sd_window _ _ HS).
  destruct (sd_live _ _ HS) as (k & vs & ps & acs & H & Hk & Hlen).
  destruct (pi_rep _ _ _ _ _ (lv_inv _ _ _ _ _ _ _ _ H)) as [_ Rp _].
  unfold proposer_prepared_count, carray_count. rewrite (rep_count _ _ Rp).
  rewrite cint_ok by (unfold INT_MIN, INT_MAX; lia). rewrite bind_Ret. cbv beta. case_Z.
  - eexists _, _. split; [done|]. eapply steady_mono; [exact HS|lia].
  - destruct (preexecute_loop_steady e (Z.to_nat (W - Z.of_nat (length ps))) 0 K p He)
      as (p2 & o2 & -> & HS2); [lia|done|].
    eexists _, _. split; [done|]. eapply steady_mono; [exact HS2|lia].
Qed.

Lemma try_accept_steady e K p :
  (∀ i, in_window t0 (now e i)) → K + 1 + 2 * W < 2 ^ 28 → steady K p →
  ∃ p' o, try_accept e p = Ret (p', o) ∧ steady (K + 1 + 2 * W) p'.
Proof using W_pos.
  intros He HK HS. unfold try_accept.
  destruct (accept_loop_steady K (S (Z.to_nat (proposer_prepared_count (state p)))) p)
    as (p1 & o1 & -> & HS1); [lia|done|unfold EvProposer.pending; lia|].
  rewrite bind_Ret. cbv beta iota.
  destruct (preexecute_steady e (K + 1) p1 He) as (p2 & o2 & -> & HS2); [lia|done|].
  rewrite bind_Ret. cbv beta iota. eauto.
Qed.

Lemma handle_prepare_ack_steady t K p ack :
  in_window t0 t → 0 ≤ pa_acceptor_id ack < n → K + 2 < 2 ^ 28 → steady K p →
  ∃ p' o, proposer_handle_prepare_ack t p ack = Ret (p', o) ∧ steady (K + 2) p'.
Proof using Type.
  intros Ht Hid HK HS. destruct (steady_live _ _ HS) as (k & vs & ps & acs & H & Hk).
  destruct (prepare_ack_lives n pid t0 k (state p) vs ps acs ltac:(lia) H ack t Hid Ht) as ([st o] & E & _).
  assert (steady (K + 2) (set_state st p)) as HS'.
  { eapply steady_step; [lia|done|by apply (ps_prepare_ack any_msg (state p) ack t)|].
    intros k' vs' ps' acs' Hk' H'.
    destruct (prepare_ack_lives n pid t0 k' (state p) vs' ps' acs' Hk' H' ack t Hid Ht) as (r & E' & L).
    rewrite E in E'. by injection E' as <-. }
  unfold proposer_handle_prepare_ack. rewrite E, bind_Ret. cbv beta iota. destruct o as [pr|]; [|eauto].
  unfold send_prepares. rewrite (send_peers _ _ _ (sd_peers _ _ HS')), bind_Ret. eauto.
Qed.

Lemma handle_accept_ack_steady t K p ack :
  in_window t0 t → 0 ≤ aa_acceptor_id ack < n → vote_for pid ack →
  K + 2 < 2 ^ 28 → steady K p →
  ∃ p' o, proposer_handle_accept_ack t p ack = Ret (p', o) ∧ steady (K + 2) p'.
Proof using Type.
  intros Ht Hid Hvb HK HS. destruct (steady_live _ _ HS) as (k & vs & ps & acs & H & Hk).
  destruct (accept_ack_lives n pid t0 k (state p) vs ps acs ltac:(lia) H ack t Hid Hvb Ht)
    as ([st o] & E & _).
  assert (steady (K + 2) (set_state st p)) as HS'.
  { eapply steady_step; [lia|done|by apply (ps_accept_ack any_msg (state p) ack t)|].
    intros k' vs' ps' acs' Hk' H'.
    destruct (accept_ack_lives n pid t0 k' (state p) vs' ps' acs' Hk' H' ack t Hid Hvb Ht) as (r & E' & L).
    rewrite E in E'. by injection E' as <-. }
  unfold proposer_handle_accept_ack. rewrite E, bind_Ret. cbv beta iota. destruct o as [pr|]; [|eauto].
  unfold send_prepares. rewrite (send_peers _ _ _ (sd_peers _ _ HS')), bind_Ret. eauto.
Qed.

Lemma handle_client_steady K p value :
  K + 2 < 2 ^ 28 → steady K p →
  ∃ p', proposer_handle_client_msg p value = Ret p' ∧ steady (K + 2) p'.
Proof using Type.
  intros HK HS. destruct (steady_live _ _ HS) as (k & vs & ps & acs & H & Hk).
  destruct (propose_lives n pid t0 k (state p) vs ps acs ltac:(lia) H value) as (st & E & _).
  unfold proposer_handle_client_msg. rewrite E. simpl. eexists. split; [done|].
  eapply steady_step; [lia|done|by eapply (ps_propose any_msg (state p) value)|].
  intros k' vs' ps' acs' Hk' H'.
  destruct (propose_lives n pid t0 k' (state p) vs' ps' acs' Hk' H' value) as (st' & E' & L).
  rewrite E in E'. by injection E' as <-.
Qed.

Lemma handle_message_steady t e m K p :
  event_ok n pid t0 (NMessage t e m) → K + 3 + 2 * W < 2 ^ 28 → steady K p →
  ∃ p' o, handle_message t e p m = Ret (p', o) ∧ steady (K + 3 + 2 * W) p'.
Proof using W_pos.
  intros (Ht & He & Hm) HK HS. replace (K + 3 + 2 * W) with (K + 2 + 1 + 2 * W) by lia.
  assert (steady (K + 2 + 1 + 2 * W) p) as HS0 by (eapply steady_mono; [exact HS|lia]).
  destruct m as [r|ack|r|ack|iid|v]; simpl in Hm |- *; try (by eexists _, _).
  - destruct (handle_prepare_ack_steady t K p ack Ht Hm) as (p1 & o1 & -> & HS1); [lia|done|].
    rewrite bind_Ret. cbv beta iota.
    destruct (try_accept_steady e (K + 2) p1 He) as (p2 & o2 & -> & HS2); [lia|done|]. simpl. eauto.
  - destruct (handle_accept_ack_steady t K p ack Ht (proj1 Hm) (proj2 Hm)) as (p1 & o1 & -> & HS1);
      [lia|done|]. rewrite bind_Ret. cbv beta iota.
    destruct (try_accept_steady e (K + 2) p1 He) as (p2 & o2 & -> & HS2); [lia|done|]. simpl. eauto.
  - destruct (handle_client_steady K p v) as (p1 & -> & HS1); [lia|done|]. rewrite bind_Ret. cbv beta.
    apply try_accept_steady; [done|lia|done].
Qed.

(** The timeout handler performs no operation that counts. *)
Lemma check_timeouts_steady t K p :
  in_window t0 t → K < 2 ^ 26 → steady K p →
  ∃ p' o, proposer_check_timeouts cfg t p = Ret (p', o) ∧ steady K p'.
Proof using Type.
  intros Ht HK [(k & vs & ps & acs & H & Hk & Hlen) Hp HW]. destruct H as [I Hid B L S F].
  pose proof S as (Sv & Sp & Sa).
  destruct (check_timeouts_ok cfg t n p vs ps acs addrs I) as (p' & E & R');
    [unfold spare in *; unfold indexable; lia..|done| |].
  { eapply Forall_impl; [exact F|]. unfold in_window, clock_fits, INT_MIN, INT_MAX in *. simpl. lia. }
  eexists _, _. split; [exact E|].
  pose proof (check_timeouts_does any_msg cfg t p vs ps acs p' _ (pi_rep _ _ _ _ _ I) E) as D.
  destruct (pinv_intro _ _ _ _ _ I) as [P0 E0].
  assert (bounded (Z.of_nat (Z.to_nat k)) (view (state p))) as B0 by (rewrite Z2Nat.id by lia; by rewrite E0).
  destruct (fun Hn => does_from any_msg n _ p _ p' (Z.to_nat k) P0 B0 Hn D) as (P' & _ & Hid'); [lia|].
  unfold pinv in P'. rewrite (view_rep _ _ _ _ R') in P'. simpl in P'.
  destruct (check_timeouts_frame _ _ _ _ _ E) as (Hnx & S1 & S2 & S3).
  destruct D as (_ & EW & EA & _). split; [|by rewrite EA|by rewrite EW].
  assert (∀ l : list instance, Forall (λ i, in_window t0 (i_created_at i)) l →
    Forall (λ i, in_window t0 (i_created_at i)) (refresh cfg t <$> l)) as Fr.
  { intros l Fl. apply Forall_fmap. eapply Forall_impl; [exact Fl|]. intros i Hi. simpl. unfold refresh.
    by case_match. }
  exists k, vs, (refresh cfg t <$> ps), (refresh cfg t <$> acs).
  rewrite length_fmap. split; [|lia]. split; [done|congruence| |rewrite !length_fmap; lia| |].
  - destruct B as [B1 B2]. split; [simpl in *; lia|]. simpl in *. rewrite <-fmap_app.
    apply Forall_fmap. eapply Forall_impl; [exact B2|]. intros i Hi. simpl. unfold refresh. by case_match.
  - unfold spare3, spare. rewrite S1, S2, S3. done.
  - apply Forall_app in F as [Fp Fa]. apply Forall_app. auto.
Qed.

Lemma run_event_steady ev K p :
  event_ok n pid t0 ev → K + 3 + 2 * W < 2 ^ 26 → steady K p →
  ∃ p' o, run_event cfg ev p = Ret (p', o) ∧ steady (K + 3 + 2 * W) p'.
Proof using W_pos.
  intros He HK HS. destruct ev as [t e m|t]; simpl.
  - apply handle_message_steady; [done|lia|done].
  - destruct (check_timeouts_steady t K p He ltac:(lia) HS) as (p' & o & E & HS').
    eexists _, _. split; [exact E|]. eapply steady_mono; [exact HS'|lia].
Qed.

Lemma run_node_steady evs K p :
  Forall (event_ok n pid t0) evs → K + Z.of_nat (length evs) * (3 + 2 * W) < 2 ^ 26 → steady K p →
  ∃ p' o, run_node cfg evs p = Ret (p', o) ∧ steady (K + Z.of_nat (length evs) * (3 + 2 * W)) p'.
Proof using W_pos.
  intros F. revert K p. induction F as [|ev evs He F IH]; intros K p HK HS; cbn [run_node length] in *.
  { eexists _, _. split; [done|]. by rewrite Z.mul_0_l, Z.add_0_r. }
  rewrite Nat2Z.inj_succ, Z.mul_succ_l in *.
  assert (0 ≤ Z.of_nat (length evs) * (3 + 2 * W)) by (apply Z.mul_nonneg_nonneg; lia).
  destruct (run_event_steady ev K p He ltac:(lia) HS) as (p1 & o1 & -> & HS1). rewrite bind_Ret. cbv beta iota.
  destruct (IH (K + 3 + 2 * W) p1) as (p2 & o2 & -> & HS2); [lia|done|]. simpl. eexists _, _. split; [done|].
  eapply steady_mono; [exact HS2|lia].
Qed.

End node.

(** A steady node has not exhausted its counters. *)
Lemma steady_budget n pid t0 W addrs K p :
  0 ≤ W → 3 * K + 3 + W < 2 ^ 28 → steady n pid t0 W addrs K p → ∃ k0, in_budget k0 p.
Proof.
  intros HW HK [(k & vs & ps & acs & [I _ B L _ _] & Hk & Hlen) _ Ew].
  pose proof (pi_rep _ _ _ _ _ I) as R. pose proof (view_rep _ _ _ _ R) as Ev.
  exists (Z.to_nat k). unfold in_budget. rewrite Ev, Z2Nat.id by lia. split; [exact B|].
  unfold EvProposer.pending, proposer_prepared_count, carray_count. destruct R as [_ Rp _].
  rewrite (rep_count _ _ Rp), Nat2Z.id, Ew. simpl. lia.
Qed.

(** A node that has just started. *)
Lemma new_steady n pid t0 addrs p :
  1 ≤ n ≤ INT_MAX → 0 ≤ pid < MAX_N_OF_PROPOSERS → proposer_new pid n = Ret (state p) →
  peers_ok (acceptors p) addrs → steady n pid t0 (preexec_window p) addrs 0 p.
Proof.
  intros Hn Hid E Hp. destruct (new_lives n pid t0 _ Hn Hid E) as [(vs & ps & acs & H) _].
  split; [|done..]. exists 0, vs, ps, acs. split; [done|]. pose proof (lv_len _ _ _ _ _ _ _ _ H). lia.
Qed.
