(* ===== verification/MemRuns.v ===== *)
(** * The memory of a proposer over its life

The client of [ProposerLife] on the heap: it creates a proposer, makes its
calls, reads and frees the requests it is handed (as evproposer.c does after
sending them), and frees the proposer.  The theorem says that such a program
touches only objects that exist, and gives back all it allocated. *)

From S2P Require Import Prelude Heap Carray Quorum Messages Memory MemCarray MemQueue Proposer.
From S2P Require Import ProposerRun ProposerLife MemProposer MemTimeouts.
#[local] Open Scope Z_scope.

(** ** The client *)

(** [send_prepares(p, req); free(req)] *)
Definition c_send_prepare (r : option loc) : cmdb (list message) :=
  match r with
  | None => mret []
  | Some x => q ← read_as as_prepare_req x; free x ;; mret [MPrepareReq q]
  end.

(** [send_accepts(p, req); free(req)] *)
Definition c_send_accept (r : option loc) : cmdb (list message) :=
  match r with
  | None => mret []
  | Some x => q ← read_as as_accept_req x; free x ;; mret [MAcceptReq q]
  end.

Section client.
Context (cfg : paxos_config).

Definition c_client : Type := loc * option loc.

Definition c_run_call (c : call) (s : c_client) : cmdb (c_client * list message) :=
  let '(p, it) := s in
  match c with
  | CPropose value => c_proposer_propose p value ;; mret ((p, it), [])
  | CPrepare now junk => out ← c_proposer_prepare p now junk; mret ((p, it), [MPrepareReq out])
  | CPrepareAck ack now =>
      out ← c_proposer_receive_prepare_ack p ack now;
      mret ((p, it), reply_prepare out)
  | CAccept =>
      r ← c_proposer_accept p;
      out ← c_send_accept r;
      mret ((p, it), out)
  | CAcceptAck ack now =>
      out ← c_proposer_receive_accept_ack p ack now;
      mret ((p, it), reply_prepare out)
  | CIterator now => iter ← c_proposer_timeout_iterator p now; mret ((p, Some iter), [])
  | CIterPrepare =>
      iter ← pureC (deref it);
      r ← c_timeout_iterator_prepare cfg iter;
      out ← c_send_prepare r;
      mret ((p, Some iter), out)
  | CIterAccept =>
      iter ← pureC (deref it);
      r ← c_timeout_iterator_accept cfg iter;
      out ← c_send_accept r;
      mret ((p, Some iter), out)
  | CIterFree =>
      iter ← pureC (deref it);
      c_timeout_iterator_free iter ;;
      mret ((p, None), [])
  end.

Fixpoint c_run_calls (cs : list call) (s : c_client) : cmdb (c_client * list message) :=
  match cs with
  | [] => mret (s, [])
  | c :: cs' =>
      r ← c_run_call c s;
      r' ← c_run_calls cs' r.1;
      mret (r'.1, r.2 ++ r'.2)
  end.

Definition c_lifetime (id acceptors : Z) (cs : list call) : cmdb (list message) :=
  p ← c_proposer_new id acceptors;
  r ← c_run_calls cs (p, None);
  c_proposer_free r.1.1 ;;
  mret r.2.

(** ** Its memory *)

Definition at_iter (l : loc) (it : option loc) (iter : option timeout_iterator) : mprop :=
  match it, iter with
  | Some x, Some t => at_iterator x l t
  | None, None => emp
  | _, _ => False
  end%I.

Definition at_client (c : c_client) (s : client) : mprop :=
  (at_iter c.1 c.2 s.2 ∗ at_proposer c.1 s.1)%I.

Lemma c_send_prepare_ok r out :
  at_prepare_req r out ⊢ wp (c_send_prepare r) (λ ms, <affine> ⌜ms = reply_prepare out⌝).
Proof.
  iIntros "H". destruct r as [x|], out as [q|]; simpl; try iDestruct "H" as %[].
  - wp_rd "H". wp_fr "H". by iApply wp_ret.
  - by iApply wp_ret.
Qed.

Lemma c_send_accept_ok r out :
  at_request r out ⊢ wp (c_send_accept r) (λ ms, <affine> ⌜ms = reply_accept out⌝).
Proof.
  iIntros "H". destruct r as [x|], out as [q|]; simpl; try iDestruct "H" as %[].
  - wp_rd "H". wp_fr "H". by iApply wp_ret.
  - by iApply wp_ret.
Qed.

(** The accept queue of a live client has distinct keys. *)
Lemma lively_unique n id t0 k s :
  lively n id t0 k s →
  ∃ acs, carray_rep (p_accept_instances s.1) acs ∧ NoDup (i_iid <$> acs).
Proof.
  intros [(vs & ps & acs & [I _ _ _ _ _]) _]. exists acs. split; [apply I|].
  pose proof (pi_unique _ _ _ _ _ I) as U. rewrite fmap_app in U. by apply NoDup_app in U as (_ & _ & U).
Qed.

Lemma c_run_call_ok n id t0 k c cs s s' out o :
  lively n id t0 k s → iter_after (has_iter s) c = Some o → run_call cfg c s = Ret (s', out) →
  at_client cs s ⊢ wp (c_run_call c cs) (λ r, <affine> ⌜r.2 = out⌝ ∗ at_client r.1 s').
Proof.
  iIntros (L Ho E) "[Hit Hp]". destruct s as [p iter], cs as [l it]. unfold at_client. simpl.
  destruct (lively_unique _ _ _ _ _ L) as (acs & R & U). destruct L as [_ Hiter]. simpl in *.
  destruct c as [value|now junk|ack now| |ack now|now| | |]; simpl in *.
  - inv_binds. wp_call c_proposer_propose_ok with "[Hp]". iIntros (_) "Hp". iApply wp_ret. by iFrame.
  - inv_binds. wp_call c_proposer_prepare_ok with "[Hp]". iIntros (r) "[-> Hp]". iApply wp_ret. by iFrame.
  - inv_binds. wp_call c_receive_prepare_ack_ok with "[Hp]". iIntros (r) "[-> Hp]". iApply wp_ret. by iFrame.
  - inv_binds. wp_call c_proposer_accept_ok with "[Hp]". iIntros (r) "[Hr Hp]".
    wp_call c_send_accept_ok with "[Hr]". iIntros (ms) "->". iApply wp_ret. by iFrame.
  - inv_binds. wp_call (c_receive_accept_ack_ok _ _ _ _ _ _ _ R U) with "[Hp]".
    iIntros (r) "[-> Hp]". iApply wp_ret. by iFrame.
  - destruct iter as [iter|]; [done|]. destruct it as [x|]; [by iDestruct "Hit" as %[]|]. inv_binds.
    unfold c_proposer_timeout_iterator. wp_new x "Hx". iApply wp_ret. by iFrame.
  - destruct iter as [iter|]; [|done]. destruct it as [x|]; [|by iDestruct "Hit" as %[]].
    destruct (Hiter iter eq_refl) as (Hpi & _ & _). inv_binds. injection E0 as ->. wp_p. simpl. clear R U.
    wp_unbind. iApply (wp_wand with "[Hit Hp]").
    { iApply c_timeout_prepare_ok; [exact Hpi|exact E1|]. iFrame. }
    iIntros (req) "(Hr & Hit & Hp)". wp_call c_send_prepare_ok with "[Hr]". iIntros (ms) "->".
    iApply wp_ret. by iFrame.
  - destruct iter as [iter|]; [|done]. destruct it as [x|]; [|by iDestruct "Hit" as %[]].
    destruct (Hiter iter eq_refl) as (_ & Hai & _). inv_binds. injection E0 as ->. wp_p. simpl. clear R U.
    wp_unbind. iApply (wp_wand with "[Hit Hp]").
    { iApply c_timeout_accept_ok; [exact Hai|exact E1|]. iFrame. }
    iIntros (req) "(Hr & Hit & Hp)". wp_call c_send_accept_ok with "[Hr]". iIntros (ms) "->".
    iApply wp_ret. by iFrame.
  - destruct iter as [iter|]; [|done]. destruct it as [x|]; [|by iDestruct "Hit" as %[]]. inv_binds.
    wp_p. unfold c_timeout_iterator_free. simpl. unfold at_iterator. wp_fr "Hit". iApply wp_ret. by iFrame.
Qed.

Lemma c_run_calls_ok n id t0 k cs l s s' out :
  0 ≤ k → k + Z.of_nat (length cs) < 2 ^ 28 → lively n id t0 k s → Forall (call_ok n id t0) cs →
  iterators_closed (has_iter s) cs = true → run_calls cfg cs s = Ret (s', out) →
  at_client l s ⊢ wp (c_run_calls cs l) (λ r, <affine> ⌜r.2 = out⌝ ∗ at_client r.1 s').
Proof.
  intros Hk0. revert k Hk0 l s out. induction cs as [|c cs IH]; intros k Hk0 l s out Hk L F Hc E; simpl in *.
  { inv_binds. iIntros "H". iApply wp_ret. by iFrame. }
  apply Forall_cons in F as [Fc F]. destruct (iter_after (has_iter s) c) as [o|] eqn:Eo; [|done].
  destruct (call_lives cfg n id t0 k c s o ltac:(lia) L Fc Eo) as (s1 & o1 & E1 & L1 & Ei).
  apply bind_inv in E as ([s2 o2] & E2 & E). rewrite E1 in E2. injection E2 as <- <-.
  apply bind_inv in E as ([s3 o3] & E3 & E). injection E as <- <-. iIntros "H".
  wp_call (c_run_call_ok _ _ _ _ _ _ _ _ _ _ L Eo E1) with "[H]". iIntros (r) "[-> H]".
  wp_unbind. iApply (wp_wand with "[H]").
  { iApply (IH (k + 1) ltac:(lia) _ s1 o3 ltac:(lia) L1 F); [by rewrite Ei|exact E3|done]. }
  iIntros (r') "[-> H]". iApply wp_ret. by iFrame.
Qed.

End client.

(** ** Properties *)

(** C11: a proposer's memory is safe over its whole life.  Any program that creates a
proposer, makes fewer than 2^28 calls of its operations and its timeout
iterators, freeing the requests and iterators it gets, and frees it, returns
without a fault (no assertion fails; no object is used after it was freed, or
freed twice; no access is out of bounds), sends what the value model sends, and
leaves the heap as it found it: nothing leaks, and no other object of the heap
is touched.  Acknowledgements name acceptors of the configuration, and the
clock stays within 2000 seconds. *)
Theorem proposer_memory_safe cfg id n t0 cs h :
  1 ≤ n ≤ INT_MAX → 0 ≤ id < MAX_N_OF_PROPOSERS → Z.of_nat (length cs) < 2 ^ 28 →
  Forall (call_ok n id t0) cs → iterators_closed false cs = true →
  ∃ p0 p out, proposer_new id n = Ret p0 ∧ run_calls cfg cs (p0, None) = Ret ((p, None), out) ∧
    c_lifetime cfg id n cs h = Ret (out, h).
Proof.
  intros Hn Hid Hl F Hc.
  assert (∃ p0, proposer_new id n = Ret p0) as [p0 E0] by (unfold proposer_new; simpl; eauto).
  pose proof (new_lives n id t0 p0 Hn Hid E0) as L0.
  destruct (calls_live cfg n id t0 0 cs (p0, None) ltac:(lia) ltac:(lia) L0 F Hc) as (p & out & E & L).
  exists p0, p, out. split; [done|]. split; [done|].
  destruct (wp_closed (c_lifetime cfg id n cs) (λ r, r = out) h) as (r & Er & ->); [|done].
  iIntros "_". unfold c_lifetime. wp_call (c_proposer_new_ok _ _ _ E0) with "[]". iIntros (l) "Hl".
  wp_unbind. iApply (wp_wand with "[Hl]").
  { iApply (c_run_calls_ok cfg n id t0 0 cs (l, None) (p0, None)); [lia|lia|done..|].
    unfold at_client. simpl. iFrame. }
  iIntros ([[l' it'] ms]) "[%Ems [Hit Hp]]". simpl in *. subst ms.
  destruct (lively_indexable _ _ _ _ _ L) as (Xv & Xp & Xa).
  wp_unbind. iApply (wp_wand with "[Hp]").
  { by iApply c_proposer_free_ok. }
  iIntros (_) "_". iApply wp_ret. destruct it'; [by iDestruct "Hit" as %[]|]. by iFrame.
Qed.

(** A value proposed and decided, with an iterator over the pending request. *)
Definition demo_calls : list call :=
  [CPropose [x41]; CPrepare at_zero (λ _, 7); CPrepareAck demo_ack0 at_zero;
   CPrepareAck demo_ack1 at_zero; CAccept; CIterator (Timeval 2 0); CIterPrepare; CIterAccept;
   CIterAccept; CIterFree; CAcceptAck (AcceptAck 2 1 11 11 0 [x42]) at_zero;
   CAcceptAck (AcceptAck 0 1 11 11 0 [x42]) at_zero].

Lemma proposer_memory_safe_witness :
  c_lifetime default_config 1 3 demo_calls ∅ =
  Ret ([MPrepareReq (PrepareReq 1 11); MAcceptReq (AcceptReq 1 11 [x42]);
        MAcceptReq (AcceptReq 1 11 [x42])], ∅).
Proof.
  destruct (proposer_memory_safe default_config 1 3 0 demo_calls ∅) as (p0 & p & out & E0 & E & H).
  - unfold INT_MAX. lia.
  - unfold MAX_N_OF_PROPOSERS. lia.
  - by vm_compute.
  - unfold demo_calls, in_window. repeat (apply Forall_cons_2; [by vm_compute|]). by apply Forall_nil_2.
  - reflexivity.
  - rewrite demo_new in E0. injection E0 as <-. rewrite H. f_equal.
    apply (f_equal (from_ret ((p, None), []))) in E. vm_compute in E. by injection E as _ <-.
Defined.
