(* ===== verification/MemLearner.v ===== *)
(** * The learner in memory (src/paxos/learner.c)

The functions of learner.c on a heap.  An instance has an array of pointers to
the acknowledgements it stores, [NULL] for an acceptor that has not been heard;
its [final_value] points to one of the stored acknowledgements, so an
acknowledgement that becomes the final value must not be replaced or freed
while the instance is in use.  In [Learner] the final value is a copy;
[at_linst] says that the pointers agree with it, and each function keeps this. *)

From S2P Require Import Prelude Heap Carray Quorum Messages Memory MemCarray MemQueue Learner.
#[local] Open Scope Z_scope.

(** ** Instances *)

Definition c_set_fields (inst : loc) (iid ballot : Z) : cmdb () :=
  i ← read_as as_linstance inst;
  write inst (BLInstance (CLInstance iid ballot (cl_acks i) (cl_final_value i))).

Definition c_set_final (inst : loc) (v : option loc) : cmdb () :=
  i ← read_as as_linstance inst;
  write inst (BLInstance (CLInstance (cl_iid i) (cl_last_update_ballot i) (cl_acks i) v)).

(** [inst->acks[i]] *)
Definition c_ack_at (inst : loc) (i : Z) : cmdb (option loc) :=
  s ← read_as as_linstance inst;
  l ← read_as as_acks (cl_acks s);
  x ← pureC (arr_get l i);
  pureC (read_slot x).

Definition c_set_ack (inst : loc) (i : Z) (p : option loc) : cmdb () :=
  s ← read_as as_linstance inst;
  l ← read_as as_acks (cl_acks s);
  l ← pureC (arr_set l i (Some p));
  write (cl_acks s) (BAcks l).

Definition c_linstance_clear (inst : loc) (acceptors : Z) : cmdb () :=
  c_set_fields inst 0 0 ;;
  cfor_to acceptors (λ i _,
    p ← c_ack_at inst i;
    match p with
    | Some q => free q ;; c_set_ack inst i None
    | None => mret tt
    end) tt ;;
  c_set_final inst None.

Definition c_linstance_new (acceptors : Z) : cmdb loc :=
  acks ← alloc (BAcks (replicate (Z.to_nat acceptors) None));
  inst ← alloc (BLInstance (CLInstance 0 0 acks None));
  cfor_to acceptors (λ i _, c_set_ack inst i None) tt ;;
  mret inst.

Definition c_linstance_free (inst : loc) (acceptors : Z) : cmdb () :=
  c_linstance_clear inst acceptors ;;
  i ← read_as as_linstance inst;
  free (cl_acks i) ;;
  free inst.

(** The loop of [instance_has_quorum]. *)
Fixpoint c_count_acks (n : nat) (i : Z) (inst : loc) (ballot acceptors : Z) (count idx : Z)
    : cmdb (Z * Z) :=
  match n with
  | O => mret (count, idx)
  | S n' =>
      p ← c_ack_at inst i;
      match p with
      | None => c_count_acks n' (i + 1) inst ballot acceptors count idx
      | Some q =>
          ack ← read_as as_ack q;
          if aa_ballot ack =? ballot then
            if negb (aa_is_final ack =? 0) then mret (count + 1 + acceptors, i)
            else c_count_acks n' (i + 1) inst ballot acceptors (count + 1) i
          else c_count_acks n' (i + 1) inst ballot acceptors count idx
      end
  end.

Definition c_instance_has_quorum (l inst : loc) : cmdb bool :=
  i ← read_as as_linstance inst;
  match cl_final_value i with
  | Some _ => mret true
  | None =>
      s ← read_as as_learner l;
      r ← c_count_acks (Z.to_nat (cr_acceptors s)) 0 inst (cl_last_update_ballot i)
            (cr_acceptors s) 0 (-1);
      if cr_quorum s <=? r.1 then
        v ← c_ack_at inst r.2;
        c_set_final inst v ;;
        mret true
      else mret false
  end.

Definition c_instance_add_accept (inst : loc) (ack : accept_ack) : cmdb () :=
  new_ack ← alloc (BAck ack);
  c_set_ack inst (aa_acceptor_id ack) (Some new_ack) ;;
  i ← read_as as_linstance inst;
  c_set_fields inst (cl_iid i) (aa_ballot ack).

(** ** The learner *)

Definition c_learner_get_instance (l : loc) (iid : Z) : cmdb loc :=
  s ← read_as as_learner l;
  x ← c_carray_at (cr_instances s) (to_int iid);
  inst ← pureC (deref x);
  i ← read_as as_linstance inst;
  pureC (assert_that ((cl_iid i =? iid) || (cl_iid i =? 0))) ;;
  mret inst.

Definition c_learner_get_current_instance (l : loc) : cmdb loc :=
  s ← read_as as_learner l;
  c_learner_get_instance l (cr_current_iid s).

Definition c_learner_update_instance (l : loc) (ack : accept_ack) : cmdb () :=
  inst ← c_learner_get_instance l (aa_iid ack);
  i ← read_as as_linstance inst;
  (if cl_iid i =? 0 then c_set_fields inst (aa_iid ack) (aa_ballot ack) else mret tt) ;;
  i ← read_as as_linstance inst;
  pureC (assert_that (cl_iid i =? aa_iid ack)) ;;
  closed ← c_instance_has_quorum l inst;
  if (closed : bool) then mret tt
  else
    prev ← c_ack_at inst (aa_acceptor_id ack);
    match prev with
    | None => c_instance_add_accept inst ack
    | Some prev_ack =>
        prev ← read_as as_ack prev_ack;
        if aa_ballot ack <=? aa_ballot prev then mret tt
        else free prev_ack ;; c_instance_add_accept inst ack
    end.

Definition c_set_current (l : loc) (iid : Z) : cmdb () :=
  s ← read_as as_learner l;
  write l (BLearner (CLearner (cr_quorum s) (cr_acceptors s) (cr_late_start s) iid
    (cr_highest_iid_seen s) (cr_highest_iid_closed s) (cr_instances s))).
Definition c_set_late_start (l : loc) (b : Z) : cmdb () :=
  s ← read_as as_learner l;
  write l (BLearner (CLearner (cr_quorum s) (cr_acceptors s) b (cr_current_iid s)
    (cr_highest_iid_seen s) (cr_highest_iid_closed s) (cr_instances s))).
Definition c_set_seen (l : loc) (iid : Z) : cmdb () :=
  s ← read_as as_learner l;
  write l (BLearner (CLearner (cr_quorum s) (cr_acceptors s) (cr_late_start s) (cr_current_iid s)
    iid (cr_highest_iid_closed s) (cr_instances s))).
Definition c_set_closed (l : loc) (iid : Z) : cmdb () :=
  s ← read_as as_learner l;
  write l (BLearner (CLearner (cr_quorum s) (cr_acceptors s) (cr_late_start s) (cr_current_iid s)
    (cr_highest_iid_seen s) iid (cr_instances s))).

Definition c_learner_deliver_next (l : loc) : cmdb (option loc) :=
  inst ← c_learner_get_current_instance l;
  closed ← c_instance_has_quorum l inst;
  if (closed : bool) then
    i ← read_as as_linstance inst;
    v ← pureC (deref (cl_final_value i));
    final ← read_as as_ack v;
    ack ← alloc (BAck final);
    s ← read_as as_learner l;
    c_linstance_clear inst (cr_acceptors s) ;;
    c_set_current l (u32 (cr_current_iid s + 1)) ;;
    mret (Some ack)
  else mret None.

Definition c_learner_receive_accept (l : loc) (ack : accept_ack) : cmdb () :=
  s ← read_as as_learner l;
  (if negb (cr_late_start s =? 0)
   then c_set_late_start l 0 ;; c_set_current l (aa_iid ack) else mret tt) ;;
  s ← read_as as_learner l;
  (if cr_highest_iid_seen s <? aa_iid ack then c_set_seen l (aa_iid ack) else mret tt) ;;
  s ← read_as as_learner l;
  if aa_iid ack <? cr_current_iid s then mret tt
  else
    sz ← c_carray_size (cr_instances s);
    if u32 (cr_current_iid s + sz) <=? aa_iid ack then mret tt
    else
      c_learner_update_instance l ack ;;
      inst ← c_learner_get_instance l (aa_iid ack);
      closed ← c_instance_has_quorum l inst;
      s ← read_as as_learner l;
      i ← read_as as_linstance inst;
      if (closed : bool) && (cr_highest_iid_closed s <? cl_iid i)
      then c_set_closed l (cl_iid i) else mret tt.

Definition c_initialize_instances (acceptors count : Z) : cmdb loc :=
  c ← c_carray_new count;
  sz ← c_carray_size c;
  cfor_to sz (λ _ _,
    inst ← c_linstance_new acceptors;
    c_carray_push_back c inst) tt ;;
  mret c.

Definition c_learner_has_holes (l : loc) : cmdb (option (Z * Z)) :=
  s ← read_as as_learner l;
  n ← c_carray_count (cr_instances s);
  mret (if u32 (cr_current_iid s + n) <? cr_highest_iid_seen s
        then Some (cr_current_iid s, cr_highest_iid_seen s)
        else if cr_current_iid s <? cr_highest_iid_closed s
        then Some (cr_current_iid s, cr_highest_iid_closed s)
        else None).

Definition c_learner_new (cfg : paxos_config) (acceptors : Z) : cmdb loc :=
  c ← c_initialize_instances acceptors (learner_instances cfg);
  alloc (BLearner (CLearner (paxos_quorum acceptors) acceptors
    (cbool (learner_catch_up cfg =? 0)) 1 1 1 c)).

Definition c_learner_free (l : loc) : cmdb () :=
  s ← read_as as_learner l;
  (n ← c_carray_count (cr_instances s);
   cfor_to n (λ i _, x ← c_carray_at (cr_instances s) i; v ← pureC (deref x);
                     c_linstance_free v (cr_acceptors s)) tt ;;
   c_carray_free (cr_instances s)) ;;
  free l.

(** ** The memory of a learner *)

(** A stored acknowledgement, or [NULL]. *)
Definition at_slot (p : option loc) (a : option accept_ack) : mprop :=
  match p, a with
  | Some x, Some a => x ↦ BAck a
  | None, None => emp
  | _, _ => False
  end%I.

Definition slots (ptrs : list (option loc)) (acks : list (option accept_ack)) : mprop :=
  ([∗ list] p;a ∈ ptrs;acks, at_slot p a)%I.

(** [final_value] is [NULL], or one of the stored pointers. *)
Definition final_of (ptrs : list (option loc)) (acks : list (option accept_ack))
    (fin : option loc) (v : option accept_ack) : Prop :=
  match fin, v with
  | Some q, Some a => ∃ k, ptrs !! k = Some (Some q) ∧ acks !! k = Some (Some a)
  | None, None => True
  | _, _ => False
  end.

(** An instance whose fields are given, and one that is the value [i]. *)
Definition at_lbody (x : loc) (iid ballot : Z) (fin : option loc) (ptrs : list (option loc))
    (acks : list (option accept_ack)) : mprop :=
  (∃ arr, x ↦ BLInstance (CLInstance iid ballot arr fin) ∗ arr ↦ BAcks (Some <$> ptrs) ∗
     slots ptrs acks)%I.

Definition at_linst (x : loc) (i : linstance) : mprop :=
  (∃ ptrs fin, at_lbody x (li_iid i) (li_last_update_ballot i) fin ptrs (li_acks i) ∗
     <affine> ⌜final_of ptrs (li_acks i) fin (li_final_value i)⌝)%I.

Definition learner_struct (l : learner) (c : loc) : c_learner :=
  CLearner (l_quorum l) (l_acceptors l) (l_late_start l) (l_current_iid l)
    (l_highest_iid_seen l) (l_highest_iid_closed l) c.

Definition at_learner (x : loc) (l : learner) : mprop :=
  (∃ c, x ↦ BLearner (learner_struct l c) ∗ queue at_linst c (l_instances l))%I.

Section linstances.
Implicit Types (x : loc) (fin : option loc) (ptrs : list (option loc))
  (acks : list (option accept_ack)).

(** ** Fields *)

Lemma c_set_fields_ok x iid b fin ptrs acks iid' b' :
  at_lbody x iid b fin ptrs acks ⊢ wp (c_set_fields x iid' b') (λ _, at_lbody x iid' b' fin ptrs acks).
Proof. iIntros "(%arr & Hx & Ha)". unfold c_set_fields. wp_rd "Hx". wp_wr "Hx". iExists arr. iFrame. Qed.

Lemma c_set_final_ok x iid b fin ptrs acks v :
  at_lbody x iid b fin ptrs acks ⊢ wp (c_set_final x v) (λ _, at_lbody x iid b v ptrs acks).
Proof. iIntros "(%arr & Hx & Ha)". unfold c_set_final. wp_rd "Hx". wp_wr "Hx". iExists arr. iFrame. Qed.

Lemma slots_lookup ptrs acks k a :
  acks !! k = Some a → slots ptrs acks ⊢ ∃ p, <affine> ⌜ptrs !! k = Some p⌝ ∗ slots ptrs acks.
Proof.
  iIntros (Ha) "H". unfold slots. iDestruct (big_sepL2_length with "H") as %Hl.
  destruct (lookup_lt_is_Some_2 ptrs k) as [p Hp]; [rewrite Hl; by eapply lookup_lt_Some|].
  iExists p. by iFrame.
Qed.

(** [NULL] stands for no acknowledgement. *)
Definition same_slot (p : option loc) (a : option accept_ack) : Prop :=
  match p, a with Some _, Some _ | None, None => True | _, _ => False end.

Lemma slots_same ptrs acks k p a :
  ptrs !! k = Some p → acks !! k = Some a → slots ptrs acks ⊢ ⌜same_slot p a⌝.
Proof.
  iIntros (Hp Ha) "H". unfold slots. iDestruct (big_sepL2_lookup_acc with "H") as "[H _]"; [done..|].
  by destruct p, a.
Qed.

Lemma slots_acc ptrs acks k p a :
  ptrs !! k = Some p → acks !! k = Some a →
  slots ptrs acks ⊢ at_slot p a ∗
    (∀ p' a', at_slot p' a' -∗ slots (<[k := p']> ptrs) (<[k := a']> acks)).
Proof. iIntros (Hp Ha) "H". iApply (big_sepL2_insert_acc with "H"); done. Qed.

Lemma slots_acc_same ptrs acks k p a :
  ptrs !! k = Some p → acks !! k = Some a →
  slots ptrs acks ⊢ at_slot p a ∗ (at_slot p a -∗ slots ptrs acks).
Proof.
  iIntros (Hp Ha) "H". iDestruct (slots_acc with "H") as "[$ H]"; [done..|].
  iIntros "Hp". iSpecialize ("H" with "Hp"). by rewrite !list_insert_id.
Qed.

Lemma c_ack_at_ok x iid b fin ptrs acks i a :
  arr_get acks i = Ret a →
  at_lbody x iid b fin ptrs acks ⊢ wp (c_ack_at x i) (λ p,
    <affine> ⌜0 ≤ i ∧ ptrs !! Z.to_nat i = Some p ∧ acks !! Z.to_nat i = Some a ∧ same_slot p a⌝ ∗
    at_lbody x iid b fin ptrs acks).
Proof.
  iIntros (E) "(%arr & Hx & Ha & Hs)". apply arr_get_inv in E as [Hi Hl].
  iDestruct (slots_lookup with "Hs") as "(%p & %Hp & Hs)"; [exact Hl|].
  iDestruct (slots_same with "Hs") as %Hsame; [exact Hp|exact Hl|]. unfold c_ack_at. wp_rd "Hx". simpl. wp_rd "Ha".
  assert (arr_get (Some <$> ptrs) i = Ret (Some p)) as E.
  { apply arr_get_ok; [lia|]. by rewrite list_lookup_fmap Hp. }
  wp_pure E. iApply wp_pureC; [done|]. iSplitR; [done|]. iExists arr. iFrame.
Qed.

(** Writing a slot whose acknowledgement, if any, has been taken out. *)
Lemma c_set_ack_ok x iid b fin arr (l l' : list (option (option loc))) i p :
  arr_set l i (Some p) = Ret l' →
  x ↦ BLInstance (CLInstance iid b arr fin) ∗ arr ↦ BAcks l ⊢ wp (c_set_ack x i p) (λ _,
    x ↦ BLInstance (CLInstance iid b arr fin) ∗ arr ↦ BAcks l').
Proof. iIntros (E) "[Hx Ha]". unfold c_set_ack. wp_rd "Hx". simpl. wp_rd "Ha". wp_p. wp_wr "Ha". iFrame. Qed.

(** Replacing the acknowledgement of a slot: by one that was just allocated, or
by [NULL]. *)
Lemma c_replace_ack_ok x iid b fin ptrs acks i p a :
  0 ≤ i → ptrs !! Z.to_nat i = Some p → acks !! Z.to_nat i = Some a →
  at_lbody x iid b fin ptrs acks ⊢
  at_slot p a ∗ (∀ q c (Φ : () → mprop), at_slot q c -∗
    (at_lbody x iid b fin (<[Z.to_nat i := q]> ptrs) (<[Z.to_nat i := c]> acks) -∗ Φ tt) -∗
    wp (c_set_ack x i q) Φ).
Proof.
  iIntros (Hi Hp Ha) "(%arr & Hx & Harr & Hs)".
  iDestruct (slots_acc with "Hs") as "[$ Hs]"; [done..|]. iIntros (q c Φ) "Hq HΦ".
  iApply (wp_wand with "[Hx Harr]").
  { iApply (c_set_ack_ok _ _ _ _ _ _ (Some <$> <[Z.to_nat i := q]> ptrs)); [|iFrame].
    rewrite list_fmap_insert. apply arr_set_ok. rewrite length_fmap.
    apply lookup_lt_Some in Hp. lia. }
  iIntros ([]) "[Hx Harr]". iApply "HΦ". iExists arr. iFrame. by iApply "Hs".
Qed.

(** ** Instances *)

Lemma c_linstance_clear_ok x i acceptors i' :
  linstance_clear i acceptors = Ret i' →
  at_linst x i ⊢ wp (c_linstance_clear x acceptors) (λ _, at_linst x i').
Proof.
  iIntros (E) "(%ptrs & %fin & Hx & _)". unfold linstance_clear in E.
  apply bind_inv in E as (acks & E & [= <-]). unfold c_linstance_clear.
  wp_call c_set_fields_ok with "[Hx]". iIntros (_) "Hx".
  wp_unbind. iApply (wp_wand with "[Hx]").
  { iApply (wp_for_to_sim (λ _ acks (_ : ()), ∃ ptrs, at_lbody x 0 0 fin ptrs acks)%I); [|exact E|by iExists ptrs].
    iIntros (k a1 a2 _ _ Eb) "(%ptrs1 & Hx)". apply bind_inv in Eb as (a & Ea & Eb).
    wp_call c_ack_at_ok with "[Hx]". iIntros (p) "[%Hp Hx]". destruct Hp as (Hk & Hp & Hl & Hs).
    destruct p as [q|], a as [ack|]; try done; [|inv_binds; iApply wp_ret; by iExists _].
    iDestruct (c_replace_ack_ok with "Hx") as "[Hq H]"; [done..|].
    simpl. wp_fr "Hq". iApply ("H" $! None None); [done|]. iIntros "Hx". apply arr_set_inv in Eb as [_ ->]. by iExists _. }
  iIntros (_) "(%ptrs1 & Hx)". iApply (wp_wand with "[Hx]"); [by iApply c_set_final_ok|].
  iIntros (_) "Hx". iExists ptrs1, None. by iFrame.
Qed.

(** Slots without acknowledgements own nothing. *)
Lemma slots_none ptrs acks : (∀ j a, acks !! j ≠ Some (Some a)) → slots ptrs acks ⊢ emp.
Proof.
  intros Hc. unfold slots. revert ptrs. induction acks as [|a acks IH]; intros [|p ptrs]; simpl;
    try (iIntros "H"; by iDestruct "H" as %[]); [done|].
  destruct a as [a|]; [by destruct (Hc 0%nat a)|]. rewrite IH; [|intros j a'; apply (Hc (S j) a')].
  iIntros "[Hp _]". destruct p; [by iDestruct "Hp" as %[]|done].
Qed.

Lemma slots_empty k : ⊢ slots (replicate k None) (replicate k None).
Proof. unfold slots. induction k as [|k IH]; simpl; [done|]. iSplitR; [done|]. iApply IH. Qed.

Lemma c_linstance_free_ok x i acceptors :
  Z.of_nat (length (li_acks i)) = acceptors →
  at_linst x i ⊢ wp (c_linstance_free x acceptors) (λ _, emp).
Proof.
  iIntros (Hn) "Hx". destruct (clear_all i acceptors Hn) as (i' & E & Hl & Hc & _).
  unfold c_linstance_free. wp_call (c_linstance_clear_ok _ _ _ _ E) with "[Hx]".
  iIntros (_) "(%ptrs & %fin & (%arr & Hx & Ha & Hs) & _)". wp_rd "Hx". simpl. wp_fr "Ha".
  wp_fr "Hx". by iApply (slots_none with "Hs").
Qed.

Lemma c_linstance_new_ok acceptors :
  0 ≤ acceptors → ⊢ wp (c_linstance_new acceptors) (λ x, at_linst x (linstance_new acceptors)).
Proof.
  iIntros (Hn). unfold c_linstance_new. wp_new arr "Ha". wp_new x "Hx". wp_unbind.
  iApply (wp_wand with "[Ha Hx]").
  { iApply (wp_for_to (λ k _, x ↦ BLInstance (CLInstance 0 0 arr None) ∗
      arr ↦ BAcks (replicate (Z.to_nat k) (Some None) ++ replicate (Z.to_nat (acceptors - k)) None))%I);
      [done| |rewrite Z.sub_0_r; iFrame].
    iIntros (k _ Hk) "H". iApply (c_set_ack_ok with "H").
    rewrite arr_set_ok; [|rewrite length_app !length_replicate; lia].
    f_equal. replace (Z.to_nat (acceptors - k)) with (S (Z.to_nat (acceptors - (k + 1)))) by lia.
    simpl. rewrite insert_app_r_alt; [|rewrite length_replicate; lia].
    rewrite length_replicate Nat.sub_diag. simpl.
    replace (Z.to_nat (k + 1)) with (Z.to_nat k + 1)%nat by lia. rewrite replicate_add. simpl.
    by rewrite -app_assoc. }
  iIntros (_) "[Hx Ha]". iApply wp_ret. rewrite Z.sub_diag app_nil_r.
  iExists (replicate (Z.to_nat acceptors) None), None. iSplitL; [|done]. iExists arr. simpl.
  iFrame "Hx". rewrite fmap_replicate. iFrame. iApply slots_empty.
Qed.

Lemma c_count_acks_ok x iid b fin ptrs acks n i ballot acceptors count idx r :
  count_acks n i acks ballot acceptors count idx = Ret r →
  at_lbody x iid b fin ptrs acks ⊢ wp (c_count_acks n i x ballot acceptors count idx) (λ r',
    <affine> ⌜r' = r⌝ ∗ at_lbody x iid b fin ptrs acks).
Proof.
  revert i count idx. induction n as [|n IH]; intros i count idx E; simpl in *.
  { inv_binds. iIntros "Hx". iApply wp_ret. by iFrame. }
  apply bind_inv in E as (a & Ea & E). iIntros "Hx". wp_call c_ack_at_ok with "[Hx]".
  iIntros (p) "[%Hp (%arr & Hx & Ha & Hs)]". destruct Hp as (Hi & Hp & Hl & Hsame).
  destruct p as [q|], a as [ack|]; try done.
  - iDestruct (slots_acc_same with "Hs") as "[Hq Hs]"; [exact Hp|exact Hl|]. simpl. wp_rd "Hq".
    iDestruct ("Hs" with "Hq") as "Hs".
    iAssert (at_lbody x iid b fin ptrs acks) with "[Hx Ha Hs]" as "Hx"; [iExists arr; iFrame|].
    destruct (aa_ballot ack =? ballot); [|by iApply IH].
    destruct (negb (aa_is_final ack =? 0)); [|by iApply IH].
    inv_binds. iApply wp_ret. by iFrame.
  - iApply IH; [done|]. iExists arr. iFrame.
Qed.

Lemma c_has_quorum_ok l L c x i closed i' :
  instance_has_quorum L i = Ret (closed, i') →
  l ↦ BLearner (learner_struct L c) ∗ at_linst x i ⊢ wp (c_instance_has_quorum l x) (λ r,
    <affine> ⌜r = closed⌝ ∗ l ↦ BLearner (learner_struct L c) ∗ at_linst x i').
Proof.
  iIntros (E) "[Hl (%ptrs & %fin & (%arr & Hx & Ha & Hs) & %Hf)]". unfold instance_has_quorum in E.
  unfold c_instance_has_quorum. wp_rd "Hx". simpl.
  iAssert (at_lbody x (li_iid i) (li_last_update_ballot i) fin ptrs (li_acks i))
    with "[Hx Ha Hs]" as "Hx"; [iExists arr; iFrame|].
  destruct fin as [q|], (li_final_value i) as [v|] eqn:Ev; simpl in Hf; try done.
  { inv_binds. iApply wp_ret. iSplitR; [done|]. iFrame "Hl". iExists ptrs, (Some q). iFrame "Hx". by rewrite Ev. }
  apply bind_inv in E as ([n idx] & En & E). wp_rd "Hl". simpl.
  wp_call c_count_acks_ok with "[Hx]". iIntros (r) "[-> Hx]". simpl.
  destruct (l_quorum L <=? n).
  - apply bind_inv in E as (v & Eg & E). inv_binds. wp_call c_ack_at_ok with "[Hx]".
    iIntros (p) "[%Hp Hx]". destruct Hp as (Hi & Hp & Hlk & Hsame).
    wp_call c_set_final_ok with "[Hx]". iIntros (_) "Hx". iApply wp_ret. iSplitR; [done|]. iFrame "Hl".
    iExists ptrs, p. iFrame "Hx". iPureIntro. simpl. destruct p, v; try done. by eexists.
  - inv_binds. iApply wp_ret. iSplitR; [done|]. iFrame "Hl". iExists ptrs, None. iFrame "Hx". by rewrite Ev.
Qed.

(** The instance has no final value; the slot's acknowledgement, if any, has
been freed. *)
Lemma c_add_accept_ok x i ack i' ptrs p a :
  instance_add_accept i ack = Ret i' → li_final_value i = None →
  ptrs !! Z.to_nat (aa_acceptor_id ack) = Some p → li_acks i !! Z.to_nat (aa_acceptor_id ack) = Some a →
  at_lbody x (li_iid i) (li_last_update_ballot i) None ptrs (li_acks i) ⊢
  at_slot p a ∗ wp (c_instance_add_accept x ack) (λ _, at_linst x i').
Proof.
  iIntros (E Hf Hp Ha) "Hx". unfold instance_add_accept in E. apply bind_inv in E as (acks & E & [= <-]).
  apply arr_set_inv in E as [Hi ->].
  iDestruct (c_replace_ack_ok with "Hx") as "[$ H]"; [|done..|]; [lia|].
  unfold c_instance_add_accept. wp_new q "Hq". wp_unbind. iApply ("H" $! (Some q) (Some ack) with "Hq").
  iIntros "(%arr & Hx & Ha)". wp_rd "Hx". simpl. 
  iApply (wp_wand with "[Hx Ha]").
  { iApply c_set_fields_ok. iExists arr. iFrame. }
  iIntros (_) "Hx". iExists _, None. iFrame "Hx". iPureIntro. simpl. by rewrite Hf.
Qed.

End linstances.

(** ** The operations *)

Section operations.
Implicit Types (l x c : loc) (L : learner) (i : linstance).

Notation at_struct l L c := (l ↦ BLearner (learner_struct L c))%I.

(** The index of an instance is not negative as an [int]. *)
Definition indexed (L : learner) (iid : Z) : Prop :=
  ring (l_instances L) ∧ 0 ≤ to_int iid ≤ INT_MAX.

(** The slot that instance [iid] uses, and what is in it. *)
Definition slot_focus (c : loc) (L : learner) (iid : Z) (x : loc) (i : linstance) : mprop :=
  focus at_linst c (l_instances L) (to_int iid mod ca_size (l_instances L)) x i.

Lemma slot_focus_acc c L iid x i :
  slot_focus c L iid x i ⊢ at_linst x i ∗
    ((∀ i', at_linst x i' -∗ slot_focus c (learner_put_instance L iid i') iid x i') ∧
     (at_linst x i -∗ slot_focus c L iid x i)).
Proof.
  iIntros "H". unfold slot_focus. iDestruct (focus_acc with "H") as "[$ H]". iSplit.
  - iIntros (i') "Hi". iDestruct "H" as "[H _]". simpl. rewrite -(poke_mod _ (to_int iid)).
    by iApply "H".
  - by iDestruct "H" as "[_ H]".
Qed.

Lemma c_get_instance_ok l L c iid i :
  learner_get_instance L iid = Ret i → indexed L iid →
  at_struct l L c ∗ queue at_linst c (l_instances L) ⊢ wp (c_learner_get_instance l iid) (λ x,
    at_struct l L c ∗ slot_focus c L iid x i).
Proof.
  iIntros (E [Hr Hi]) "[Hl Hc]". unfold learner_get_instance in E. unfold c_learner_get_instance.
  apply bind_inv in E as (o & Eo & E). apply bind_inv in E as (i' & Ei & E).
  apply bind_inv in E as ([] & Ea & [= ->]). wp_rd "Hl". simpl. wp_unbind.
  iApply (wp_wand with "[Hc]"); [by iApply queue_ring_at|].
  iIntros (r) "(%x & %y & %Hy & Hf)". destruct Hy as [-> ->]. injection Ei as ->. wp_p.
  iDestruct (focus_acc with "Hf") as "[(%ptrs & %fin & (%arr & Hx & Ha & Hs) & %Hfin) [_ Hf]]".
  wp_rd "Hx". simpl. wp_pure Ea. iApply wp_ret. iFrame "Hl". iApply "Hf". iExists ptrs, fin.
  iSplitL; [iExists arr; iFrame|done].
Qed.

(** The instance that [learner_update_instance] works on. *)
Lemma c_first_message_ok {A} x i iid b (m : cmdb A) (Φ : A → mprop) :
  let i' := if li_iid i =? 0 then LInstance iid b (li_acks i) (li_final_value i) else i in
  at_linst x i ∗ (at_linst x i' -∗ wp m Φ) ⊢
  wp (s ← read_as as_linstance x;
      (if cl_iid s =? 0 then c_set_fields x iid b else mret tt) ;; m) Φ.
Proof.
  iIntros (i') "[(%ptrs & %fin & (%arr & Hx & Ha & Hs) & %Hfin) HΦ]". wp_rd "Hx". simpl. unfold i'.
  destruct (li_iid i =? 0); wp_unbind.
  - iApply (wp_wand with "[Hx Ha Hs]"); [iApply c_set_fields_ok; iExists arr; iFrame|].
    iIntros ([]) "Hx". iApply "HΦ". iExists ptrs, fin. iFrame "Hx". done.
  - iApply wp_ret. iApply "HΦ". iExists ptrs, fin. iSplitL; [iExists arr; iFrame|done].
Qed.

Lemma c_linst_iid_ok {A} x i (f : Z → cmdb A) (Φ : A → mprop) :
  at_linst x i ∗ (at_linst x i -∗ wp (f (li_iid i)) Φ) ⊢
  wp (s ← read_as as_linstance x; f (cl_iid s)) Φ.
Proof.
  iIntros "[(%ptrs & %fin & (%arr & Hx & Ha & Hs) & %Hfin) HΦ]". wp_rd "Hx". simpl.
  iApply "HΦ". iExists ptrs, fin. iSplitL; [iExists arr; iFrame|done].
Qed.

(** The slot of an acknowledgement in an open instance. *)
Lemma c_store_ok x i ack prev i' :
  arr_get (li_acks i) (aa_acceptor_id ack) = Ret prev → li_final_value i = None →
  (match prev with
   | None => instance_add_accept i ack
   | Some p => if aa_ballot ack <=? aa_ballot p then Ret i else instance_add_accept i ack
   end) = Ret i' →
  at_linst x i ⊢
  wp (prev ← c_ack_at x (aa_acceptor_id ack);
      match prev with
      | None => c_instance_add_accept x ack
      | Some prev_ack =>
          prev ← read_as as_ack prev_ack;
          if aa_ballot ack <=? aa_ballot prev then mret tt
          else free prev_ack ;; c_instance_add_accept x ack
      end) (λ _, at_linst x i').
Proof.
  iIntros (Ep Hf E) "(%ptrs & %fin & Hx & %Hfin)".
  destruct fin as [q|]; rewrite Hf in Hfin; [done|].
  wp_call c_ack_at_ok with "[Hx]". iIntros (p) "[%Hp Hx]". destruct Hp as (Hi & Hp & Hl & Hsame).
  destruct p as [q|], prev as [a|]; try done; simpl.
  - iDestruct "Hx" as "(%arr & Hx & Ha & Hs)".
    iDestruct (slots_acc_same with "Hs") as "[Hq Hs]"; [exact Hp|exact Hl|]. simpl. wp_rd "Hq".
    iDestruct ("Hs" with "Hq") as "Hs".
    iAssert (at_lbody x (li_iid i) (li_last_update_ballot i) None ptrs (li_acks i))
      with "[Hx Ha Hs]" as "Hx"; [iExists arr; iFrame|].
    destruct (aa_ballot ack <=? aa_ballot a).
    + inv_binds. iApply wp_ret. iExists ptrs, None. iFrame "Hx". by rewrite Hf.
    + iDestruct (c_add_accept_ok _ _ _ _ _ _ _ E Hf Hp Hl with "Hx") as "[Hq H]". simpl. by wp_fr "Hq".
  - iDestruct (c_add_accept_ok _ _ _ _ _ _ _ E Hf Hp Hl with "Hx") as "[_ $]".
Qed.

Lemma has_quorum_open L i i' :
  instance_has_quorum L i = Ret (false, i') → i' = i ∧ li_final_value i = None.
Proof.
  unfold instance_has_quorum. intros E. destruct (li_final_value i); [done|].
  apply bind_inv in E as ([n idx] & _ & E). destruct (l_quorum L <=? n); [|by injection E].
  by apply bind_inv in E as (v & _ & E).
Qed.

Lemma c_update_instance_ok l L c ack L' :
  learner_update_instance L ack = Ret L' → indexed L (aa_iid ack) →
  at_struct l L c ∗ queue at_linst c (l_instances L) ⊢
  wp (c_learner_update_instance l ack) (λ _, ∃ i, <affine> ⌜L' = learner_put_instance L (aa_iid ack) i⌝ ∗
    at_struct l L c ∗ queue at_linst c (l_instances L')).
Proof.
  iIntros (E Hi) "H". unfold learner_update_instance in E.
  apply bind_inv in E as (i & Eg & E). unfold c_learner_update_instance.
  wp_unbind. iApply (wp_wand with "[H]"); [iApply (c_get_instance_ok _ _ _ _ _ Eg Hi with "H")|].
  iIntros (x) "[Hl Hf]". iDestruct (slot_focus_acc with "Hf") as "[Hx [Hf _]]".
  iApply c_first_message_ok. iFrame "Hx". iIntros "Hx".
  set (i1 := if li_iid i =? 0 then _ else _) in *. clearbody i1.
  iApply (c_linst_iid_ok x i1 (λ z, pureC (assert_that (z =? aa_iid ack)) ;; _)). iFrame "Hx". iIntros "Hx".
  apply bind_inv in E as ([] & Ea & E). wp_pure Ea.
  apply bind_inv in E as ([closed i2] & Eq & E).
  wp_unbind. iApply (wp_wand with "[Hl Hx]"); [iApply (c_has_quorum_ok _ _ _ _ _ _ _ Eq); iFrame|].
  iIntros (r) "(-> & Hl & Hx)". destruct closed.
  - injection E as <-. iApply wp_ret. iDestruct ("Hf" with "Hx") as "Hf".
    iExists i2. iFrame "Hl". unfold slot_focus. rewrite focus_queue. by iFrame.
  - destruct (has_quorum_open _ _ _ Eq) as [-> Hnone].
    apply bind_inv in E as (prev & Ep & E).
    assert (∃ i3, (match prev with
      | None => instance_add_accept i1 ack
      | Some p => if aa_ballot ack <=? aa_ballot p then Ret i1 else instance_add_accept i1 ack
      end) = Ret i3 ∧ L' = learner_put_instance L (aa_iid ack) i3) as (i3 & E3 & ->).
    { destruct prev as [p|]; [destruct (aa_ballot ack <=? aa_ballot p)|]; inv_binds; eauto. }
    iApply (wp_wand with "[Hx]"); [by iApply (c_store_ok _ _ _ _ _ Ep Hnone E3)|]. iIntros (_) "Hx".
    iDestruct ("Hf" with "Hx") as "Hf". iExists i3. iFrame "Hl". unfold slot_focus.
    rewrite focus_queue. by iFrame.
Qed.

Lemma c_deliver_next_ok l L L' out :
  learner_deliver_next L = Ret (L', out) → indexed L (l_current_iid L) →
  at_learner l L ⊢ wp (c_learner_deliver_next l) (λ r, at_slot r out ∗ at_learner l L').
Proof.
  iIntros (E Hi) "(%c & Hl & Hc)". unfold learner_deliver_next, learner_get_current_instance in E.
  apply bind_inv in E as (i & Eg & E). apply bind_inv in E as ([closed i1] & Eq & E).
  unfold c_learner_deliver_next, c_learner_get_current_instance. wp_unbind. wp_rd "Hl". simpl.
  iApply (wp_wand with "[Hl Hc]"); [iApply (c_get_instance_ok _ _ _ _ _ Eg Hi); iFrame|].
  iIntros (x) "[Hl Hf]". iDestruct (slot_focus_acc with "Hf") as "[Hx Hf]".
  wp_unbind. iApply (wp_wand with "[Hl Hx]"); [iApply (c_has_quorum_ok _ _ _ _ _ _ _ Eq); iFrame|].
  iIntros (r) "(-> & Hl & Hx)". destruct closed.
  - iDestruct "Hf" as "[Hf _]". iDestruct "Hx" as "(%ptrs & %fin & (%arr & Hx & Ha & Hs) & %Hfin)".
    apply bind_inv in E as (v & Ev & E). apply bind_inv in E as (cl & Ecl & [= <- <-]).
    destruct (li_final_value i1) as [v'|] eqn:Efv; [|done]. injection Ev as ->.
    destruct fin as [q|]; [|done]. destruct Hfin as (k & Hp & Hk). wp_rd "Hx". simpl.
    wp_pure (eq_refl (Ret q)).
    iDestruct (slots_acc_same with "Hs") as "[Hq Hs]"; [exact Hp|exact Hk|]. simpl. wp_rd "Hq".
    iDestruct ("Hs" with "Hq") as "Hs". wp_new ack "Hack". wp_rd "Hl". simpl.
    wp_unbind. iApply (wp_wand with "[Hx Ha Hs]").
    { iApply (c_linstance_clear_ok _ i1 _ _ Ecl). iExists ptrs, (Some q). iSplitL; [iExists arr; iFrame|].
      iPureIntro. rewrite Efv. by exists k. }
    iIntros (_) "Hx". iDestruct ("Hf" with "Hx") as "Hf".
    unfold c_set_current. wp_unbind. wp_rd "Hl". iApply wp_write. iFrame "Hl". iIntros "Hl".
    iApply wp_ret. simpl. iFrame "Hack". iExists c. unfold slot_focus. rewrite focus_queue. iFrame.
  - injection E as <- <-. destruct (has_quorum_open _ _ _ Eq) as [-> _]. iApply wp_ret.
    iDestruct "Hf" as "[_ Hf]". iDestruct ("Hf" with "Hx") as "Hf". iSplitR; [done|].
    iExists c. unfold slot_focus. rewrite focus_queue. iFrame.
Qed.

Lemma indexed_put L iid i : indexed L iid → indexed (learner_put_instance L iid i) iid.
Proof. done. Qed.

(** The fields that [learner_receive_accept] updates first. *)
Definition noted (L : learner) (ack : accept_ack) : learner :=
  let L1 := if negb (l_late_start L =? 0) then set_current (aa_iid ack) (set_late_start 0 L) else L in
  if l_highest_iid_seen L1 <? aa_iid ack then set_seen (aa_iid ack) L1 else L1.

Lemma noted_instances L ack : l_instances (noted L ack) = l_instances L.
Proof. unfold noted. by repeat case_match. Qed.

Lemma c_noted_ok {A} l L c ack (f : c_learner → cmdb A) (Φ : A → mprop) :
  at_struct l L c ∗
  (at_struct l (noted L ack) c -∗ wp (f (learner_struct (noted L ack) c)) Φ) ⊢
  wp (s ← read_as as_learner l;
      (if negb (cr_late_start s =? 0)
       then c_set_late_start l 0 ;; c_set_current l (aa_iid ack) else mret tt) ;;
      s ← read_as as_learner l;
      (if cr_highest_iid_seen s <? aa_iid ack then c_set_seen l (aa_iid ack) else mret tt) ;;
      s ← read_as as_learner l;
      f s) Φ.
Proof.
  iIntros "[Hl HΦ]". wp_rd "Hl". simpl. unfold noted.
  set (L1 := if negb (l_late_start L =? 0) then _ else L). wp_unbind.
  iApply (wp_wand _ (λ _, at_struct l L1 c) with "[Hl]").
  { unfold L1. destruct (negb (l_late_start L =? 0)); [|by iApply wp_ret].
    unfold c_set_late_start, c_set_current. wp_unbind. wp_rd "Hl". iApply wp_write. iFrame "Hl".
    iIntros "Hl". wp_rd "Hl". by wp_wr "Hl". }
  iIntros (_) "Hl". wp_rd "Hl". simpl. wp_unbind.
  set (L2 := if l_highest_iid_seen L1 <? aa_iid ack then _ else L1).
  iApply (wp_wand _ (λ _, at_struct l L2 c) with "[Hl]").
  { unfold L2. destruct (l_highest_iid_seen L1 <? aa_iid ack); [|by iApply wp_ret].
    unfold c_set_seen. wp_rd "Hl". by wp_wr "Hl". }
  iIntros (_) "Hl". wp_rd "Hl". by iApply "HΦ".
Qed.

Lemma c_receive_accept_ok l L ack L' :
  learner_receive_accept L ack = Ret L' → indexed L (aa_iid ack) →
  at_learner l L ⊢ wp (c_learner_receive_accept l ack) (λ _, at_learner l L').
Proof.
  iIntros (E Hi) "(%c & Hl & Hc)". unfold learner_receive_accept in E.
  change (if l_highest_iid_seen _ <? aa_iid ack then _ else _) with (noted L ack) in E.
  cbv zeta in E. unfold c_learner_receive_accept.
  iApply c_noted_ok. iFrame "Hl". iIntros "Hl". rewrite -(noted_instances L ack).
  assert (indexed (noted L ack) (aa_iid ack)) as Hi1.
  { unfold indexed. by rewrite noted_instances. }
  clear Hi. set (L1 := noted L ack) in *. clearbody L1. simpl.
  destruct (aa_iid ack <? l_current_iid L1).
  { injection E as <-. iApply wp_ret. iExists c. iFrame. }
  wp_unbind. iApply (queue_size at_linst). iFrame "Hc". iIntros "Hc".
  destruct (u32 (l_current_iid L1 + carray_size (l_instances L1)) <=? aa_iid ack).
  { injection E as <-. iApply wp_ret. iExists c. iFrame. }
  apply bind_inv in E as (L2 & Eu & E). apply bind_inv in E as (i & Eg & E).
  apply bind_inv in E as ([closed i1] & Eq & E).
  wp_unbind. iApply (wp_wand with "[Hl Hc]"); [iApply (c_update_instance_ok _ _ _ _ _ Eu Hi1); iFrame|].
  iIntros ([]) "(%i0 & -> & Hl & Hc)". apply indexed_put with (i := i0) in Hi1.
  set (L2 := learner_put_instance L1 (aa_iid ack) i0) in *.
  change (learner_struct L1 c) with (learner_struct L2 c). clearbody L2.
  wp_unbind. iApply (wp_wand with "[Hl Hc]"); [iApply (c_get_instance_ok _ _ _ _ _ Eg Hi1); iFrame|].
  iIntros (x) "[Hl Hf]". iDestruct (slot_focus_acc with "Hf") as "[Hx [Hf _]]".
  wp_unbind. iApply (wp_wand with "[Hl Hx]"); [iApply (c_has_quorum_ok _ _ _ _ _ _ _ Eq); iFrame|].
  iIntros (r) "(-> & Hl & Hx)". wp_rd "Hl". simpl.
  iApply (c_linst_iid_ok x i1 (λ z, if closed && (l_highest_iid_closed L2 <? z) then c_set_closed l z else mret tt)).
  iFrame "Hx". iIntros "Hx". iDestruct ("Hf" with "Hx") as "Hf".
  unfold slot_focus. rewrite focus_queue. simpl in E.
  destruct (closed && (l_highest_iid_closed L2 <? li_iid i1)); injection E as <-.
  - unfold c_set_closed. wp_rd "Hl". wp_wr "Hl". iExists c. iFrame.
  - iApply wp_ret. iExists c. iFrame.
Qed.

Lemma c_has_holes_ok l L :
  at_learner l L ⊢ wp (c_learner_has_holes l) (λ r, <affine> ⌜r = learner_has_holes L⌝ ∗ at_learner l L).
Proof.
  iIntros "(%c & Hl & Hc)". unfold c_learner_has_holes. wp_rd "Hl". simpl. wp_unbind.
  iApply (queue_count at_linst). iFrame "Hc". iIntros "Hc". iApply wp_ret. iSplitR; [done|].
  iExists c. iFrame.
Qed.

Lemma c_learner_new_ok cfg acceptors L :
  0 ≤ acceptors → 0 < learner_instances cfg ≤ INT_MAX → learner_new cfg acceptors = Ret L →
  ⊢ wp (c_learner_new cfg acceptors) (λ l, at_learner l L).
Proof.
  iIntros (Hn Hs E). unfold learner_new, initialize_instances in E. apply bind_inv in E as (c & E & [= <-]).
  apply bind_inv in E as (c0 & E0 & E). unfold c_learner_new, c_initialize_instances. wp_unbind.
  wp_call (queue_new at_linst) with "[]". iIntros (a) "Ha".
  wp_unbind. iApply (queue_size at_linst). iFrame "Ha". iIntros "Ha". wp_unbind.
  iApply (wp_wand with "[Ha]").
  { iApply (wp_for_to_sim (λ (_ : Z) (c : carray linstance) (_ : ()), queue at_linst a c)); [|exact E|done].
    iIntros (k c1 c2 _ _ Eb) "Ha". wp_call (c_linstance_new_ok _ Hn) with "[]". iIntros (x) "Hx".
    iApply (wp_wand with "[Ha Hx]"); [iApply (queue_push_back at_linst); [exact Eb|iFrame]|].
    iIntros (_) "Ha". by rewrite focus_queue. }
  iIntros (_) "Ha". iApply wp_ret. iApply wp_alloc. iIntros (l) "Hl". iExists a. iFrame.
Qed.

Lemma c_learner_free_ok l L w :
  indexable (l_instances L) → carray_rep (l_instances L) w →
  (∀ i, i ∈ w → Z.of_nat (length (li_acks i)) = l_acceptors L) →
  at_learner l L ⊢ wp (c_learner_free l) (λ _, emp).
Proof.
  iIntros (Hx Rw Hw) "(%c & Hl & Hc)". unfold c_learner_free. wp_rd "Hl".
  rewrite (queue_impl _ (λ x i, at_linst x i ∗
    <affine> ⌜Z.of_nat (length (li_acks i)) = l_acceptors L⌝)%I _ _ _ Rw).
  - wp_unbind. iApply (wp_wand with "[Hc]").
    { iApply (queue_drain _ c _ (λ v, c_linstance_free v (l_acceptors L)) Hx with "Hc").
      iIntros (x i) "[Hi %Hn]". by iApply c_linstance_free_ok. }
    iIntros (_) "_". by wp_fr "Hl".
  - iIntros (x i Hi) "$". iPureIntro. by apply Hw.
Qed.

End operations.
