(* ===== verification/MemLearnerRuns.v ===== *)
(** * The memory of a learner over its life

The calls of [Learner.learner_run] on the heap: the client creates a learner,
hands it acknowledgements, asks for the next value and frees what it is given,
as evlearner.c does, and frees the learner. *)

From S2P Require Import Prelude Heap Carray Quorum Messages Memory MemCarray MemQueue Learner MemLearner.
#[local] Open Scope Z_scope.

(** The delivered value, which the client frees. *)
Definition c_take_delivered (r : option loc) : cmdb (option accept_ack) :=
  match r with
  | None => mret None
  | Some x => a ← read_as as_ack x; free x ;; mret (Some a)
  end.

Fixpoint c_learner_run (l : loc) (evs : list levent) : cmdb (list accept_ack) :=
  match evs with
  | [] => mret []
  | Receive ack :: evs' => c_learner_receive_accept l ack ;; c_learner_run l evs'
  | Deliver :: evs' =>
      r ← c_learner_deliver_next l;
      o ← c_take_delivered r;
      vs ← c_learner_run l evs';
      mret (match o with Some v => v :: vs | None => vs end)
  end.

Definition c_learner_lifetime (cfg : paxos_config) (acceptors : Z) (evs : list levent)
    : cmdb (list accept_ack) :=
  l ← c_learner_new cfg acceptors;
  vs ← c_learner_run l evs;
  c_learner_free l ;;
  mret vs.

Lemma c_take_delivered_ok r out :
  at_slot r out ⊢ wp (c_take_delivered r) (λ o, <affine> ⌜o = out⌝).
Proof.
  iIntros "H". destruct r as [x|], out as [a|]; simpl; try iDestruct "H" as %[].
  - wp_rd "H". wp_fr "H". by iApply wp_ret.
  - by iApply wp_ret.
Qed.

Section runs.
Context (n sz : Z) (G : accept_ack → Prop).
Hypothesis G_ok : ∀ a, G a → ack_ok n sz a.

Lemma inv_indexed L w iid :
  learner_inv n G L w → 0 ≤ iid ≤ INT_MAX → indexed L iid.
Proof using Type.
  intros I Hi. destruct (lv_table _ _ _ _ I) as [R Hh Hf]. split.
  - split; [done|]. by rewrite -Hf -(rep_count _ _ R).
  - rewrite to_int_small; [done|]. unfold INT_MIN. lia.
Qed.

Lemma c_learner_run_ok x evs L w :
  (∀ a, Receive a ∈ evs → G a) → learner_inv n G L w → ca_size (l_instances L) = sz →
  l_current_iid L + sz ≤ INT_MAX + 1 →
  ∃ L' w' vs, learner_run L evs = Ret (L', vs) ∧ learner_inv n G L' w' ∧
    ca_size (l_instances L') = sz ∧
    (at_learner x L ⊢ wp (c_learner_run x evs) (λ r, <affine> ⌜r = vs⌝ ∗ at_learner x L')).
Proof using G_ok.
  assert (∀ a, G a → aa_is_final a = 0 ∧ 0 < aa_iid a) as G1 by (intros a []%G_ok; done).
  revert L w. induction evs as [|ev evs IH]; intros L w HG I Hsz Hcur; simpl.
  { exists L, w, []. split_and!; [done..|]. iIntros "H". iApply wp_ret. by iFrame. }
  assert (∀ a, Receive a ∈ evs → G a) as HG' by (intros; apply HG; by right).
  pose proof (lv_table _ _ _ _ I) as [R _ _]. pose proof (rep_size _ _ R) as Hs.
  pose proof (lv_cur _ _ _ _ I) as Hc. destruct ev as [ack|].
  - assert (G ack) as Ga by (apply HG; by left). destruct (G_ok ack Ga) as [_ Hp Hr Hid].
    destruct (receive_accept_ok n G G1 L w ack I Ga) as (L1 & w1 & E & I1 & _ & C1 & S1 & _);
      [unfold INT_MAX, UINT32_MOD in *; lia..|].
    rewrite E. simpl. destruct (IH L1 w1 HG' I1) as (L2 & w2 & vs & E2 & I2 & S2 & H2); [congruence| |].
    { rewrite C1. unfold INT_MAX in *. case_match; lia. }
    exists L2, w2, vs. split_and!; [done..|]. iIntros "H".
    wp_unbind. iApply (wp_wand with "[H]").
    { iApply (c_receive_accept_ok _ _ _ _ E with "H"). eapply inv_indexed; [done|lia]. }
    iIntros (_) "H". by iApply H2.
  - destruct (deliver_next_ok n G G1 L w I) as (L1 & w1 & o & E & I1 & S1 & _ & Ho); [lia|].
    rewrite E. simpl. destruct (IH L1 w1 HG' I1) as (L2 & w2 & vs & E2 & I2 & S2 & H2); [congruence| |].
    { destruct o as [v|]; [|by destruct Ho as [-> _]].
      destruct Ho as ((Gv & Hv & _) & -> & _). destruct (G_ok v Gv). lia. }
    rewrite E2. simpl. eexists L2, w2, _. split_and!; [done..|]. iIntros "H".
    wp_unbind. iApply (wp_wand with "[H]").
    { iApply (c_deliver_next_ok _ _ _ _ E with "H"). eapply inv_indexed; [done|lia]. }
    iIntros (r) "[Hr H]". wp_call c_take_delivered_ok with "[Hr]". iIntros (o') "->".
    wp_unbind. iApply (wp_wand with "[H]"); [by iApply H2|]. iIntros (vs') "[-> H]".
    iApply wp_ret. by iFrame.
Qed.

Lemma inv_free x L w :
  learner_inv n G L w → ca_size (l_instances L) ≤ 2 ^ 30 →
  at_learner x L ⊢ wp (c_learner_free x) (λ _, emp).
Proof using Type.
  iIntros (I Hx) "Hl". pose proof (lv_table _ _ _ _ I) as [R _ _].
  iApply (c_learner_free_ok with "Hl"); [done|exact R|].
  intros i [k Hk]%list_elem_of_lookup. rewrite (lv_acceptors _ _ _ _ I).
  pose proof (lv_slots _ _ _ _ I (Z.of_nat k) i ltac:(lia) ltac:(by rewrite Nat2Z.id)) as Hs1.
  apply (ii_len _ _ _ (si_inst _ _ _ _ _ _ Hs1)).
Qed.

End runs.

(** ** Properties *)

(** A learner's memory is safe over its whole life.  Any program that creates a
learner, hands it acknowledgements that are well formed for its configuration,
asks for the next value in any order, freeing what it is given, and frees the
learner, returns without a fault (no assertion fails; no acknowledgement is
used after it was replaced or freed, although [final_value] is a second
pointer to it; nothing is freed twice; no access is out of bounds), delivers
what the value model delivers, and leaves the heap as it found it. *)
Theorem learner_memory_safe cfg n evs h :
  1 ≤ n ≤ INT_MAX → 0 < learner_instances cfg ≤ 2 ^ 30 →
  (∀ a, Receive a ∈ evs → ack_ok n (learner_instances cfg) a) →
  ∃ L0 L vs, learner_new cfg n = Ret L0 ∧ learner_run L0 evs = Ret (L, vs) ∧
    c_learner_lifetime cfg n evs h = Ret (vs, h).
Proof.
  intros Hn Hs HG. set (sz := learner_instances cfg) in *.
  destruct (learner_new_ok cfg n (ack_ok n sz) Hn) as (L0 & w0 & E0 & I0 & C0 & S0 & _);
    [unfold INT_MAX; lia|].
  assert (0 < learner_instances cfg ≤ INT_MAX) as Hs' by (unfold INT_MAX; lia).
  destruct (c_learner_run_ok n sz (ack_ok n sz) (λ a Ha, Ha) 1%positive evs L0 w0 HG I0 S0)
    as (L & w & vs & E & I & S1 & _); [unfold INT_MAX; lia|].
  exists L0, L, vs. split; [done|]. split; [done|].
  destruct (wp_closed (c_learner_lifetime cfg n evs) (λ r, r = vs) h) as (r & Er & ->); [|done].
  iIntros "_". unfold c_learner_lifetime. wp_unbind.
  iApply (wp_wand with "[]"); [iApply (c_learner_new_ok cfg n L0 ltac:(lia) Hs' E0)|]. iIntros (x) "Hx".
  destruct (c_learner_run_ok n sz (ack_ok n sz) (λ a Ha, Ha) x evs L0 w0 HG I0 S0)
    as (L2 & w2 & vs2 & E2 & _ & _ & Hrun); [unfold INT_MAX; lia|].
  rewrite E in E2. injection E2 as <- <-.
  wp_unbind. iApply (wp_wand with "[Hx]"); [by iApply Hrun|]. iIntros (r) "[-> Hx]".
  wp_unbind. iApply (wp_wand with "[Hx]"); [iApply (inv_free n (ack_ok n sz)); [exact I|lia|done]|].
  iIntros (_) "_". by iApply wp_ret.
Qed.

(** Two instances of three acceptors, the first with a replaced
acknowledgement, and one that is delivered twice over. *)
Lemma learner_memory_safe_witness :
  let a1 := AcceptAck 0 1 11 11 0 [x41] in
  let a2 := AcceptAck 0 1 21 21 0 [x42] in
  let a3 := AcceptAck 2 1 21 21 0 [x42] in
  c_learner_lifetime cfg4 3 [Receive a1; Deliver; Receive a2; Receive a3; Receive a1; Deliver; Deliver] ∅ =
  Ret ([a3], ∅).
Proof.
  intros a1 a2 a3. set (evs := [Receive a1; _; _; _; _; _; _]).
  destruct (learner_memory_safe cfg4 3 evs ∅) as (L0 & L & vs & E0 & E & H).
  - by vm_compute.
  - by vm_compute.
  - intros a Ha. unfold evs in Ha. repeat (apply elem_of_cons in Ha as [Ha|Ha];
      [try discriminate Ha; injection Ha as ->; split; vm_compute; intuition congruence|]).
    by apply not_elem_of_nil in Ha.
  - rewrite H. vm_compute in E0. injection E0 as <-. vm_compute in E. by injection E as _ <-.
Defined.
