(* ===== verification/MemConns.v ===== *)
(** * Connections on the heap (src/evpaxos/tcp_receiver.c, src/evpaxos/peers.c)

The functions of [Net] as programs on the heap.  A connection is the address
of its block, so the connections of [Net] are the locations of this file.  The
address strings of peers are copies of the configuration's ([strdup]), and
[peers_connect] moves the array of peers to a larger block ([realloc]). *)

From S2P Require Import Prelude Heap Carray Messages Net Memory MemCarray MemQueue.
#[local] Open Scope Z_scope.

(** ** tcp_receiver.c *)

Section receiver.
Import TcpReceiver.

(** The listener is made by libevent, or not. *)
Definition c_tcp_receiver_new (a : address) (bound : bool) : cmdb loc :=
  pureC (assert_that bound) ;;
  l ← alloc (BListener (set_sockaddr_in a));
  bevs ← c_carray_new 10;
  alloc (BReceiver (CReceiver l bevs)).

Definition c_match_bufferevent (arg item : loc) : cmdb Z := mret (cbool (bool_decide (arg = item))).

(** Returns the new connection. *)
Definition c_on_accept (r : loc) : cmdb loc :=
  bev ← alloc (BBev None);
  s ← read_as as_receiver r;
  c_carray_push_back (ctr_bevs s) bev ;;
  mret bev.

Definition c_on_error (r bev : loc) (eof : bool) : cmdb () :=
  if eof then
    s ← read_as as_receiver r;
    tmp ← c_carray_reject (ctr_bevs s) c_match_bufferevent bev;
    c_carray_free (ctr_bevs s) ;;
    write r (BReceiver (CReceiver (ctr_listener s) tmp)) ;;
    free bev
  else mret tt.

(** The first loop of [tcp_receiver_free]. *)
Definition c_close_all (bevs : loc) : cmdb () :=
  n ← c_carray_count bevs;
  cfor_to n (λ i _, x ← c_carray_at bevs i; v ← pureC (deref x); free v) tt.

Definition c_tcp_receiver_free (r : loc) : cmdb () :=
  s ← read_as as_receiver r;
  c_close_all (ctr_bevs s) ;;
  free (ctr_listener s) ;;
  c_carray_free (ctr_bevs s) ;;
  free r.

(** The connection at [x] is the connection [b] of [Net]. *)
Definition at_bev (x : loc) (b : bufferevent) : mprop := (<affine> ⌜b = Zpos x⌝ ∗ ∃ t, x ↦ BBev t)%I.

Definition at_receiver (x : loc) (r : tcp_receiver) : mprop :=
  (∃ l c, x ↦ BReceiver (CReceiver l c) ∗ l ↦ BListener (listener r) ∗ queue at_bev c (bevs r))%I.

Lemma c_tcp_receiver_new_ok a bound r :
  tcp_receiver_new a bound = Ret r → ⊢ wp (c_tcp_receiver_new a bound) (λ x, at_receiver x r).
Proof.
  iIntros (E). unfold tcp_receiver_new in E. apply bind_inv in E as (u & E0 & E).
  apply bind_inv in E as (c & Ec & [= <-]). unfold c_tcp_receiver_new.
  wp_pure E0. wp_new l "Hl". wp_unbind. iApply (wp_wand with "[]").
  { by iApply (queue_new at_bev _ _ Ec). }
  iIntros (b) "Hb". iApply wp_alloc. iIntros (x) "Hx". iExists l, b. iFrame.
Qed.

Lemma c_on_accept_ok x r :
  (∀ b, ∃ r', on_accept r b = Ret r') →
  at_receiver x r ⊢ wp (c_on_accept x) (λ bev, ∃ r', <affine> ⌜on_accept r (Zpos bev) = Ret r'⌝ ∗
    at_receiver x r').
Proof.
  iIntros (Hr) "(%l & %c & Hx & Hl & Hc)". unfold c_on_accept. wp_new b "Hb". wp_rd "Hx". simpl.
  destruct (Hr (Zpos b)) as [r' E]. pose proof E as E'. unfold on_accept in E'.
  apply bind_inv in E' as (c' & Ec & [= <-]). wp_unbind.
  iApply (wp_wand with "[Hc Hb]").
  { iApply (queue_push_back at_bev _ _ b _ _ Ec). iFrame "Hc". iSplitR; [done|]. by iExists None. }
  iIntros (_) "Hc". iApply wp_ret. iExists _. iSplitR; [done|]. iExists l, c. iFrame.
  by iApply focus_queue.
Qed.

(** One of the open connections breaks. *)
Lemma c_on_error_ok x r l bev eof r' :
  carray_rep (bevs r) l → NoDup l → Zpos bev ∈ l → on_error r (Zpos bev) eof = Ret r' →
  at_receiver x r ⊢ wp (c_on_error x bev eof) (λ _, at_receiver x r').
Proof.
  iIntros (Rc U Hb E) "(%ls & %c & Hx & Hl & Hc)". unfold c_on_error, on_error in *.
  destruct eof; [|injection E as <-; iApply wp_ret; iExists ls, c; iFrame].
  apply bind_inv in E as (c' & Ec & [= <-]). wp_rd "Hx". simpl.
  iDestruct "Hc" as "(%cl & %locs & %l' & Hc & %Q & He)".
  assert (l' = l) as -> by (rewrite -(rep_contents _ _ Rc); symmetry; apply rep_contents, Q).
  apply list_elem_of_lookup in Hb as [k Hk]. pose proof (qrep_length _ _ _ _ Q) as Hlen.
  destruct (lookup_lt_is_Some_2 locs k) as [y Hy]; [rewrite Hlen; by eapply lookup_lt_Some|].
  iDestruct (elems_acc_same with "He") as "[[%Ey [%t Hbev]] He]"; [exact Hy|exact Hk|].
  injection Ey as <-. iDestruct ("He" with "[Hbev]") as "He".
  { iSplitR; [done|]. iExists t. iFrame. }
  wp_unbind. iApply (wp_wand with "[Hc He]").
  { iApply (queue_reject at_bev id match_bufferevent c_match_bufferevent bev c (bevs r) (Z.of_nat k)
      bev (Zpos bev) l c' Rc); [by rewrite list_fmap_id|exact Ec| | |].
    - intros b. unfold match_bufferevent. case_Z; simpl; split; congruence.
    - iIntros (locs' l' x' b' j Hx' Hl' Hxj Hlj) "He". unfold c_match_bufferevent.
      iDestruct (elems_acc_same with "He") as "[[%Eb Hbev] He]"; [exact Hxj|exact Hlj|].
      iApply wp_ret. iSplitR; [|iApply "He"; by iFrame]. iPureIntro. unfold match_bufferevent. f_equal.
      rewrite Eb. case_bool_decide; case_Z; congruence.
    - iExists cl, locs, l. iFrame. iPureIntro. rewrite Nat2Z.id. split; [done|]. split; [lia|done]. }
  iIntros (b) "(%cl' & Hc & [_ [%t' Hbev]] & Hb)". wp_call c_carray_free_ok with "[Hc]". iIntros (_) "_".
  wp_wr "Hx". wp_fr "Hbev". iExists ls, b. iFrame.
Qed.

Lemma c_tcp_receiver_free_ok x r :
  indexable (bevs r) → at_receiver x r ⊢ wp (c_tcp_receiver_free x) (λ _, emp).
Proof.
  iIntros (Hi) "(%l & %c & Hx & Hl & Hc)". unfold c_tcp_receiver_free. wp_rd "Hx". simpl.
  wp_unbind. iApply (wp_wand with "[Hc]").
  { iApply (queue_drain_loop at_bev); [done| |done]. iIntros (y b) "[_ [%t Hb]]". by wp_fr "Hb". }
  iIntros (_) "[%cl Hc]". wp_fr "Hl". wp_call c_carray_free_ok with "[Hc]". iIntros (_) "_". by wp_fr "Hx".
Qed.

(** *** Connections come and go *)

(** What libevent calls: a connection is accepted, or the [i]th one breaks. *)
Inductive c_client_event : Type :=
  | CAccepted
  | CBroken (i : nat) (eof : bool).

Definition c_client_step (r : loc) (e : c_client_event) : cmdb () :=
  match e with
  | CAccepted => c_on_accept r ;; mret tt
  | CBroken i eof =>
      s ← read_as as_receiver r;
      n ← c_carray_count (ctr_bevs s);
      if Z.of_nat i <? n then
        x ← c_carray_at (ctr_bevs s) (Z.of_nat i);
        bev ← pureC (deref x);
        c_on_error r bev eof
      else mret tt
  end.

(** The same on the value; [b] is the connection libevent made. *)
Definition client_step (r : tcp_receiver) (e : c_client_event) (b : bufferevent) : res tcp_receiver :=
  match e with
  | CAccepted => on_accept r b
  | CBroken i eof =>
      if Z.of_nat i <? carray_count (bevs r) then
        x ← carray_at (bevs r) (Z.of_nat i);
        b ← deref x;
        on_error r b eof
      else Ret r
  end.

(** A receiver with at most [M] connections. *)
Definition receiver_ok (M : Z) (r : tcp_receiver) : Prop :=
  ca_size (bevs r) ≤ 2 ^ 29 ∧ ∃ l, carray_rep (bevs r) l ∧ Z.of_nat (length l) ≤ M.

Definition at_clients (x : loc) (M : Z) : mprop :=
  (∃ r, <affine> ⌜receiver_ok M r⌝ ∗ at_receiver x r)%I.

Lemma receiver_ok_mono M M' r : receiver_ok M r → M ≤ M' → receiver_ok M' r.
Proof. intros (Hs & l & R & Hl) HM. split; [done|]. exists l. split; [done|lia]. Qed.

Lemma receiver_ok_step M r e :
  0 ≤ M < 2 ^ 28 → receiver_ok M r → ∃ r', step r e = Ret r' ∧ receiver_ok (M + 1) r'.
Proof.
  intros HM (Hs & l & R & Hl). destruct (step_ok r l e R) as (r' & E & R' & S'); [lia..|]. exists r'.
  split; [done|]. split; [lia|]. exists (open_after l e). split; [done|].
  destruct e as [b|b [|]]; simpl; [rewrite length_app; simpl; lia| |lia].
  pose proof (length_filter (λ b', b' ≠ b) l). lia.
Qed.

(** The connection at an index, which can be written to. *)
Lemma queue_bev_at c q k o :
  0 ≤ k < carray_count q → carray_at q k = Ret o →
  queue at_bev c q ⊢ wp (c_carray_at c k) (λ r, ∃ y t, <affine> ⌜r = Some y ∧ o = Some (Zpos y)⌝ ∗
    y ↦ BBev t ∗ (y ↦ BBev t -∗ queue at_bev c q)).
Proof.
  iIntros (Hk E) "Hc". iApply (wp_wand with "[Hc]"); [by iApply (queue_at at_bev with "Hc")|].
  iIntros (r) "(%y & %b & %Eo & Hc)". destruct Eo as [-> ->].
  iDestruct (focus_acc with "Hc") as "[[%Ey [%t Hy]] [_ Hc]]". subst b. iExists y, t. iFrame "Hy".
  iSplitR; [done|]. iIntros "Hy". iApply focus_queue. iApply "Hc". iSplitR; [done|]. by iExists t.
Qed.

(** Connections are objects of their own. *)
Lemma bev_fresh x t locs l : x ↦ BBev t ∗ elems at_bev locs l ⊢ ⌜Zpos x ∉ l⌝.
Proof.
  iIntros "[Hx He]". iInduction l as [|b l] "IH" forall (locs); [iPureIntro; apply not_elem_of_nil|].
  destruct locs as [|y locs]; [by iDestruct (elems_length with "He") as (?) "He"|].
  iDestruct "He" as "[[-> [%t' Hy]] He]".
  iDestruct (pointsto_ne with "[$Hx $Hy]") as %Hne.
  iDestruct ("IH" with "Hx He") as %Hl. iPureIntro. apply not_elem_of_cons. split; [congruence|done].
Qed.

Lemma bevs_nodup locs l : elems at_bev locs l ⊢ ⌜NoDup l⌝.
Proof.
  iIntros "He". iInduction l as [|b l] "IH" forall (locs); [iPureIntro; apply NoDup_nil_2|].
  destruct locs as [|y locs]; [by iDestruct (elems_length with "He") as (?) "He"|].
  iDestruct "He" as "[[-> [%t Hy]] He]".
  iDestruct (bev_fresh with "[$Hy $He]") as %Hb. iDestruct ("IH" with "He") as %Hl.
  iPureIntro. by apply NoDup_cons.
Qed.

Lemma c_client_event_ok x r e M :
  0 ≤ M < 2 ^ 28 → receiver_ok M r →
  at_receiver x r ⊢ wp (c_client_step x e) (λ _, ∃ b r',
    <affine> ⌜client_step r e b = Ret r' ∧ receiver_ok (M + 1) r'⌝ ∗ at_receiver x r').
Proof.
  iIntros (HM Hok) "Hx". pose proof (λ ev, receiver_ok_step M r ev HM Hok) as Hstep.
  destruct Hok as (Hs & l & R & Hl). destruct e as [|i eof]; simpl.
  - wp_unbind. iApply (wp_wand with "[Hx]").
    { iApply (c_on_accept_ok with "Hx"). intros b. destruct (Hstep (Accept b)) as (r' & E & _). eauto. }
    iIntros (b) "(%r' & %E & Hx)". destruct (Hstep (Accept (Zpos b))) as (r2 & E2 & H2).
    assert (r2 = r') as -> by (simpl in E2; congruence). iApply wp_ret. iExists (Zpos b), r'. by iFrame.
  - iDestruct "Hx" as "(%ls & %c & Hx & Hls & Hc)". wp_rd "Hx". cbn [ctr_bevs]. wp_unbind.
    iApply (queue_count at_bev). iFrame "Hc". iIntros "Hc". unfold carray_count. rewrite (rep_count _ _ R).
    destruct (Z.ltb_spec (Z.of_nat i) (Z.of_nat (length l))) as [Hi|].
    2:{ iApply wp_ret. iExists 0, r. iSplitR; [|iExists ls, c; iFrame]. iPureIntro. split; [done|].
        split; [done|]. exists l. split; [done|lia]. }
    assert (indexable (bevs r)) as Hx by (unfold indexable; lia).
    pose proof (carray_at_ok _ _ (Z.of_nat i) R Hx ltac:(lia)) as Eat. wp_unbind. iApply (wp_wand with "[Hc]").
    { iApply (queue_at at_bev with "Hc"); [unfold carray_count; rewrite (rep_count _ _ R); lia|exact Eat]. }
    iIntros (o) "(%y & %b & %Eo & %cl & %locs & %l' & Hc & He & %HQ)".
    destruct Eo as [-> Eb], HQ as (Q & _ & Hy & Hb). wp_p.
    assert (l' = l) as -> by (rewrite -(rep_contents _ _ R); symmetry; apply rep_contents, Q).
    iDestruct (bevs_nodup with "He") as %U.
    iDestruct (elems_acc_same with "He") as "[[%Ey Hbev] He]"; [exact Hy|exact Hb|].
    subst b. iDestruct ("He" with "[$Hbev //]") as "He". destruct (Hstep (Error (Zpos y) eof)) as (r' & E & H').
    iApply (wp_wand with "[Hx Hls Hc He]").
    { iApply (c_on_error_ok x r l); [done|done|by eapply list_elem_of_lookup_2|exact E|].
      iExists ls, c. iFrame "Hx Hls". iExists cl, locs, l. by iFrame. }
    iIntros (_) "Hx". iExists 0, r'. iFrame. iPureIntro. split; [|done]. rewrite Eat Eb. exact E.
Qed.

Lemma c_client_step_ok x e M :
  0 ≤ M < 2 ^ 28 → at_clients x M ⊢ wp (c_client_step x e) (λ _, at_clients x (M + 1)).
Proof.
  iIntros (HM) "(%r & %Hok & Hx)". iApply (wp_wand with "[Hx]"); [by iApply c_client_event_ok|].
  iIntros (_) "(%b & %r' & [_ %Hok'] & Hx)". iExists r'. by iFrame.
Qed.

Lemma clients_mono x M M' : M ≤ M' → at_clients x M ⊢ at_clients x M'.
Proof.
  iIntros (HM) "(%r & %Hok & Hx)". iExists r. iFrame. iPureIntro. by eapply receiver_ok_mono.
Qed.

Lemma receiver_free x M r : receiver_ok M r → at_receiver x r ⊢ wp (c_tcp_receiver_free x) (λ _, emp).
Proof. intros [Hs _]. apply c_tcp_receiver_free_ok. unfold indexable. lia. Qed.

Lemma clients_free x M : at_clients x M ⊢ wp (c_tcp_receiver_free x) (λ _, emp).
Proof. iIntros "(%r & %Hok & Hx)". by iApply (receiver_free with "Hx"). Qed.

Lemma receiver_new a : ∃ r, tcp_receiver_new a true = Ret r ∧ receiver_ok 0 r.
Proof.
  unfold tcp_receiver_new. destruct (carray_new (A:=bufferevent) 10) as [c|] eqn:E; [|done].
  destruct (rep_new 10 c) as (R & Hs & _); [by vm_compute|done|]. eexists. split; [done|].
  split; [simpl; lia|]. by exists [].
Qed.

Lemma clients_new a : ⊢ wp (c_tcp_receiver_new a true) (λ x, at_clients x 0).
Proof.
  destruct (receiver_new a) as (r & E & Hok). iApply (wp_wand with "[]"); [by iApply c_tcp_receiver_new_ok|].
  iIntros (x) "Hx". iExists r. by iFrame.
Qed.

End receiver.

(** ** peers.c *)

Section peers.
Import Peers.

Definition c_connect_peer (x : loc) : cmdb () :=
  p ← read_as as_peer x;
  s ← read_as as_string (cpe_string p);
  read_as as_bev (cpe_bev p) ;;
  write (cpe_bev p) (BBev (Some (Sockaddr (inet_addr s) (htons (cpe_port p))))).

Definition c_make_peer (a : address) : cmdb loc :=
  s ← alloc (BString (address_string a));
  ev ← alloc (BTimer false);
  bev ← alloc (BBev None);
  x ← alloc (BPeer (CPeer s (port a) bev ev));
  c_connect_peer x ;;
  mret x.

Definition c_free_peer (x : loc) : cmdb () :=
  p ← read_as as_peer x;
  free (cpe_bev p) ;;
  free (cpe_reconnect_ev p) ;;
  free (cpe_string p) ;;
  free x.

Definition c_peers_new : cmdb loc := alloc (BPeers (CPeers 0 None)).

(** [realloc(p->peers, ...)] to one more element *)
Definition c_grow_peers (array : option loc) : cmdb loc :=
  match array with
  | None => alloc (BSlots [None])
  | Some old =>
      l ← read_as as_slots old;
      new ← alloc (BSlots (l ++ [None]));
      free old ;;
      mret new
  end.

Definition c_peers_connect (p : loc) (a : address) : cmdb () :=
  s ← read_as as_peers p;
  arr ← c_grow_peers (cps_peers s);
  write p (BPeers (CPeers (cps_count s) (Some arr))) ;;
  x ← c_make_peer a;
  l ← read_as as_slots arr;
  l ← pureC (arr_set l (cps_count s) (Some x));
  write arr (BSlots l) ;;
  write p (BPeers (CPeers (cps_count s + 1) (Some arr))).

Definition c_peers_count (p : loc) : cmdb Z := s ← read_as as_peers p; mret (cps_count s).

(** [p->peers[i]] *)
Definition c_get_peer (p : loc) (i : Z) : cmdb loc :=
  s ← read_as as_peers p;
  arr ← pureC (deref (cps_peers s));
  l ← read_as as_slots arr;
  x ← pureC (arr_get l i);
  pureC (read_slot x).

Definition c_peers_get_buffer (p : loc) (i : Z) : cmdb loc :=
  x ← c_get_peer p i;
  y ← read_as as_peer x;
  mret (cpe_bev y).

Definition c_peers_free (p : loc) : cmdb () :=
  n ← c_peers_count p;
  cfor_to n (λ i _, x ← c_get_peer p i; c_free_peer x) tt ;;
  s ← read_as as_peers p;
  (if 0 <? cps_count s then arr ← pureC (deref (cps_peers s)); free arr else mret tt) ;;
  free p.

(** The log line reads the address. *)
Definition c_on_socket_event (x : loc) (connected broken : bool) : cmdb () :=
  if connected then p ← read_as as_peer x; read_as as_string (cpe_string p) ;; mret tt
  else if broken then
    p ← read_as as_peer x;
    read_as as_bev (cpe_bev p) ;;
    free (cpe_bev p) ;;
    bev ← alloc (BBev None);
    write x (BPeer (CPeer (cpe_string p) (cpe_port p) bev (cpe_reconnect_ev p))) ;;
    write (cpe_reconnect_ev p) (BTimer true)
  else mret tt.

(** The timer has run out. *)
Definition c_on_connection_timeout (x : loc) : cmdb () :=
  p ← read_as as_peer x;
  write (cpe_reconnect_ev p) (BTimer false) ;;
  c_connect_peer x.

(** What libevent calls for the peer at [x]: [connected] and [broken] are bits of
the event; the timer only runs out when it is running. *)
Inductive c_peer_event : Type :=
  | CSocket (connected broken : bool)
  | CTimer.

Definition c_peer_step (x : loc) (e : c_peer_event) : cmdb () :=
  match e with
  | CSocket connected broken => c_on_socket_event x connected broken
  | CTimer =>
      p ← read_as as_peer x;
      t ← read_as as_timer (cpe_reconnect_ev p);
      if (t : bool) then c_on_connection_timeout x else mret tt
  end.

(** The [i]th peer, if there is one. *)
Definition c_peers_step (p : loc) (i : nat) (e : c_peer_event) : cmdb () :=
  n ← c_peers_count p;
  if Z.of_nat i <? n then x ← c_get_peer p (Z.of_nat i); c_peer_step x e else mret tt.

Definition c_send_each (n : Z) (get : Z → cmdb loc) (m : message) : cmdb sends :=
  cfor_to n (λ i out, bev ← get i; read_as as_bev bev ;; mret (out ++ [(Zpos bev, m)])) [].

(** *** Their memory *)

Definition at_peer (x : loc) (y : peer) : mprop :=
  (∃ s ev b, <affine> ⌜bev y = Zpos b⌝ ∗ x ↦ BPeer (CPeer s (port (addr y)) b ev) ∗
     s ↦ BString (address_string (addr y)) ∗ b ↦ BBev (target y) ∗ ev ↦ BTimer (pending y))%I.

Definition at_array (arr : option loc) (locs : list loc) : mprop :=
  match arr with
  | Some a => (a ↦ BSlots (Some <$> locs))%I
  | None => (<affine> ⌜locs = []⌝)%I
  end.

Definition at_peers (p : loc) (ps : peers) : mprop :=
  (∃ arr locs, p ↦ BPeers (CPeers (count ps) arr) ∗ at_array arr locs ∗
     <affine> ⌜count ps = Z.of_nat (length (array ps)) ∧ (locs = [] → arr = None)⌝ ∗
     elems at_peer locs (array ps))%I.

Lemma c_connect_peer_ok x y : at_peer x y ⊢ wp (c_connect_peer x) (λ _, at_peer x (connect_peer y)).
Proof.
  iIntros "(%s & %ev & %b & %Eb & Hx & Hs & Hb & Hev)". unfold c_connect_peer. wp_rd "Hx". simpl.
  wp_rd "Hs". wp_rd "Hb". wp_wr "Hb". iExists s, ev, b. iFrame. done.
Qed.

Lemma c_make_peer_ok a : ⊢ wp (c_make_peer a) (λ x, ∃ nb, at_peer x (make_peer a nb)).
Proof.
  unfold c_make_peer. wp_new s "Hs". wp_new ev "Hev". wp_new b "Hb". wp_new x "Hx".
  wp_unbind. iApply (wp_wand with "[-]").
  { iApply (c_connect_peer_ok x (Peer a (Zpos b) None false)). iExists s, ev, b. iFrame. done. }
  iIntros (_) "Hx". iApply wp_ret. iExists (Zpos b). iFrame.
Qed.

Lemma c_free_peer_ok x y : at_peer x y ⊢ wp (c_free_peer x) (λ _, emp).
Proof.
  iIntros "(%s & %ev & %b & %Eb & Hx & Hs & Hb & Hev)". unfold c_free_peer. wp_rd "Hx". simpl.
  wp_fr "Hb". wp_fr "Hev". wp_fr "Hs". by wp_fr "Hx".
Qed.

Lemma c_peers_new_ok : ⊢ wp c_peers_new (λ p, at_peers p peers_new).
Proof.
  unfold c_peers_new. iApply wp_alloc. iIntros (p) "Hp". iExists None, []. iFrame. simpl.
  unfold elems. simpl. done.
Qed.

Lemma c_grow_peers_ok arr locs :
  at_array arr locs ⊢ wp (c_grow_peers arr) (λ a, a ↦ BSlots ((Some <$> locs) ++ [None])).
Proof.
  iIntros "Ha". destruct arr as [old|]; simpl.
  - wp_rd "Ha". wp_new a "Hn". wp_fr "Ha". by iApply wp_ret.
  - iDestruct "Ha" as "->". iApply wp_alloc. by iIntros (a) "$".
Qed.

Lemma c_peers_connect_ok p ps a :
  at_peers p ps ⊢ wp (c_peers_connect p a) (λ _, ∃ nb, at_peers p (peers_connect ps a nb)).
Proof.
  iIntros "(%arr & %locs & Hp & Ha & [%Hc %Hn] & He)". iDestruct (elems_length with "He") as (Hlen) "He".
  unfold c_peers_connect. wp_rd "Hp". simpl. wp_unbind.
  iApply (wp_wand with "[Ha]"); [by iApply c_grow_peers_ok|]. iIntros (b) "Hb". wp_wr "Hp". wp_unbind.
  iApply (wp_wand with "[]"); [iApply c_make_peer_ok|]. iIntros (x) "[%nb Hx]". wp_rd "Hb".
  assert (arr_set ((Some <$> locs) ++ [None]) (count ps) (Some x) = Ret (Some <$> (locs ++ [x]))) as E.
  { rewrite arr_set_ok; [|rewrite length_app length_fmap /=; lia]. f_equal. rewrite fmap_app /=.
    rewrite insert_app_r_alt; rewrite length_fmap; [|lia]. by replace (_ - _)%nat with 0%nat by lia. }
  wp_pure E. wp_wr "Hb". iApply wp_write. iFrame "Hp". iIntros "Hp". iExists nb, (Some b), (locs ++ [x]).
  iFrame "Hp Hb". iSplitR; [iPureIntro; simpl; rewrite length_app /=; split; [lia|by destruct locs]|].
  iApply elems_snoc. iFrame.
Qed.

Lemma c_get_peer_ok p ps i y :
  array ps !! i = Some y →
  at_peers p ps ⊢ wp (c_get_peer p (Z.of_nat i)) (λ x, at_peer x y ∗
    (∀ y', at_peer x y' -∗ at_peers p (PeersOf (count ps) (<[i := y']> (array ps))))).
Proof.
  iIntros (Hy) "(%arr & %locs & Hp & Ha & [%Hc %Hn] & He)".
  iDestruct (elems_length with "He") as (Hlen) "He". pose proof (lookup_lt_Some _ _ _ Hy).
  destruct (lookup_lt_is_Some_2 locs i) as [x Hx]; [lia|].
  unfold c_get_peer. wp_rd "Hp". simpl. destruct arr as [b|]; simpl; [|iDestruct "Ha" as "->"; done].
  assert (arr_get (Some <$> locs) (Z.of_nat i) = Ret (Some x)) as E.
  { apply arr_get_ok; [lia|]. by rewrite Nat2Z.id list_lookup_fmap Hx. }
  wp_p. wp_rd "Ha". wp_pure E. simpl. iApply wp_pureC; [done|].
  iDestruct (elems_acc with "He") as "[$ He]"; [done..|]. iIntros (y') "Hy".
  iExists (Some b), locs. iFrame "Hp Ha". iSplitR; [iPureIntro; simpl; by rewrite length_insert|].
  by iApply "He".
Qed.

Lemma c_peers_count_ok p ps (Φ : Z → mprop) :
  at_peers p ps ∗ (at_peers p ps -∗ Φ (count ps)) ⊢ wp (c_peers_count p) Φ.
Proof.
  iIntros "[(%arr & %locs & Hp & H) HΦ]". unfold c_peers_count. wp_rd "Hp". iApply wp_ret.
  iApply "HΦ". iExists arr, locs. iFrame.
Qed.

Lemma peers_id ps : PeersOf (count ps) (array ps) = ps.
Proof. by destruct ps. Qed.

Lemma c_peers_get_buffer_ok p ps i y :
  array ps !! i = Some y →
  at_peers p ps ⊢ wp (c_peers_get_buffer p (Z.of_nat i)) (λ b, <affine> ⌜bev y = Zpos b⌝ ∗
    ∃ t, b ↦ BBev t ∗ (b ↦ BBev t -∗ at_peers p ps)).
Proof.
  iIntros (Hy) "Hp". unfold c_peers_get_buffer. wp_unbind.
  iApply (wp_wand with "[Hp]"); [by iApply c_get_peer_ok|].
  iIntros (x) "[(%s & %ev & %b & %Eb & Hx & Hs & Hb & Hev) Hp]". wp_rd "Hx". iApply wp_ret. simpl.
  iSplitR; [done|]. iExists _. iFrame "Hb". iIntros "Hb".
  iSpecialize ("Hp" $! y with "[-]"); [iExists s, ev, b; by iFrame|].
  by rewrite list_insert_id // peers_id.
Qed.

(** A broadcast. *)
Lemma c_send_each_ok p ps m :
  count ps = Z.of_nat (length (array ps)) →
  at_peers p ps ⊢ wp (c_send_each (count ps) (c_peers_get_buffer p) m) (λ out,
    <affine> ⌜send_each (peers_count ps) (peers_get_buffer ps) m = Ret out⌝ ∗ at_peers p ps).
Proof.
  iIntros (Hc) "Hp". iApply (wp_wand with "[Hp]").
  { iApply (wp_for_to (λ k out, <affine> ⌜out = (λ x, (bev x, m)) <$> take (Z.to_nat k) (array ps)⌝ ∗
      at_peers p ps)%I); [lia| |by iFrame].
    iIntros (k out Hk) "[-> Hp]".
    destruct (lookup_lt_is_Some_2 (array ps) (Z.to_nat k)) as [y Hy]; [lia|]. wp_unbind.
    iApply (wp_wand with "[Hp]").
    { pose proof (c_peers_get_buffer_ok p ps _ _ Hy) as Hg. rewrite Z2Nat.id in Hg; [|lia]. by iApply Hg. }
    iIntros (b) "(%Eb & %t & Hb & Hp)". wp_rd "Hb". iApply wp_ret. iSplitR; [|by iApply "Hp"].
    iPureIntro. rewrite Z2Nat.inj_add ?Nat.add_1_r; [|lia..].
    by rewrite (take_S_r _ _ _ Hy) fmap_app /= Eb. }
  iIntros (out) "[-> $]". iPureIntro. rewrite Hc Nat2Z.id take_ge //.
  rewrite (send_each_ok _ _ _ (bev <$> array ps)).
  - by rewrite -list_fmap_compose.
  - unfold peers_count. by rewrite Hc length_fmap.
  - intros i b Hb. apply list_lookup_fmap_Some in Hb as (x & -> & E). unfold peers_get_buffer.
    rewrite (arr_get_ok _ _ x); [done|lia|]. by rewrite Nat2Z.id.
Qed.

Lemma c_on_socket_event_ok x y connected broken :
  at_peer x y ⊢ wp (c_on_socket_event x connected broken) (λ _, ∃ nb,
    at_peer x (on_socket_event y connected broken nb)).
Proof.
  iIntros "(%s & %ev & %b & %Eb & Hx & Hs & Hb & Hev)". unfold c_on_socket_event.
  destruct connected; [|destruct broken].
  - wp_rd "Hx". simpl. wp_rd "Hs". iApply wp_ret. iExists 0, s, ev, b. by iFrame.
  - wp_rd "Hx". simpl. wp_rd "Hb". wp_fr "Hb". wp_new b' "Hb". wp_wr "Hx". iApply wp_write. iFrame "Hev".
    iIntros "Hev". iExists (Zpos b'), s, ev, b'. by iFrame.
  - iApply wp_ret. iExists 0, s, ev, b. by iFrame.
Qed.

(** The event of [Net], when libevent made the connection [nb]. *)
Definition event_of (e : c_peer_event) (nb : bufferevent) : peer_event :=
  match e with CSocket connected broken => Socket connected broken nb | CTimer => Timer end.

Lemma c_peer_step_ok x y e :
  at_peer x y ⊢ wp (c_peer_step x e) (λ _, ∃ nb, at_peer x (peer_step y (event_of e nb))).
Proof.
  iIntros "Hx". destruct e as [connected broken|]; simpl; [by iApply c_on_socket_event_ok|].
  iDestruct "Hx" as "(%s & %ev & %b & %Eb & Hx & Hs & Hb & Hev)". wp_rd "Hx". simpl. wp_rd "Hev".
  destruct (pending y) eqn:Ep.
  - unfold c_on_connection_timeout. wp_rd "Hx". simpl. wp_wr "Hev".
    iApply (wp_wand with "[-]").
    { iApply (c_connect_peer_ok x (Peer (addr y) (bev y) (target y) false)). iExists s, ev, b. by iFrame. }
    iIntros (_) "Hx". iExists 0. iFrame.
  - iApply wp_ret. iExists 0, s, ev, b. rewrite Ep. by iFrame.
Qed.

Lemma c_peers_step_ok p ps i e :
  count ps = Z.of_nat (length (array ps)) →
  at_peers p ps ⊢ wp (c_peers_step p i e) (λ _, ∃ nb, at_peers p (peers_step ps i (event_of e nb))).
Proof.
  iIntros (Hc) "Hp". unfold c_peers_step, peers_step. wp_unbind. iApply c_peers_count_ok. iFrame "Hp".
  iIntros "Hp". rewrite Hc. destruct (Z.ltb_spec (Z.of_nat i) (Z.of_nat (length (array ps)))).
  - destruct (lookup_lt_is_Some_2 (array ps) i) as [y Hy]; [lia|]. rewrite Hy. wp_unbind.
    iApply (wp_wand with "[Hp]"); [by iApply c_get_peer_ok|]. iIntros (x) "[Hx Hp]".
    iApply (wp_wand with "[Hx]"); [by iApply c_peer_step_ok|]. iIntros (_) "[%nb Hx]". iExists nb.
    rewrite -Hc. by iApply "Hp".
  - rewrite lookup_ge_None_2; [|lia]. iApply wp_ret. iExists 0. done.
Qed.

Lemma c_peers_free_ok p ps :
  at_peers p ps ⊢ wp (c_peers_free p) (λ _, emp).
Proof.
  iIntros "Hp". unfold c_peers_free. wp_unbind. iApply c_peers_count_ok. iFrame "Hp".
  iIntros "(%arr & %locs & Hp & Ha & [%Hc %Hn] & He)". iDestruct (elems_length with "He") as (Hlen) "He".
  wp_unbind. iApply (wp_wand with "[Hp Ha He]").
  { iApply (wp_for_to (λ k _, p ↦ BPeers (CPeers (count ps) arr) ∗ at_array arr locs ∗
      elems at_peer (drop (Z.to_nat k) locs) (drop (Z.to_nat k) (array ps)))%I); [lia| |iFrame].
    iIntros (k _ Hk) "(Hp & Ha & He)".
    destruct (lookup_lt_is_Some_2 (array ps) (Z.to_nat k)) as [y Hy]; [lia|].
    destruct (lookup_lt_is_Some_2 locs (Z.to_nat k)) as [x Hx]; [lia|].
    unfold c_get_peer. rewrite (drop_S _ _ _ Hx) (drop_S _ _ _ Hy). unfold elems at 1. simpl.
    iDestruct "He" as "[Hx He]". wp_unbind. wp_rd "Hp". simpl.
    destruct arr as [b|]; simpl; [|iDestruct "Ha" as "->"; done].
    assert (arr_get (Some <$> locs) k = Ret (Some x)) as E.
    { apply arr_get_ok; [lia|]. by rewrite list_lookup_fmap Hx. }
    wp_p. wp_rd "Ha". wp_pure E. simpl. wp_p.
    iApply (wp_wand with "[Hx]"); [by iApply c_free_peer_ok|]. iIntros (_) "_". iFrame.
    by rewrite Z2Nat.inj_add ?Nat.add_1_r; [|lia..]. }
  iIntros (_) "(Hp & Ha & He)". rewrite Hc Nat2Z.id !drop_ge; [|lia..]. unfold elems. simpl.
  iDestruct "He" as "_". wp_rd "Hp". simpl. wp_unbind. destruct arr as [b|]; simpl.
  - assert (locs ≠ []) as Hne by (intros E; by apply Hn in E).
    destruct (Z.ltb_spec 0 (Z.of_nat (length (array ps)))) as [|Hz].
    + wp_p. wp_fr "Ha". by wp_fr "Hp".
    + destruct locs; [done|]. simpl in Hlen. lia.
  - iDestruct "Ha" as "->". simpl in Hlen. rewrite -Hlen. simpl. iApply wp_ret. by wp_fr "Hp".
Qed.

End peers.
