(* ===== verification/MemConfig.v ===== *)
(** * The configuration on the heap (src/evpaxos/config_reader.c)

A [struct config] with a string per address ([at_config]): the loop with which
the nodes connect to the acceptors in it, and [free_config].  How the file is
read into it is [Config]'s; its memory is not modelled. *)

From S2P Require Import Prelude Heap Config Net Memory MemQueue MemCarray MemConns.
#[local] Open Scope Z_scope.
Import Peers.

(** [&c->acceptors[i]], with its string. *)
Definition c_load_address (l : list c_address) (i : Z) : cmdb address :=
  a ← pureC (arr_get l i);
  s ← pureC (deref (cad_string a));
  str ← read_as as_string s;
  mret (Address str (cad_port a)).

(** [free(NULL)] does nothing. *)
Definition c_address_free (a : c_address) : cmdb () :=
  match cad_string a with Some s => free s | None => mret tt end.

Definition c_free_addresses (n : Z) (l : list c_address) : cmdb () :=
  cfor_to n (λ i _, a ← pureC (arr_get l i); c_address_free a) tt.

Definition c_free_config (c : loc) : cmdb () :=
  s ← read_as as_config c;
  c_free_addresses (ccf_proposers_count s) (ccf_proposers s) ;;
  c_free_addresses (ccf_acceptors_count s) (ccf_acceptors s) ;;
  free c.

(** The loop of [evlearner_init_conf] and [evproposer_init]. *)
Definition c_connect_acceptors (c ps : loc) : cmdb () :=
  s ← read_as as_config c;
  cfor_to (ccf_acceptors_count s) (λ i _,
    a ← c_load_address (ccf_acceptors s) i;
    c_peers_connect ps a) tt.

Definition at_string (s : loc) (a : address) : mprop := (s ↦ BString (address_string a))%I.

Definition c_address_of (s : loc) (a : address) : c_address := CAddress (Some s) (port a).

(** The first entries of [arr] are the addresses [l]. *)
Definition at_addresses (arr : list c_address) (l : list address) : mprop :=
  (∃ strs rest, <affine> ⌜arr = zip_with c_address_of strs l ++ rest⌝ ∗ elems at_string strs l)%I.

Definition at_config (c : loc) (acs pcs : list address) : mprop :=
  (∃ pl al, c ↦ BConfig (CConfig (Z.of_nat (length pcs)) (Z.of_nat (length acs)) pl al) ∗
     at_addresses pl pcs ∗ at_addresses al acs)%I.

Lemma addresses_at strs l rest k s a :
  strs !! k = Some s → l !! k = Some a →
  arr_get (zip_with c_address_of strs l ++ rest) (Z.of_nat k) = Ret (c_address_of s a).
Proof.
  intros Hs Ha. apply arr_get_ok; [lia|]. rewrite Nat2Z.id lookup_app_l.
  - rewrite lookup_zip_with Hs /= Ha. done.
  - rewrite length_zip_with. apply lookup_lt_Some in Hs, Ha. lia.
Qed.

Lemma c_load_address_ok arr l k a :
  l !! k = Some a →
  at_addresses arr l ⊢ wp (c_load_address arr (Z.of_nat k)) (λ b, <affine> ⌜b = a⌝ ∗ at_addresses arr l).
Proof.
  iIntros (Ha) "(%strs & %rest & -> & He)". iDestruct (elems_length with "He") as (Hlen) "He".
  pose proof (lookup_lt_Some _ _ _ Ha). destruct (lookup_lt_is_Some_2 strs k) as [s Hs]; [lia|].
  unfold c_load_address. wp_pure (addresses_at _ _ rest _ _ _ Hs Ha). wp_p.
  iDestruct (elems_acc_same with "He") as "[Hstr He]"; [done..|]. unfold at_string at 1. wp_rd "Hstr".
  iApply wp_ret. iSplitR; [by destruct a|]. iExists strs, rest. iSplitR; [done|]. by iApply "He".
Qed.

Lemma c_free_addresses_ok arr l :
  at_addresses arr l ⊢ wp (c_free_addresses (Z.of_nat (length l)) arr) (λ _, emp).
Proof.
  iIntros "(%strs & %rest & -> & He)". iDestruct (elems_length with "He") as (Hlen) "He".
  iApply (wp_wand with "[He]").
  { iApply (wp_for_to (λ k _, elems at_string (drop (Z.to_nat k) strs) (drop (Z.to_nat k) l))%I);
      [lia| |done]. iIntros (k _ Hk) "He".
    destruct (lookup_lt_is_Some_2 l (Z.to_nat k)) as [a Ha]; [lia|].
    destruct (lookup_lt_is_Some_2 strs (Z.to_nat k)) as [s Hs]; [lia|].
    pose proof (addresses_at _ _ rest _ _ _ Hs Ha) as E. rewrite Z2Nat.id in E; [|lia]. wp_pure E.
    rewrite (drop_S _ _ _ Hs) (drop_S _ _ _ Ha). unfold elems at 1. simpl.
    iDestruct "He" as "[Hs He]". unfold at_string at 1. wp_fr "Hs".
    by rewrite Z2Nat.inj_add ?Nat.add_1_r; [|lia..]. }
  iIntros (_) "He". rewrite Nat2Z.id !drop_ge; [|lia..]. unfold elems. simpl. done.
Qed.

Lemma c_free_config_ok c acs pcs : at_config c acs pcs ⊢ wp (c_free_config c) (λ _, emp).
Proof.
  iIntros "(%pl & %al & Hc & Hp & Ha)". unfold c_free_config. wp_rd "Hc". simpl.
  wp_call c_free_addresses_ok with "[Hp]". iIntros (_) "_".
  wp_call c_free_addresses_ok with "[Ha]". iIntros (_) "_". by wp_fr "Hc".
Qed.

Lemma c_connect_acceptors_ok c p acs pcs :
  at_config c acs pcs ∗ at_peers p peers_new ⊢ wp (c_connect_acceptors c p) (λ _,
    at_config c acs pcs ∗ ∃ ps, <affine> ⌜peers_ok ps acs⌝ ∗ at_peers p ps).
Proof.
  iIntros "[(%pl & %al & Hc & Hpl & Hal) Hp]". unfold c_connect_acceptors. wp_rd "Hc". simpl.
  iApply (wp_wand with "[Hp Hal]").
  { iApply (wp_for_to (λ k _, at_addresses al acs ∗ ∃ ps,
      <affine> ⌜peers_ok ps (take (Z.to_nat k) acs)⌝ ∗ at_peers p ps)%I); [lia| |].
    - iIntros (k _ Hk) "[Hal (%ps & %Hok & Hp)]".
      destruct (lookup_lt_is_Some_2 acs (Z.to_nat k)) as [a Ha]; [lia|]. wp_unbind.
      iApply (wp_wand with "[Hal]").
      { pose proof (c_load_address_ok al acs _ _ Ha) as Hl. rewrite Z2Nat.id in Hl; [|lia]. by iApply Hl. }
      iIntros (b) "[-> Hal]". iApply (wp_wand with "[Hp]"); [by iApply c_peers_connect_ok|].
      iIntros (_) "[%nb Hp]". iFrame "Hal". iExists _. iFrame "Hp". iPureIntro.
      rewrite Z2Nat.inj_add ?Nat.add_1_r; [|lia..]. rewrite (take_S_r _ _ _ Ha). by apply peers_connect_ok.
    - iFrame. iPureIntro. by split. }
  iIntros (_) "[Hal (%ps & %Hok & Hp)]". rewrite Nat2Z.id take_ge in Hok; [|lia].
  iSplitR "Hp"; [iExists pl, al; iFrame|]. iExists ps. by iFrame.
Qed.

(** ** An example: three acceptors and a proposer *)

Definition three_addrs : list address := [Address "a" 8800; Address "b" 8801; Address "c" 8802].
Definition one_addr : list address := [Address "p" 5550].

Definition three_config : config :=
  Config 1 3 (one_addr ++ replicate 9 no_address) (three_addrs ++ replicate 7 no_address).

Lemma three_config_rep : config_rep three_config three_addrs one_addr.
Proof. by split. Qed.

Definition three_heap : heap block :=
  <[1%positive := BConfig (CConfig 1 3
     ([CAddress (Some 5%positive) 5550] ++ replicate 9 (CAddress None 0))
     ([CAddress (Some 2%positive) 8800; CAddress (Some 3%positive) 8801; CAddress (Some 4%positive) 8802] ++
      replicate 7 (CAddress None 0)))]>
  (<[2%positive := BString "a"]> (<[3%positive := BString "b"]>
  (<[4%positive := BString "c"]> (<[5%positive := BString "p"]> ∅)))).

Lemma three_heap_config : holds (at_config 1%positive three_addrs one_addr) three_heap.
Proof.
  eapply holds_entails; [|do 5 (apply holds_insert; [reflexivity|]); exact (eq_refl : holds (emp : mprop)%I ∅)].
  iIntros "(Hc & H1 & H2 & H3 & H4 & _)". iExists _, _. iFrame "Hc". iSplitL "H4".
  - iExists [5%positive], _. iSplitR; [done|]. unfold elems, at_string. simpl. iFrame.
  - iExists [2%positive; 3%positive; 4%positive], _. iSplitR; [done|]. unfold elems, at_string. simpl. iFrame.
Qed.
