(* ===== verification/MemConfigRead.v ===== *)
(** * Reading the configuration on the heap (src/evpaxos/config_reader.c)

[read_config] builds the [struct config] with a copy of every address and sets
the fields of the global [paxos_config], the strings of which are copied too.
The lines are analysed as in [Config]; here is what is allocated.  The program
behaves as [Config.read_config] on every file, errors included; what a string
option replaces stays on the heap ([file_drops]). *)

From S2P Require Import Prelude Heap Messages Wire Config Net Memory MemQueue MemCarray MemConfig.
#[local] Open Scope Z_scope.
Import Peers.

(** ** config_reader.c *)

(** The two arrays of a [struct config]. *)
Inductive array_of : Type := of_acceptors | of_proposers.

Definition count_of (w : array_of) (s : c_config) : Z :=
  match w with of_acceptors => ccf_acceptors_count s | of_proposers => ccf_proposers_count s end.

Definition addresses_of (w : array_of) (s : c_config) : list c_address :=
  match w with of_acceptors => ccf_acceptors s | of_proposers => ccf_proposers s end.

Definition set_count (w : array_of) (n : Z) (s : c_config) : c_config :=
  match w with
  | of_acceptors => CConfig (ccf_proposers_count s) n (ccf_proposers s) (ccf_acceptors s)
  | of_proposers => CConfig n (ccf_acceptors_count s) (ccf_proposers s) (ccf_acceptors s)
  end.

Definition set_addresses (w : array_of) (l : list c_address) (s : c_config) : c_config :=
  match w with
  | of_acceptors => CConfig (ccf_proposers_count s) (ccf_acceptors_count s) (ccf_proposers s) l
  | of_proposers => CConfig (ccf_proposers_count s) (ccf_acceptors_count s) l (ccf_acceptors s)
  end.

(** A store to a field of the entry [i] of an array. *)
Definition c_update_address (c : loc) (w : array_of) (i : Z) (f : c_address → c_address) : cmdb () :=
  s ← read_as as_config c;
  a ← pureC (arr_get (addresses_of w s) i);
  l ← pureC (arr_set (addresses_of w s) i (f a));
  write c (BConfig (set_addresses w l s)).

Definition c_address_init (c : loc) (w : array_of) (i : Z) (addr : bytes) (port : Z) : cmdb () :=
  str ← alloc (BString (untext addr));
  c_update_address c w i (λ a, CAddress (Some str) (cad_port a)) ;;
  c_update_address c w i (λ a, CAddress (cad_string a) port).

Definition c_parse_address (str : option bytes) (c : loc) (w : array_of) (i : Z) : cmdb Z :=
  r ← pureC (scan_address str);
  match r with
  | None => mret 0
  | Some (address, port) => c_address_init c w i address port ;; mret 1
  end.

(** [&c->acceptors[c->acceptors_count++]] *)
Definition c_next_address (c : loc) (w : array_of) : cmdb Z :=
  s ← read_as as_config c;
  write c (BConfig (set_count w (count_of w s + 1) s)) ;;
  mret (count_of w s).

(** The stores through [opt->value]; [strdup] makes the string. *)
Definition c_set_int (f : field_of) (z : Z) (p : c_paxos_config) : c_paxos_config :=
  let 'CPaxosConfig v li lc pt pw sy ca ep fn tr := p in
  match f with
  | f_verbosity => CPaxosConfig z li lc pt pw sy ca ep fn tr
  | f_learner_catch_up => CPaxosConfig v li z pt pw sy ca ep fn tr
  | f_proposer_timeout => CPaxosConfig v li lc z pw sy ca ep fn tr
  | f_proposer_preexec_window => CPaxosConfig v li lc pt z sy ca ep fn tr
  | f_bdb_sync => CPaxosConfig v li lc pt pw z ca ep fn tr
  | f_bdb_cachesize => CPaxosConfig v li lc pt pw sy z ep fn tr
  | f_bdb_trash_files => CPaxosConfig v li lc pt pw sy ca ep fn z
  | f_bdb_env_path | f_bdb_db_filename => p
  end.

Definition c_set_str (f : field_of) (s : loc) (p : c_paxos_config) : c_paxos_config :=
  let 'CPaxosConfig v li lc pt pw sy ca ep fn tr := p in
  match f with
  | f_bdb_env_path => CPaxosConfig v li lc pt pw sy ca s fn tr
  | f_bdb_db_filename => CPaxosConfig v li lc pt pw sy ca ep s tr
  | _ => p
  end.

Definition c_store_int (g : loc) (f : field_of) (r : option Z) : cmdb Z :=
  match r with
  | None => mret 0
  | Some z => p ← read_as as_globals g; write g (BGlobals (c_set_int f z p)) ;; mret 1
  end.

Definition c_parse_string (str : bytes) (g : loc) (f : field_of) : cmdb Z :=
  match parse_string str with
  | None => mret 0
  | Some s =>
      l ← alloc (BString s);
      p ← read_as as_globals g;
      write g (BGlobals (c_set_str f l p)) ;;
      mret 1
  end.

Definition c_parse_option (o : option_entry) (line : bytes) (g : loc) : cmdb Z :=
  match opt_type o with
  | option_boolean => c_store_int g (opt_value o) (parse_boolean line)
  | option_integer => c_store_int g (opt_value o) (parse_integer line)
  | option_string => c_parse_string line g (opt_value o)
  | option_verbosity => c_store_int g (opt_value o) (parse_verbosity line)
  end.

Definition c_parse_line (line : bytes) (c g : loc) : cmdb Z :=
  line ← pureC (strtrim (Some line));
  let '(tok, line) := strsep line in
  if strcaseeq tok (text "a") then
    i ← c_next_address c of_acceptors;
    c_parse_address line c of_acceptors i
  else if strcaseeq tok (text "p") then
    i ← c_next_address c of_proposers;
    c_parse_address line c of_proposers i
  else
    line ← pureC (strtrim line);
    match lookup_option tok with
    | None => mret 0
    | Some o => c_parse_option o line g
    end.

Fixpoint c_read_lines (fuel : nat) (file : bytes) (c g : loc) : cmdb () :=
  match fuel with
  | O => pureC (Fault StackOverflow)
  | S fuel' =>
      match file with
      | [] => mret tt
      | _ =>
          let '(line, rest) := fgets 511 file in
          let first := byte_val (hd x00 line) in
          if negb (first =? 35) && negb (first =? 10) then
            rv ← c_parse_line (c_str line) c g;
            if rv =? 0 then pureC (Fault (Exit 1)) else c_read_lines fuel' rest c g
          else c_read_lines fuel' rest c g
      end
  end.

Definition c_no_address : c_address := CAddress None 0.

(** [malloc] and [memset] *)
Definition c_config_zero : c_config :=
  CConfig 0 0 (replicate (Z.to_nat MAX_ADDR) c_no_address) (replicate (Z.to_nat MAX_ADDR) c_no_address).

(** [g] is where [paxos_config] is. *)
Definition c_read_config (file : option bytes) (g : loc) : cmdb loc :=
  match file with
  | None => pureC (Fault (Exit 1))
  | Some f =>
      c ← alloc (BConfig c_config_zero);
      c_read_lines (S (length f)) f c g ;;
      mret c
  end.

(** ** The global in memory *)

Definition globals_of (p : paxos_config) (e f : loc) : c_paxos_config :=
  CPaxosConfig (verbosity p) (learner_instances p) (learner_catch_up p) (proposer_timeout p)
    (proposer_preexec_window p) (bdb_sync p) (bdb_cachesize p) e f (bdb_trash_files p).

Definition at_globals (g : loc) (p : paxos_config) : mprop :=
  (∃ e f, g ↦ BGlobals (globals_of p e f) ∗ e ↦ BString (bdb_env_path p) ∗
     f ↦ BString (bdb_db_filename p))%I.

(** What it holds; both strings are read. *)
Definition c_load_globals (g : loc) : cmdb paxos_config :=
  p ← read_as as_globals g;
  e ← read_as as_string (cx_bdb_env_path p);
  f ← read_as as_string (cx_bdb_db_filename p);
  mret (PaxosConfig (cx_verbosity p) (cx_learner_instances p) (cx_learner_catch_up p)
    (cx_proposer_timeout p) (cx_proposer_preexec_window p) (cx_bdb_sync p) (cx_bdb_cachesize p) e f
    (cx_bdb_trash_files p)).

(** Strings nothing points to any more. *)
Definition at_strings (l : list string) : mprop := ([∗ list] s ∈ l, ∃ x, x ↦ BString s)%I.

(** The string that a string option replaces. *)
Definition get_str (f : field_of) (p : paxos_config) : list string :=
  match f with
  | f_bdb_env_path => [bdb_env_path p]
  | f_bdb_db_filename => [bdb_db_filename p]
  | _ => []
  end.

Definition option_drops (o : option_entry) (line : bytes) (p : paxos_config) : list string :=
  match opt_type o, parse_string line with
  | option_string, Some _ => get_str (opt_value o) p
  | _, _ => []
  end.

Definition line_drops (line : bytes) (p : paxos_config) : list string :=
  let '(tok, rest) := strsep (rtrim (skip_space line)) in
  if strcaseeq tok (text "a") || strcaseeq tok (text "p") then []
  else match rest, lookup_option tok with
       | Some rest, Some o => option_drops o (rtrim (skip_space rest)) p
       | _, _ => []
       end.

(** The strings that the lines of a file replace, one after the other. *)
Fixpoint file_drops (fuel : nat) (file : bytes) (p : paxos_config) (c : config) : list string :=
  match fuel, file with
  | S fuel', _ :: _ =>
      let '(line, rest) := fgets 511 file in
      let first := byte_val (hd x00 line) in
      if negb (first =? 35) && negb (first =? 10) then
        match parse_line (c_str line) p c with
        | Ret (p', c', _) => line_drops (c_str line) p ++ file_drops fuel' rest p' c'
        | Fault _ => []
        end
      else file_drops fuel' rest p c
  | _, _ => []
  end.

(** ** The globals *)

Lemma c_load_globals_ok g p : at_globals g p ⊢ wp (c_load_globals g) (λ r, <affine> ⌜r = p⌝ ∗ at_globals g p).
Proof.
  iIntros "(%e & %f & Hg & He & Hf)". unfold c_load_globals. wp_rd "Hg". simpl. wp_rd "He". wp_rd "Hf".
  iApply wp_ret. iSplitR; [by destruct p|]. iExists e, f. iFrame.
Qed.

Lemma c_set_int_of f z p e n : c_set_int f z (globals_of p e n) = globals_of (set_int f z p) e n.
Proof. by destruct p, f. Qed.

Lemma set_int_strings f z p :
  bdb_env_path (set_int f z p) = bdb_env_path p ∧ bdb_db_filename (set_int f z p) = bdb_db_filename p.
Proof. by destruct p, f. Qed.

Lemma c_store_int_ok g f r p :
  at_globals g p ⊢ wp (c_store_int g f r) (λ z,
    match r with
    | Some x => <affine> ⌜z = 1⌝ ∗ at_globals g (set_int f x p)
    | None => <affine> ⌜z = 0⌝ ∗ at_globals g p
    end).
Proof.
  iIntros "(%e & %n & Hg & He & Hn)". unfold c_store_int. destruct r as [x|].
  - wp_rd "Hg". wp_wr "Hg". iApply wp_ret. iSplitR; [done|]. iExists e, n. rewrite c_set_int_of.
    destruct (set_int_strings f x p) as [-> ->]. iFrame.
  - iApply wp_ret. iSplitR; [done|]. iExists e, n. iFrame.
Qed.

(** Which fields the options of each type point to. *)
Definition is_string_field (f : field_of) : bool :=
  match f with f_bdb_env_path | f_bdb_db_filename => true | _ => false end.

Lemma lookup_string tok o :
  lookup_option tok = Some o → opt_type o = option_string → is_string_field (opt_value o) = true.
Proof.
  assert (Forall (λ o, opt_type o = option_string → is_string_field (opt_value o) = true) options) as HF
    by (repeat constructor; done).
  unfold lookup_option. induction HF as [|o' l Ho _ IH]; simpl; [done|]. case_match; [|done]. by intros [= <-].
Qed.

Lemma c_parse_string_ok g f line p :
  is_string_field f = true →
  at_globals g p ⊢ wp (c_parse_string line g f) (λ z,
    match parse_string line with
    | Some s => <affine> ⌜z = 1⌝ ∗ at_globals g (set_str f s p) ∗ at_strings (get_str f p)
    | None => <affine> ⌜z = 0⌝ ∗ at_globals g p
    end).
Proof.
  iIntros (Hf) "(%e & %n & Hg & He & Hn)". unfold c_parse_string. destruct (parse_string line) as [s|].
  - wp_new l "Hl". wp_rd "Hg". wp_wr "Hg". iApply wp_ret. iSplitR; [done|]. unfold at_strings.
    destruct f; try done; simpl.
    + iSplitR "He"; [|iSplitL; [by iExists e|done]]. iExists l, n. destruct p; simpl. iFrame.
    + iSplitR "Hn"; [|iSplitL; [by iExists n|done]]. iExists e, l. destruct p; simpl. iFrame.
  - iApply wp_ret. iSplitR; [done|]. iExists e, n. iFrame.
Qed.

Lemma at_strings_nil : at_strings [] ⊣⊢ emp.
Proof. done. Qed.

Lemma at_strings_app l1 l2 : at_strings (l1 ++ l2) ⊣⊢ at_strings l1 ∗ at_strings l2.
Proof. apply big_sepL_app. Qed.

Lemma c_parse_option_ok g o tok line p :
  lookup_option tok = Some o →
  at_globals g p ⊢ wp (c_parse_option o line g) (λ z,
    <affine> ⌜z = (parse_option o line p).2⌝ ∗ at_globals g (parse_option o line p).1 ∗
    at_strings (option_drops o line p)).
Proof.
  iIntros (Ho) "H". pose proof (lookup_string _ _ Ho) as Hs.
  unfold c_parse_option, parse_option, option_drops. destruct (opt_type o).
  1-2, 4: iApply (wp_wand with "[H]"); [by iApply c_store_int_ok|]; iIntros (z) "H";
    case_match; iDestruct "H" as "[-> H]"; simpl; rewrite at_strings_nil; iFrame; done.
  iApply (wp_wand with "[H]"); [by iApply c_parse_string_ok; auto|]. iIntros (z) "H".
  case_match; [iDestruct "H" as "(-> & H & Hl)"|iDestruct "H" as "[-> H]"]; simpl.
  - iFrame. done.
  - rewrite at_strings_nil. iFrame. done.
Qed.

(** ** The structure of the configuration *)

Lemma set_addresses_eq w l s : addresses_of w (set_addresses w l s) = l.
Proof. by destruct w. Qed.

Lemma set_addresses_set w l l' s : set_addresses w l (set_addresses w l' s) = set_addresses w l s.
Proof. by destruct w. Qed.

Lemma c_update_address_ok c w s k f a :
  addresses_of w s !! k = Some a →
  c ↦ BConfig s ⊢ wp (c_update_address c w (Z.of_nat k) f) (λ _,
    c ↦ BConfig (set_addresses w (<[k := f a]> (addresses_of w s)) s)).
Proof.
  iIntros (Ha) "Hc". pose proof (lookup_lt_Some _ _ _ Ha). unfold c_update_address. wp_rd "Hc".
  assert (arr_get (addresses_of w s) (Z.of_nat k) = Ret a) as E1
    by (apply arr_get_ok; [lia|by rewrite Nat2Z.id]).
  assert (arr_set (addresses_of w s) (Z.of_nat k) (f a) = Ret (<[k := f a]> (addresses_of w s))) as E2.
  { rewrite arr_set_ok; [by rewrite Nat2Z.id|lia]. }
  wp_pure E1. wp_pure E2. by wp_wr "Hc".
Qed.

Lemma c_address_init_ok c w s k addr p :
  (k < length (addresses_of w s))%nat →
  c ↦ BConfig s ⊢ wp (c_address_init c w (Z.of_nat k) addr p) (λ _, ∃ str,
    str ↦ BString (untext addr) ∗
    c ↦ BConfig (set_addresses w (<[k := CAddress (Some str) p]> (addresses_of w s)) s)).
Proof.
  iIntros (Hk) "Hc". destruct (lookup_lt_is_Some_2 _ _ Hk) as [a Ha]. unfold c_address_init.
  wp_new str "Hs". wp_unbind. iApply (wp_wand with "[Hc]"); [by iApply (c_update_address_ok with "Hc")|].
  iIntros (_) "Hc". iApply (wp_wand with "[Hc]").
  { iApply (c_update_address_ok with "Hc"). by rewrite set_addresses_eq list_lookup_insert_eq. }
  iIntros (_) "Hc". iExists str. iFrame "Hs".
  rewrite set_addresses_eq set_addresses_set list_insert_insert_eq. done.
Qed.

(** Past the end of the array. *)
Lemma c_address_init_out c w s i addr p {A B} (m : res A) (cf : () → cmdb B) Φ P :
  m = Fault OutOfBounds → Z.of_nat (length (addresses_of w s)) ≤ i →
  c ↦ BConfig s ∗ P ⊢ follows m (c_address_init c w i addr p ≫= cf) Φ.
Proof.
  intros -> Hi. split. intros h (h1 & h2 & -> & _ & Hh & _) hf' _. rewrite -(assoc_L (∪)).
  set (hf := h2 ∪ hf'). set (h := h1) in *. unfold c_address_init, c_update_address.
  assert (arr_get (addresses_of w s) i = Fault OutOfBounds) as E.
  { unfold arr_get. destruct (Z.ltb_spec i 0); [lia|].
    by rewrite (proj2 (lookup_ge_None _ _)); [|lia]. }
  set (l := fresh (dom (h ∪ hf))).
  assert (<[l := BString (untext addr)]> (h ∪ hf) !! c = Some (BConfig s)) as Hc.
  { pose proof (pointsto_inv c _ _ hf Hh) as Hc. rewrite lookup_insert_ne //. intros <-.
    by apply (is_fresh (dom (h ∪ hf))), (elem_of_dom_2 _ _ _ Hc). }
  unfold mbind, cmd_bind, alloc. fold l. unfold read_as, read, mbind, cmd_bind. simpl. rewrite Hc. simpl.
  by rewrite E.
Qed.

Lemma at_addresses_add arr l a s :
  (length l < length arr)%nat →
  at_addresses arr l ∗ at_string s a ⊢ at_addresses (<[length l := c_address_of s a]> arr) (l ++ [a]).
Proof.
  iIntros (Hl) "[(%strs & %rest & -> & He) Hs]". iDestruct (elems_length with "He") as (Hlen) "He".
  rewrite length_app length_zip_with in Hl. destruct rest as [|r rest]; [simpl in Hl; lia|].
  iExists (strs ++ [s]), rest. iSplitR.
  - iPureIntro. rewrite zip_with_app //=.
    rewrite (_ : length l = (length (zip_with c_address_of strs l) + 0)%nat); [|rewrite length_zip_with; lia].
    rewrite insert_app_r. by rewrite -app_assoc.
  - iApply elems_snoc. iFrame.
Qed.

(** The structure while it is filled: the arrays have all their entries. *)
Definition at_struct (c : loc) (acs pcs : list address) : mprop :=
  (∃ pl al, <affine> ⌜Z.of_nat (length pl) = MAX_ADDR ∧ Z.of_nat (length al) = MAX_ADDR⌝ ∗
     c ↦ BConfig (CConfig (Z.of_nat (length pcs)) (Z.of_nat (length acs)) pl al) ∗
     at_addresses pl pcs ∗ at_addresses al acs)%I.

Lemma at_struct_config c acs pcs : at_struct c acs pcs ⊢ at_config c acs pcs.
Proof. iIntros "(%pl & %al & _ & H)". iExists pl, al. iFrame. Qed.

(** What a line leaves, unless it is an error. *)
Definition line_post (c g : loc) (drops : list string) (r : paxos_config * config * Z) (z : Z) : mprop :=
  (<affine> ⌜z = r.2⌝ ∗
   if r.2 =? 0 then True else
   ∃ acs pcs, <affine> ⌜config_rep r.1.2 acs pcs⌝ ∗ at_struct c acs pcs ∗ at_globals g r.1.1 ∗
     at_strings drops)%I.

(** The branches of [parse_line] for addresses. *)
Definition address_line (w : array_of) (line : option bytes) (p : paxos_config) (c : config)
    : res (paxos_config * config * Z) :=
  match w with
  | of_acceptors =>
      let i := acceptors_count c in
      a ← parse_address line;
      match a with
      | None => Ret (p, Config (proposers_count c) (i + 1) (proposers c) (acceptors c), 0)
      | Some a => l ← arr_set (acceptors c) i a;
                  Ret (p, Config (proposers_count c) (i + 1) (proposers c) l, 1)
      end
  | of_proposers =>
      let i := proposers_count c in
      a ← parse_address line;
      match a with
      | None => Ret (p, Config (i + 1) (acceptors_count c) (proposers c) (acceptors c), 0)
      | Some a => l ← arr_set (proposers c) i a;
                  Ret (p, Config (i + 1) (acceptors_count c) l (acceptors c), 1)
      end
  end.

Definition c_address_line (w : array_of) (line : option bytes) (c : loc) : cmdb Z :=
  i ← c_next_address c w; c_parse_address line c w i.

Lemma c_next_address_ok (c : loc) w s :
  c ↦ BConfig s ⊢ wp (c_next_address c w) (λ i,
    <affine> ⌜i = count_of w s⌝ ∗ c ↦ BConfig (set_count w (count_of w s + 1) s)).
Proof. iIntros "Hc". unfold c_next_address. wp_rd "Hc". wp_wr "Hc". iApply wp_ret. by iFrame. Qed.

Definition list_of {A} (w : array_of) (acs pcs : list A) : list A :=
  match w with of_acceptors => acs | of_proposers => pcs end.
Definition push {A} (w w' : array_of) (a : A) : list A :=
  match w, w' with of_acceptors, of_acceptors | of_proposers, of_proposers => [a] | _, _ => [] end.

(** What an address line does to the value of the structure. *)
Lemma address_line_some w line p conf acs pcs addr port :
  config_rep conf acs pcs → scan_address line = Ret (Some (addr, port)) →
  if decide (Z.of_nat (length (list_of w acs pcs)) < MAX_ADDR) then
    ∃ conf', address_line w line p conf = Ret (p, conf', 1) ∧
      config_rep conf' (acs ++ push of_acceptors w (address_init addr port))
                       (pcs ++ push of_proposers w (address_init addr port))
  else address_line w line p conf = Fault OutOfBounds.
Proof.
  intros [Ra Rp] E. destruct w; simpl; unfold parse_address; rewrite E !bind_Ret; case_decide.
  - destruct (addresses_add _ _ _ (address_init addr port) Ra) as (arr & -> & R'); [done|].
    eexists. split; [done|]. rewrite app_nil_r. by split.
  - destruct Ra as [-> Hs _]. rewrite arr_set_out //. lia.
  - destruct (addresses_add _ _ _ (address_init addr port) Rp) as (arr & -> & R'); [done|].
    eexists. split; [done|]. rewrite app_nil_r. by split.
  - destruct Rp as [-> Hs _]. rewrite arr_set_out //. lia.
Qed.

Lemma address_line_fault w line p conf e :
  scan_address line = Fault e → address_line w line p conf = Fault e.
Proof. intros E. by destruct w; simpl; unfold parse_address; rewrite E. Qed.

Lemma address_line_none w line p conf :
  scan_address line = Ret None → ∃ conf', address_line w line p conf = Ret (p, conf', 0).
Proof. intros E. destruct w; simpl; unfold parse_address; rewrite E; by eexists. Qed.

Lemma c_address_line_ok c g w line p conf acs pcs :
  config_rep conf acs pcs →
  at_struct c acs pcs ∗ at_globals g p ⊢
  follows (address_line w line p conf) (c_address_line w line c) (line_post c g []).
Proof.
  iIntros (R) "[(%pl & %al & [%Hpl %Hal] & Hc & Hp & Ha) Hg]".
  set (s := CConfig _ _ pl al). unfold c_address_line. iApply follows_step.
  iApply (wp_wand with "[Hc]"); [iApply (c_next_address_ok with "Hc")|]. iIntros (i) "[-> Hc]".
  unfold c_parse_address. destruct (scan_address line) as [[[addr port]|]|e] eqn:E.
  - iApply follows_step. iApply wp_pureC; [done|].
    pose proof (address_line_some w line p conf acs pcs addr port R E) as Hv. case_decide as Hl.
    + destruct Hv as (conf' & Ev & R'). iApply (follows_wp _ _ _ _ Ev). wp_unbind.
      iApply (wp_wand with "[Hc]").
      { assert (count_of w s = Z.of_nat (length (list_of w acs pcs))) as -> by (by destruct w).
        iApply (c_address_init_ok with "Hc"). destruct w; simpl in *; lia. }
      iIntros (_) "(%str & Hs & Hc)". iApply wp_ret. iSplitR; [done|]. iExists _, _. iSplitR; [done|].
      simpl. iFrame "Hg". rewrite at_strings_nil right_id. destruct w; simpl in *; rewrite !app_nil_r.
      * iExists pl, _. rewrite length_app Nat2Z.inj_add. iFrame "Hc Hp". iSplitR; [by rewrite length_insert|].
        iApply (at_addresses_add _ _ (address_init addr port)); [lia|]. iFrame.
      * iExists _, al. rewrite length_app Nat2Z.inj_add. iFrame "Hc Ha". iSplitR; [by rewrite length_insert|].
        iApply (at_addresses_add _ _ (address_init addr port)); [lia|]. iFrame.
    + iApply c_address_init_out; [done| |iFrame "Hc"; iAccu]. destruct w; simpl in *; lia.
  - destruct (address_line_none w line p conf E) as [conf' Ev]. iApply (follows_wp _ _ _ _ Ev).
    wp_p. iApply wp_ret. iSplitR; [done|]. simpl. done.
  - iStopProof. apply follows_fault. by apply address_line_fault.
Qed.

(** [parse_line] *)
Lemma c_parse_line_ok c g line p conf acs pcs :
  config_rep conf acs pcs →
  at_struct c acs pcs ∗ at_globals g p ⊢
  follows (parse_line line p conf) (c_parse_line line c g) (line_post c g (line_drops line p)).
Proof.
  intros R. unfold parse_line, c_parse_line, line_drops. apply follows_pure. intros l [= <-].
  destruct (strsep (rtrim (skip_space line))) as [tok rest].
  destruct (strcaseeq tok (text "a")); [by apply (c_address_line_ok c g of_acceptors)|].
  destruct (strcaseeq tok (text "p")); [by apply (c_address_line_ok c g of_proposers)|]. simpl.
  apply follows_pure. intros l El. destruct rest as [rest|]; [|done]. injection El as <-.
  destruct (lookup_option tok) as [o|] eqn:Eo.
  - set (l := rtrim (skip_space rest)). iIntros "[Hc Hg]".
    destruct (parse_option o l p) as [p' rv] eqn:Ep. iApply follows_wp; [done|].
    iApply (wp_wand with "[Hg]"); [by iApply c_parse_option_ok|]. rewrite Ep. iIntros (z) "(-> & Hg & Hl)".
    iSplitR; [done|]. simpl. case_match; [done|]. iExists acs, pcs. by iFrame.
  - iIntros "H". iApply follows_ret. iSplitR; [done|]. simpl. done.
Qed.

Lemma c_read_lines_ok fuel file c g p conf acs pcs :
  config_rep conf acs pcs →
  at_struct c acs pcs ∗ at_globals g p ⊢
  follows (read_lines fuel file p conf) (c_read_lines fuel file c g) (λ r _,
    ∃ acs pcs, <affine> ⌜config_rep r.2 acs pcs⌝ ∗ at_struct c acs pcs ∗ at_globals g r.1 ∗
      at_strings (file_drops fuel file p conf)).
Proof.
  revert file p conf acs pcs. induction fuel as [|fuel IH]; intros file p conf acs pcs R;
    cbn [read_lines c_read_lines file_drops].
  { split. by intros h _ hf _. }
  destruct file as [|b file].
  { iIntros "H". iApply follows_ret. iExists acs, pcs. rewrite at_strings_nil right_id. by iFrame. }
  destruct (fgets 511 (b :: file)) as [line rest]. 
  destruct (negb (byte_val (hd x00 line) =? 35) && negb (byte_val (hd x00 line) =? 10)); [|by apply IH].
  rewrite (c_parse_line_ok c g (c_str line) p conf acs pcs R). apply follows_then.
  intros [[p1 c1] rv] z ->. unfold line_post. simpl. iIntros "[-> H]". destruct (rv =? 0).
  { iStopProof. split. by intros h _ hf _. }
  iDestruct "H" as (acs1 pcs1) "(%R1 & Hc & Hg & Hl)".
  iPoseProof (IH rest p1 c1 acs1 pcs1 R1 with "[$Hc $Hg]") as "H".
  iApply (follows_wand with "H"). iIntros (r u) "(%acs2 & %pcs2 & %R2 & Hc & Hg & Hl2)".
  iExists acs2, pcs2. rewrite at_strings_app. by iFrame.
Qed.

Lemma at_struct_zero c : c ↦ BConfig c_config_zero ⊢ at_struct c [] [].
Proof.
  iIntros "Hc". iExists _, _. iFrame "Hc". iSplitR; [done|].
  iSplitL; (iExists [], _; iSplitR; [done|]; unfold elems; done).
Qed.

(** The strings that reading a file replaces. *)
Definition config_drops (file : bytes) (p : paxos_config) : list string :=
  file_drops (S (length file)) file p config_zero.

Lemma c_read_config_ok file g p :
  at_globals g p ⊢ follows (read_config (Some file) p) (c_read_config (Some file) g) (λ r c,
    ∃ acs pcs, <affine> ⌜config_rep r.2 acs pcs⌝ ∗ at_config c acs pcs ∗ at_globals g r.1 ∗
      at_strings (config_drops file p)).
Proof.
  iIntros "Hg". unfold read_config, c_read_config. iApply follows_step. iApply wp_alloc. iIntros (c) "Hc".
  iPoseProof (at_struct_zero with "Hc") as "Hc".
  assert (config_rep config_zero [] []) as R by (by split).
  iPoseProof (c_read_lines_ok (S (length file)) file c g p config_zero [] [] R with "[$Hc $Hg]") as "H".
  iStopProof. apply follows_end. intros r u _. iIntros "(%acs & %pcs & %R' & Hc & H)". iApply wp_ret.
  iExists acs, pcs. iFrame. iSplitR; [done|]. by iApply at_struct_config.
Qed.

(** ** The strings that a written configuration replaces *)

Definition entry_drops (e : entry) (p : paxos_config) : list string :=
  match e with EOption o (VStr _) => get_str (opt_value o) p | _ => [] end.

Fixpoint entries_drops (es : list entry) (p : paxos_config) : list string :=
  match es with
  | [] => []
  | e :: es' => entry_drops e p ++ entries_drops es' (entry_option e p)
  end.

Lemma option_drops_print o v p :
  value_ok (opt_type o) v → option_drops o (print_value v) p = entry_drops (EOption o v) p.
Proof.
  intros Hv. destruct (parse_option_print o v p Hv) as [_ Ho]. unfold parse_option in Ho.
  unfold option_drops. destruct (opt_type o), v; try done; simpl in Ho |- *; by case_match.
Qed.

Lemma line_drops_print e p :
  entry_ok e → is_setting e = true → line_drops (print_entry e ++ [x0a]) p = entry_drops e p.
Proof.
  intros He Hs. unfold line_drops.
  pose proof (strtrim_phrase _ _ (print_entry_phrase e He Hs) newline_space) as [= ->].
  destruct He as [_ Hok]. destruct e as [|s|id a|id a|o v]; try done; cbn [print_entry].
  destruct Hok as [Ho Hv]. destruct (options_names o Ho) as ([_ Hw] & Hlk & Hna & Hnp).
  rewrite strsep_word //. cbv iota beta. rewrite Hna Hnp. simpl.
  destruct (parse_option_print o v p Hv) as [Hph _].
  pose proof (strtrim_phrase _ [] Hph ltac:(done)) as Ht. rewrite app_nil_r in Ht. injection Ht as ->.
  rewrite Hlk. by apply option_drops_print.
Qed.

Lemma file_drops_print es fuel p c acs ps :
  Forall entry_ok es → (length (print_config es) < fuel)%nat → config_rep c acs ps →
  Z.of_nat (length (acs ++ omap entry_acceptor es)) ≤ MAX_ADDR →
  Z.of_nat (length (ps ++ omap entry_proposer es)) ≤ MAX_ADDR →
  file_drops fuel (print_config es) p c = entries_drops es p.
Proof.
  intros HF. revert fuel p c acs ps.
  induction HF as [|e es He HF IH]; intros [|fuel] p c acs ps Hfuel R Ha Hp; try (simpl in *; lia); [done|].
  assert (print_config (e :: es) = print_entry e ++ x0a :: print_config es) as E.
  { unfold print_config. simpl. by rewrite -app_assoc. }
  rewrite E in Hfuel |- *. rewrite length_app in Hfuel. simpl in Hfuel.
  assert (∃ b l, print_entry e ++ x0a :: print_config es = b :: l) as (b & l & Ebl)
    by (destruct (print_entry e); simpl; eauto).
  cbn [file_drops entries_drops]. rewrite Ebl -Ebl. rewrite fgets_line; [|apply He|by apply entry_line].
  assert (omap entry_acceptor (e :: es) = option_list (entry_acceptor e) ++ omap entry_acceptor es ∧
    omap entry_proposer (e :: es) = option_list (entry_proposer e) ++ omap entry_proposer es) as [E1 E2]
    by (by destruct e). rewrite E1 app_assoc in Ha. rewrite E2 app_assoc in Hp. clear E1 E2.
  cbv iota beta zeta. destruct (is_setting e) eqn:Es.
  - destruct (setting_first e He Es) as [H1 H2]. apply Z.eqb_neq in H1 as ->. apply Z.eqb_neq in H2 as ->.
    cbn [negb andb]. rewrite c_str_line.
    2: { apply Forall_app. split; [|by repeat constructor].
         destruct (print_entry_phrase e He Es) as [Hl _ _]. eapply Forall_impl; [exact Hl|]. by intros ? []. }
    destruct (parse_line_print e p c acs ps He Es R) as (c1 & -> & R1);
      [rewrite length_app in Ha; lia|rewrite length_app in Hp; lia|].
    rewrite line_drops_print //. f_equal. by eapply IH; [lia|..].
  - destruct e as [|s| | |]; try done; simpl in Ha, Hp |- *; eapply IH; rewrite ?app_nil_r in Ha, Hp;
      first [lia|done].
Qed.

(** Each string option of the file costs one string. *)
Lemma config_drops_print es p :
  Forall entry_ok es → Z.of_nat (length (omap entry_acceptor es)) ≤ MAX_ADDR →
  Z.of_nat (length (omap entry_proposer es)) ≤ MAX_ADDR →
  config_drops (print_config es) p = entries_drops es p.
Proof. intros HF Ha Hp. by apply (file_drops_print es _ p _ [] []); [|lia|..]. Qed.

(** ** Runs *)

(** What is left besides the configuration. *)
Definition at_rest (g : loc) (cfg : paxos_config) (drops : list string) : mprop :=
  (at_globals g cfg ∗ at_strings drops)%I.

(** A run of the reader on a heap with the globals and anything else. *)
Lemma c_read_config_run file g p (hg h : heap block) :
  holds (at_globals g p) hg → hg ##ₘ h →
  match read_config (Some file) p with
  | Ret (cfg, conf) => ∃ acs pcs c hc hr, config_rep conf acs pcs ∧
      holds (at_config c acs pcs) hc ∧ holds (at_rest g cfg (config_drops file p)) hr ∧
      hc ##ₘ hr ∪ h ∧ hr ##ₘ h ∧ c_read_config (Some file) g (hg ∪ h) = Ret (c, hc ∪ (hr ∪ h))
  | Fault e => c_read_config (Some file) g (hg ∪ h) = Fault e
  end.
Proof.
  intros Hg Hd. pose proof (follows_adequate _ _ _ _ _ _ (c_read_config_ok file g p) Hg Hd) as H.
  destruct (read_config (Some file) p) as [[cfg conf]|e]; [|done].
  destruct H as (c & h' & E & Hd' & acs & pcs & H). destruct H as (h0 & h1 & -> & _ & Hemp & H).
  destruct Hemp as [He R]. change (h0 = ∅) in He. subst h0. rewrite (left_id_L ∅ (∪)) in E Hd'.
  destruct H as (hc & hr & -> & Hcr & Hc & Hr). apply map_disjoint_union_l in Hd' as [Hd1 Hd2].
  exists acs, pcs, c, hc, hr. do 3 (split; [done|]). split; [by apply map_disjoint_union_r|].
  split; [done|]. by rewrite E (assoc_L (∪)).
Qed.

(** ** Properties *)

(** C15: the memory of the configuration.  On any file, the reader on the heap
behaves as the value model: it stops the process with the same error on the
same files, a full address array included, or builds the same configuration,
its addresses copied, and sets the same globals, the literals and the rest of
the heap untouched; [free_config] then gives back exactly what was allocated,
but for the strings that string options replaced: each such line leaves the
string that was there before, and nothing points to it any more. *)
Theorem config_read_and_freed file g p (hg h : heap block) :
  holds (at_globals g p) hg → hg ##ₘ h →
  match read_config (Some file) p with
  | Ret (cfg, conf) => ∃ acs pcs c h' hr,
      c_read_config (Some file) g (hg ∪ h) = Ret (c, h') ∧
      acceptors_count conf = Z.of_nat (length acs) ∧ take (length acs) (Config.acceptors conf) = acs ∧
      proposers_count conf = Z.of_nat (length pcs) ∧ take (length pcs) (Config.proposers conf) = pcs ∧
      (∃ hc, h' = hc ∪ (hr ∪ h) ∧ holds (at_config c acs pcs) hc) ∧
      c_free_config c h' = Ret (tt, hr ∪ h) ∧ hr ##ₘ h ∧ holds (at_rest g cfg (config_drops file p)) hr
  | Fault e => c_read_config (Some file) g (hg ∪ h) = Fault e
  end.
Proof.
  intros Hg Hd. pose proof (c_read_config_run file g p hg h Hg Hd) as H.
  destruct (read_config (Some file) p) as [[cfg conf]|e]; [|done].
  destruct H as (acs & pcs & c & hc & hr & [Ra Rp] & Hc & Hr & Hd1 & Hd2 & E).
  destruct Ra as [Ca _ Ta], Rp as [Cp _ Tp].
  exists acs, pcs, c, (hc ∪ (hr ∪ h)), hr. do 5 (split; [done|]). split; [eauto|]. split; [|done].
  destruct (wp_adequate _ _ _ hc (hr ∪ h) (c_free_config_ok c acs pcs) Hc Hd1) as ([] & h1 & E1 & _ & Hh1).
  change (h1 = ∅) in Hh1. subst h1. by rewrite (left_id_L ∅ (∪)) in E1.
Qed.

(** ** Examples *)

(** [paxos_config] with the literals of its definition. *)
Definition globals_heap (p : paxos_config) : heap block :=
  <[10%positive := BGlobals (globals_of p 11%positive 12%positive)]>
  (<[11%positive := BString (bdb_env_path p)]> (<[12%positive := BString (bdb_db_filename p)]> ∅)).

Lemma globals_heap_ok p : holds (at_globals 10%positive p) (globals_heap p).
Proof.
  eapply holds_entails; [|do 3 (apply holds_insert; [reflexivity|]); exact (eq_refl : holds (emp : mprop)%I ∅)].
  iIntros "(Hg & He & Hf & _)". iExists 11%positive, 12%positive. iFrame.
Qed.

(** An option given twice: the string of the first line is lost as well as the
literal. *)
Definition twice_entries : list entry :=
  let o := OptionEntry "bdb-env-path" f_bdb_env_path option_string in
  demo_entries ++ [EOption o (VStr "/tmp/other")].

Definition twice_file : bytes := Eval vm_compute in print_config twice_entries.
Definition twice_config : paxos_config :=
  PaxosConfig 3 2048 1 1 128 0 1073741824 "/tmp/other" "acc.bdb" 0.

Lemma twice_read : ∃ conf, read_config (Some twice_file) default_config = Ret (twice_config, conf).
Proof. eexists. vm_compute. reflexivity. Qed.

Lemma twice_drops :
  config_drops twice_file default_config = ["/tmp/acceptor"; "/var/my acceptor"]%string.
Proof. vm_compute. reflexivity. Qed.

Lemma config_read_and_freed_witness :
  ∃ c h' hr, c_read_config (Some twice_file) 10%positive (globals_heap default_config) = Ret (c, h') ∧
    c_free_config c h' = Ret (tt, hr) ∧
    holds (at_rest 10%positive twice_config ["/tmp/acceptor"; "/var/my acceptor"]%string) hr.
Proof.
  pose proof (config_read_and_freed twice_file 10%positive default_config
    (globals_heap default_config) ∅ (globals_heap_ok _) (map_disjoint_empty_r _)) as H.
  destruct twice_read as [conf E]. rewrite E twice_drops in H.
  destruct H as (acs & pcs & c & h' & hr & E1 & _ & _ & _ & _ & _ & E2 & _ & Hr).
  rewrite (right_id_L ∅ (∪)) in E1. rewrite (right_id_L ∅ (∪)) in E2.
  exists c, h', hr. split; [exact E1|]. split; [exact E2|exact Hr].
Defined.
