(* ===== verification/MemEvLearner.v ===== *)
(** * An event-driven learner on the heap (src/evpaxos/evlearner.c)

The node as a whole: [evlearner_init_conf] builds the learner, its peers and its
timer and frees the configuration it was given; the handlers free what the
learner hands them; [evlearner_free] frees the node. *)

From S2P Require Import Prelude Heap Carray Quorum Messages Config Learner Net Wire EvLearner.
From S2P Require Import Memory MemCarray MemQueue MemLearner MemLearnerRuns MemConns MemConfig.
#[local] Open Scope Z_scope.
Import Peers.

(** ** evlearner.c *)

Definition c_evlearner_init_conf (cfg : paxos_config) (c : loc) : cmdb loc :=
  s ← read_as as_config c;
  st ← c_learner_new cfg (ccf_acceptors_count s);
  ps ← c_peers_new;
  c_connect_acceptors c ps ;;
  t ← alloc (BTimer false);
  l ← alloc (BEvLearner (CEvLearner st ps t));
  write t (BTimer true) ;;
  c_free_config c ;;
  mret l.

(** The loop of [learner_deliver_next_closed], which frees each acknowledgement
after the callback has had it. *)
Fixpoint c_deliver_loop (n : nat) (st : loc) : cmdb (list delivery) :=
  match n with
  | O => pureC (Fault StackOverflow)
  | S n' =>
      r ← c_learner_deliver_next st;
      match r with
      | None => mret []
      | Some x =>
          a ← read_as as_ack x;
          free x ;;
          ds ← c_deliver_loop n' st;
          mret (deliver_ack a :: ds)
      end
  end.

Definition c_learner_deliver_next_closed (l : loc) : cmdb (list delivery) :=
  s ← read_as as_evlearner l;
  st ← read_as as_learner (cel_state s);
  n ← c_carray_size (cr_instances st);
  c_deliver_loop (S (Z.to_nat n)) (cel_state s).

Definition c_learner_handle_accept_ack (l : loc) (aa : accept_ack) : cmdb (list delivery) :=
  s ← read_as as_evlearner l;
  c_learner_receive_accept (cel_state s) aa ;;
  c_learner_deliver_next_closed l.

(** One request to all acceptors for each instance. *)
Fixpoint c_repeat_loop (n : nat) (iid : Z) (l : loc) : cmdb sends :=
  match n with
  | O => mret []
  | S n' =>
      s ← read_as as_evlearner l;
      k ← c_peers_count (cel_acceptors s);
      out ← c_send_each k (c_peers_get_buffer (cel_acceptors s)) (MRepeatReq iid);
      out' ← c_repeat_loop n' (u32 (iid + 1)) l;
      mret (out ++ out')
  end.

(** The timer starts again. *)
Definition c_learner_check_holes (l : loc) : cmdb sends :=
  s ← read_as as_evlearner l;
  r ← c_learner_has_holes (cel_state s);
  out ← match r with
        | None => mret []
        | Some (from, to) =>
            let '(from, to) := hole_range from to in
            c_repeat_loop (Z.to_nat (to - from)) from l
        end;
  read_as as_timer (cel_hole_timer s) ;;
  write (cel_hole_timer s) (BTimer true) ;;
  mret out.

Definition c_evlearner_free (l : loc) : cmdb () :=
  s ← read_as as_evlearner l;
  c_peers_free (cel_acceptors s) ;;
  free (cel_hole_timer s) ;;
  c_learner_free (cel_state s) ;;
  free l.

Definition at_node (x : loc) (s : c_evlearner) (l : evlearner) : mprop :=
  (x ↦ BEvLearner s ∗ at_learner (cel_state s) (state l) ∗ at_peers (cel_acceptors s) (acceptors l) ∗
     ∃ b, cel_hole_timer s ↦ BTimer b)%I.

Definition at_evlearner (x : loc) (l : evlearner) : mprop := (∃ s, at_node x s l)%I.

Lemma c_evlearner_init_ok cfg c acs pcs st :
  0 < learner_instances cfg ≤ INT_MAX → learner_new cfg (Z.of_nat (length acs)) = Ret st →
  at_config c acs pcs ⊢ wp (c_evlearner_init_conf cfg c) (λ x,
    ∃ ps, <affine> ⌜peers_ok ps acs⌝ ∗ at_evlearner x (EvLearner st ps)).
Proof.
  iIntros (Hs E) "(%pl & %al & Hc & Hl)". unfold c_evlearner_init_conf. wp_rd "Hc". simpl. wp_unbind.
  iApply (wp_wand with "[]"); [iApply (c_learner_new_ok cfg (Z.of_nat (length acs)) st); [lia|done..]|].
  iIntros (x) "Hx". wp_unbind. iApply (wp_wand with "[]"); [iApply c_peers_new_ok|]. iIntros (p) "Hp".
  wp_unbind. iApply (wp_wand with "[Hc Hl Hp]").
  { iApply (c_connect_acceptors_ok c p acs pcs). iFrame "Hp". iExists pl, al. iFrame. }
  iIntros (_) "[Hc (%ps & %Hok & Hp)]". wp_new t "Ht". wp_new l "Hl". wp_wr "Ht".
  wp_call c_free_config_ok with "[Hc]". iIntros (_) "_". iApply wp_ret. iExists ps.
  iSplitR; [done|].
  iExists (CEvLearner x p t). unfold at_node. simpl. iFrame.
Qed.

Section handlers.
Context (n sz : Z) (G : accept_ack → Prop).
Hypothesis G_ok : ∀ a, G a → ack_ok n sz a.

Lemma c_deliver_loop_ok k x st w st' ds :
  learner_inv n G st w → ca_size (l_instances st) = sz → l_current_iid st + sz ≤ INT_MAX + 1 →
  deliver_loop k st = Ret (st', ds) →
  at_learner x st ⊢ wp (c_deliver_loop k x) (λ r, <affine> ⌜r = ds⌝ ∗ at_learner x st').
Proof using G_ok.
  assert (∀ a, G a → aa_is_final a = 0 ∧ 0 < aa_iid a) as G1 by (intros a []%G_ok; done).
  revert st w ds. induction k as [|k IH]; intros st w ds I Hsz Hcur E; [done|].
  cbn [deliver_loop c_deliver_loop] in *. pose proof (lv_table _ _ _ _ I) as [R _ _].
  pose proof (rep_size _ _ R). pose proof (lv_cur _ _ _ _ I).
  destruct (deliver_next_ok n G G1 st w I) as (st1 & w1 & o & E1 & I1 & S1 & _ & Ho); [lia|].
  rewrite E1 in E. simpl in E. iIntros "H". wp_unbind. iApply (wp_wand with "[H]").
  { iApply (c_deliver_next_ok _ _ _ _ E1 with "H"). eapply (inv_indexed n G); [done|lia]. }
  iIntros (r) "[Hr H]". destruct o as [v|]; destruct r as [y|]; simpl; try iDestruct "Hr" as %[].
  - apply bind_inv in E as ([st2 ds2] & E2 & [= <- <-]). wp_rd "Hr". wp_fr "Hr". wp_unbind.
    destruct Ho as ((Gv & Hv & _) & C1 & _). destruct (G_ok v Gv).
    iApply (wp_wand with "[H]"); [iApply (IH st1 w1 ds2 I1); [congruence|lia|done|done]|].
    iIntros (ds') "[-> H]". iApply wp_ret. by iFrame.
  - injection E as <- <-. iApply wp_ret. by iFrame.
Qed.

Lemma c_handle_accept_ack_ok x l aa l' ds :
  evl_inv n sz G l → G aa → learner_handle_accept_ack l aa = Ret (l', ds) →
  at_evlearner x l ⊢ wp (c_learner_handle_accept_ack x aa) (λ r, <affine> ⌜r = ds⌝ ∗ at_evlearner x l').
Proof using G_ok.
  assert (∀ a, G a → aa_is_final a = 0 ∧ 0 < aa_iid a) as G1 by (intros a []%G_ok; done).
  iIntros ([[w I] Hsz Hcur _] Ga E) "(%s & Hx & Hst & H)".
  destruct (G_ok aa Ga) as [_ Hp Hr Hid]. pose proof (lv_table _ _ _ _ I) as [R _ _].
  pose proof (rep_size _ _ R). pose proof (lv_cur _ _ _ _ I).
  destruct (receive_accept_ok n G G1 (state l) w aa I Ga) as (st1 & w1 & E1 & I1 & _ & C1 & S1 & _);
    [unfold INT_MAX, UINT32_MOD in *; lia..|].
  unfold learner_handle_accept_ack in E. rewrite E1 in E. simpl in E.
  unfold learner_deliver_next_closed in E. apply bind_inv in E as ([st2 ds2] & E2 & [= <- <-]).
  unfold c_learner_handle_accept_ack, c_learner_deliver_next_closed. wp_rd "Hx". cbn [cel_state]. wp_unbind.
  iApply (wp_wand with "[Hst]").
  { iApply (c_receive_accept_ok _ _ _ _ E1 with "Hst"). eapply (inv_indexed n G); [done|lia]. }
  iIntros (_) "(%c & Hst & Hc)". wp_rd "Hx". cbn [cel_state]. wp_rd "Hst". cbn [cr_instances]. wp_unbind.
  iApply (queue_size at_linst). iFrame "Hc". iIntros "Hc".
  iApply (wp_wand with "[Hst Hc]").
  { iApply (c_deliver_loop_ok _ (cel_state s) st1 w1 st2 ds2 I1); [congruence| |exact E2|iExists c; iFrame].
    rewrite C1. unfold INT_MAX in *. case_match; lia. }
  iIntros (r) "[-> Hst]". iSplitR; [done|]. iExists s. iFrame.
Qed.

End handlers.

Lemma c_repeat_loop_ok k x s l addrs iid :
  peers_ok (acceptors l) addrs →
  at_node x s l ⊢ wp (c_repeat_loop k iid x) (λ out,
    <affine> ⌜repeat_loop k iid l = Ret out⌝ ∗ at_node x s l).
Proof.
  iIntros (Hok) "H". iInduction k as [|k] "IH" forall (iid); simpl.
  { iApply wp_ret. by iFrame. }
  iDestruct "H" as "(Hx & Hst & Hps & Ht)". wp_rd "Hx". simpl. wp_unbind.
  iApply c_peers_count_ok. iFrame "Hps". iIntros "Hps". wp_unbind.
  iApply (wp_wand with "[Hps]"); [iApply (c_send_each_ok with "Hps"); apply Hok|].
  iIntros (out) "[%E Hps]". wp_unbind. iApply (wp_wand with "[-]"); [iApply "IH"; iFrame|].
  iIntros (out') "[%E' H]". iApply wp_ret. iFrame. iPureIntro. by rewrite E /= E'.
Qed.

Lemma c_check_holes_ok x l addrs :
  peers_ok (acceptors l) addrs →
  at_evlearner x l ⊢ wp (c_learner_check_holes x) (λ out,
    <affine> ⌜learner_check_holes l = Ret out⌝ ∗ at_evlearner x l).
Proof.
  iIntros (Hok) "(%s & Hx & Hst & H)". unfold c_learner_check_holes, learner_check_holes.
  wp_rd "Hx". wp_unbind. iApply (wp_wand with "[Hst]"); [iApply (c_has_holes_ok with "Hst")|].
  iIntros (r) "[-> Hst]". wp_unbind. iApply (wp_wand with "[Hx Hst H]").
  { instantiate (1 := λ out, (<affine> ⌜match learner_has_holes (state l) with
      | None => Ret []
      | Some (from, to) => let '(from, to) := hole_range from to in repeat_loop (Z.to_nat (to - from)) from l
      end = Ret out⌝ ∗ at_node x s l)%I).
    destruct (learner_has_holes (state l)) as [[from to]|]; [|iApply wp_ret; by iFrame].
    destruct (hole_range from to) as [f t]. iApply c_repeat_loop_ok; [done|]. iFrame. }
  iIntros (out) "[%E (Hx & Hst & Hps & [%b Ht])]". wp_rd "Ht". wp_wr "Ht". iApply wp_ret.
  iSplitR; [done|]. iExists s. iFrame.
Qed.

Lemma c_evlearner_free_ok x l n sz G :
  evl_inv n sz G l → sz ≤ 2 ^ 30 → at_evlearner x l ⊢ wp (c_evlearner_free x) (λ _, emp).
Proof.
  iIntros ([[w I] Hsz _ _] Hb) "(%s & Hx & Hst & Hps & [%b Ht])". unfold c_evlearner_free. wp_rd "Hx".
  wp_call c_peers_free_ok with "[Hps]". iIntros (_) "_". wp_fr "Ht". wp_unbind.
  iApply (wp_wand with "[Hst]"); [iApply (inv_free n G with "Hst"); [exact I|lia]|].
  iIntros (_) "_". by wp_fr "Hx".
Qed.

(** ** A learner node from its start to its end *)

(** What the event loop may do: a message, the hole timer, an event of a peer. *)
Inductive levent : Type :=
  | LMsg (m : message)
  | LTimer
  | LPeer (i : nat) (e : c_peer_event).

Definition c_run_event (l : loc) (e : levent) : cmdb (list delivery) :=
  match e with
  | LMsg (MAcceptAck aa) => c_learner_handle_accept_ack l aa
  | LMsg _ => mret []
  | LTimer => c_learner_check_holes l ;; mret []
  | LPeer i e => s ← read_as as_evlearner l; c_peers_step (cel_acceptors s) i e ;; mret []
  end.

Fixpoint c_run_events (l : loc) (evs : list levent) : cmdb (list delivery) :=
  match evs with
  | [] => mret []
  | e :: evs' => ds ← c_run_event l e; ds' ← c_run_events l evs'; mret (ds ++ ds')
  end.

Definition c_evlearner_lifetime (cfg : paxos_config) (c : loc) (evs : list levent)
    : cmdb (list delivery) :=
  l ← c_evlearner_init_conf cfg c;
  ds ← c_run_events l evs;
  c_evlearner_free l ;;
  mret ds.

(** The messages among the events. *)
Definition messages (evs : list levent) : list message :=
  omap (λ e, match e with LMsg m => Some m | _ => None end) evs.

Section run.
Context (n sz : Z) (G : accept_ack → Prop) (addrs : list address).
Hypothesis G_ok : ∀ a, G a → ack_ok n sz a.

Lemma handle_accept_ack_peers l aa l' ds ps :
  learner_handle_accept_ack l aa = Ret (l', ds) →
  learner_handle_accept_ack (EvLearner (state l) ps) aa = Ret (EvLearner (state l') ps, ds).
Proof using Type.
  unfold learner_handle_accept_ack, learner_deliver_next_closed. cbn [state acceptors]. intros E.
  apply bind_inv in E as (st & -> & E). apply bind_inv in E as ([st' ds'] & E & [= <- <-]).
  cbn [state acceptors] in E. rewrite bind_Ret. cbn [state acceptors]. by rewrite E.
Qed.

Lemma evl_inv_peers l ps : evl_inv n sz G l → evl_inv n sz G (EvLearner (state l) ps).
Proof using Type. by intros []. Qed.

Lemma c_run_quiet_ok x e st ps :
  (∀ aa, e ≠ LMsg (MAcceptAck aa)) → peers_ok ps addrs →
  at_evlearner x (EvLearner st ps) ⊢ wp (c_run_event x e) (λ r,
    <affine> ⌜r = []⌝ ∗ ∃ ps', <affine> ⌜peers_ok ps' addrs⌝ ∗ at_evlearner x (EvLearner st ps')).
Proof using Type.
  iIntros (Hne Hok) "H". destruct e as [m| |i e].
  - destruct m as [r|k|r|k|iid|v]; try (by destruct (Hne k)); simpl; iApply wp_ret;
      (iSplitR; [done|]); iExists ps; by iFrame.
  - simpl. wp_unbind. iApply (wp_wand with "[H]"); [by iApply (c_check_holes_ok with "H")|].
    iIntros (out) "[_ H]". iApply wp_ret. iSplitR; [done|]. iExists ps. by iFrame.
  - iDestruct "H" as "(%s & Hx & Hst & Hps & Ht)". simpl. wp_rd "Hx". wp_unbind.
    iApply (wp_wand with "[Hps]"); [iApply (c_peers_step_ok with "Hps"); apply Hok|].
    iIntros (_) "[%nb Hps]". iApply wp_ret. iSplitR; [done|]. iExists _.
    iSplitR; [iPureIntro; by apply peers_step_ok|]. iExists s. iFrame.
Qed.

Lemma messages_quiet e evs :
  (∀ aa, e ≠ LMsg (MAcceptAck aa)) → ∀ l : evlearner,
  handle_all handle_message l (messages (e :: evs)) = handle_all handle_message l (messages evs).
Proof using Type.
  intros Hne l. destruct e as [m| |i e]; [|done..]. change (messages (LMsg m :: evs)) with (m :: messages evs).
  simpl. assert (handle_message l m = Ret (l, [])) as -> by (destruct m as [r|k|r|k|iid|v]; try done; by destruct (Hne k)).
  simpl. by destruct (handle_all handle_message l (messages evs)) as [[]|].
Qed.

(** Only the messages change what the learner knows and delivers. *)
Lemma c_run_events_ok evs l :
  evl_inv n sz G l → (∀ a, MAcceptAck a ∈ messages evs → G a) →
  ∃ l' ds, handle_all handle_message l (messages evs) = Ret (l', ds) ∧ evl_inv n sz G l' ∧
    ∀ x ps, peers_ok ps addrs → at_evlearner x (EvLearner (state l) ps) ⊢ wp (c_run_events x evs) (λ r,
      <affine> ⌜r = ds⌝ ∗ ∃ ps', <affine> ⌜peers_ok ps' addrs⌝ ∗ at_evlearner x (EvLearner (state l') ps')).
Proof using G_ok.
  revert l. induction evs as [|e evs IH]; intros l I HG.
  { exists l, []. split_and!; [done..|]. iIntros (x ps Hok) "H". iApply wp_ret. iSplitR; [done|].
    iExists ps. by iFrame. }
  assert ((∃ aa, e = LMsg (MAcceptAck aa)) ∨ ¬ ∃ aa, e = LMsg (MAcceptAck aa)) as [[aa ->]|Hne].
  { destruct e as [[| | |aa| |]| |]; (by left; eauto) || (right; by intros [? ?]). }
  - change (messages (LMsg (MAcceptAck aa) :: evs)) with (MAcceptAck aa :: messages evs) in *.
    destruct (handle_accept_ack_ok n sz G G_ok l aa I) as (l1 & ds1 & start & E & I1 & _).
    { apply HG. by left. }
    destruct (IH l1 I1) as (l2 & ds2 & E2 & I2 & H2); [intros a Ha; apply HG; by right|].
    exists l2, (ds1 ++ ds2). cbn [handle_all handle_message]. rewrite E bind_Ret. cbv beta iota.
    rewrite E2 bind_Ret. split_and!; [done..|]. iIntros (x ps Hok) "H". cbn [c_run_events]. wp_unbind.
    iApply (wp_wand with "[H]").
    { iApply (c_handle_accept_ack_ok n sz G G_ok with "H"); [by apply evl_inv_peers|by apply HG; left|].
      by eapply handle_accept_ack_peers. }
    iIntros (r) "[-> H]". wp_unbind. iApply (wp_wand with "[H]"); [by iApply H2|].
    iIntros (r) "[-> H]". iApply wp_ret. by iFrame.
  - assert (∀ aa, e ≠ LMsg (MAcceptAck aa)) as Hq by (intros aa ->; apply Hne; eauto).
    destruct (IH l I) as (l2 & ds2 & E2 & I2 & H2).
    { intros a Ha. apply HG. destruct e; [by right|done..]. }
    exists l2, ds2. rewrite messages_quiet //. split_and!; [done..|]. iIntros (x ps Hok) "H".
    cbn [c_run_events]. wp_unbind. iApply (wp_wand with "[H]"); [by iApply c_run_quiet_ok|].
    iIntros (r) "[-> (%ps' & %Hok' & H)]". wp_unbind. iApply (wp_wand with "[H]"); [by iApply H2|].
    iIntros (r) "[-> H]". iApply wp_ret. by iFrame.
Qed.
End run.

(** ** Properties *)

(** A learner node's memory is safe over its whole life.  Given the structure
of a configuration, a program that starts the node, handles any messages (the
votes well formed), hole timers and events of its connections in any order, and
frees the node, returns without a fault (nothing is used after it was freed or
freed twice, reconnections included; no access is out of bounds; no assertion
fails), hands its callback what the value model does, and has then freed the
node, its connections and timers and the configuration: of the heap exactly the
rest, untouched, is left. *)
Theorem evlearner_memory_safe cfg c conf acs pcs evs (hc h : heap block) :
  config_rep conf acs pcs → 1 ≤ Z.of_nat (length acs) ≤ INT_MAX → 0 < learner_instances cfg ≤ 2 ^ 30 →
  (∀ a, MAcceptAck a ∈ messages evs → ack_ok (Z.of_nat (length acs)) (learner_instances cfg) a) →
  holds (at_config c acs pcs) hc → hc ##ₘ h →
  ∃ l0 l ds, evlearner_init_conf cfg conf (λ i, i) = Ret l0 ∧
    handle_all handle_message l0 (messages evs) = Ret (l, ds) ∧
    c_evlearner_lifetime cfg c evs (hc ∪ h) = Ret (ds, h).
Proof.
  intros Rc Hn Hs HG Hh Hd. set (n := Z.of_nat (length acs)) in *. set (sz := learner_instances cfg) in *.
  assert (0 < learner_instances cfg ≤ INT_MAX) as Hs' by (unfold INT_MAX; lia).
  destruct (evlearner_init_ok cfg conf acs pcs (λ i, i) Rc Hn Hs') as (l0 & E0 & _ & _ & _ & _ & I0).
  destruct (c_run_events_ok n sz (ack_ok n sz) acs (λ a Ha, Ha) evs l0 (I0 _) HG)
    as (l & ds & E & I & Hrun).
  exists l0, l, ds. split; [done|]. split; [done|].
  assert (learner_new cfg n = Ret (state l0)) as En.
  { destruct Rc as [[Hac _ _] _]. unfold evlearner_init_conf in E0. rewrite Hac in E0.
    apply bind_inv in E0 as (st & E1 & E0). apply bind_inv in E0 as (ps & _ & [= <-]). exact E1. }
  destruct (wp_adequate (at_config c acs pcs) (c_evlearner_lifetime cfg c evs)
    (λ r, <affine> ⌜r = ds⌝)%I hc h) as (a & h' & Er & _ & Ha & ->); [|done..|].
  - iIntros "Hc". unfold c_evlearner_lifetime. wp_unbind.
    iApply (wp_wand with "[Hc]"); [by iApply (c_evlearner_init_ok cfg c acs pcs (state l0))|].
    iIntros (x) "(%ps & %Hok & Hx)". wp_unbind. iApply (wp_wand with "[Hx]"); [by iApply Hrun|].
    iIntros (r) "[-> (%ps' & _ & Hx)]". wp_unbind.
    iApply (wp_wand with "[Hx]").
    { iApply (c_evlearner_free_ok with "Hx"); [by eapply evl_inv_peers|lia]. }
    iIntros (_) "_". by iApply wp_ret.
  - change (h' = ∅) in Ha. subst h'. by rewrite (left_id_L ∅ (∪)) in Er.
Qed.

(** Instance 2 is acknowledged first, the connection to an acceptor breaks and
is made again, the hole timer asks for instance 1, which then comes. *)
Definition demo_events : list levent :=
  map LMsg EvLearner.demo_acks ++
  [LPeer 1 (CSocket false true); LTimer; LPeer 1 CTimer; LPeer 1 (CSocket true false); LMsg (MSubmit []);
   LMsg (MAcceptAck (AcceptAck 0 1 12 12 0 [x42])); LMsg (MAcceptAck (AcceptAck 2 1 12 12 0 [x42]))].

Lemma demo_events_ok a : MAcceptAck a ∈ messages demo_events → ack_ok 3 4 a.
Proof.
  unfold messages, demo_events, demo_acks. simpl. intros Ha.
  repeat (apply elem_of_cons in Ha as [Ha|Ha];
    [try discriminate Ha; injection Ha as ->; split; vm_compute; intuition congruence|]).
  by apply not_elem_of_nil in Ha.
Qed.

Lemma evlearner_memory_safe_witness :
  c_evlearner_lifetime cfg4 1%positive demo_events three_heap =
  Ret ([Delivery [x42] 1 12 2; Delivery [x41] 2 103 3], ∅).
Proof.
  destruct (evlearner_memory_safe cfg4 1%positive three_config three_addrs one_addr demo_events three_heap ∅)
    as (l0 & l & ds & E0 & E & H).
  - exact three_config_rep.
  - split; vm_compute; congruence.
  - split; vm_compute; congruence.
  - exact demo_events_ok.
  - exact three_heap_config.
  - apply map_disjoint_empty_r.
  - rewrite (right_id_L ∅ (∪)) in H. rewrite H. f_equal. vm_compute in E0. injection E0 as <-.
    apply (f_equal (from_ret (l, []))) in E. vm_compute in E. by injection E as _ <-.
Defined.
