(* ===== verification/MemAcceptor.v ===== *)
(** * The acceptor and its table on the heap (src/paxos/storage_mem.c, src/paxos/acceptor.c)

The table of [StorageMem] is an array of pointers to record buffers.  What
[storage_get_record] returns points into the table, and the operations change
records through that pointer and answer with it: the record that is sent is
read after the update, from the buffer itself.  [at_table x locs s] is the
memory of the table [s] with its buffers at [locs], and the index of
[StorageMem] that stands for a pointer is its place in [locs]. *)

From S2P Require Import Prelude Heap Carray Messages Storage StorageMem Acceptor Storages Net.
From S2P Require Import Memory MemCarray MemQueue.
#[local] Open Scope Z_scope.

(** ** storage_mem.c *)

(** [s->records[i] = r] *)
Definition c_set_slot_record (s : loc) (i : Z) (r : loc) : cmdb () :=
  st ← read_as as_storage s;
  l ← pureC (arr_set (cst_records st) i (Some r));
  write s (BStorage (CStorage (cst_acceptor_id st) l)).

(** The buffers keep what [malloc] left in them, but for the instance. *)
Definition c_storage_open (acceptor_id : Z) (junk : nat → acceptor_record) : cmdb loc :=
  s ← alloc (BStorage (CStorage 0 (replicate (Z.to_nat MAX_RECORDS) None)));
  cfor_to MAX_RECORDS (λ i _,
    let r := junk (Z.to_nat i) in
    x ← alloc (BRecord (AcceptAck (aa_acceptor_id r) 0 (aa_ballot r) (aa_value_ballot r)
          (aa_is_final r) (aa_value r)));
    c_set_slot_record s i x) tt ;;
  st ← read_as as_storage s;
  write s (BStorage (CStorage acceptor_id (cst_records st))) ;;
  mret s.

(** [s->records[i]] *)
Definition c_slot_record (s : loc) (i : Z) : cmdb loc :=
  st ← read_as as_storage s;
  x ← pureC (arr_get (cst_records st) i);
  pureC (deref x).

Definition c_storage_close (s : loc) : cmdb Z :=
  cfor_to MAX_RECORDS (λ i _, x ← c_slot_record s i; free x) tt ;;
  free s ;;
  mret 0.

Definition c_get_record (s : loc) (iid : Z) : cmdb (option loc) :=
  record_buffer ← c_slot_record s (mem_slot iid);
  r ← read_as as_record record_buffer;
  if iid <? aa_iid r then pureC (Fault (Exit 1))
  else if iid =? aa_iid r then mret (Some record_buffer)
  else mret None.

Definition c_save_accept (s : loc) (ar : accept_req) : cmdb loc :=
  record_buffer ← c_slot_record s (mem_slot (ar_iid ar));
  st ← read_as as_storage s;
  if mem_fits (ar_value ar) then
    read_as as_record record_buffer ;;
    write record_buffer (BRecord (AcceptAck (cst_acceptor_id st) (ar_iid ar) (ar_ballot ar)
      (ar_ballot ar) 0 (ar_value ar))) ;;
    mret record_buffer
  else pureC (Fault OutOfBounds).

Definition c_save_prepare (s : loc) (pr : prepare_req) (rec : option loc) : cmdb loc :=
  record_buffer ← c_slot_record s (mem_slot (pr_iid pr));
  match rec with
  | None =>
      st ← read_as as_storage s;
      read_as as_record record_buffer ;;
      write record_buffer (BRecord (AcceptAck (cst_acceptor_id st) (pr_iid pr) (pr_ballot pr) 0 0 []))
  | Some x =>
      r ← read_as as_record x;
      write x (BRecord (AcceptAck (aa_acceptor_id r) (aa_iid r) (pr_ballot pr)
        (aa_value_ballot r) (aa_is_final r) (aa_value r)))
  end ;;
  mret record_buffer.

(** ** acceptor.c *)

Definition c_acceptor_new (id : Z) (junk : nat → acceptor_record) : cmdb loc :=
  s ← c_storage_open id junk;
  alloc (BAcceptor (CAcceptor s)).

Definition c_acceptor_free (a : loc) : cmdb Z :=
  s ← read_as as_acceptor a;
  rv ← c_storage_close (cac_store s);
  free a ;;
  mret rv.

Definition c_apply_prepare (s : loc) (pr : prepare_req) (rec : option loc) : cmdb loc :=
  match rec with
  | Some x =>
      r ← read_as as_record x;
      if pr_ballot pr <=? aa_ballot r then mret x
      else if negb (aa_is_final r =? 0) then mret x
      else c_save_prepare s pr rec
  | None => c_save_prepare s pr rec
  end.

Definition c_apply_accept (s : loc) (ar : accept_req) (rec : option loc) : cmdb loc :=
  match rec with
  | Some x =>
      r ← read_as as_record x;
      if ar_ballot ar <? aa_ballot r then mret x
      else c_save_accept s ar
  | None => c_save_accept s ar
  end.

(** The transactions of the table do nothing. *)
Definition c_acceptor_receive_prepare (a : loc) (req : prepare_req) : cmdb loc :=
  s ← read_as as_acceptor a;
  rec ← c_get_record (cac_store s) (pr_iid req);
  c_apply_prepare (cac_store s) req rec.

Definition c_acceptor_receive_accept (a : loc) (req : accept_req) : cmdb loc :=
  s ← read_as as_acceptor a;
  rec ← c_get_record (cac_store s) (ar_iid req);
  c_apply_accept (cac_store s) req rec.

Definition c_acceptor_receive_repeat (a : loc) (iid : Z) : cmdb (option loc) :=
  s ← read_as as_acceptor a;
  c_get_record (cac_store s) iid.

(** ** Their memory *)

Definition at_record (x : loc) (r : acceptor_record) : mprop := (x ↦ BRecord r)%I.

Definition at_table (x : loc) (locs : list loc) (s : storage_mem) : mprop :=
  (x ↦ BStorage (CStorage (sm_acceptor_id s) (Some <$> locs)) ∗ elems at_record locs (sm_records s) ∗
     <affine> ⌜Z.of_nat (length locs) = MAX_RECORDS⌝)%I.

(** The pointer for the index [k] of a record. *)
Definition rec_at (locs : list loc) (k : Z) (x : loc) : Prop := 0 ≤ k ∧ locs !! Z.to_nat k = Some x.

Definition found_at (locs : list loc) (p : option Z) (o : option loc) : Prop :=
  match p, o with
  | Some k, Some x => rec_at locs k x
  | None, None => True
  | _, _ => False
  end.

Section table.
Implicit Types (x a : loc) (locs : list loc) (s : storage_mem).

Lemma c_storage_open_ok aid junk :
  ⊢ wp (c_storage_open aid junk) (λ x, ∃ locs, at_table x locs (storage_mem_open aid junk)).
Proof.
  unfold c_storage_open. wp_new x "Hx". wp_unbind. iApply (wp_wand with "[Hx]").
  { iApply (wp_for_to (λ k _, ∃ locs,
      x ↦ BStorage (CStorage 0 ((Some <$> locs) ++ replicate (Z.to_nat (MAX_RECORDS - k)) None)) ∗
      <affine> ⌜Z.of_nat (length locs) = k⌝ ∗
      elems at_record locs (take (Z.to_nat k) (sm_records (storage_mem_open aid junk))))%I); [done| |].
    - iIntros (k _ Hk) "(%locs & Hx & %Hl & He)". wp_new r "Hr". unfold c_set_slot_record. wp_rd "Hx".
      cbn [cst_records cst_acceptor_id].
      assert (arr_set ((Some <$> locs) ++ replicate (Z.to_nat (MAX_RECORDS - k)) None) k (Some r) =
        Ret ((Some <$> (locs ++ [r])) ++ replicate (Z.to_nat (MAX_RECORDS - (k + 1))) None)) as E.
      { rewrite arr_set_ok; [|rewrite length_app length_fmap length_replicate; lia]. f_equal.
        rewrite insert_app_r_alt length_fmap; [|lia]. replace (Z.to_nat k - length locs)%nat with 0%nat by lia.
        replace (Z.to_nat (MAX_RECORDS - k)) with (S (Z.to_nat (MAX_RECORDS - (k + 1)))) by lia.
        by rewrite fmap_app -app_assoc. }
      wp_pure E. iApply wp_write. iFrame "Hx". iIntros "Hx". iExists (locs ++ [r]). iFrame "Hx".
      iSplitR; [iPureIntro; rewrite length_app /=; lia|].
      rewrite Z2Nat.inj_add ?Nat.add_1_r; [|lia..]. erewrite take_S_r.
      2:{ unfold storage_mem_open. cbn [sm_records]. rewrite list_lookup_fmap lookup_seq_lt /=; [done|].
          apply Z2Nat.inj_lt; lia. }
      iApply elems_snoc. iFrame.
    - iExists []. rewrite Z.sub_0_r. iFrame. iSplitR; [done|]. by iApply big_sepL2_nil. }
  iIntros (_) "(%locs & Hx & %Hl & He)". wp_rd "Hx". wp_wr "Hx". iApply wp_ret. iExists locs.
  rewrite Z.sub_diag app_nil_r take_ge; [|by rewrite length_fmap length_seq]. iFrame. done.
Qed.

Lemma slot_bound locs k : Z.of_nat (length locs) = MAX_RECORDS → 0 ≤ k < MAX_RECORDS → ∃ y, rec_at locs k y.
Proof.
  intros Hl Hk. destruct (lookup_lt_is_Some_2 locs (Z.to_nat k)) as [y Hy]; [lia|].
  exists y. split; [lia|done].
Qed.

(** Through the pointer in slot [k]. *)
Lemma c_slot_record_ok x locs s k (Φ : loc → mprop) :
  0 ≤ k < MAX_RECORDS →
  at_table x locs s ∗ (∀ y, <affine> ⌜rec_at locs k y⌝ -∗ at_table x locs s -∗ Φ y) ⊢
  wp (c_slot_record x k) Φ.
Proof.
  iIntros (Hk) "[(Hx & He & %Hl) HΦ]". destruct (slot_bound locs k Hl Hk) as [y [Hk0 Hy]].
  unfold c_slot_record. wp_rd "Hx". cbn [cst_records].
  assert (arr_get (Some <$> locs) k = Ret (Some y)) as E.
  { apply arr_get_ok; [done|]. by rewrite list_lookup_fmap Hy. }
  wp_pure E. iApply wp_pureC; [done|]. iApply "HΦ"; [done|]. by iFrame.
Qed.

(** The record behind a pointer into the table, which may be written. *)
Lemma table_acc x locs s k y r :
  rec_at locs k y → mem_load s k = Ret r →
  at_table x locs s ⊢ y ↦ BRecord r ∗
    ((y ↦ BRecord r -∗ at_table x locs s) ∧
     (∀ r' s', <affine> ⌜mem_store s k r' = Ret s'⌝ -∗ y ↦ BRecord r' -∗ at_table x locs s')).
Proof.
  iIntros ([Hk Hy] Hr) "(Hx & He & %Hl)". apply arr_get_inv in Hr as [_ Hr].
  iDestruct (elems_acc with "He") as "[$ He]"; [exact Hy|exact Hr|]. iSplit.
  - iIntros "Hy". iFrame "Hx". iSplitL; [|done]. iSpecialize ("He" with "Hy"). by rewrite list_insert_id.
  - iIntros (r' s' Hs) "Hy". unfold mem_store in Hs. apply bind_inv in Hs as (l & El & [= <-]).
    apply arr_set_inv in El as [_ ->]. iFrame "Hx". iSplitL; [|done]. by iApply "He".
Qed.

Lemma mem_store_loads s k r s' : mem_store s k r = Ret s' → ∃ old, mem_load s k = Ret old.
Proof.
  unfold mem_store. intros E. apply bind_inv in E as (l & El & _). apply arr_set_inv in El as [? _].
  by apply arr_get_total.
Qed.

Lemma c_storage_close_ok x locs s :
  Z.of_nat (length (sm_records s)) = MAX_RECORDS →
  at_table x locs s ⊢ wp (c_storage_close x) (λ rv, <affine> ⌜rv = storage_mem_close s⌝).
Proof.
  iIntros (Hs) "(Hx & He & %Hl)". unfold c_storage_close. wp_unbind. iApply (wp_wand with "[Hx He]").
  { iApply (wp_for_to (λ k _, x ↦ BStorage (CStorage (sm_acceptor_id s) (Some <$> locs)) ∗
      elems at_record (drop (Z.to_nat k) locs) (drop (Z.to_nat k) (sm_records s)))%I); [done| |by iFrame].
    iIntros (k _ Hk) "[Hx He]". destruct (slot_bound locs k Hl Hk) as [y [_ Hy]].
    destruct (lookup_lt_is_Some_2 (sm_records s) (Z.to_nat k)) as [r Hr]; [lia|].
    rewrite (drop_S _ _ _ Hy) (drop_S _ _ _ Hr). unfold elems at 1. simpl. iDestruct "He" as "[Hr He]".
    unfold c_slot_record. wp_unbind. wp_rd "Hx". cbn [cst_records].
    assert (arr_get (Some <$> locs) k = Ret (Some y)) as E.
    { apply arr_get_ok; [lia|]. by rewrite list_lookup_fmap Hy. }
    wp_pure E. wp_p. unfold at_record at 1. wp_fr "Hr". iFrame "Hx".
    by rewrite Z2Nat.inj_add ?Nat.add_1_r; [|lia..]. }
  iIntros (_) "[Hx He]". rewrite !drop_ge; [|lia..]. unfold elems. simpl. iDestruct "He" as "_".
  wp_fr "Hx". by iApply wp_ret.
Qed.

Lemma c_get_record_ok x locs s iid s' p :
  mem_get_record s iid = Ret (s', p) →
  at_table x locs s ⊢ wp (c_get_record x iid) (λ o,
    <affine> ⌜found_at locs p o⌝ ∗ at_table x locs s').
Proof.
  iIntros (E) "H". unfold mem_get_record in E. apply bind_inv in E as (r & Er & E).
  unfold c_get_record. wp_unbind. iApply c_slot_record_ok; [apply mem_slot_range|]. iFrame "H".
  iIntros (y) "%Hy H". iDestruct (table_acc with "H") as "[Hr [H _]]"; [exact Hy|exact Er|].
  wp_rd "Hr". iSpecialize ("H" with "Hr"). destruct (iid <? aa_iid r); [done|].
  destruct (iid =? aa_iid r); injection E as <- <-; iApply wp_ret; by iFrame.
Qed.

Lemma c_save_accept_ok x locs s ar s' k :
  mem_save_accept s ar = Ret (s', k) →
  at_table x locs s ⊢ wp (c_save_accept x ar) (λ y, <affine> ⌜rec_at locs k y⌝ ∗ at_table x locs s').
Proof.
  iIntros (E) "H". unfold mem_save_accept in E. unfold c_save_accept. wp_unbind.
  iApply c_slot_record_ok; [apply mem_slot_range|]. iFrame "H". iIntros (y) "%Hy (Hx & He & %Hl)".
  wp_rd "Hx". cbn [cst_acceptor_id]. destruct (mem_fits (ar_value ar)); [|done].
  apply bind_inv in E as (s1 & Es & [= <- <-]).
  destruct (mem_store_loads _ _ _ _ Es) as [r Er].
  iDestruct (table_acc x with "[$Hx $He //]") as "[Hr [_ H]]"; [exact Hy|exact Er|].
  wp_rd "Hr". wp_wr "Hr". iApply wp_ret. iSplitR; [done|]. by iApply ("H" with "[] Hr").
Qed.

Lemma c_save_prepare_ok x locs s pr p o s' k :
  found_at locs p o → mem_save_prepare s pr p = Ret (s', k) →
  at_table x locs s ⊢ wp (c_save_prepare x pr o) (λ y, <affine> ⌜rec_at locs k y⌝ ∗ at_table x locs s').
Proof.
  iIntros (Ho E) "H". unfold mem_save_prepare in E. unfold c_save_prepare. wp_unbind.
  iApply c_slot_record_ok; [apply mem_slot_range|]. iFrame "H". iIntros (y) "%Hy H". wp_unbind.
  destruct p as [j|], o as [z|]; try by destruct Ho.
  - apply bind_inv in E as (r & Er & E). apply bind_inv in E as (s1 & Es & [= <- <-]).
    iDestruct (table_acc x with "H") as "[Hr [_ H]]"; [exact Ho|exact Er|].
    wp_rd "Hr". iApply wp_write. iFrame "Hr". iIntros "Hr". iApply wp_ret. iSplitR; [done|].
    by iApply ("H" with "[] Hr").
  - apply bind_inv in E as (s1 & Es & [= <- <-]). iDestruct "H" as "(Hx & He & %Hl)". wp_rd "Hx".
    destruct (mem_store_loads _ _ _ _ Es) as [r Er].
    iDestruct (table_acc x with "[$Hx $He //]") as "[Hr [_ H]]"; [exact Hy|exact Er|].
    wp_rd "Hr". iApply wp_write. iFrame "Hr". iIntros "Hr". iApply wp_ret. iSplitR; [done|].
    by iApply ("H" with "[] Hr").
Qed.
End table.

(** The acceptor [A], with its table. *)
Definition at_acceptor (a : loc) (A : acceptor storage_mem) : mprop :=
  (∃ x locs, a ↦ BAcceptor (CAcceptor x) ∗ at_table x locs (store A))%I.

(** The answer of an operation: a pointer to a record of the table, or [NULL]. *)
Definition at_answer (a : loc) (A : acceptor storage_mem) (r : option acceptor_record) (o : option loc)
    : mprop :=
  match o, r with
  | Some y, Some r => y ↦ BRecord r ∗ (y ↦ BRecord r -∗ at_acceptor a A)
  | None, None => at_acceptor a A
  | _, _ => False
  end%I.

Section acceptor.
Implicit Types (a x : loc) (A : acceptor storage_mem).

Lemma c_acceptor_new_ok id junk :
  ⊢ wp (c_acceptor_new id junk) (λ a, at_acceptor a (Acceptor (storage_mem_open id junk))).
Proof.
  unfold c_acceptor_new. wp_unbind. iApply (wp_wand with "[]"); [iApply c_storage_open_ok|].
  iIntros (x) "[%locs Hx]". iApply wp_alloc. iIntros (a) "Ha". iExists x, locs. iFrame.
Qed.

Lemma c_acceptor_free_ok a A :
  Z.of_nat (length (sm_records (store A))) = MAX_RECORDS →
  at_acceptor a A ⊢ wp (c_acceptor_free a) (λ rv, <affine> ⌜rv = acceptor_free storage_mem_close A⌝).
Proof.
  iIntros (Hl) "(%x & %locs & Ha & Hx)". unfold c_acceptor_free. wp_rd "Ha". wp_unbind.
  iApply (wp_wand with "[Hx]"); [by iApply (c_storage_close_ok with "Hx")|]. iIntros (rv) "->".
  wp_fr "Ha". by iApply wp_ret.
Qed.

Lemma c_apply_prepare_ok x locs s pr p o s' k :
  found_at locs p o → apply_prepare s pr p = Ret (s', k) →
  at_table x locs s ⊢ wp (c_apply_prepare x pr o) (λ y, <affine> ⌜rec_at locs k y⌝ ∗ at_table x locs s').
Proof.
  iIntros (Ho E) "H". destruct p as [j|], o as [z|]; try by destruct Ho.
  - simpl in E |- *. apply bind_inv in E as (r & Er & E).
    iDestruct (table_acc x with "H") as "[Hr [H _]]"; [exact Ho|exact Er|]. wp_rd "Hr".
    iSpecialize ("H" with "Hr"). destruct (pr_ballot pr <=? aa_ballot r).
    { injection E as <- <-. iApply wp_ret. by iFrame. }
    destruct (negb (aa_is_final r =? 0)); [|by iApply (c_save_prepare_ok with "H")].
    injection E as <- <-. iApply wp_ret. by iFrame.
  - by iApply (c_save_prepare_ok with "H").
Qed.

Lemma c_apply_accept_ok x locs s ar p o s' k :
  found_at locs p o → apply_accept s ar p = Ret (s', k) →
  at_table x locs s ⊢ wp (c_apply_accept x ar o) (λ y, <affine> ⌜rec_at locs k y⌝ ∗ at_table x locs s').
Proof.
  iIntros (Ho E) "H". destruct p as [j|], o as [z|]; try by destruct Ho.
  - simpl in E |- *. apply bind_inv in E as (r & Er & E).
    iDestruct (table_acc x with "H") as "[Hr [H _]]"; [exact Ho|exact Er|]. wp_rd "Hr".
    iSpecialize ("H" with "Hr"). destruct (ar_ballot ar <? aa_ballot r).
    + injection E as <- <-. iApply wp_ret. by iFrame.
    + by iApply (c_save_accept_ok with "H").
  - by iApply (c_save_accept_ok with "H").
Qed.

(** The record at the index that was returned, through the pointer. *)
Lemma answer_intro a x locs A k y r :
  rec_at locs k y → mem_load (store A) k = Ret r →
  a ↦ BAcceptor (CAcceptor x) ∗ at_table x locs (store A) ⊢ at_answer a A (Some r) (Some y).
Proof.
  iIntros (Hy Er) "[Ha H]". iDestruct (table_acc x with "H") as "[$ [H _]]"; [exact Hy|exact Er|].
  iIntros "Hr". iExists x, locs. iFrame. by iApply "H".
Qed.

Lemma c_receive_prepare_ok a A req A' k r :
  acceptor_receive_prepare A req = Ret (A', k) → rec_load (store A') k = Ret r →
  at_acceptor a A ⊢ wp (c_acceptor_receive_prepare a req) (λ y, at_answer a A' (Some r) (Some y)).
Proof.
  iIntros (E Er) "(%x & %locs & Ha & H)". unfold acceptor_receive_prepare in E. simpl in E.
  apply bind_inv in E as ([s1 p] & E1 & E). apply bind_inv in E as ([s2 k2] & E2 & [= <- <-]).
  unfold c_acceptor_receive_prepare. wp_rd "Ha". wp_unbind.
  iApply (wp_wand with "[H]"); [by iApply (c_get_record_ok with "H")|]. iIntros (o) "[%Ho H]".
  iApply (wp_wand with "[H]"); [by iApply (c_apply_prepare_ok with "H")|]. iIntros (y) "[%Hy H]".
  iApply answer_intro; [exact Hy|exact Er|iFrame].
Qed.

Lemma c_receive_accept_req_ok a A req A' k r :
  acceptor_receive_accept A req = Ret (A', k) → rec_load (store A') k = Ret r →
  at_acceptor a A ⊢ wp (c_acceptor_receive_accept a req) (λ y, at_answer a A' (Some r) (Some y)).
Proof.
  iIntros (E Er) "(%x & %locs & Ha & H)". unfold acceptor_receive_accept in E. simpl in E.
  apply bind_inv in E as ([s1 p] & E1 & E). apply bind_inv in E as ([s2 k2] & E2 & [= <- <-]).
  unfold c_acceptor_receive_accept. wp_rd "Ha". wp_unbind.
  iApply (wp_wand with "[H]"); [by iApply (c_get_record_ok with "H")|]. iIntros (o) "[%Ho H]".
  iApply (wp_wand with "[H]"); [by iApply (c_apply_accept_ok with "H")|]. iIntros (y) "[%Hy H]".
  iApply answer_intro; [exact Hy|exact Er|iFrame].
Qed.

Lemma c_receive_repeat_ok a A iid A' p r :
  acceptor_receive_repeat A iid = Ret (A', p) →
  match p with Some k => ∃ q, rec_load (store A') k = Ret q ∧ r = Some q | None => r = None end →
  at_acceptor a A ⊢ wp (c_acceptor_receive_repeat a iid) (at_answer a A' r).
Proof.
  iIntros (E Er) "(%x & %locs & Ha & H)". unfold acceptor_receive_repeat in E. simpl in E.
  apply bind_inv in E as ([s1 p1] & E1 & [= <- <-]). unfold c_acceptor_receive_repeat. wp_rd "Ha".
  iApply (wp_wand with "[H]"); [by iApply (c_get_record_ok with "H")|]. iIntros (o) "[%Ho H]".
  destruct p1 as [k|], o as [y|]; try by destruct Ho.
  - destruct Er as (q & Eq & ->). iApply answer_intro; [exact Ho|exact Eq|iFrame].
  - rewrite Er. iExists x, locs. iFrame.
Qed.
End acceptor.
