(* ===== verification/MemEvAcceptor.v ===== *)
(** * An event-driven acceptor on the heap (src/evpaxos/evacceptor.c)

The node as a whole over the table of storage_mem.c: it keeps its configuration
until it is freed, answers through the connections its receiver has accepted,
and sends records straight from the table. *)

From S2P Require Import Prelude Heap Carray Messages Config Storage StorageMem Acceptor Storages Net.
From S2P Require Import EvAcceptor Memory MemCarray MemQueue MemConns MemConfig MemAcceptor.
#[local] Open Scope Z_scope.
Import TcpReceiver.

(** ** Handlers *)

(** [sendbuf_add_*(bev, m)] *)
Definition c_send (bev : loc) (m : message) : cmdb sends :=
  read_as as_bev bev ;; mret [(Zpos bev, m)].

Definition c_handle_prepare_req (a from : loc) (pr : prepare_req) : cmdb sends :=
  s ← read_as as_evacceptor a;
  st ← pureC (deref (cea_state s));
  rec ← c_acceptor_receive_prepare st pr;
  r ← read_as as_record rec;
  c_send from (MPrepareAck (prepare_ack_of r)).

Definition c_handle_accept_req (a from : loc) (ar : accept_req) : cmdb sends :=
  s ← read_as as_evacceptor a;
  rcv ← pureC (deref (cea_receiver s));
  conns ← read_as as_receiver rcv;
  st ← pureC (deref (cea_state s));
  rec ← c_acceptor_receive_accept st ar;
  r ← read_as as_record rec;
  if ar_ballot ar =? aa_ballot r then
    n ← c_carray_count (ctr_bevs conns);
    c_send_each n (λ i, x ← c_carray_at (ctr_bevs conns) i; pureC (deref x)) (MAcceptAck r)
  else c_send from (MAcceptAck r).

Definition c_handle_repeat_req (a from : loc) (iid : Z) : cmdb sends :=
  s ← read_as as_evacceptor a;
  st ← pureC (deref (cea_state s));
  rec ← c_acceptor_receive_repeat st iid;
  match rec with
  | Some x => r ← read_as as_record x; c_send from (MAcceptAck r)
  | None => mret []
  end.

(** [handle_req], for a message that was decoded. *)
Definition c_handle_request (a from : loc) (m : message) : cmdb sends :=
  match m with
  | MPrepareReq pr => c_handle_prepare_req a from pr
  | MAcceptReq ar => c_handle_accept_req a from ar
  | MRepeatReq iid => c_handle_repeat_req a from iid
  | _ => mret []
  end.

(** ** The start and the end of a node *)

(** [c] is the configuration that was read; [storage_open] of storage_mem.c does
not return without a storage. *)
Definition c_evacceptor_init_conf (c : loc) (id : Z) (bound : bool) (junk : nat → acceptor_record)
    : cmdb (option loc) :=
  a ← alloc (BEvAcceptor (CEvAcceptor 0 c None None));
  s ← read_as as_config c;
  if (id <? 0) || (ccf_acceptors_count s <=? id) then mret None
  else
    addr ← pureC (arr_get (ccf_acceptors s) id);
    r ← c_tcp_receiver_new (Address "" (cad_port addr)) bound;
    st ← c_acceptor_new id junk;
    write a (BEvAcceptor (CEvAcceptor id c (Some r) (Some st))) ;;
    mret (Some a).

Definition c_evacceptor_free (a : loc) : cmdb Z :=
  s ← read_as as_evacceptor a;
  st ← pureC (deref (cea_state s));
  c_acceptor_free st ;;
  r ← pureC (deref (cea_receiver s));
  c_tcp_receiver_free r ;;
  c_free_config (cea_conf s) ;;
  free a ;;
  mret 0.

(** ** The answers *)

(** What is sent for the record that was answered, to the sender and to the open
connections [conns]. *)
Definition answers (conns : list bufferevent) (from : bufferevent) (q : request)
    (r : option acceptor_record) : sends :=
  match q, r with
  | RPrepare _, Some rec => [(from, MPrepareAck (prepare_ack_of rec))]
  | RAccept ar, Some rec =>
      if ar_ballot ar =? aa_ballot rec then (λ b, (b, MAcceptAck rec)) <$> conns
      else [(from, MAcceptAck rec)]
  | RRepeat _, Some rec => [(from, MAcceptAck rec)]
  | _, None => []
  end.

Definition request_of (m : message) : option request :=
  match m with
  | MPrepareReq pr => Some (RPrepare pr)
  | MAcceptReq ar => Some (RAccept ar)
  | MRepeatReq iid => Some (RRepeat iid)
  | _ => None
  end.

(** A handler serves the request and sends the answers. *)
Lemma handle_serves (v : evacceptor storage_mem) A l from m q A' r :
  state v = Some A → carray_rep (bevs (receiver v)) l → indexable (bevs (receiver v)) →
  request_of m = Some q → acceptor_serve A q = Ret (A', r) →
  handle_message from v m = Ret (EvAcceptor.set_state A' v, answers l from q r).
Proof.
  intros HA R Hx Hm E. destruct m as [pr| |ar| |iid|]; try done; injection Hm as <-; simpl in E |- *.
  - apply bind_inv in E as ([A1 p] & E1 & E). apply bind_inv in E as (rec & E2 & [= <- <-]).
    unfold handle_prepare_req. rewrite HA /= E1 /=. simpl in E2. by rewrite E2.
  - apply bind_inv in E as ([A1 p] & E1 & E). apply bind_inv in E as (rec & E2 & [= <- <-]).
    unfold handle_accept_req. rewrite HA /= E1 /=. simpl in E2. rewrite E2 /=. case_match; [|done].
    unfold tcp_receiver_get_events. erewrite send_each_ok; [done| |].
    + unfold carray_count. apply (rep_count _ _ R).
    + intros i b Hb. rewrite (carray_at_ok _ _ _ R Hx); [|lia..|apply lookup_lt_Some in Hb; lia].
      by rewrite Nat2Z.id Hb.
  - apply bind_inv in E as ([A1 p] & E1 & E). unfold handle_repeat_req. rewrite HA /= E1 /=.
    destruct p as [k|]; [|by injection E as <- <-].
    apply bind_inv in E as (rec & E2 & [= <- <-]). simpl in E2. by rewrite E2.
Qed.

(** ** The memory of a node *)

Definition at_anode (acs pcs : list address) (x : loc) (v : evacceptor storage_mem) : mprop :=
  (∃ c r a A, x ↦ BEvAcceptor (CEvAcceptor (acceptor_id v) c (Some r) (Some a)) ∗
     <affine> ⌜state v = Some A⌝ ∗ at_acceptor a A ∗ at_receiver r (receiver v) ∗
     at_config c acs pcs)%I.

Section handlers.
Context (acs pcs : list address).
Implicit Types (x b : loc) (v : evacceptor storage_mem) (A : acceptor storage_mem).

Lemma receiver_acc rx r l b :
  carray_rep (bevs r) l → Zpos b ∈ l →
  at_receiver rx r ⊢ ∃ t, b ↦ BBev t ∗ (b ↦ BBev t -∗ at_receiver rx r).
Proof using Type.
  iIntros (R Hb) "(%ls & %c & Hx & Hl & %cl & %locs & %l' & Hc & %Q & He)".
  assert (l' = l) as -> by (rewrite -(rep_contents _ _ R); symmetry; apply rep_contents, Q).
  apply list_elem_of_lookup in Hb as [k Hk]. pose proof (qrep_length _ _ _ _ Q) as Hlen.
  destruct (lookup_lt_is_Some_2 locs k) as [y Hy]; [rewrite Hlen; by eapply lookup_lt_Some|].
  iDestruct (elems_acc_same with "He") as "[[%Ey [%t Hbev]] He]"; [exact Hy|exact Hk|].
  injection Ey as <-. iExists t. iFrame "Hbev". iIntros "Hbev". iExists ls, c. iFrame "Hx Hl".
  iExists cl, locs, l. iFrame "Hc". iSplitR; [done|]. iApply "He". iSplitR; [done|]. by iExists t.
Qed.

Lemma c_send_ok rx r l b m :
  carray_rep (bevs r) l → Zpos b ∈ l →
  at_receiver rx r ⊢ wp (c_send b m) (λ o, <affine> ⌜o = [(Zpos b, m)]⌝ ∗ at_receiver rx r).
Proof using Type.
  iIntros (R Hb) "Hr". iDestruct (receiver_acc _ _ _ _ R Hb with "Hr") as "[%t [Hb Hr]]". unfold c_send.
  wp_rd "Hb". iApply wp_ret. iSplitR; [done|]. by iApply "Hr".
Qed.

Lemma c_send_conns_ok c q l m :
  carray_rep q l → indexable q →
  queue at_bev c q ⊢ wp (c_send_each (carray_count q) (λ i, x ← c_carray_at c i; pureC (deref x)) m)
    (λ o, <affine> ⌜o = (λ y, (y, m)) <$> l⌝ ∗ queue at_bev c q).
Proof using Type.
  iIntros (R Hx) "Hc". unfold carray_count. rewrite (rep_count _ _ R). iApply (wp_wand with "[Hc]").
  { iApply (wp_for_to (λ k o, <affine> ⌜o = (λ y, (y, m)) <$> take (Z.to_nat k) l⌝ ∗ queue at_bev c q)%I);
      [lia| |by iFrame].
    iIntros (k o Hk) "[-> Hc]". destruct (lookup_lt_is_Some_2 l (Z.to_nat k)) as [b Hb]; [lia|].
    pose proof (carray_at_ok _ _ k R Hx Hk) as E. wp_unbind. wp_unbind. iApply (wp_wand with "[Hc]").
    { iApply (queue_bev_at with "Hc"); [unfold carray_count; by rewrite (rep_count _ _ R)|exact E]. }
    iIntros (r) "(%y & %t & %Eo & Hy & Hc)". destruct Eo as [-> Ey]. rewrite Hb in Ey. injection Ey as ->.
    iApply wp_pureC; [done|]. wp_rd "Hy". iApply wp_ret. iSplitR; [|by iApply "Hc"]. iPureIntro.
    rewrite Z2Nat.inj_add ?Nat.add_1_r; [|lia..]. by rewrite (take_S_r _ _ _ Hb) fmap_app. }
  iIntros (o) "[-> $]". by rewrite Nat2Z.id take_ge.
Qed.

Lemma c_handle_request_ok x v A l b m q A' r :
  state v = Some A → carray_rep (bevs (receiver v)) l → indexable (bevs (receiver v)) → Zpos b ∈ l →
  request_of m = Some q → acceptor_serve A q = Ret (A', r) →
  at_anode acs pcs x v ⊢ wp (c_handle_request x b m) (λ o,
    <affine> ⌜o = answers l (Zpos b) q r⌝ ∗ at_anode acs pcs x (EvAcceptor.set_state A' v)).
Proof using Type.
  iIntros (HA R Hi Hb Hm E) "(%c & %rx & %a & %A0 & Hx & %HA0 & Ha & Hr & Hc)".
  assert (A0 = A) as -> by congruence.
  destruct m as [pr| |ar| |iid|]; try done; injection Hm as <-; simpl in E |- *.
  - apply bind_inv in E as ([A1 p] & E1 & E). apply bind_inv in E as (rec & E2 & [= <- <-]).
    unfold c_handle_prepare_req. wp_rd "Hx". wp_p. wp_unbind. iApply (wp_wand with "[Ha]").
    { iApply (c_receive_prepare_ok with "Ha"); [exact E1|exact E2]. }
    iIntros (y) "[Hy Ha]". wp_rd "Hy". iSpecialize ("Ha" with "Hy").
    iApply (wp_wand with "[Hr]"); [by iApply (c_send_ok with "Hr")|]. iIntros (o) "[-> Hr]".
    iSplitR; [done|]. iExists c, rx, a, A1. by iFrame.
  - apply bind_inv in E as ([A1 p] & E1 & E). apply bind_inv in E as (rec & E2 & [= <- <-]).
    unfold c_handle_accept_req. wp_rd "Hx". wp_p. iDestruct "Hr" as "(%ls & %cq & Hrx & Hls & Hq)".
    wp_rd "Hrx". wp_p. wp_unbind. iApply (wp_wand with "[Ha]").
    { iApply (c_receive_accept_req_ok with "Ha"); [exact E1|exact E2]. }
    iIntros (y) "[Hy Ha]". wp_rd "Hy". iSpecialize ("Ha" with "Hy").
    destruct (ar_ballot ar =? aa_ballot rec).
    + cbn [ctr_bevs]. wp_unbind. iApply (queue_count at_bev). iFrame "Hq". iIntros "Hq".
      iApply (wp_wand with "[Hq]"); [by iApply (c_send_conns_ok with "Hq")|]. iIntros (o) "[-> Hq]".
      iSplitR; [done|]. iExists c, rx, a, A1. iFrame "Hx Ha Hc". iSplitR; [done|]. iExists ls, cq. iFrame.
    + iApply (wp_wand with "[Hrx Hls Hq]").
      { iApply (c_send_ok rx (receiver v)); [exact R|exact Hb|]. iExists ls, cq. iFrame. }
      iIntros (o) "[-> Hr]". iSplitR; [done|]. iExists c, rx, a, A1. by iFrame.
  - apply bind_inv in E as ([A1 p] & E1 & E). unfold c_handle_repeat_req. wp_rd "Hx". wp_p. wp_unbind.
    iApply (wp_wand with "[Ha]").
    { iApply (c_receive_repeat_ok with "Ha"); [exact E1|]. instantiate (1 := r). destruct p as [k|].
      - apply bind_inv in E as (rec & E2 & [= _ <-]). by exists rec.
      - by injection E as _ <-. }
    iIntros (o) "Ha". destruct o as [y|], r as [rec|]; simpl; try iDestruct "Ha" as %[].
    + assert (A1 = A') as -> by (destruct p; [apply bind_inv in E as (? & _ & [= -> _])|injection E as ->]; done).
      iDestruct "Ha" as "[Hy Ha]". wp_rd "Hy". iSpecialize ("Ha" with "Hy").
      iApply (wp_wand with "[Hr]"); [by iApply (c_send_ok with "Hr")|]. iIntros (o) "[-> Hr]".
      iSplitR; [done|]. iExists c, rx, a, A'. by iFrame.
    + assert (A1 = A') as -> by (destruct p; [apply bind_inv in E as (? & _ & [= -> _])|injection E as ->]; done).
      iApply wp_ret. iSplitR; [done|]. iExists c, rx, a, A'. by iFrame.
Qed.
End handlers.

(** ** An acceptor node from its start to its end *)

(** What the event loop may do: a message on the [i]th connection, if there is
one, or an event of a connection. *)
Inductive aevent : Type :=
  | AMsg (i : nat) (m : message)
  | AClient (e : c_client_event).

Definition c_run_aevent (a : loc) (e : aevent) : cmdb sends :=
  s ← read_as as_evacceptor a;
  r ← pureC (deref (cea_receiver s));
  match e with
  | AMsg i m =>
      conns ← read_as as_receiver r;
      n ← c_carray_count (ctr_bevs conns);
      if Z.of_nat i <? n then
        x ← c_carray_at (ctr_bevs conns) (Z.of_nat i);
        from ← pureC (deref x);
        c_handle_request a from m
      else mret []
  | AClient e => c_client_step r e ;; mret []
  end.

Fixpoint c_run_aevents (a : loc) (es : list aevent) : cmdb sends :=
  match es with
  | [] => mret []
  | e :: es' => o ← c_run_aevent a e; o' ← c_run_aevents a es'; mret (o ++ o')
  end.

Definition c_evacceptor_lifetime (c : loc) (id : Z) (bound : bool) (junk : nat → acceptor_record)
    (es : list aevent) : cmdb (option sends) :=
  r ← c_evacceptor_init_conf c id bound junk;
  match r with
  | None => mret None
  | Some a => o ← c_run_aevents a es; c_evacceptor_free a ;; mret (Some o)
  end.

(** The same on the value; [b] is the connection libevent made. *)
Definition run_aevent (v : evacceptor storage_mem) (e : aevent) (b : bufferevent)
    : res (evacceptor storage_mem * sends) :=
  match e with
  | AMsg i m =>
      if Z.of_nat i <? carray_count (bevs (receiver v)) then
        x ← carray_at (bevs (receiver v)) (Z.of_nat i);
        from ← deref x;
        handle_message from v m
      else Ret (v, [])
  | AClient e =>
      r ← client_step (receiver v) e b;
      Ret (EvAcceptor (acceptor_id v) r (state v), [])
  end.

Fixpoint run_aevents (v : evacceptor storage_mem) (es : list (aevent * bufferevent))
    : res (evacceptor storage_mem * sends) :=
  match es with
  | [] => Ret (v, [])
  | (e, b) :: es' =>
      '(v, o) ← run_aevent v e b;
      '(v, o') ← run_aevents v es';
      Ret (v, o ++ o')
  end.

(** The requests of a node that its table can hold. *)
Definition aevent_ok (lo : Z) (e : aevent) : Prop :=
  match e with AMsg _ m => ∀ q, request_of m = Some q → window_request lo q | AClient _ => True end.

Record anode_ok (aid lo M : Z) (v : evacceptor storage_mem) : Prop := {
  an_receiver : receiver_ok M (receiver v);
  an_state : ∃ A h, state v = Some A ∧ mem_rep aid (store A) h ∧ window_history lo h;
}.

Section run.
Context (acs pcs : list address) (aid lo : Z).
Implicit Types (x : loc) (v : evacceptor storage_mem).

Lemma unasked v from m : request_of m = None → handle_message from v m = Ret (v, []).
Proof using Type. by destruct m. Qed.

Lemma c_unasked x b m : request_of m = None → c_handle_request x b m = mret [].
Proof using Type. by destruct m. Qed.

(** Serving a request keeps the table within its window. *)
Lemma serve_window A h q :
  mem_rep aid (store A) h → window_history lo h → window_request lo q →
  ∃ A' r h', acceptor_serve A q = Ret (A', r) ∧ mem_rep aid (store A') h' ∧ window_history lo h'.
Proof using Type.
  intros R Hw Hq. destruct (mem_serve_total aid lo A h q R Hw Hq) as (A' & r & E).
  destruct (serve_refines (SS:=mem_storage_spec) aid A A' h q r R (proj1 Hq) E) as [R' _].
  exists A', r, (spec_serve aid h q).1. split; [done|]. split; [exact R'|].
  intros iid [->|Hs]%spec_serve_dom; [apply Hq|by apply Hw].
Qed.

Lemma c_run_aevent_ok x v e M :
  0 ≤ M < 2 ^ 28 → aevent_ok lo e → anode_ok aid lo M v →
  at_anode acs pcs x v ⊢ wp (c_run_aevent x e) (λ o, ∃ b v',
    <affine> ⌜run_aevent v e b = Ret (v', o) ∧ anode_ok aid lo (M + 1) v'⌝ ∗ at_anode acs pcs x v').
Proof using Type.
  iIntros (HM He [Hrcv Hst]) "(%c & %r & %a & %A & Hx & %HA & Ha & Hr & Hc)".
  unfold c_run_aevent. wp_rd "Hx". wp_p. destruct e as [i m|e].
  - iDestruct "Hr" as "(%ls & %cq & Hrx & Hls & Hq)". wp_rd "Hrx". cbn [ctr_bevs]. wp_unbind.
    iApply (queue_count at_bev). iFrame "Hq". iIntros "Hq".
    assert (anode_ok aid lo (M + 1) v) as Hok.
    { split; [|done]. eapply receiver_ok_mono; [exact Hrcv|lia]. }
    pose proof Hrcv as (Hs & l & R & Hl). pose proof (rep_count _ _ R) as Hcnt.
    assert (indexable (bevs (receiver v))) as Hi by (unfold indexable; lia).
    destruct (Z.ltb_spec (Z.of_nat i) (carray_count (bevs (receiver v)))) as [Hlt|Hge].
    2:{ iApply wp_ret. iExists 0, v. iSplitR.
        - iPureIntro. split; [|done]. simpl. by case_Z; [lia|].
        - iExists c, r, a, A. iFrame "Hx Ha Hc". iSplitR; [done|]. iExists ls, cq. iFrame. }
    unfold carray_count in Hlt. pose proof (carray_at_ok _ _ (Z.of_nat i) R Hi ltac:(lia)) as E.
    wp_unbind. iApply (wp_wand with "[Hq]").
    { iApply (queue_bev_at with "Hq"); [unfold carray_count; lia|exact E]. }
    iIntros (o) "(%y & %t & %Eo & Hy & Hq)". destruct Eo as [-> Ey]. iDestruct ("Hq" with "Hy") as "Hq".
    wp_p. iAssert (at_anode acs pcs x v) with "[Hx Ha Hrx Hls Hq Hc]" as "H".
    { iExists c, r, a, A. iFrame "Hx Ha Hc". iSplitR; [done|]. iExists ls, cq. iFrame. }
    assert (∀ o v', handle_message (Zpos y) v m = Ret (v', o) → run_aevent v (AMsg i m) 0 = Ret (v', o)) as Hrun.
    { intros o v' Hm. simpl. unfold carray_count. case_Z; [|lia]. rewrite E Ey. exact Hm. }
    destruct (request_of m) as [q|] eqn:Eq.
    + destruct Hst as (A0 & h & HA0 & Rm & Hw). assert (A0 = A) as -> by congruence.
      destruct (serve_window A h q Rm Hw (He q Eq)) as (A' & rec & h' & Es & Rm' & Hw').
      iApply (wp_wand with "[H]").
      { iApply (c_handle_request_ok acs pcs x v A l y m q A' rec with "H"); try done.
        by eapply list_elem_of_lookup_2. }
      iIntros (o) "[-> H]". iExists 0, (EvAcceptor.set_state A' v). iFrame "H". iPureIntro. split.
      * apply Hrun. by eapply handle_serves.
      * split; [eapply receiver_ok_mono; [exact Hrcv|lia]|]. by exists A', h'.
    + rewrite c_unasked //. iApply wp_ret. iExists 0, v. iFrame "H". iPureIntro. split; [|done].
      apply Hrun. by apply unasked.
  - wp_unbind. iApply (wp_wand with "[Hr]"); [by iApply c_client_event_ok|].
    iIntros (_) "(%b & %r' & [%E %Hr'] & Hr)". iApply wp_ret.
    iExists b, (EvAcceptor (acceptor_id v) r' (state v)). iSplitR.
    + iPureIntro. split; [simpl; by rewrite E|]. by split.
    + iExists c, r, a, A. by iFrame.
Qed.

Lemma c_run_aevents_ok x v es M :
  0 ≤ M → M + Z.of_nat (length es) < 2 ^ 28 → Forall (aevent_ok lo) es → anode_ok aid lo M v →
  at_anode acs pcs x v ⊢ wp (c_run_aevents x es) (λ o, ∃ ids v',
    <affine> ⌜length ids = length es ∧ run_aevents v (zip es ids) = Ret (v', o) ∧
      anode_ok aid lo (M + Z.of_nat (length es)) v'⌝ ∗ at_anode acs pcs x v').
Proof using Type.
  intros HM0 HM F. revert M v HM0 HM. induction F as [|e es He F IH]; intros M v HM0 HM Hok;
    cbn [c_run_aevents length] in *.
  { iIntros "H". iApply wp_ret. iExists [], v. iFrame. rewrite Z.add_0_r. done. }
  replace (M + Z.of_nat (S (length es))) with (M + 1 + Z.of_nat (length es)) by lia.
  iIntros "H". wp_unbind. iApply (wp_wand with "[H]").
  { iApply (c_run_aevent_ok with "H"); [|exact He|exact Hok]. lia. }
  iIntros (o) "(%b & %v1 & [%E1 %Hok1] & H)". wp_unbind. iApply (wp_wand with "[H]").
  { iApply (IH (M + 1) v1 with "H"); [lia..|exact Hok1]. }
  iIntros (o') "(%ids & %v2 & (%Hl & %E2 & %Hok2) & H)". iApply wp_ret. iExists (b :: ids), v2. iFrame.
  iPureIntro. split; [simpl; lia|]. split; [|done]. simpl. by rewrite E1 /= E2.
Qed.

Lemma c_evacceptor_free_ok x v M :
  anode_ok aid lo M v → at_anode acs pcs x v ⊢ wp (c_evacceptor_free x) (λ _, emp).
Proof using Type.
  iIntros ([Hrcv (A0 & h & HA0 & Rm & _)]) "(%c & %r & %a & %A & Hx & %HA & Ha & Hr & Hc)".
  assert (A0 = A) as -> by congruence. unfold c_evacceptor_free. wp_rd "Hx". wp_p. wp_unbind.
  iApply (wp_wand with "[Ha]"); [iApply (c_acceptor_free_ok with "Ha"); apply Rm|]. iIntros (rv) "->".
  wp_p. wp_unbind. iApply (wp_wand with "[Hr]"); [by iApply (receiver_free with "Hr")|]. iIntros (_) "_".
  wp_call c_free_config_ok with "[Hc]". iIntros (_) "_". wp_fr "Hx". by iApply wp_ret.
Qed.

Lemma c_evacceptor_init_ok c id junk a r :
  acs !! Z.to_nat id = Some a → 0 ≤ id → tcp_receiver_new a true = Ret r →
  at_config c acs pcs ⊢ wp (c_evacceptor_init_conf c id true junk) (λ o, ∃ x, <affine> ⌜o = Some x⌝ ∗
    at_anode acs pcs x (EvAcceptor id r (Some (Acceptor (storage_mem_open id junk))))).
Proof using Type.
  iIntros (Ha Hid E) "(%pl & %al & Hc & Hpl & %strs & %rest & -> & He)". unfold c_evacceptor_init_conf.
  wp_new x "Hx". wp_rd "Hc". cbn [ccf_acceptors_count ccf_acceptors].
  iDestruct (elems_length with "He") as (Hlen) "He". pose proof (lookup_lt_Some _ _ _ Ha).
  destruct (Z.ltb_spec id 0); [lia|]. destruct (Z.leb_spec (Z.of_nat (length acs)) id); [lia|]. cbn [orb].
  destruct (lookup_lt_is_Some_2 strs (Z.to_nat id)) as [sa Hsa]; [lia|].
  pose proof (addresses_at _ _ rest _ _ _ Hsa Ha) as Ea. rewrite Z2Nat.id in Ea; [|lia]. wp_pure Ea.
  wp_unbind. iApply (wp_wand with "[]"); [by iApply (c_tcp_receiver_new_ok _ _ r)|]. iIntros (rx) "Hr".
  wp_unbind. iApply (wp_wand with "[]"); [iApply c_acceptor_new_ok|]. iIntros (st) "Hst". wp_wr "Hx".
  iApply wp_ret. iExists x. iSplitR; [done|]. iExists c, rx, st, _. iFrame "Hx Hst Hr". iSplitR; [done|].
  iExists pl, _. iFrame "Hc Hpl". iExists strs, rest. by iFrame.
Qed.
End run.

(** ** Properties *)

(** An acceptor node's memory is safe over its whole life.  Given the structure
of a configuration, a program that starts the node on a new table, handles any
messages on its connections, connections that come, break and go, in any order,
and frees the node, returns without a fault (no record or connection is used
after it was freed, nothing is freed twice, no access is out of bounds), sends
on each connection what the value model sends on it, and has then freed the
node, its table, its connections and its configuration: the rest of the heap is
left untouched.  The instances stay in a window of the table, the values fit in
its buffers; [ids] are the connections libevent made. *)
Theorem evacceptor_memory_safe conf acs pcs c id lo junk es (hc h : heap block) :
  config_rep conf acs pcs → 0 ≤ id < Z.of_nat (length acs) → Z.of_nat (length es) < 2 ^ 28 →
  Forall (aevent_ok lo) es → holds (at_config c acs pcs) hc → hc ##ₘ h →
  ∃ v0 ids v out,
    evacceptor_init_conf conf id true (Some (storage_mem_open id junk)) = Ret (Some v0) ∧
    length ids = length es ∧ run_aevents v0 (zip es ids) = Ret (v, out) ∧
    c_evacceptor_lifetime c id true junk es (hc ∪ h) = Ret (Some out, h).
Proof.
  intros Rc Hid Hes F Hh Hd. destruct (lookup_lt_is_Some_2 acs (Z.to_nat id)) as [a Ha]; [lia|].
  destruct (receiver_new a) as (r & Er & Hr).
  set (v0 := EvAcceptor id r (Some (Acceptor (storage_mem_open id junk)))).
  assert (evacceptor_init_conf conf id true (Some (storage_mem_open id junk)) = Ret (Some v0)) as E0.
  { destruct Rc as [Ra _]. pose proof (addresses_get _ _ _ _ _ Ra Ha) as Eg.
    rewrite Z2Nat.id in Eg; [|lia]. destruct Ra as [Hn _ _]. unfold evacceptor_init_conf. rewrite Hn.
    do 2 (case_Z; [lia|]). cbn [orb]. by rewrite Eg bind_Ret Er. }
  assert (anode_ok id lo 0 v0) as Hok0.
  { split; [done|]. eexists _, ∅. split; [done|]. split; [apply mem_open_rep|].
    intros iid [? Hi]. by rewrite lookup_empty in Hi. }
  destruct (wp_adequate (at_config c acs pcs) (c_evacceptor_lifetime c id true junk es)
    (λ o, ∃ ids v out, <affine> ⌜length ids = length es ∧ run_aevents v0 (zip es ids) = Ret (v, out) ∧
      o = Some out⌝)%I hc h) as (o & h' & E & _ & (ids & v & out & Hemp & Hl & Hrun & ->)); [|done..|].
  - iIntros "Hc". unfold c_evacceptor_lifetime. wp_unbind. iApply (wp_wand with "[Hc]").
    { iApply (c_evacceptor_init_ok with "Hc"); [exact Ha|lia|exact Er]. }
    iIntros (o) "(%x & -> & Hx)". wp_unbind. iApply (wp_wand with "[Hx]").
    { iApply (c_run_aevents_ok acs pcs id lo x v0 es 0 with "Hx"); [lia..|exact F|exact Hok0]. }
    iIntros (o) "(%ids & %v & (%Hl & %Hrun & %Hok) & Hx)". wp_unbind.
    iApply (wp_wand with "[Hx]"); [by iApply (c_evacceptor_free_ok with "Hx")|]. iIntros (_) "_".
    iApply wp_ret. iExists ids, v, o. done.
  - change (h' = ∅) in Hemp. subst h'. rewrite (left_id_L ∅ (∪)) in E. by exists v0, ids, v, out.
Qed.

(** [evacceptor_init] refuses an id without giving back what it has allocated. *)
Lemma refused_acceptor_leaks c id bound junk es s (h : heap block) :
  h !! c = Some (BConfig s) → ¬ 0 ≤ id < ccf_acceptors_count s →
  ∃ a, h !! a = None ∧ c_evacceptor_lifetime c id bound junk es h =
    Ret (None, <[a := BEvAcceptor (CEvAcceptor 0 c None None)]> h).
Proof.
  intros Hc Hid. exists (fresh (dom h)). assert (h !! fresh (dom h) = None) as Hf.
  { apply not_elem_of_dom, is_fresh. }
  split; [done|]. unfold c_evacceptor_lifetime, c_evacceptor_init_conf, read_as, read, alloc, mbind, cmd_bind.
  simpl. rewrite lookup_insert_ne; [|congruence]. rewrite Hc. simpl.
  replace ((id <? 0) || (ccf_acceptors_count s <=? id)) with true; [done|].
  symmetry. apply orb_true_iff. rewrite Z.ltb_lt Z.leb_le. lia.
Qed.

(** Acceptor 1 of three: two connections; instance 1 is prepared and accepted,
which goes to both, then prepared with a lower ballot in vain; a repeat is
answered, and one for an instance that is not known. *)
Definition demo_aevents : list aevent :=
  [AClient CAccepted; AMsg 0 (MPrepareReq (PrepareReq 1 10)); AClient CAccepted;
   AMsg 0 (MAcceptReq (AcceptReq 1 10 [x41])); AClient (CBroken 0 false);
   AMsg 1 (MPrepareReq (PrepareReq 1 9)); AMsg 1 (MRepeatReq 1); AMsg 1 (MRepeatReq 2);
   AMsg 5 (MRepeatReq 1); AMsg 0 (MSubmit [x42])].

Definition demo_answers : list message :=
  let vote := MAcceptAck (AcceptAck 1 1 10 10 0 [x41]) in
  [MPrepareAck (PrepareAck 1 1 10 0 []); vote; vote; MPrepareAck (PrepareAck 1 1 10 10 [x41]); vote].

Lemma demo_aevents_ok : Forall (aevent_ok 1) demo_aevents.
Proof.
  unfold demo_aevents. repeat (apply Forall_cons_2; [try done; intros q [= <-];
    unfold window_request, request_ok, in_window, is_u32, MAX_RECORDS, UINT32_MOD; simpl; repeat split; lia|]).
  by apply Forall_nil_2.
Qed.

Lemma evacceptor_memory_safe_witness :
  ∃ out, c_evacceptor_lifetime 1%positive 1 true (λ _, zero_record) demo_aevents three_heap =
    Ret (Some out, ∅) ∧ out.*2 = demo_answers.
Proof.
  destruct (evacceptor_memory_safe three_config three_addrs one_addr 1%positive 1 1 (λ _, zero_record)
    demo_aevents three_heap ∅) as (v0 & ids & v & out & E0 & Hl & E & H).
  - exact three_config_rep.
  - split; vm_compute; congruence.
  - by vm_compute.
  - exact demo_aevents_ok.
  - exact three_heap_config.
  - apply map_disjoint_empty_r.
  - exists out. rewrite (right_id_L ∅ (∪)) in H. split; [exact H|].
    do 10 (destruct ids as [|? ids]; [discriminate Hl|]). destruct ids; [|discriminate Hl].
    unfold evacceptor_init_conf in E0. cbn -[storage_mem_open] in E0. injection E0 as <-.
    apply (f_equal (λ r, (from_ret (v, []) r).2.*2)) in E. symmetry in E. etransitivity; [exact E|].
    vm_compute. reflexivity.
Defined.
