(* ===== verification/Restart.v ===== *)
(** * Restarts, and why the assumptions of [System] are needed

An acceptor that is restarted on its Berkeley DB files is a transition of
[System], so safety survives it.  A proposer keeps nothing: started again under
the same id it uses its first ballots again, and agreement is lost
([proposer_restart_unsafe]); and a chosen empty value is not seen by the next
proposer ([empty_value_unsafe]).  Both are shown for every id and value, on the
functions of the three roles with in-memory acceptors. *)

From S2P Require Import StorageBdb Storages.
From S2P Require Import Prelude Carray Quorum Messages Storage StorageMem Acceptor.
From S2P Require Import Proposer ProposerRun Learner Progress Synod System SystemRuns.
#[local] Open Scope Z_scope.

(** ** Restarting an acceptor *)

(** C10: an acceptor on Berkeley DB may be stopped and started at any time: when
its storage is closed and opened again, without [bdb_trash_files], the system
is in a reachable state again, with the acceptor's new storage; and whatever
was chosen before the restart is the only value that can be chosen after it. *)
Theorem acceptor_restart_safe {W} `{BdbSpec W, !BdbReads W} n (sys : system (storage_bdb W))
    cfg a (s s' : storage_bdb W) w r d :
  1 ≤ n ≤ INT_MAX → reachable n sys → sys_acceptors sys !! a = Some (Acceptor s) →
  bs_db s = Some d → db_file (bs_world s) d = Some (env_path cfg a, bdb_db_filename cfg) →
  bdb_trash_files cfg = 0 →
  storage_bdb_close s = Ret (w, r) → storage_bdb_open cfg w a = Ret (inl s') →
  let sys1 := System (<[a := Acceptor s']> (sys_acceptors sys)) (sys_proposers sys) (sys_net sys) in
  reachable n sys1 ∧
  ∀ sys2 iid b v b' v', rtc sys_step sys1 sys2 →
    sys_chosen n (sys_net sys) iid b v → sys_chosen n (sys_net sys2) iid b' v' → v' = v.
Proof.
  intros Hn Hr Ha Hd Hf Ht Hc Ho sys1.
  assert (sys_step sys sys1) as Hs.
  { apply (sys_restart sys a (Acceptor s)); [done|]. intros h R. by eapply bdb_restart_keeps_records. }
  assert (reachable n sys1) as Hr1.
  { destruct Hr as (s0 & Hi & Hr). exists s0. split; [done|]. by eapply rtc_r. }
  split; [done|]. intros sys2 iid b v b' v' Hrun C C'.
  assert (reachable n sys2) as I%(sys_inv_reachable n Hn).
  { destruct Hr1 as (s0 & Hi & Hr1). exists s0. split; [done|]. by etransitivity. }
  symmetry. apply (sys_agree (SS:=bdb_storage_spec) n Hn sys2 iid b v b' v' I); [|done].
  by apply (sys_chosen_mono (SS:=bdb_storage_spec) n sys1 sys2).
Qed.

(** ** The first request of a proposer *)

(** A proposer that is started under [id] is given the value [v] and goes through
phase 1 of its first instance with the acceptors [nodes]: its accept request. *)
Definition first_request (n : Z) (now : timeval) (junk : nat → Z) (id : Z) (v : bytes)
    (nodes : list (acceptor storage_mem)) : res (list (acceptor storage_mem) * accept_req) :=
  p ← proposer_new id n;
  p ← proposer_propose p v;
  '(p, pr) ← proposer_prepare p now junk;
  '(nodes, promises) ← broadcast nodes (RPrepare pr);
  p ← receive_promises p (prepare_ack_of <$> promises) now;
  '(_, ar) ← proposer_accept p;
  ar ← deref ar;
  Ret (nodes, ar).

(** What a learner that starts delivers after some votes. *)
Definition first_delivery (cfg : paxos_config) (n : Z) (votes : list accept_ack) : res (option accept_ack) :=
  l ← learner_new cfg n;
  l ← learn_accepts l votes;
  '(_, o) ← learner_deliver_next l;
  Ret o.

Section first.
Context (cfg : paxos_config) (n : Z) (ids : list Z).
Hypothesis Hn : 1 ≤ n ≤ INT_MAX.
Hypothesis Hq : paxos_quorum n ≤ 127.
Hypothesis Hids : ids ≡ₚ seqZ 0 (paxos_quorum n).
Hypothesis Hwindow : 0 < learner_instances cfg ≤ INT_MAX.
Hypothesis Hcatch : learner_catch_up cfg ≠ 0.

Definition first_ballot (id : Z) : Z := MAX_N_OF_PROPOSERS + id.

Lemma first_ballot_u32 id : 0 ≤ id < MAX_N_OF_PROPOSERS → is_u32 (first_ballot id).
Proof using Type. unfold first_ballot, is_u32, MAX_N_OF_PROPOSERS, UINT32_MOD. lia. Qed.

(** Whatever value ballot the promises report, a proposer that hears of no value
requests its own. *)
Lemma first_request_ok now junk id v vb nodes nodes' :
  0 ≤ id < MAX_N_OF_PROPOSERS →
  broadcast nodes (RPrepare (PrepareReq 1 (first_ballot id))) =
    Ret (nodes', (λ a, AcceptAck a 1 (first_ballot id) vb 0 []) <$> ids) →
  first_request n now junk id v nodes = Ret (nodes', AcceptReq 1 (first_ballot id) v).
Proof using Hn Hq Hids.
  intros Hid Hb. pose proof (paxos_quorum_bounds n ltac:(lia)) as Hqb.
  destruct (proposer_new_idle id n Hn Hid) as (p0 & E0 & H0 & Hid0 & Hnx0 & Hr0); [lia|].
  destruct (propose_all_ok n [v] p0 [] H0) as (p1 & E1 & H1 & Hid1 & Hnx1);
    [destruct Hr0; split; [simpl; lia|done]|lia|].
  simpl in E1. apply bind_inv in E1 as (p1' & E1 & [= ->]).
  destruct (prepare_opens n now junk p1 _ H1) as
    (p2 & inst & E2 & I2 & O2 & (Sv & Sp & Sa) & Ea & _); [rewrite Hnx1, Hnx0; by vm_compute|].
  rewrite Hnx1, Hnx0, Hid1, Hid0 in E2, O2.
  change (0 + 1) with 1 in E2, O2. change (MAX_N_OF_PROPOSERS + id) with (first_ballot id) in E2, O2.
  destruct H1 as [I1 Hv1 Hp1 Ha1]. destruct (pi_rep _ _ _ _ _ I1) as [Rv1 _ _], (pi_rep _ _ _ _ _ I2) as [Rv2 _ _].
  destruct (promises_send n now ids Hids vb p2 inst _ _ _ _ I2 O2) as (p3 & p4 & inst4 & E3 & E4 & _).
  { by eapply (room_size (p_values p1)). }
  { destruct Hp1. lia. }
  { by rewrite Ea. }
  unfold first_request. rewrite E0, bind_Ret, E1, bind_Ret, E2, bind_Ret. cbv beta iota.
  rewrite Hb, bind_Ret. cbv beta iota. rewrite <-list_fmap_compose.
  change (prepare_ack_of ∘ _) with (promise_with vb 1 (first_ballot id)).
  rewrite E3, bind_Ret, E4. done.
Qed.

(** Votes of these acceptors at one ballot are delivered. *)
Lemma first_delivery_ok b v :
  ∃ a, first_delivery cfg n (accepted_by 1 b v <$> ids) = Ret (Some a) ∧ aa_iid a = 1 ∧ aa_value a = v.
Proof using Hn Hids Hwindow Hcatch.
  pose proof (paxos_quorum_bounds n ltac:(lia)) as Hqb. destruct (quorum_ids n ids Hids) as (U & Hlen & Hr).
  set (f := λ _ : Z, Some v).
  destruct (learner_new_ok cfg n (ack_for b f) Hn Hwindow) as (l & w & El & Il & Cl & Sl & Ll & Zl).
  destruct (learner_round n b f ids l w 1 v) as (l1 & l2 & w2 & a & E1 & E2 & Ei & Ev & _);
    [|unfold INT_MAX; lia|unfold INT_MAX, UINT32_MOD in *; lia|done|done| |lia|].
  { split; [done|done|auto|]. intros i Hi. rewrite (Zl i Hi). lia. }
  { intros id Hid%Hr. lia. }
  exists a. unfold first_delivery. rewrite El, bind_Ret, E1, bind_Ret, E2. done.
Qed.

(** Acceptors that answer as their records say. *)
Lemma nodes_answer q (r r' : Z → acceptor_record) nodes :
  window_request 1 q → request_iid q = 1 →
  (∀ id, id ∈ ids → spec_serve id {[1 := r id]} q = ({[1 := r' id]}, Some (r' id))) →
  node_reps (λ id, {[1 := r id]}) ids nodes →
  ∃ nodes', broadcast nodes q = Ret (nodes', r' <$> ids) ∧ node_reps (λ id, {[1 := r' id]}) ids nodes'.
Proof using Type.
  intros Hw Hi Hs HF. destruct (broadcast_ok 1 q r' _ ids nodes HF Hw) as (nodes' & E & HF').
  - intros id Hid. rewrite Hs by done. split; [|done]. intros i [x Hx].
    apply lookup_singleton_Some in Hx as [<- _]. by vm_compute.
  - exists nodes'. split; [done|]. eapply node_reps_ext; [|exact HF'].
    intros id Hid. cbv beta. by rewrite Hs.
Qed.

Lemma nodes_promise b mem_junk :
  is_u32 b → ∃ nodes, broadcast (mem_nodes ids mem_junk) (RPrepare (PrepareReq 1 b)) =
      Ret (nodes, (λ a, AcceptAck a 1 b 0 0 []) <$> ids) ∧
    node_reps (λ a, {[1 := AcceptAck a 1 b 0 0 []]}) ids nodes.
Proof using Type.
  intros Hb. destruct (prepare_phase 1 1 b ltac:(by vm_compute) ltac:(by vm_compute) Hb (λ _, ∅) ids
    (mem_nodes ids mem_junk)) as (nodes & E & HF); [apply mem_open_nodes| |by exists nodes].
  intros id _ i [x Hx]. by rewrite lookup_empty in Hx.
Qed.

Lemma accept_window b v : is_u32 b → mem_fits v = true → window_request 1 (RAccept (AcceptReq 1 b v)).
Proof using Type. intros Hb Hv. split; [split; [by vm_compute|done]|]. by split; [vm_compute|]. Qed.

Lemma prepare_window b : is_u32 b → window_request 1 (RPrepare (PrepareReq 1 b)).
Proof using Type. intros Hb. split; [split; [by vm_compute|done]|]. by split; [vm_compute|]. Qed.

(** A vote replaces what was recorded for the instance at the same ballot or below. *)
Lemma nodes_vote b v (r : Z → acceptor_record) nodes :
  is_u32 b → mem_fits v = true → (∀ a, aa_ballot (r a) ≤ b) →
  node_reps (λ a, {[1 := r a]}) ids nodes →
  ∃ nodes', broadcast nodes (RAccept (AcceptReq 1 b v)) = Ret (nodes', accepted_by 1 b v <$> ids) ∧
    node_reps (λ a, {[1 := accepted_by 1 b v a]}) ids nodes'.
Proof using Type.
  intros Hb Hv Hr HF. eapply nodes_answer; [by apply accept_window|done| |exact HF].
  intros a _. simpl. unfold spec_accept. simpl. rewrite lookup_singleton_eq.
  pose proof (Hr a). case_Z; [lia|]. by rewrite insert_singleton_eq.
Qed.

End first.

(** ** Restarting a proposer *)

(** C36: a proposer must not be restarted under its id.  For every id and every two
values: a proposer has its first value requested at ballot 10 + id of instance
1, on the promises of a majority of acceptors; started again under the same id,
with another value, it gets the same promises and requests that value in the
same instance at the same ballot.  The acceptors vote for both requests, the old
one arriving late, and two learners, each given the votes of that majority,
deliver the two values for instance 1. *)
Theorem proposer_restart_unsafe cfg n id v1 v2 ids now1 junk1 now2 junk2 mem_junk :
  1 ≤ n ≤ INT_MAX → paxos_quorum n ≤ 127 → ids ≡ₚ seqZ 0 (paxos_quorum n) →
  0 < learner_instances cfg ≤ INT_MAX → learner_catch_up cfg ≠ 0 →
  0 ≤ id < MAX_N_OF_PROPOSERS → mem_fits v1 = true → mem_fits v2 = true →
  let b := MAX_N_OF_PROPOSERS + id in
  ∃ nodes1 nodes2 nodes3 nodes4 votes2 votes1 a2 a1,
    first_request n now1 junk1 id v1 (mem_nodes ids mem_junk) = Ret (nodes1, AcceptReq 1 b v1) ∧
    first_request n now2 junk2 id v2 nodes1 = Ret (nodes2, AcceptReq 1 b v2) ∧
    broadcast nodes2 (RAccept (AcceptReq 1 b v2)) = Ret (nodes3, votes2) ∧
    broadcast nodes3 (RAccept (AcceptReq 1 b v1)) = Ret (nodes4, votes1) ∧
    first_delivery cfg n votes2 = Ret (Some a2) ∧ aa_iid a2 = 1 ∧ aa_value a2 = v2 ∧
    first_delivery cfg n votes1 = Ret (Some a1) ∧ aa_iid a1 = 1 ∧ aa_value a1 = v1.
Proof.
  intros Hn Hq Hids Hw Hcu Hid Hv1 Hv2 b. pose proof (first_ballot_u32 id Hid : is_u32 b) as Hb.
  destruct (nodes_promise ids b mem_junk Hb) as (nodes1 & E1 & F1).
  destruct (nodes_answer ids (RPrepare (PrepareReq 1 b)) (λ a, AcceptAck a 1 b 0 0 []) (λ a, AcceptAck a 1 b 0 0 []) nodes1
    (prepare_window b Hb) eq_refl) as (nodes2 & E2 & F2); [|exact F1|].
  { intros a _. simpl. unfold spec_prepare. simpl. rewrite lookup_singleton_eq. simpl. by rewrite Z.leb_refl. }
  destruct (nodes_vote ids b v2 (λ a, AcceptAck a 1 b 0 0 []) nodes2 Hb Hv2) as (nodes3 & E3 & F3); [simpl; lia|exact F2|].
  destruct (nodes_vote ids b v1 (accepted_by 1 b v2) nodes3 Hb Hv1) as (nodes4 & E4 & F4); [simpl; lia|exact F3|].
  destruct (first_delivery_ok cfg n ids Hn Hids Hw Hcu b v2) as (a2 & D2 & I2 & V2).
  destruct (first_delivery_ok cfg n ids Hn Hids Hw Hcu b v1) as (a1 & D1 & I1 & V1).
  exists nodes1, nodes2, nodes3, nodes4. eexists _, _, a2, a1.
  split; [by eapply first_request_ok|]. split; [by eapply first_request_ok|].
  split; [exact E3|]. split; [exact E4|]. done.
Qed.

(** ** Empty values *)

(** C40: an empty client value is lost after it was chosen and delivered.  For every
two proposers with ids [id1] < [id2]: the first has an empty value chosen in
instance 1 by a majority of acceptors, and a learner delivers it; the promises
that report the vote to the second one carry no bytes, so it requests its own
value instead, the same acceptors vote for it, and another learner delivers that
value for the same instance. *)
Theorem empty_value_unsafe cfg n id1 id2 v ids now1 junk1 now2 junk2 mem_junk :
  1 ≤ n ≤ INT_MAX → paxos_quorum n ≤ 127 → ids ≡ₚ seqZ 0 (paxos_quorum n) →
  0 < learner_instances cfg ≤ INT_MAX → learner_catch_up cfg ≠ 0 →
  0 ≤ id1 → id1 < id2 → id2 < MAX_N_OF_PROPOSERS → mem_fits v = true →
  let b1 := MAX_N_OF_PROPOSERS + id1 in
  let b2 := MAX_N_OF_PROPOSERS + id2 in
  ∃ nodes1 nodes2 nodes3 nodes4 votes1 votes2 a1 a2,
    first_request n now1 junk1 id1 [] (mem_nodes ids mem_junk) = Ret (nodes1, AcceptReq 1 b1 []) ∧
    broadcast nodes1 (RAccept (AcceptReq 1 b1 [])) = Ret (nodes2, votes1) ∧
    first_request n now2 junk2 id2 v nodes2 = Ret (nodes3, AcceptReq 1 b2 v) ∧
    broadcast nodes3 (RAccept (AcceptReq 1 b2 v)) = Ret (nodes4, votes2) ∧
    first_delivery cfg n votes1 = Ret (Some a1) ∧ aa_iid a1 = 1 ∧ aa_value a1 = [] ∧
    first_delivery cfg n votes2 = Ret (Some a2) ∧ aa_iid a2 = 1 ∧ aa_value a2 = v.
Proof.
  intros Hn Hq Hids Hw Hcu Hid1 Hlt Hid2 Hv b1 b2.
  pose proof (first_ballot_u32 id1 ltac:(lia) : is_u32 b1) as Hb1.
  pose proof (first_ballot_u32 id2 ltac:(lia) : is_u32 b2) as Hb2.
  destruct (nodes_promise ids b1 mem_junk Hb1) as (nodes1 & E1 & F1).
  destruct (nodes_vote ids b1 [] (λ a, AcceptAck a 1 b1 0 0 []) nodes1 Hb1 eq_refl) as (nodes2 & E2 & F2);
    [simpl; lia|exact F1|].
  destruct (nodes_answer ids (RPrepare (PrepareReq 1 b2)) (accepted_by 1 b1 []) (λ a, AcceptAck a 1 b2 b1 0 []) nodes2
    (prepare_window b2 Hb2) eq_refl) as (nodes3 & E3 & F3); [|exact F2|].
  { intros a _. simpl. unfold spec_prepare. simpl. rewrite lookup_singleton_eq. simpl.
    assert ((b2 <=? b1) = false) as -> by (apply Z.leb_gt; unfold b1, b2; lia). simpl.
    by rewrite insert_singleton_eq. }
  destruct (nodes_vote ids b2 v (λ a, AcceptAck a 1 b2 b1 0 []) nodes3 Hb2 Hv) as (nodes4 & E4 & F4);
    [simpl; lia|exact F3|].
  destruct (first_delivery_ok cfg n ids Hn Hids Hw Hcu b1 []) as (a1 & D1 & I1 & V1).
  destruct (first_delivery_ok cfg n ids Hn Hids Hw Hcu b2 v) as (a2 & D2 & I2 & V2).
  exists nodes1, nodes2, nodes3, nodes4. eexists _, _, a1, a2.
  split; [eapply first_request_ok; (done || lia)|]. split; [exact E2|].
  split; [eapply first_request_ok; (done || lia)|]. split; [exact E4|]. done.
Qed.

(** ** Witnesses *)

Definition bdb_sys : system (storage_bdb kv) := System {[1 := Acceptor kv_opened]} ∅ [].

Lemma bdb_sys_reachable : reachable 2 bdb_sys.
Proof.
  exists bdb_sys. split; [|apply rtc_refl]. split; simpl; [done|..].
  - intros a A E. apply lookup_singleton_Some in E as [<- <-]. exact kv_opened_rep.
  - intros id p E. by rewrite lookup_empty in E.
Qed.

Lemma kv_close_ok : storage_bdb_close kv_opened = Ret (bs_world kv_opened, 0).
Proof. reflexivity. Qed.

Lemma kv_reopen_ok : storage_bdb_open default_config (bs_world kv_opened) 1 = Ret (inl kv_opened).
Proof. reflexivity. Qed.

Lemma acceptor_restart_safe_witness :
  storage_bdb_open default_config (bs_world kv_opened) 1 = Ret (inl kv_opened) ∧
  reachable 2 (System (<[1 := Acceptor kv_opened]> (sys_acceptors bdb_sys)) ∅ []).
Proof.
  split; [exact kv_reopen_ok|].
  refine (proj1 (acceptor_restart_safe 2 bdb_sys default_config 1 kv_opened kv_opened
    (bs_world kv_opened) 0 tt _ bdb_sys_reachable _ _ _ _ kv_close_ok kv_reopen_ok)).
  - split; vm_compute; congruence.
  - apply lookup_singleton_eq.
  - reflexivity.
  - reflexivity.
  - reflexivity.
Defined.

(** Two of three acceptors, which answer in either order; proposer 1 is restarted,
proposer 2 comes after the empty value. *)
Lemma proposer_restart_unsafe_witness :
  ∃ nodes1 nodes2 nodes3 nodes4 votes2 votes1 a2 a1,
    first_request 3 at_zero (λ _, 0) 1 [x41] (mem_nodes [1; 0] no_junk) = Ret (nodes1, AcceptReq 1 11 [x41]) ∧
    first_request 3 at_zero (λ _, 7) 1 [x42] nodes1 = Ret (nodes2, AcceptReq 1 11 [x42]) ∧
    broadcast nodes2 (RAccept (AcceptReq 1 11 [x42])) = Ret (nodes3, votes2) ∧
    broadcast nodes3 (RAccept (AcceptReq 1 11 [x41])) = Ret (nodes4, votes1) ∧
    first_delivery cfg4 3 votes2 = Ret (Some a2) ∧ aa_iid a2 = 1 ∧ aa_value a2 = [x42] ∧
    first_delivery cfg4 3 votes1 = Ret (Some a1) ∧ aa_iid a1 = 1 ∧ aa_value a1 = [x41].
Proof.
  apply (proposer_restart_unsafe cfg4 3 1 [x41] [x42] [1; 0] at_zero (λ _, 0) at_zero (λ _, 7) no_junk).
  - by vm_compute.
  - by vm_compute.
  - vm_compute. constructor.
  - by vm_compute.
  - discriminate.
  - by vm_compute.
  - reflexivity.
  - reflexivity.
Defined.

Lemma empty_value_unsafe_witness :
  ∃ nodes1 nodes2 nodes3 nodes4 votes1 votes2 a1 a2,
    first_request 3 at_zero (λ _, 0) 1 [] (mem_nodes [1; 0] no_junk) = Ret (nodes1, AcceptReq 1 11 []) ∧
    broadcast nodes1 (RAccept (AcceptReq 1 11 [])) = Ret (nodes2, votes1) ∧
    first_request 3 at_zero (λ _, 7) 2 [x42] nodes2 = Ret (nodes3, AcceptReq 1 12 [x42]) ∧
    broadcast nodes3 (RAccept (AcceptReq 1 12 [x42])) = Ret (nodes4, votes2) ∧
    first_delivery cfg4 3 votes1 = Ret (Some a1) ∧ aa_iid a1 = 1 ∧ aa_value a1 = [] ∧
    first_delivery cfg4 3 votes2 = Ret (Some a2) ∧ aa_iid a2 = 1 ∧ aa_value a2 = [x42].
Proof.
  apply (empty_value_unsafe cfg4 3 1 2 [x42] [1; 0] at_zero (λ _, 0) at_zero (λ _, 7) no_junk).
  - by vm_compute.
  - by vm_compute.
  - vm_compute. constructor.
  - by vm_compute.
  - discriminate.
  - by vm_compute.
  - by vm_compute.
  - by vm_compute.
  - reflexivity.
Defined.
