(* ===== verification/Startup.v ===== *)
(** * Starting a cluster from a configuration file

The three kinds of nodes read the same file.  Here the configuration reader,
the initialisation functions and the protocol are put together: nodes started
from a file with [n] acceptor lines all work with [n] acceptors, and their
states form an initial state of [System], to which its safety applies. *)

From S2P Require Import Config.
From S2P Require Import Prelude Carray Quorum Messages Storage StorageMem Acceptor.
From S2P Require Import Proposer ProposerRun Learner Synod System SystemRuns Wire Net.
From S2P Require Import EvAcceptor EvProposer EvLearner.
#[local] Open Scope Z_scope.

(** ** One node *)

Lemma receiver_new_total a : ∃ r, TcpReceiver.tcp_receiver_new a true = Ret r ∧
  TcpReceiver.listener r = TcpReceiver.set_sockaddr_in a.
Proof. unfold TcpReceiver.tcp_receiver_new. simpl. by eexists. Qed.

Lemma proposer_new_total id n : 0 ≤ n ≤ INT_MAX → ∃ p, proposer_new id n = Ret p.
Proof.
  intros Hn. unfold proposer_new.
  destruct (carray_new_ret (A:=paxos_msg) 128 ltac:(lia)) as [cv ->].
  destruct (carray_new_ret (A:=instance) 128 ltac:(lia)) as [ci ->]. simpl. eauto.
Qed.

Section acceptor.
Context {S : Type} `{Storage S}.

Lemma evacceptor_init_ok conf acs pcs id (s : S) a :
  config_rep conf acs pcs → 0 ≤ id → acs !! Z.to_nat id = Some a →
  ∃ x, evacceptor_init_conf conf id true (Some s) = Ret (Some x) ∧
    EvAcceptor.state x = Some (Acceptor s) ∧
    TcpReceiver.listener (EvAcceptor.receiver x) = TcpReceiver.set_sockaddr_in a.
Proof.
  intros [Ra _] Hid Ha. pose proof (lookup_lt_Some _ _ _ Ha). unfold evacceptor_init_conf.
  rewrite (ad_count _ _ _ Ra). case_Z; [lia|]. case_Z; [lia|]. cbn [orb].
  pose proof (addresses_get _ _ _ _ _ Ra Ha) as Hg. rewrite Z2Nat.id in Hg by lia. rewrite Hg, bind_Ret.
  destruct (receiver_new_total a) as (r & -> & Hr). simpl. eauto.
Qed.

Lemma evacceptor_init_bad conf acs pcs id bound (opened : option S) :
  config_rep conf acs pcs → id < 0 ∨ Z.of_nat (length acs) ≤ id →
  evacceptor_init_conf conf id bound opened = Ret None.
Proof.
  unfold evacceptor_init_conf. intros [[-> _ _] _] Hid. by repeat case_Z; simpl; try lia.
Qed.

(** A started acceptor has the storage it was given. *)
Lemma evacceptor_init_inv conf acs pcs id bound (opened : option S) x :
  config_rep conf acs pcs → evacceptor_init_conf conf id bound opened = Ret (Some x) →
  0 ≤ id < Z.of_nat (length acs) ∧ EvAcceptor.state x = acceptor_new opened.
Proof.
  unfold evacceptor_init_conf. intros [[-> _ _] _] Hx.
  destruct (Z.ltb_spec id 0), (Z.leb_spec (Z.of_nat (length acs)) id); simpl in Hx; try done.
  inv_res. done.
Qed.

End acceptor.

Lemma evproposer_init_ok cfg conf acs pcs pid new_bev :
  config_rep conf acs pcs → Z.of_nat (length acs) ≤ MAX_ADDR → 0 ≤ pid < MAX_N_OF_PROPOSERS →
  ∃ x, evproposer_init_conf cfg conf pid true new_bev = Ret (Some x) ∧
    proposer_new pid (Z.of_nat (length acs)) = Ret (EvProposer.state x) ∧
    Peers.peers_ok (EvProposer.acceptors x) acs ∧
    EvProposer.preexec_window x = proposer_preexec_window cfg.
Proof.
  intros Hc Hn Hid. unfold evproposer_init_conf. case_Z; [lia|]. case_Z; [lia|]. cbn [orb].
  destruct (connect_acceptors_ok conf acs pcs new_bev Hc) as (ps & Ep & Hok & _).
  destruct Hc as [[Ea _ _] [_ Hs _]]. rewrite Ea.
  destruct (arr_get_total (Config.proposers conf) pid) as [a ->].
  { rewrite Hs. unfold MAX_ADDR, MAX_N_OF_PROPOSERS in *. lia. }
  rewrite bind_Ret. destruct (receiver_new_total a) as (r & -> & _). simpl. rewrite Ep. simpl.
  destruct (proposer_new_total pid (Z.of_nat (length acs))) as [st E];
    [unfold MAX_ADDR, INT_MAX in *; lia|]. rewrite E. simpl. eexists. done.
Qed.

Lemma evproposer_init_inv cfg conf acs pcs pid bound new_bev x :
  config_rep conf acs pcs → evproposer_init_conf cfg conf pid bound new_bev = Ret (Some x) →
  0 ≤ pid < MAX_N_OF_PROPOSERS ∧
  proposer_new pid (Z.of_nat (length acs)) = Ret (EvProposer.state x).
Proof.
  intros [[Ea _ _] _] Hx. unfold evproposer_init_conf in Hx. rewrite Ea in Hx.
  destruct (Z.ltb_spec pid 0), (Z.leb_spec MAX_N_OF_PROPOSERS pid); simpl in Hx; try done.
  inv_res. done.
Qed.

(** ** A cluster *)

Section cluster.
Context {S : Type} `{SS : StorageSpec S}.

(** The file the nodes are started from, and the [paxos_config] they start with. *)
Context (es : list entry) (p : paxos_config).
Let file : option bytes := Some (print_config es).
Let acs : list address := omap entry_acceptor es.
Let n : Z := Z.of_nat (length acs).
Let cfg : paxos_config := foldl (flip entry_option) p es.

Record file_ok : Prop := {
  fo_entries : Forall entry_ok es;
  fo_acceptors : 1 ≤ n ≤ MAX_ADDR;
  fo_proposers : Z.of_nat (length (omap entry_proposer es)) ≤ MAX_ADDR;
}.

(** Nodes that were started from the file, acceptors on empty storages. *)
Record started (accs : gmap Z (evacceptor S)) (props : gmap Z evproposer) : Prop := {
  sd_acceptors : ∀ id x, accs !! id = Some x → ∃ s p', store_rep id s ∅ ∧
    evacceptor_init file p id true (Some s) = Ret (p', Some x);
  sd_proposers : ∀ id x, props !! id = Some x → ∃ new_bev p',
    evproposer_init file p id true new_bev = Ret (p', Some x);
}.

Definition cluster_system (accs : gmap Z (evacceptor S)) (props : gmap Z evproposer) : system S :=
  System (omap EvAcceptor.state accs) (EvProposer.state <$> props) [].

Lemma file_read : file_ok → ∃ c, read_config file p = Ret (cfg, c) ∧
  config_rep c acs (omap entry_proposer es).
Proof. intros [HF Ha Hp]. apply read_config_ok; [done|apply Ha|done]. Qed.

Lemma started_init accs props :
  file_ok → started accs props → sys_init n (cluster_system accs props).
Proof.
  intros Hf [Ha Hp]. destruct (file_read Hf) as (c & Ec & Rc). split; simpl; [done|..].
  - intros id A E. apply lookup_omap_Some in E as (x & Ex & Hx).
    destruct (Ha id x Hx) as (s & p' & R & Hi). unfold evacceptor_init in Hi. rewrite Ec in Hi.
    simpl in Hi. apply bind_inv in Hi as (o & Hi & [= _ ->]).
    destruct (evacceptor_init_inv c acs _ id true (Some s) x Rc Hi) as [_ Hs].
    rewrite Hs in Ex. simpl in Ex. by simplify_eq.
  - intros id st E. apply lookup_fmap_Some in E as (x & <- & Hx).
    destruct (Hp id x Hx) as (nb & p' & Hi). unfold evproposer_init in Hi. rewrite Ec in Hi.
    simpl in Hi. apply bind_inv in Hi as (o & Hi & [= _ ->]). by eapply evproposer_init_inv.
Qed.

(** ** Properties *)

(** Every node of a well-formed configuration file starts, with the number of
acceptors in the file and the options it sets: the acceptors with an id below
that number (listening on the port of their line, on the storage they were
given) and no others, the proposers with ids below [MAX_N_OF_PROPOSERS]
(connected to all acceptors in order), and the learners. *)
Theorem nodes_start :
  file_ok →
  (∀ id (s : S) a, 0 ≤ id → acs !! Z.to_nat id = Some a →
     ∃ x, evacceptor_init file p id true (Some s) = Ret (cfg, Some x) ∧
       EvAcceptor.state x = Some (Acceptor s) ∧
       TcpReceiver.listener (EvAcceptor.receiver x) = TcpReceiver.set_sockaddr_in a) ∧
  (∀ id bound (opened : option S), id < 0 ∨ n ≤ id →
     evacceptor_init file p id bound opened = Ret (cfg, None)) ∧
  (∀ pid new_bev, 0 ≤ pid < MAX_N_OF_PROPOSERS →
     ∃ x, evproposer_init file p pid true new_bev = Ret (cfg, Some x) ∧
       proposer_new pid n = Ret (EvProposer.state x) ∧
       Peers.peers_ok (EvProposer.acceptors x) acs ∧
       EvProposer.preexec_window x = proposer_preexec_window cfg) ∧
  (∀ new_bev, 0 < learner_instances cfg ≤ INT_MAX →
     ∃ l, evlearner_init file p new_bev = Ret (cfg, l) ∧
       learner_new cfg n = Ret (EvLearner.state l) ∧
       Peers.peers_ok (EvLearner.acceptors l) acs).
Proof.
  intros Hf. destruct (file_read Hf) as (c & Ec & Rc). pose proof (fo_acceptors Hf) as Hn.
  split; [|split; [|split]].
  - intros id s a Hid Ha. unfold evacceptor_init. rewrite Ec. simpl.
    destruct (evacceptor_init_ok c acs _ id s a Rc Hid Ha) as (x & -> & Hx). simpl. eauto.
  - intros id bound opened Hid. unfold evacceptor_init. rewrite Ec. simpl.
    by rewrite (evacceptor_init_bad c acs _ id bound opened Rc Hid).
  - intros pid nb Hpid. unfold evproposer_init. rewrite Ec. simpl.
    destruct (evproposer_init_ok cfg c acs _ pid nb Rc (proj2 Hn) Hpid) as (x & -> & Hx). simpl. eauto.
  - intros nb Hl. unfold evlearner_init. rewrite Ec. simpl. unfold evlearner_init_conf.
    destruct (connect_acceptors_ok c acs _ nb Rc) as (ps & -> & Hok & _).
    destruct Rc as [[-> _ _] _]. fold n.
    destruct (learner_new_ok cfg n (λ _, False)) as (st & w & -> & _);
      [unfold MAX_ADDR, INT_MAX in *; lia|done|]. simpl. eauto.
Qed.

(** A cluster is safe from its configuration file on: acceptors and proposers
started from one file, whatever ids they were given, never choose two different
values in an instance, whichever of their handlers run in which order and
whatever happens to their messages. *)
Theorem cluster_agreement accs props s iid b v b' v' :
  file_ok → started accs props → rtc sys_step (cluster_system accs props) s →
  sys_chosen n (sys_net s) iid b v → sys_chosen n (sys_net s) iid b' v' → v = v'.
Proof.
  intros Hf Hs Hr. pose proof (fo_acceptors Hf) as Hn.
  assert (1 ≤ n ≤ INT_MAX) as Hn' by (unfold MAX_ADDR, INT_MAX in *; lia).
  apply (sys_agree n Hn'). apply (sys_inv_reachable n Hn').
  exists (cluster_system accs props). split; [|done]. by apply started_init.
Qed.

End cluster.

(** ** Witnesses: the file of [demo_entries], three acceptors and proposer 1 *)

Lemma demo_file_ok : file_ok demo_entries.
Proof. split; [exact demo_entries_ok|split; vm_compute; congruence|vm_compute; congruence]. Qed.

Definition demo_file : option bytes := Some (print_config demo_entries).

Definition demo_acceptor (id : Z) : evacceptor storage_mem :=
  EvAcceptor id (TcpReceiver.Receiver (TcpReceiver.set_sockaddr_in (localhost (8800 + id)))
                   (Carray 0 0 10 0 (replicate 10 None))) (Some (mem_acceptor id)).

Definition demo_proposer : evproposer :=
  EvProposer 1 128 (TcpReceiver.Receiver (TcpReceiver.set_sockaddr_in no_address)
                      (Carray 0 0 10 0 (replicate 10 None)))
    demo0 (foldl (λ ps i, Peers.peers_connect ps (localhost (8800 + i)) i) Peers.peers_new [0; 1; 2])
    (Timeval 1 0).

Lemma demo_acceptors_start :
  Forall (λ id, evacceptor_init demo_file default_config id true (Some (store (mem_acceptor id))) =
    Ret (foldl (flip entry_option) default_config demo_entries, Some (demo_acceptor id))) [0; 1; 2].
Proof. repeat (apply Forall_cons_2; [vm_compute; reflexivity|]). apply Forall_nil_2. Qed.

Lemma demo_started :
  started demo_entries default_config
    {[0 := demo_acceptor 0; 1 := demo_acceptor 1; 2 := demo_acceptor 2]} {[1 := demo_proposer]}.
Proof.
  split.
  - intros id x E. assert (x = demo_acceptor id ∧ id ∈ [0; 1; 2]) as [-> Hid].
    { apply lookup_insert_Some in E as [[<- <-]|[_ E]]; [split; [done|set_solver]|].
      apply lookup_insert_Some in E as [[<- <-]|[_ E]]; [split; [done|set_solver]|].
      apply lookup_singleton_Some in E as [<- <-]. split; [done|set_solver]. }
    exists (store (mem_acceptor id)). eexists. split; [apply mem_open_rep|].
    pose proof demo_acceptors_start as HF. rewrite Forall_forall in HF. by apply HF.
  - intros id x E. apply lookup_singleton_Some in E as [<- <-]. exists (λ i, i). eexists.
    vm_compute. reflexivity.
Qed.

Lemma nodes_start_witness :
  ∃ x, evacceptor_init demo_file default_config 1 true (Some (store (mem_acceptor 1))) =
      Ret (foldl (flip entry_option) default_config demo_entries, Some x) ∧
    EvAcceptor.state x = Some (mem_acceptor 1) ∧
    TcpReceiver.listener (EvAcceptor.receiver x) = TcpReceiver.set_sockaddr_in (localhost 8801).
Proof.
  destruct (nodes_start (S:=storage_mem) demo_entries default_config demo_file_ok) as [Ha _].
  apply Ha; [discriminate|reflexivity].
Defined.

(** The run of [SystemRuns] starts in this cluster. *)
Lemma cluster_agreement_witness :
  sys_chosen 3 (sys_net run_sys10) 1 11 [x41] ∧
  ∀ b v, sys_chosen 3 (sys_net run_sys10) 1 b v → [x41] = v.
Proof.
  split; [exact run_chosen|]. intros b v. apply (cluster_agreement demo_entries default_config
    {[0 := demo_acceptor 0; 1 := demo_acceptor 1; 2 := demo_acceptor 2]} {[1 := demo_proposer]}
    run_sys10 1 11 [x41] b v demo_file_ok demo_started).
  - assert (cluster_system {[0 := demo_acceptor 0; 1 := demo_acceptor 1; 2 := demo_acceptor 2]}
      {[1 := demo_proposer]} = run_sys0) as -> by reflexivity.
    etransitivity; [exact run_sys3_reachable|].
    etransitivity; [exact run_sys5_reachable|exact run_sys10_reachable].
  - exact run_chosen.
Defined.
