(* ===== verification/MemEvProposer.v ===== *)
(** * An event-driven proposer on the heap (src/evpaxos/evproposer.c)

The node as a whole, with its client connections, its peers, its timer and the
requests its handlers allocate and free.  [evproposer_leaks_timer] says that
its memory is safe over its whole life, and that [evproposer_free] leaves the
running timer behind, whose callback would use the freed node. *)

From S2P Require Import Prelude Heap Carray Quorum Messages Config Proposer ProposerRun Net Wire.
From S2P Require Import Storage StorageMem Acceptor Learner Synod System SystemRuns.
From S2P Require Import EvProposer Timeouts ProposerLife EvProposerRun Startup.
From S2P Require Import Memory MemCarray MemQueue MemProposer MemTimeouts MemRuns MemConns MemConfig.
#[local] Open Scope Z_scope.
Import Peers.

(** ** Handlers *)

(** One copy of a request for each acceptor. *)
Definition c_broadcast (p : loc) (m : message) : cmdb sends :=
  s ← read_as as_evproposer p;
  n ← c_peers_count (cep_acceptors s);
  c_send_each n (c_peers_get_buffer (cep_acceptors s)) m.

Definition c_send_prepares (p : loc) (pr : prepare_req) : cmdb sends := c_broadcast p (MPrepareReq pr).
Definition c_send_accepts (p : loc) (ar : accept_req) : cmdb sends := c_broadcast p (MAcceptReq ar).

(** [n] iterations of the loop of [proposer_preexecute], from the [i]th. *)
Fixpoint c_preexecute_loop (e : env) (n i : nat) (p : loc) : cmdb sends :=
  match n with
  | O => mret []
  | S n' =>
      s ← read_as as_evproposer p;
      pr ← c_proposer_prepare (cep_state s) (now e i) (junk e i);
      out ← c_send_prepares p pr;
      out' ← c_preexecute_loop e n' (S i) p;
      mret (out ++ out')
  end.

Definition c_proposer_preexecute (e : env) (p : loc) : cmdb sends :=
  s ← read_as as_evproposer p;
  prepared ← c_proposer_prepared_count (cep_state s);
  count ← pureC (cint (cep_preexec_window s - prepared));
  if count <=? 0 then mret [] else c_preexecute_loop e (Z.to_nat count) 0 p.

(** The loop of [try_accept], at most [n] iterations; each frees its request. *)
Fixpoint c_accept_loop (n : nat) (p : loc) : cmdb sends :=
  match n with
  | O => pureC (Fault StackOverflow)
  | S n' =>
      s ← read_as as_evproposer p;
      r ← c_proposer_accept (cep_state s);
      match r with
      | None => mret []
      | Some x =>
          ar ← read_as as_accept_req x;
          out ← c_send_accepts p ar;
          free x ;;
          out' ← c_accept_loop n' p;
          mret (out ++ out')
      end
  end.

Definition c_try_accept (e : env) (p : loc) : cmdb sends :=
  s ← read_as as_evproposer p;
  n ← c_proposer_prepared_count (cep_state s);
  out ← c_accept_loop (S (Z.to_nat n)) p;
  out' ← c_proposer_preexecute e p;
  mret (out ++ out').

Definition c_send_preempted (p : loc) (preempted : option prepare_req) : cmdb sends :=
  match preempted with Some pr => c_send_prepares p pr | None => mret [] end.

Definition c_proposer_handle_prepare_ack (t : timeval) (p : loc) (ack : prepare_ack) : cmdb sends :=
  s ← read_as as_evproposer p;
  preempted ← c_proposer_receive_prepare_ack (cep_state s) ack t;
  c_send_preempted p preempted.

Definition c_proposer_handle_accept_ack (t : timeval) (p : loc) (ack : accept_ack) : cmdb sends :=
  s ← read_as as_evproposer p;
  preempted ← c_proposer_receive_accept_ack (cep_state s) ack t;
  c_send_preempted p preempted.

Definition c_proposer_handle_client_msg (p : loc) (value : bytes) : cmdb () :=
  s ← read_as as_evproposer p;
  c_proposer_propose (cep_state s) value.

(** [proposer_handle_msg], for a message that was decoded. *)
Definition c_handle_message (t : timeval) (e : env) (p : loc) (m : message) : cmdb sends :=
  match m with
  | MPrepareAck ack =>
      out ← c_proposer_handle_prepare_ack t p ack;
      out' ← c_try_accept e p; mret (out ++ out')
  | MAcceptAck ack =>
      out ← c_proposer_handle_accept_ack t p ack;
      out' ← c_try_accept e p; mret (out ++ out')
  | MSubmit value => c_proposer_handle_client_msg p value ;; c_try_accept e p
  | _ => mret []
  end.

(** The loops of [proposer_check_timeouts], which free each request. *)
Fixpoint c_timeout_prepare_loop (cfg : paxos_config) (n : nat) (p iter : loc) : cmdb sends :=
  match n with
  | O => pureC (Fault StackOverflow)
  | S n' =>
      r ← c_timeout_iterator_prepare cfg iter;
      match r with
      | None => mret []
      | Some x =>
          pr ← read_as as_prepare_req x;
          out ← c_send_prepares p pr;
          free x ;;
          out' ← c_timeout_prepare_loop cfg n' p iter;
          mret (out ++ out')
      end
  end.

Fixpoint c_timeout_accept_loop (cfg : paxos_config) (n : nat) (p iter : loc) : cmdb sends :=
  match n with
  | O => pureC (Fault StackOverflow)
  | S n' =>
      r ← c_timeout_iterator_accept cfg iter;
      match r with
      | None => mret []
      | Some x =>
          ar ← read_as as_accept_req x;
          out ← c_send_accepts p ar;
          free x ;;
          out' ← c_timeout_accept_loop cfg n' p iter;
          mret (out ++ out')
      end
  end.

(** The lengths of the queues bound the iterations; the timer starts again. *)
Definition c_proposer_check_timeouts (cfg : paxos_config) (t : timeval) (p : loc) : cmdb sends :=
  s ← read_as as_evproposer p;
  iter ← c_proposer_timeout_iterator (cep_state s) t;
  st ← read_as as_proposer (cep_state s);
  n ← c_carray_count (cp_prepare_instances st);
  out ← c_timeout_prepare_loop cfg (S (Z.to_nat n)) p iter;
  st ← read_as as_proposer (cep_state s);
  n ← c_carray_count (cp_accept_instances st);
  out' ← c_timeout_accept_loop cfg (S (Z.to_nat n)) p iter;
  c_timeout_iterator_free iter ;;
  read_as as_timer (cep_timeout_ev s) ;;
  write (cep_timeout_ev s) (BTimer true) ;;
  mret (out ++ out').

(** ** The start and the end of a node *)

(** Of its own address a node reads the port only. *)
Definition c_evproposer_init_conf (cfg : paxos_config) (c : loc) (pid : Z) (bound : bool)
    : cmdb (option loc) :=
  if (pid <? 0) || (MAX_N_OF_PROPOSERS <=? pid) then mret None
  else
    s ← read_as as_config c;
    a ← pureC (arr_get (ccf_proposers s) pid);
    r ← c_tcp_receiver_new (Address "" (cad_port a)) bound;
    ps ← c_peers_new;
    c_connect_acceptors c ps ;;
    tv ← alloc (BTimer false);
    write tv (BTimer true) ;;
    st ← c_proposer_new pid (ccf_acceptors_count s);
    p ← alloc (BEvProposer (CEvProposer pid (proposer_preexec_window cfg) r st ps tv));
    c_free_config c ;;
    mret (Some p).

Definition c_evproposer_free (p : loc) : cmdb () :=
  s ← read_as as_evproposer p;
  c_peers_free (cep_acceptors s) ;;
  c_tcp_receiver_free (cep_receiver s) ;;
  c_proposer_free (cep_state s) ;;
  free p.

(** ** The memory of a node *)

(** A node without its client connections and its timer. *)
Definition at_core (addrs : list address) (x : loc) (s : c_evproposer) (p : evproposer) : mprop :=
  (x ↦ BEvProposer s ∗ <affine> ⌜cep_preexec_window s = preexec_window p⌝ ∗
     at_proposer (cep_state s) (state p) ∗
     ∃ ps, <affine> ⌜peers_ok ps addrs⌝ ∗ at_peers (cep_acceptors s) ps)%I.

Section handlers.
Context (addrs : list address).
Implicit Types (x : loc) (s : c_evproposer) (p : evproposer).

(** What is sent, whatever the addresses of the connections. *)
Lemma broadcast_messages ps m out :
  peers_ok ps addrs → send_each (peers_count ps) (peers_get_buffer ps) m = Ret out →
  out.*2 = replicate (length addrs) m.
Proof.
  intros Hok E. rewrite (send_peers _ _ _ Hok) in E. injection E as <-.
  rewrite -(po_addrs _ _ Hok) length_fmap -list_fmap_compose. symmetry.
  apply replicate_as_elem_of. split; [by rewrite length_fmap|].
  intros y Hy. apply list_elem_of_fmap in Hy as (? & -> & _). done.
Qed.

Lemma c_broadcast_ok x s p m out :
  peers_ok (acceptors p) addrs →
  send_each (peers_count (acceptors p)) (peers_get_buffer (acceptors p)) m = Ret out →
  at_core addrs x s p ⊢ wp (c_broadcast x m) (λ o, <affine> ⌜o.*2 = out.*2⌝ ∗ at_core addrs x s p).
Proof.
  iIntros (Hp E) "(Hx & #Hw & Hst & %ps & %Hok & Hps)". unfold c_broadcast. wp_rd "Hx". wp_unbind.
  iApply c_peers_count_ok. iFrame "Hps". iIntros "Hps". iApply (wp_wand with "[Hps]").
  { iApply (c_send_each_ok with "Hps"). apply Hok. }
  iIntros (o) "[%Eo Hps]". iSplitR.
  { iPureIntro. by rewrite (broadcast_messages _ _ _ Hok Eo) (broadcast_messages _ _ _ Hp E). }
  iFrame "Hx Hw Hst". iExists ps. by iFrame.
Qed.

Lemma at_core_state x s p st :
  at_core addrs x s (set_state st p) ⊣⊢
  x ↦ BEvProposer s ∗ <affine> ⌜cep_preexec_window s = preexec_window p⌝ ∗
    at_proposer (cep_state s) st ∗ ∃ ps, <affine> ⌜peers_ok ps addrs⌝ ∗ at_peers (cep_acceptors s) ps.
Proof. done. Qed.

Lemma c_preexecute_loop_ok e n i x s p p' out :
  peers_ok (acceptors p) addrs → preexecute_loop e n i p = Ret (p', out) →
  at_core addrs x s p ⊢ wp (c_preexecute_loop e n i x) (λ o,
    <affine> ⌜o.*2 = out.*2⌝ ∗ at_core addrs x s p').
Proof.
  revert i p out. induction n as [|n IH]; intros i p out Hp E; simpl in *.
  { injection E as <- <-. iIntros "H". iApply wp_ret. by iFrame. }
  apply bind_inv in E as ([st pr] & E1 & E). apply bind_inv in E as (o1 & E2 & E).
  apply bind_inv in E as ([p2 o2] & E3 & [= <- <-]).
  iIntros "(Hx & Hw & Hst & Hps)". wp_rd "Hx". wp_call c_proposer_prepare_ok with "[Hst]".
  iIntros (r) "[-> Hst]". wp_unbind. iApply (wp_wand with "[Hx Hw Hst Hps]").
  { iApply (c_broadcast_ok x s (set_state st p)); [exact Hp|exact E2|]. rewrite at_core_state. iFrame. }
  iIntros (r1) "[%Er1 H]". wp_unbind. iApply (wp_wand with "[H]").
  { iApply (IH with "H"); [|exact E3]. exact Hp. }
  iIntros (r2) "[%Er2 H]". iApply wp_ret. iFrame. iPureIntro. by rewrite !fmap_app Er1 Er2.
Qed.

Lemma c_preexecute_ok e x s p p' out :
  peers_ok (acceptors p) addrs → proposer_preexecute e p = Ret (p', out) →
  at_core addrs x s p ⊢ wp (c_proposer_preexecute e x) (λ o,
    <affine> ⌜o.*2 = out.*2⌝ ∗ at_core addrs x s p').
Proof.
  iIntros (Hp E) "(Hx & %Hw & Hst & Hps)". unfold proposer_preexecute in E.
  apply bind_inv in E as (c & Ec & E). unfold c_proposer_preexecute. wp_rd "Hx".
  wp_call c_proposer_prepared_count_ok with "[Hst]". iIntros (r) "[-> Hst]".
  assert (cint (cep_preexec_window s - proposer_prepared_count (state p)) = Ret c) as Ec' by (by rewrite Hw).
  wp_pure Ec'. iAssert (at_core addrs x s p) with "[$Hx $Hst $Hps //]" as "H". destruct (c <=? 0).
  - injection E as <- <-. iApply wp_ret. by iFrame.
  - by iApply c_preexecute_loop_ok.
Qed.

(** What is done with a request that a call returned. *)
Lemma c_sent_ok x s p m out r b (rest : cmdb sends) out' (F G : mprop) :
  peers_ok (acceptors p) addrs →
  send_each (peers_count (acceptors p)) (peers_get_buffer (acceptors p)) m = Ret out →
  (F ∗ at_core addrs x s p ⊢ wp rest (λ o, <affine> ⌜o.*2 = out'.*2⌝ ∗ G)) →
  r ↦ b ∗ F ∗ at_core addrs x s p ⊢ wp (o ← c_broadcast x m; free r ;; o' ← rest; mret (o ++ o'))
    (λ o, <affine> ⌜o.*2 = (out ++ out').*2⌝ ∗ G).
Proof.
  iIntros (Hp E Hrest) "(Hr & HF & H)". wp_unbind. iApply (wp_wand with "[H]").
  { iApply (c_broadcast_ok with "H"); [exact Hp|exact E]. }
  iIntros (o1) "[%E1 H]". wp_fr "Hr". wp_unbind. iApply (wp_wand with "[HF H]"); [iApply Hrest; iFrame|].
  iIntros (o2) "[%E2 H]". iApply wp_ret. iFrame. iPureIntro. by rewrite !fmap_app E1 E2.
Qed.

Lemma c_accept_loop_ok n x s p p' out :
  peers_ok (acceptors p) addrs → accept_loop n p = Ret (p', out) →
  at_core addrs x s p ⊢ wp (c_accept_loop n x) (λ o,
    <affine> ⌜o.*2 = out.*2⌝ ∗ at_core addrs x s p').
Proof.
  revert p out. induction n as [|n IH]; intros p out Hp E; simpl in *; [done|].
  apply bind_inv in E as ([st ar] & E1 & E).
  iIntros "(Hx & Hw & Hst & Hps)". wp_rd "Hx". wp_call c_proposer_accept_ok with "[Hst]".
  iIntros (r) "[Hr Hst]". iAssert (at_core addrs x s (set_state st p)) with "[Hx Hw Hst Hps]" as "H".
  { rewrite at_core_state. iFrame. }
  destruct ar as [ar|], r as [y|]; simpl; try iDestruct "Hr" as %[].
  - apply bind_inv in E as (o1 & E2 & E). apply bind_inv in E as ([p2 o2] & E3 & [= <- <-]). wp_rd "Hr".
    iApply (c_sent_ok x s (set_state st p) _ _ _ _ _ _ emp%I); [exact Hp|exact E2| |by iFrame].
    iIntros "[_ H]". by iApply (IH with "H").
  - injection E as <- <-. iApply wp_ret. by iFrame.
Qed.

Lemma accept_loop_acceptors n p p' out : accept_loop n p = Ret (p', out) → acceptors p' = acceptors p.
Proof. intros E. by destruct (accept_loop_does any_msg _ _ _ _ E) as (_ & _ & ? & _). Qed.

Lemma c_try_accept_ok e x s p p' out :
  peers_ok (acceptors p) addrs → try_accept e p = Ret (p', out) →
  at_core addrs x s p ⊢ wp (c_try_accept e x) (λ o,
    <affine> ⌜o.*2 = out.*2⌝ ∗ at_core addrs x s p').
Proof.
  iIntros (Hp E) "(Hx & Hw & Hst & Hps)". unfold try_accept in E.
  apply bind_inv in E as ([p1 o1] & E1 & E). apply bind_inv in E as ([p2 o2] & E2 & [= <- <-]).
  unfold c_try_accept. wp_rd "Hx". wp_call c_proposer_prepared_count_ok with "[Hst]". iIntros (r) "[-> Hst]".
  wp_unbind. iApply (wp_wand with "[Hx Hw Hst Hps]").
  { iApply (c_accept_loop_ok _ x s p); [exact Hp|exact E1|iFrame]. }
  iIntros (r1) "[%Er1 H]". wp_unbind. iApply (wp_wand with "[H]").
  { iApply (c_preexecute_ok with "H"); [|exact E2]. by rewrite (accept_loop_acceptors _ _ _ _ E1). }
  iIntros (r2) "[%Er2 H]". iApply wp_ret. iFrame. iPureIntro. by rewrite !fmap_app Er1 Er2.
Qed.

Lemma c_send_preempted_ok x s p st pr out p' :
  peers_ok (acceptors p) addrs →
  match pr with Some pr => o ← send_prepares (set_state st p) pr; Ret (set_state st p, o)
  | None => Ret (set_state st p, []) end = Ret (p', out) →
  at_core addrs x s (set_state st p) ⊢ wp (c_send_preempted x pr) (λ o,
    <affine> ⌜o.*2 = out.*2⌝ ∗ at_core addrs x s p').
Proof.
  iIntros (Hp E) "H". destruct pr as [pr|]; simpl.
  - apply bind_inv in E as (o & E & [= <- <-]). iApply (c_broadcast_ok with "H"); [exact Hp|exact E].
  - injection E as <- <-. iApply wp_ret. by iFrame.
Qed.

Lemma c_handle_prepare_ack_ok t x s p ack p' out :
  peers_ok (acceptors p) addrs → proposer_handle_prepare_ack t p ack = Ret (p', out) →
  at_core addrs x s p ⊢ wp (c_proposer_handle_prepare_ack t x ack) (λ o,
    <affine> ⌜o.*2 = out.*2⌝ ∗ at_core addrs x s p').
Proof.
  iIntros (Hp E) "(Hx & Hw & Hst & Hps)". unfold proposer_handle_prepare_ack in E.
  apply bind_inv in E as ([st pr] & E1 & E). unfold c_proposer_handle_prepare_ack. wp_rd "Hx".
  wp_call c_receive_prepare_ack_ok with "[Hst]". iIntros (r) "[-> Hst]".
  iApply (c_send_preempted_ok x s p); [done|exact E|]. rewrite at_core_state. iFrame.
Qed.

(** The keys of the accept queue are distinct in a steady node. *)
Lemma c_handle_vote_ok t x s p ack p' out acs :
  carray_rep (p_accept_instances (state p)) acs → NoDup (i_iid <$> acs) →
  peers_ok (acceptors p) addrs → proposer_handle_accept_ack t p ack = Ret (p', out) →
  at_core addrs x s p ⊢ wp (c_proposer_handle_accept_ack t x ack) (λ o,
    <affine> ⌜o.*2 = out.*2⌝ ∗ at_core addrs x s p').
Proof.
  iIntros (R U Hp E) "(Hx & Hw & Hst & Hps)". unfold proposer_handle_accept_ack in E.
  apply bind_inv in E as ([st pr] & E1 & E). unfold c_proposer_handle_accept_ack. wp_rd "Hx".
  wp_call (c_receive_accept_ack_ok _ _ _ _ _ _ _ R U) with "[Hst]". iIntros (r) "[-> Hst]".
  iApply (c_send_preempted_ok x s p); [done|exact E|]. rewrite at_core_state. iFrame.
Qed.

Lemma c_handle_client_ok x s p value p' :
  proposer_handle_client_msg p value = Ret p' →
  at_core addrs x s p ⊢ wp (c_proposer_handle_client_msg x value) (λ _, at_core addrs x s p').
Proof.
  iIntros (E) "(Hx & Hw & Hst & Hps)". unfold proposer_handle_client_msg in E.
  apply bind_inv in E as (st & E1 & [= <-]). unfold c_proposer_handle_client_msg. wp_rd "Hx".
  iApply (wp_wand with "[Hst]"); [by iApply c_proposer_propose_ok|]. iIntros (_) "Hst".
  rewrite at_core_state. iFrame.
Qed.

(** A handler, then [try_accept]. *)
Lemma c_then_accept_ok e x s p1 o1 p2 o2 (m : cmdb sends) P :
  peers_ok (acceptors p1) addrs → try_accept e p1 = Ret (p2, o2) →
  (P ⊢ wp m (λ o, <affine> ⌜o.*2 = o1.*2⌝ ∗ at_core addrs x s p1)) →
  P ⊢ wp (out ← m; out' ← c_try_accept e x; mret (out ++ out')) (λ o,
    <affine> ⌜o.*2 = (o1 ++ o2).*2⌝ ∗ at_core addrs x s p2).
Proof.
  iIntros (Hp E Hm) "H". wp_unbind. iApply (wp_wand with "[H]"); [by iApply Hm|]. iIntros (r1) "[%E1 H]".
  wp_unbind. iApply (wp_wand with "[H]"); [by iApply (c_try_accept_ok with "H")|]. iIntros (r2) "[%E2 H]".
  iApply wp_ret. iFrame. iPureIntro. by rewrite !fmap_app E1 E2.
Qed.

Lemma c_handle_message_ok n pid t0 W K t e x s p m p' out :
  0 ≤ W → event_ok n pid t0 (NMessage t e m) → K + 3 + 2 * W < 2 ^ 28 → steady n pid t0 W addrs K p →
  handle_message t e p m = Ret (p', out) →
  at_core addrs x s p ⊢ wp (c_handle_message t e x m) (λ o,
    <affine> ⌜o.*2 = out.*2⌝ ∗ at_core addrs x s p').
Proof.
  iIntros (HW (Ht & He & Hm) HK HS E) "H". pose proof (sd_peers _ _ _ _ _ _ _ HS) as Hp.
  destruct m as [r|ack|r|ack|iid|v]; simpl in Hm, E |- *;
    try (injection E as <- <-; iApply wp_ret; by iFrame).
  - apply bind_inv in E as ([p1 o1] & E1 & E). apply bind_inv in E as ([p2 o2] & E2 & [= <- <-]).
    destruct (handle_prepare_ack_steady n pid t0 W addrs t K p ack Ht Hm ltac:(lia) HS) as (? & ? & E1' & HS1).
    rewrite E1 in E1'. injection E1' as <- <-.
    iApply (c_then_accept_ok with "H"); [apply HS1|exact E2|]. by apply c_handle_prepare_ack_ok.
  - apply bind_inv in E as ([p1 o1] & E1 & E). apply bind_inv in E as ([p2 o2] & E2 & [= <- <-]).
    destruct Hm as [Hid Hvb].
    destruct (handle_accept_ack_steady n pid t0 W addrs t K p ack Ht Hid Hvb ltac:(lia) HS) as (? & ? & E1' & HS1).
    rewrite E1 in E1'. injection E1' as <- <-.
    destruct (sd_live _ _ _ _ _ _ _ HS) as (k & vs & ps & acs & L & _).
    destruct (lively_unique n pid t0 k (state p, None)) as (acs' & R & U); [split; [eauto|done]|].
    iApply (c_then_accept_ok with "H"); [apply HS1|exact E2|]. by apply (c_handle_vote_ok _ _ _ _ _ _ _ acs').
  - apply bind_inv in E as (p1 & E1 & E).
    destruct (handle_client_steady n pid t0 W addrs K p v ltac:(lia) HS) as (? & E1' & HS1).
    rewrite E1 in E1'. injection E1' as <-. wp_unbind.
    iApply (wp_wand with "[H]"); [by iApply (c_handle_client_ok with "H")|]. iIntros (_) "H".
    iApply (c_try_accept_ok with "H"); [apply HS1|exact E].
Qed.

(** *** The timer *)

Definition nonneg (iter : timeout_iterator) : Prop := 0 ≤ ti_pi iter ∧ 0 ≤ ti_ai iter.

Lemma next_timedout_le cfg c i t i' o : next_timedout cfg c i t = Ret (i', o) → i ≤ i'.
Proof.
  unfold next_timedout. generalize (Z.to_nat (carray_count c - i)). intros n. revert i.
  induction n as [|n IH]; intros i E; simpl in E; [by injection E as <- _|].
  apply bind_inv in E as (inst & _ & E). destruct (quorum_reached _); [apply IH in E; lia|].
  apply bind_inv in E as ([|] & _ & E); [injection E as <- _; lia|apply IH in E; lia].
Qed.

Lemma iter_prepare_nonneg cfg (st : proposer) iter st' iter' out :
  timeout_iterator_prepare cfg st iter = Ret (st', iter', out) → nonneg iter → nonneg iter'.
Proof.
  unfold timeout_iterator_prepare. intros E [Hp Ha]. apply bind_inv in E as ([i o] & En & E).
  apply next_timedout_le in En. destruct o; [apply bind_inv in E as (? & _ & E)|];
    injection E as _ <- _; split; simpl; lia.
Qed.

Lemma iter_accept_nonneg cfg (st : proposer) iter st' iter' out :
  timeout_iterator_accept cfg st iter = Ret (st', iter', out) → nonneg iter → nonneg iter'.
Proof.
  unfold timeout_iterator_accept. intros E [Hp Ha]. apply bind_inv in E as ([i o] & En & E).
  apply next_timedout_le in En.
  destruct o; [apply bind_inv in E as (? & _ & E); apply bind_inv in E as (? & _ & E)|];
    injection E as _ <- _; split; simpl; lia.
Qed.

Lemma c_timeout_prepare_loop_ok cfg n x s it p iter p' iter' out :
  nonneg iter → peers_ok (acceptors p) addrs → timeout_prepare_loop cfg n p iter = Ret (p', iter', out) →
  at_iterator it (cep_state s) iter ∗ at_core addrs x s p ⊢ wp (c_timeout_prepare_loop cfg n x it) (λ o,
    <affine> ⌜o.*2 = out.*2⌝ ∗ <affine> ⌜nonneg iter' ∧ acceptors p' = acceptors p⌝ ∗
    at_iterator it (cep_state s) iter' ∗ at_core addrs x s p').
Proof.
  revert p iter out. induction n as [|n IH]; intros p iter out Hn Hp E; simpl in *; [done|].
  apply bind_inv in E as ([[st iter1] pr] & E1 & E). iIntros "(Hit & Hx & Hw & Hst & Hps)".
  wp_unbind. iApply (wp_wand with "[Hit Hst]").
  { iApply c_timeout_prepare_ok; [apply Hn|exact E1|]. iFrame. }
  iIntros (r) "(Hr & Hit & Hst)". pose proof (iter_prepare_nonneg _ _ _ _ _ _ E1 Hn) as Hn1.
  iAssert (at_core addrs x s (set_state st p)) with "[Hx Hw Hst Hps]" as "H".
  { rewrite at_core_state. iFrame. }
  destruct pr as [pr|], r as [y|]; simpl; try iDestruct "Hr" as %[].
  - apply bind_inv in E as (o1 & E2 & E). apply bind_inv in E as ([[p2 it2] o2] & E3 & [= <- <- <-]).
    wp_rd "Hr".
    iApply (c_sent_ok x s (set_state st p) _ _ _ _ _ _ (at_iterator it (cep_state s) iter1));
      [exact Hp|exact E2|by apply (IH (set_state st p))|iFrame].
  - injection E as <- <- <-. iApply wp_ret. by iFrame.
Qed.

Lemma c_timeout_accept_loop_ok cfg n x s it p iter p' iter' out :
  nonneg iter → peers_ok (acceptors p) addrs → timeout_accept_loop cfg n p iter = Ret (p', iter', out) →
  at_iterator it (cep_state s) iter ∗ at_core addrs x s p ⊢ wp (c_timeout_accept_loop cfg n x it) (λ o,
    <affine> ⌜o.*2 = out.*2⌝ ∗ at_iterator it (cep_state s) iter' ∗ at_core addrs x s p').
Proof.
  revert p iter out. induction n as [|n IH]; intros p iter out Hn Hp E; simpl in *; [done|].
  apply bind_inv in E as ([[st iter1] ar] & E1 & E). iIntros "(Hit & Hx & Hw & Hst & Hps)".
  wp_unbind. iApply (wp_wand with "[Hit Hst]").
  { iApply c_timeout_accept_ok; [apply Hn|exact E1|]. iFrame. }
  iIntros (r) "(Hr & Hit & Hst)". pose proof (iter_accept_nonneg _ _ _ _ _ _ E1 Hn) as Hn1.
  iAssert (at_core addrs x s (set_state st p)) with "[Hx Hw Hst Hps]" as "H".
  { rewrite at_core_state. iFrame. }
  destruct ar as [ar|], r as [y|]; simpl; try iDestruct "Hr" as %[].
  - apply bind_inv in E as (o1 & E2 & E). apply bind_inv in E as ([[p2 it2] o2] & E3 & [= <- <- <-]).
    wp_rd "Hr".
    iApply (c_sent_ok x s (set_state st p) _ _ _ _ _ _ (at_iterator it (cep_state s) iter1));
      [exact Hp|exact E2|by apply (IH (set_state st p))|iFrame].
  - injection E as <- <- <-. iApply wp_ret. by iFrame.
Qed.

Lemma c_check_timeouts_ok cfg t x s b p p' out :
  peers_ok (acceptors p) addrs → proposer_check_timeouts cfg t p = Ret (p', out) →
  cep_timeout_ev s ↦ BTimer b ∗ at_core addrs x s p ⊢ wp (c_proposer_check_timeouts cfg t x) (λ o,
    <affine> ⌜o.*2 = out.*2⌝ ∗ cep_timeout_ev s ↦ BTimer true ∗ at_core addrs x s p').
Proof.
  iIntros (Hp E) "(Ht & Hx & Hw & Hst & Hps)". unfold proposer_check_timeouts in E.
  apply bind_inv in E as ([[p1 it1] o1] & E1 & E). apply bind_inv in E as ([[p2 it2] o2] & E2 & [= <- <-]).
  unfold c_proposer_check_timeouts, c_proposer_timeout_iterator. wp_rd "Hx". wp_new it "Hit".
  iDestruct "Hst" as "(%vs & %pr & %ac & Hl & Hv & Hpr & Hac)". wp_rd "Hl".
  cbn [prop_struct cp_prepare_instances cp_accept_instances]. wp_unbind.
  iApply (queue_count at_instance). iFrame "Hpr". iIntros "Hpr". wp_unbind.
  iApply (wp_wand with "[Hit Hx Hw Hl Hv Hpr Hac Hps]").
  { iApply (c_timeout_prepare_loop_ok cfg _ x s it p (proposer_timeout_iterator t)); [done|done|exact E1|].
    iFrame "Hit Hx Hw Hps". iExists vs, pr, ac. iFrame. }
  iIntros (r1) "(%Er1 & [%Hn1 %Ha1] & Hit & Hx & Hw & Hst & Hps)".
  iDestruct "Hst" as "(%vs1 & %pr1 & %ac1 & Hl & Hv & Hpr & Hac)". wp_rd "Hl".
  cbn [prop_struct cp_prepare_instances cp_accept_instances]. wp_unbind.
  iApply (queue_count at_instance). iFrame "Hac". iIntros "Hac". wp_unbind.
  iApply (wp_wand with "[Hit Hx Hw Hl Hv Hpr Hac Hps]").
  { iApply (c_timeout_accept_loop_ok cfg _ x s it p1 it1); [done|by rewrite Ha1|exact E2|].
    iFrame "Hit Hx Hw Hps". iExists vs1, pr1, ac1. iFrame. }
  iIntros (r2) "[%Er2 [Hit H]]". unfold c_timeout_iterator_free. wp_fr "Hit". wp_rd "Ht". wp_wr "Ht".
  iApply wp_ret. iFrame. iPureIntro. by rewrite !fmap_app Er1 Er2.
Qed.
End handlers.

(** ** A proposer node from its start to its end *)

(** What the event loop may do: a message or the timer, an event of a peer, an
event of a client connection. *)
Inductive pevent : Type :=
  | PHandle (ev : node_event)
  | PPeer (i : nat) (e : c_peer_event)
  | PClient (e : c_client_event).

Definition c_run_pevent (cfg : paxos_config) (p : loc) (ev : pevent) : cmdb sends :=
  match ev with
  | PHandle (NMessage t e m) => c_handle_message t e p m
  | PHandle (NTimer t) => c_proposer_check_timeouts cfg t p
  | PPeer i e => s ← read_as as_evproposer p; c_peers_step (cep_acceptors s) i e ;; mret []
  | PClient e => s ← read_as as_evproposer p; c_client_step (cep_receiver s) e ;; mret []
  end.

Fixpoint c_run_pevents (cfg : paxos_config) (p : loc) (evs : list pevent) : cmdb sends :=
  match evs with
  | [] => mret []
  | ev :: evs' => o ← c_run_pevent cfg p ev; o' ← c_run_pevents cfg p evs'; mret (o ++ o')
  end.

(** A node that could not start sends nothing. *)
Definition c_evproposer_lifetime (cfg : paxos_config) (c : loc) (pid : Z) (bound : bool) (evs : list pevent)
    : cmdb (option sends) :=
  r ← c_evproposer_init_conf cfg c pid bound;
  match r with
  | None => mret None
  | Some p =>
      o ← c_run_pevents cfg p evs;
      c_evproposer_free p ;;
      mret (Some o)
  end.

(** The events that reach the proposer. *)
Definition handled (evs : list pevent) : list node_event :=
  omap (λ e, match e with PHandle ev => Some ev | _ => None end) evs.

Definition at_pnode (addrs : list address) (M : Z) (x : loc) (s : c_evproposer) (p : evproposer) : mprop :=
  (cep_timeout_ev s ↦ BTimer true ∗ at_clients (cep_receiver s) M ∗ at_core addrs x s p)%I.

Section lifetime.
Context (cfg : paxos_config) (n pid t0 W : Z) (addrs : list address).
Hypothesis W_pos : 0 ≤ W.
Implicit Types (x : loc) (s : c_evproposer) (p : evproposer).

Lemma c_run_handled_ok ev K M x s p p' out :
  event_ok n pid t0 ev → K + 3 + 2 * W < 2 ^ 26 → steady n pid t0 W addrs K p →
  run_event cfg ev p = Ret (p', out) →
  at_pnode addrs M x s p ⊢ wp (c_run_pevent cfg x (PHandle ev)) (λ o,
    <affine> ⌜o.*2 = out.*2⌝ ∗ at_pnode addrs M x s p').
Proof using W_pos.
  iIntros (He HK HS E) "(Ht & Hcl & H)". destruct ev as [t e m|t]; simpl in *.
  - iApply (wp_wand with "[H]"); [by iApply (c_handle_message_ok addrs n pid t0 W K with "H"); [..|lia| |]|].
    iIntros (o) "[$ H]". iFrame.
  - iApply (wp_wand with "[Ht H]").
    { iApply (c_check_timeouts_ok addrs cfg t x s true p); [apply HS|exact E|iFrame]. }
    iIntros (o) "($ & Ht & H)". iFrame.
Qed.

(** The other events leave the proposer alone. *)
Lemma c_run_connection_ok ev M x s p :
  (∀ e, ev ≠ PHandle e) → 0 ≤ M < 2 ^ 28 →
  at_pnode addrs M x s p ⊢ wp (c_run_pevent cfg x ev) (λ o,
    <affine> ⌜o = []⌝ ∗ at_pnode addrs (M + 1) x s p).
Proof using Type.
  iIntros (He HM) "(Ht & Hcl & Hx & Hw & Hst & %ps & %Hok & Hps)".
  destruct ev as [e|i e|e]; simpl; [by destruct (He e)| |]; wp_rd "Hx".
  - wp_unbind. iApply (wp_wand with "[Hps]"); [iApply (c_peers_step_ok with "Hps"); apply Hok|].
    iIntros (_) "[%nb Hps]". iApply wp_ret. iSplitR; [done|]. iFrame "Ht Hx Hw Hst". iSplitL "Hcl".
    { iApply (clients_mono with "Hcl"). lia. }
    iExists _. iFrame "Hps". iPureIntro. by apply peers_step_ok.
  - wp_unbind. iApply (wp_wand with "[Hcl]"); [by iApply c_client_step_ok|]. iIntros (_) "Hcl".
    iApply wp_ret. iSplitR; [done|]. iFrame "Ht Hx Hw Hst Hcl". iExists ps. by iFrame.
Qed.

Lemma c_run_pevents_ok evs K M x s p p' out :
  Forall (event_ok n pid t0) (handled evs) → K + Z.of_nat (length (handled evs)) * (3 + 2 * W) < 2 ^ 26 →
  0 ≤ M → M + Z.of_nat (length evs) < 2 ^ 28 → steady n pid t0 W addrs K p →
  run_node cfg (handled evs) p = Ret (p', out) →
  at_pnode addrs M x s p ⊢ wp (c_run_pevents cfg x evs) (λ o,
    <affine> ⌜o.*2 = out.*2⌝ ∗ at_pnode addrs (M + Z.of_nat (length evs)) x s p').
Proof using W_pos.
  revert K M p out. induction evs as [|ev evs IH]; intros K M p out F HK HM0 HM HS E;
    cbn [c_run_pevents length] in *.
  { cbn in E. injection E as <- <-. iIntros "H". iApply wp_ret. rewrite Z.add_0_r. by iFrame. }
  replace (M + Z.of_nat (S (length evs))) with (M + 1 + Z.of_nat (length evs)) by lia.
  iIntros "H". wp_unbind. assert ((∃ e, ev = PHandle e) ∨ ¬ ∃ e, ev = PHandle e) as [[e ->]|Hne].
  { destruct ev; (by left; eauto) || (right; by intros [? ?]). }
  - change (handled (PHandle e :: evs)) with (e :: handled evs) in *. cbn [run_node length] in *.
    apply Forall_cons in F as [Fe F]. rewrite Nat2Z.inj_succ Z.mul_succ_l in HK.
    assert (0 ≤ Z.of_nat (length (handled evs)) * (3 + 2 * W)) by (apply Z.mul_nonneg_nonneg; lia).
    destruct (run_event_steady cfg n pid t0 W addrs W_pos e K p Fe ltac:(lia) HS) as (p1 & o1 & E1 & HS1).
    rewrite E1 bind_Ret in E. cbv beta iota in E. apply bind_inv in E as ([p2 o2] & E2 & [= <- <-]).
    iApply (wp_wand with "[H]"); [by iApply (c_run_handled_ok e K with "H"); [|lia|..]|].
    iIntros (r1) "(%Er1 & Ht & Hcl & H)". wp_unbind. iApply (wp_wand with "[Ht Hcl H]").
    { iApply (IH (K + 3 + 2 * W) (M + 1) p1 o2); [done|lia..|done|done|]. iFrame "Ht H".
      iApply (clients_mono with "Hcl"). lia. }
    iIntros (r2) "[%Er2 H]". iApply wp_ret. iFrame. iPureIntro. by rewrite !fmap_app Er1 Er2.
  - assert (handled (ev :: evs) = handled evs) as Eh.
    { destruct ev as [e| |]; [by destruct Hne; exists e|done..]. }
    rewrite Eh in F HK E. iApply (wp_wand with "[H]").
    { iApply (c_run_connection_ok with "H"); [intros e ->; by apply Hne; exists e|lia]. }
    iIntros (r1) "[-> H]". wp_unbind. iApply (wp_wand with "[H]").
    { iApply (IH K with "H"); [done|lia..|done|done]. }
    iIntros (r2) "[%Er2 H]". iApply wp_ret. by iFrame.
Qed.

Lemma c_evproposer_free_ok K M x s p :
  K < 2 ^ 28 → steady n pid t0 W addrs K p →
  at_pnode addrs M x s p ⊢ wp (c_evproposer_free x) (λ _, cep_timeout_ev s ↦ BTimer true)%I.
Proof using Type.
  iIntros (HK HS) "(Ht & Hcl & Hx & _ & Hst & %ps & %Hok & Hps)".
  destruct (steady_live _ _ _ _ _ _ _ HS) as (k & vs & pr & acs & [_ _ _ _ (Sv & Sp & Sa) _] & _).
  unfold c_evproposer_free. wp_rd "Hx". wp_call c_peers_free_ok with "[Hps]". iIntros (_) "_".
  wp_call clients_free with "[Hcl]". iIntros (_) "_". unfold spare in *. wp_unbind.
  iApply (wp_wand with "[Hst]"); [iApply (c_proposer_free_ok with "Hst"); unfold indexable; lia|].
  iIntros (_) "_". wp_fr "Hx". done.
Qed.

Lemma c_evproposer_init_ok c acs pcs a st :
  pcs !! Z.to_nat pid = Some a → 0 ≤ pid < MAX_N_OF_PROPOSERS →
  proposer_new pid (Z.of_nat (length acs)) = Ret st →
  at_config c acs pcs ⊢ wp (c_evproposer_init_conf cfg c pid true) (λ r, ∃ x s,
    <affine> ⌜r = Some x⌝ ∗ ∀ p, <affine> ⌜state p = st ∧ preexec_window p = proposer_preexec_window cfg⌝ -∗
      at_pnode acs 0 x s p).
Proof using Type.
  iIntros (Ha Hid E) "(%pl & %al & Hc & (%strs & %rest & -> & He) & Hal)". unfold c_evproposer_init_conf.
  destruct (Z.ltb_spec pid 0); [lia|]. destruct (Z.leb_spec MAX_N_OF_PROPOSERS pid); [lia|]. cbn [orb].
  wp_rd "Hc". cbn [ccf_proposers]. iDestruct (elems_length with "He") as (Hlen) "He".
  pose proof (lookup_lt_Some _ _ _ Ha). destruct (lookup_lt_is_Some_2 strs (Z.to_nat pid)) as [sa Hsa]; [lia|].
  pose proof (addresses_at _ _ rest _ _ _ Hsa Ha) as Ea. rewrite Z2Nat.id in Ea; [|lia]. wp_pure Ea.
  wp_unbind. iApply (wp_wand with "[]"); [iApply clients_new|]. iIntros (r) "Hr".
  wp_unbind. iApply (wp_wand with "[]"); [iApply c_peers_new_ok|]. iIntros (ps) "Hps".
  wp_unbind. iApply (wp_wand with "[Hc He Hal Hps]").
  { iApply (c_connect_acceptors_ok c ps acs pcs). iFrame "Hps". iExists _, al. iFrame "Hc Hal".
    iExists strs, rest. by iFrame. }
  iIntros (_) "[Hc (%ps' & %Hok & Hps)]". wp_new t "Ht". wp_wr "Ht". cbn [ccf_acceptors_count].
  wp_call (c_proposer_new_ok _ _ _ E) with "[]". iIntros (l) "Hl". wp_new x "Hx".
  wp_call c_free_config_ok with "[Hc]". iIntros (_) "_". iApply wp_ret.
  iExists x, (CEvProposer pid (proposer_preexec_window cfg) r l ps t). iSplitR; [done|].
  iIntros (p) "%Hp". destruct Hp as [<- Hw]. unfold at_pnode, at_core. simpl. iFrame "Ht Hr Hx Hl". iSplitR; [done|].
  iExists ps'. by iFrame.
Qed.

End lifetime.

(** ** Properties *)

(** A proposer node never fails, and its memory is safe until the end but for
one object.  Given the structure of a configuration, a program that starts the
node, handles any messages (acknowledgements name acceptors of the
configuration, accept acknowledgements with ballots of the proposer are votes), timeouts and events of its
connections in any order, within the bounds below, and frees the node, returns
without a fault (nothing is used after it was freed or freed twice, no access
is out of bounds, no assertion fails, no loop runs on), and sends what the
value model sends, to each acceptor.  Of what it was given and allocated, the
configuration, the connections, the requests, the instances and the node itself
are freed; the timer is not: it is still running, and its callback holds a
pointer to the freed node. *)
Theorem evproposer_leaks_timer cfg c conf acs pcs pid t0 evs (hc h : heap block) :
  config_rep conf acs pcs → 1 ≤ Z.of_nat (length acs) ≤ MAX_ADDR →
  0 ≤ pid < Z.of_nat (length pcs) → Z.of_nat (length pcs) ≤ MAX_N_OF_PROPOSERS →
  0 ≤ proposer_preexec_window cfg → Z.of_nat (length evs) < 2 ^ 28 →
  Forall (event_ok (Z.of_nat (length acs)) pid t0) (handled evs) →
  Z.of_nat (length (handled evs)) * (3 + 2 * proposer_preexec_window cfg) < 2 ^ 26 →
  holds (at_config c acs pcs) hc → hc ##ₘ h →
  ∃ p0 p out o tv, evproposer_init_conf cfg conf pid true (λ i, i) = Ret (Some p0) ∧
    run_node cfg (handled evs) p0 = Ret (p, out) ∧
    c_evproposer_lifetime cfg c pid true evs (hc ∪ h) = Ret (Some o, <[tv := BTimer true]> h) ∧
    h !! tv = None ∧ o.*2 = out.*2.
Proof.
  intros Rc Hn Hid Hpcs HW Hev F HK Hh Hd. set (n := Z.of_nat (length acs)) in *.
  set (W := proposer_preexec_window cfg) in *.
  destruct (evproposer_init_ok cfg conf acs pcs pid (λ i, i) Rc (proj2 Hn)) as (p0 & E0 & En & Hp & Hw0); [lia|].
  fold n W in En, Hw0. destruct (lookup_lt_is_Some_2 pcs (Z.to_nat pid)) as [a Ha]; [lia|].
  assert (1 ≤ n ≤ INT_MAX) as Hn' by (unfold MAX_ADDR, INT_MAX in *; lia).
  pose proof (new_steady n pid t0 acs p0 Hn' ltac:(lia) En Hp) as HS0. rewrite Hw0 in HS0.
  destruct (run_node_steady cfg n pid t0 W acs HW (handled evs) 0 p0 F ltac:(lia) HS0) as (p & out & E & HS).
  destruct (wp_adequate (at_config c acs pcs) (c_evproposer_lifetime cfg c pid true evs)
    (λ r, ∃ o tv, <affine> ⌜r = Some o ∧ o.*2 = out.*2⌝ ∗ tv ↦ BTimer true)%I hc h)
    as (r & h' & Er & Hd' & (o & tv & Ho)); [|done..|].
  - iIntros "Hc". unfold c_evproposer_lifetime. wp_unbind. iApply (wp_wand with "[Hc]").
    { iApply (c_evproposer_init_ok cfg pid c acs pcs a with "Hc"); [done|lia|exact En]. }
    iIntros (r) "(%x & %s & -> & Hx)". iDestruct ("Hx" $! p0 with "[//]") as "Hx".
    wp_unbind. iApply (wp_wand with "[Hx]").
    { iApply (c_run_pevents_ok cfg n pid t0 W acs HW evs 0 0 with "Hx"); [done|lia..|exact HS0|exact E]. }
    iIntros (o) "[%Eo Hx]". wp_unbind. iApply (wp_wand with "[Hx]").
    { iApply (c_evproposer_free_ok n pid t0 W acs with "Hx"); [|exact HS]. lia. }
    iIntros (_) "Ht". iApply wp_ret. iExists o, (cep_timeout_ev s). by iFrame.
  - destruct Ho as (h1 & h2 & -> & _ & [-> [-> Eo]] & Ht). change (h2 = {[tv := BTimer true]}) in Ht. subst h2.
    rewrite (left_id_L ∅ (∪)) in Er Hd'. exists p0, p, out, o, tv.
    split; [done|]. split; [done|]. rewrite insert_union_singleton_l. split; [exact Er|].
    split; [|done]. by apply map_disjoint_singleton_l in Hd'.
Qed.

(** [evproposer_init] refuses an id without giving back the configuration. *)
Lemma refused_id_leaks_config cfg c pid bound evs (h : heap block) :
  ¬ 0 ≤ pid < MAX_N_OF_PROPOSERS → c_evproposer_lifetime cfg c pid bound evs h = Ret (None, h).
Proof.
  intros Hp. unfold c_evproposer_lifetime, c_evproposer_init_conf.
  replace ((pid <? 0) || (MAX_N_OF_PROPOSERS <=? pid)) with true; [done|].
  symmetry. apply orb_true_iff. rewrite Z.ltb_lt Z.leb_le. lia.
Qed.

(** A window of one instance. *)
Definition demo_cfg : paxos_config := PaxosConfig 1 2048 1 1 1 0 0 "" "" 0.

(** Two clients connect and submit a value each; instance 1 is promised by two
acceptors, and its accept request sent twice: the timer expires, while the
connection to an acceptor is broken; one client leaves. *)
Definition demo_pevents : list pevent :=
  [PClient CAccepted; PClient CAccepted;
   PHandle (NMessage at_zero demo_env (MSubmit [x41]));
   PHandle (NMessage at_zero demo_env (MPrepareAck (PrepareAck 0 1 10 0 [])));
   PPeer 2 (CSocket false true);
   PHandle (NMessage at_zero demo_env (MSubmit [x42]));
   PHandle (NMessage at_zero demo_env (MPrepareAck (PrepareAck 1 1 10 0 [])));
   PHandle (NTimer (Timeval 1 0)); PClient (CBroken 0 true); PPeer 2 CTimer;
   PHandle (NMessage (Timeval 1 0) demo_env (MAcceptAck (AcceptAck 0 1 10 10 0 [x41])));
   PHandle (NMessage (Timeval 1 0) demo_env (MAcceptAck (AcceptAck 1 1 10 10 0 [x41])))].

Definition demo_sent : list message :=
  let p1 := MPrepareReq (PrepareReq 1 10) in
  let p2 := MPrepareReq (PrepareReq 2 10) in
  let a1 := MAcceptReq (AcceptReq 1 10 [x41]) in
  [p1; p1; p1; a1; a1; a1; p2; p2; p2; p2; p2; p2; a1; a1; a1].

Lemma demo_pevents_ok : Forall (event_ok 3 0 0) (handled demo_pevents).
Proof.
  unfold handled, demo_pevents. simpl. unfold event_ok, in_window, ack_wf, vote_for.
  repeat (apply Forall_cons_2; [simpl; lia || (split_and!; simpl; try lia; done)|]). by apply Forall_nil_2.
Qed.

Lemma evproposer_leaks_timer_witness :
  ∃ o tv, c_evproposer_lifetime demo_cfg 1%positive 0 true demo_pevents three_heap =
    Ret (Some o, {[tv := BTimer true]}) ∧ o.*2 = demo_sent.
Proof.
  destruct (evproposer_leaks_timer demo_cfg 1%positive three_config three_addrs one_addr 0 0
    demo_pevents three_heap ∅) as (p0 & p & out & o & tv & E0 & E & H & _ & Eo).
  - exact three_config_rep.
  - split; vm_compute; congruence.
  - split; vm_compute; congruence.
  - vm_compute. congruence.
  - vm_compute. congruence.
  - by vm_compute.
  - exact demo_pevents_ok.
  - by vm_compute.
  - exact three_heap_config.
  - apply map_disjoint_empty_r.
  - exists o, tv. rewrite (right_id_L ∅ (∪)) in H. split; [exact H|]. rewrite Eo.
    vm_compute in E0. injection E0 as <-. apply (f_equal (from_ret (p, []))) in E. vm_compute in E.
    by injection E as _ <-.
Defined.
