(* ===== verification/MemPrograms.v ===== *)
(** * The nodes on the heap, from the configuration file to the end (src/evpaxos)

[evlearner_init], [evacceptor_init] and [evproposer_init] read the file and
start the node; the programs here do that, run the node on any events and free
it, as the sample programs do.  The memory of the reader ([MemConfigRead]) and
of the nodes ([MemEvLearner], [MemEvAcceptor], [MemEvProposer]) are put
together: nothing is assumed of the heap but where [paxos_config] is. *)

From S2P Require Import Prelude Heap Carray Quorum Messages Config Storage StorageMem Acceptor.
From S2P Require Import Proposer Learner Net Wire EvAcceptor EvProposer EvProposerRun EvLearner.
From S2P Require Import Memory MemCarray MemConns MemConfig MemConfigRead.
From S2P Require Import MemAcceptor MemEvLearner MemEvAcceptor MemEvProposer.
#[local] Open Scope Z_scope.

(** ** The programs *)

(** [evlearner_init]; [paxos_config] is at [g]. *)
Definition c_evlearner_init (file : option bytes) (g : loc) : cmdb loc :=
  c ← c_read_config file g;
  cfg ← c_load_globals g;
  c_evlearner_init_conf cfg c.

Definition c_evacceptor_init (file : option bytes) (g : loc) (id : Z) (bound : bool)
    (junk : nat → acceptor_record) : cmdb (option loc) :=
  c ← c_read_config file g;
  c_evacceptor_init_conf c id bound junk.

(** The [main] functions of learner.c, acceptor.c and proposer.c, [evs] the
events until they are interrupted.  [None]: the node could not start. *)
Definition c_learner_main (file : option bytes) (g : loc) (evs : list levent) : cmdb (list delivery) :=
  l ← c_evlearner_init file g;
  ds ← c_run_events l evs;
  c_evlearner_free l ;;
  mret ds.

Definition c_acceptor_main (file : option bytes) (g : loc) (id : Z) (bound : bool)
    (junk : nat → acceptor_record) (es : list aevent) : cmdb (option sends) :=
  r ← c_evacceptor_init file g id bound junk;
  match r with
  | None => mret None
  | Some a => o ← c_run_aevents a es; c_evacceptor_free a ;; mret (Some o)
  end.

(** The handlers read [paxos_config], which does not change any more. *)
Definition c_proposer_main (file : option bytes) (g : loc) (pid : Z) (bound : bool) (evs : list pevent)
    : cmdb (option sends) :=
  c ← c_read_config file g;
  cfg ← c_load_globals g;
  r ← c_evproposer_init_conf cfg c pid bound;
  match r with
  | None => mret None
  | Some p =>
      o ← c_run_pevents cfg p evs;
      c_evproposer_free p ;;
      mret (Some o)
  end.

(** ** Runs *)

Lemma cmd_assoc {A B C} (m : cmdb A) (f : A → cmdb B) (k : B → cmdb C) (h : heap block) :
  ((m ≫= f) ≫= k) h = (m ≫= λ x, f x ≫= k) h.
Proof. unfold mbind, cmd_bind. by destruct (m h) as [[]|]. Qed.

Lemma cmd_bind_ext {A B} (m : cmdb A) (f k : A → cmdb B) (h : heap block) :
  (∀ a h', f a h' = k a h') → (m ≫= f) h = (m ≫= k) h.
Proof. intros H. unfold mbind, cmd_bind. destruct (m h) as [[a h']|]; simpl; [apply H|done]. Qed.

Lemma cmd_bind_run {A B} (m : cmdb A) (f : A → cmdb B) (h : heap block) a h' :
  m h = Ret (a, h') → (m ≫= f) h = f a h'.
Proof. intros E. unfold mbind, cmd_bind. by rewrite E. Qed.

Lemma cmd_bind_fault {A B} (m : cmdb A) (f : A → cmdb B) (h : heap block) e :
  m h = Fault e → (m ≫= f) h = Fault e.
Proof. intros E. unfold mbind, cmd_bind. by rewrite E. Qed.

(** What a program does after the reader and the load of the globals. *)
Lemma c_load_run {A} g cfg drops (k : paxos_config → cmdb A) (hr h : heap block) :
  holds (at_rest g cfg drops) hr → hr ##ₘ h →
  ∃ hr', holds (at_rest g cfg drops) hr' ∧ hr' ##ₘ h ∧
    (c_load_globals g ≫= k) (hr ∪ h) = k cfg (hr' ∪ h).
Proof.
  intros Hr Hd. destruct (wp_adequate (at_rest g cfg drops) (c_load_globals g)
    (λ r, <affine> ⌜r = cfg⌝ ∗ at_rest g cfg drops)%I hr h) as (r & h' & E & Hd' & Hh); [|done..|].
  - iIntros "[Hg Hs]". iApply (wp_wand with "[Hg]"); [by iApply c_load_globals_ok|].
    iIntros (r) "[-> Hg]". by iFrame.
  - destruct Hh as (h1 & h2 & -> & _ & [He ->] & Hh). change (h1 = ∅) in He. subst h1.
    rewrite (left_id_L ∅ (∪)) in E Hd'. exists h2. split; [done|]. split; [done|].
    by apply cmd_bind_run.
Qed.

Lemma c_program_run {A} file g p (k : paxos_config → loc → cmdb A) (hg h : heap block) :
  holds (at_globals g p) hg → hg ##ₘ h →
  match read_config (Some file) p with
  | Ret (cfg, conf) => ∃ acs pcs c hc hr, config_rep conf acs pcs ∧
      holds (at_config c acs pcs) hc ∧ holds (at_rest g cfg (config_drops file p)) hr ∧
      hc ##ₘ hr ∪ h ∧ hr ##ₘ h ∧
      (c ← c_read_config (Some file) g; cfg ← c_load_globals g; k cfg c) (hg ∪ h) =
      k cfg c (hc ∪ (hr ∪ h))
  | Fault e => (c ← c_read_config (Some file) g; cfg ← c_load_globals g; k cfg c) (hg ∪ h) = Fault e
  end.
Proof.
  intros Hg Hd. pose proof (c_read_config_run file g p hg h Hg Hd) as H.
  destruct (read_config (Some file) p) as [[cfg conf]|e]; [|by apply cmd_bind_fault].
  destruct H as (acs & pcs & c & hc & hr & R & Hc & Hr & Hd1 & Hd2 & E).
  pose proof Hd1 as [Hcr Hch]%map_disjoint_union_r.
  destruct (c_load_run g cfg _ (λ cfg, k cfg c) hr (hc ∪ h) Hr) as (hr' & Hr' & Hd' & E').
  { apply map_disjoint_union_r. by split; [apply map_disjoint_sym|]. }
  apply map_disjoint_union_r in Hd' as [Hrc' Hrh'].
  exists acs, pcs, c, hc, hr'. do 3 (split; [done|]).
  split; [by apply map_disjoint_union_r; split; [apply map_disjoint_sym|]|]. split; [done|].
  rewrite (cmd_bind_run _ _ _ _ _ E).
  assert (∀ x : heap block, x ##ₘ hc → hc ∪ (x ∪ h) = x ∪ (hc ∪ h)) as Hswap.
  { intros x Hx. rewrite !(assoc_L (∪)). by rewrite (map_union_comm hc x); [|apply map_disjoint_sym]. }
  rewrite Hswap; [|by apply map_disjoint_sym]. rewrite E' Hswap //.
Qed.

Lemma c_learner_main_lifetime file g evs h :
  c_learner_main file g evs h =
  (c ← c_read_config file g; cfg ← c_load_globals g; c_evlearner_lifetime cfg c evs) h.
Proof.
  unfold c_learner_main, c_evlearner_init. rewrite cmd_assoc. apply cmd_bind_ext. intros c h1.
  by rewrite cmd_assoc.
Qed.

Lemma c_acceptor_main_lifetime file g id bound junk es h :
  c_acceptor_main file g id bound junk es h =
  (c ← c_read_config file g; c_evacceptor_lifetime c id bound junk es) h.
Proof. unfold c_acceptor_main, c_evacceptor_init. by rewrite cmd_assoc. Qed.

Lemma config_rep_count conf acs pcs :
  config_rep conf acs pcs →
  acceptors_count conf = Z.of_nat (length acs) ∧ proposers_count conf = Z.of_nat (length pcs) ∧
  Z.of_nat (length acs) ≤ MAX_ADDR ∧ Z.of_nat (length pcs) ≤ MAX_ADDR.
Proof.
  assert (∀ n arr l, addresses n arr l → Z.of_nat (length l) ≤ MAX_ADDR) as Hle.
  { intros n arr l [_ Hs Ht]. apply (f_equal length) in Ht. rewrite length_take in Ht. lia. }
  intros [Ra Rp]. split_and!; [apply Ra|apply Rp|by eapply Hle|by eapply Hle].
Qed.

(** ** Properties *)

(** A file the reader does not accept ends each program as it ends the reader. *)
Lemma programs_config_error file g p e (hg h : heap block) :
  holds (at_globals g p) hg → hg ##ₘ h → read_config (Some file) p = Fault e →
  (∀ evs, c_learner_main (Some file) g evs (hg ∪ h) = Fault e) ∧
  (∀ id bound junk es, c_acceptor_main (Some file) g id bound junk es (hg ∪ h) = Fault e) ∧
  (∀ pid bound evs, c_proposer_main (Some file) g pid bound evs (hg ∪ h) = Fault e).
Proof.
  intros Hg Hd E. pose proof (c_read_config_run file g p hg h Hg Hd) as H. rewrite E in H.
  split_and!; intros.
  - rewrite c_learner_main_lifetime. by apply cmd_bind_fault.
  - rewrite c_acceptor_main_lifetime. by apply cmd_bind_fault.
  - by apply cmd_bind_fault.
Qed.

(** C14: a learner program's memory is safe from the configuration file to the end.
On any file that the reader accepts and that names an acceptor, a program that
reads it, starts the node, handles any messages (the votes well formed), hole
timers and events of its connections in any order, and frees the node, returns
without a fault (nothing is used after it was freed or freed twice,
reconnections included; no access is out of bounds; no assertion fails), hands
its callback what the value model does, and leaves of all it allocated only the
strings of the globals and those that string options replaced: the
configuration, the node, its connections and timers are freed, and the rest of
the heap is untouched. *)
Theorem learner_program_safe file g p cfg conf evs (hg h : heap block) :
  read_config (Some file) p = Ret (cfg, conf) → 1 ≤ acceptors_count conf →
  0 < learner_instances cfg ≤ 2 ^ 30 →
  (∀ a, MAcceptAck a ∈ messages evs → ack_ok (acceptors_count conf) (learner_instances cfg) a) →
  holds (at_globals g p) hg → hg ##ₘ h →
  ∃ l0 l ds hr, evlearner_init_conf cfg conf (λ i, i) = Ret l0 ∧
    handle_all EvLearner.handle_message l0 (messages evs) = Ret (l, ds) ∧
    c_learner_main (Some file) g evs (hg ∪ h) = Ret (ds, hr ∪ h) ∧ hr ##ₘ h ∧
    holds (at_rest g cfg (config_drops file p)) hr.
Proof.
  intros E Hn Hs HG Hg Hd. rewrite c_learner_main_lifetime.
  pose proof (c_program_run file g p (λ cfg c, c_evlearner_lifetime cfg c evs) hg h Hg Hd) as H.
  rewrite E in H. destruct H as (acs & pcs & c & hc & hr & R & Hc & Hr & Hd1 & Hd2 & E1).
  destruct (config_rep_count _ _ _ R) as (Ea & Ep & La & Lp). rewrite Ea in Hn HG.
  destruct (evlearner_memory_safe cfg c conf acs pcs evs hc (hr ∪ h) R) as (l0 & l & ds & E2 & E3 & E4);
    [unfold MAX_ADDR, INT_MAX in *; lia|done..|].
  exists l0, l, ds, hr. rewrite E1. done.
Qed.

(** C12: an acceptor program's memory is safe from the configuration file to the
end.  On any file that the reader accepts and that has an entry for the
acceptor, a program that reads it, starts the node on the in-memory table,
handles any messages on its connections, connections that come, break and go,
in any order, and frees the node, returns without a fault, sends on each
connection what the value model sends on it, and leaves of all it allocated
only the strings of the globals and those that string options replaced.  The
instances stay in a window of the table, the values fit in its buffers; [ids]
are the connections libevent made. *)
Theorem acceptor_program_safe file g p cfg conf id lo junk es (hg h : heap block) :
  read_config (Some file) p = Ret (cfg, conf) → 0 ≤ id < acceptors_count conf →
  Z.of_nat (length es) < 2 ^ 28 → Forall (aevent_ok lo) es →
  holds (at_globals g p) hg → hg ##ₘ h →
  ∃ v0 ids v out hr,
    evacceptor_init_conf conf id true (Some (storage_mem_open id junk)) = Ret (Some v0) ∧
    length ids = length es ∧ run_aevents v0 (zip es ids) = Ret (v, out) ∧
    c_acceptor_main (Some file) g id true junk es (hg ∪ h) = Ret (Some out, hr ∪ h) ∧ hr ##ₘ h ∧
    holds (at_rest g cfg (config_drops file p)) hr.
Proof.
  intros E Hid Hes F Hg Hd. rewrite c_acceptor_main_lifetime.
  pose proof (c_read_config_run file g p hg h Hg Hd) as H. rewrite E in H.
  destruct H as (acs & pcs & c & hc & hr & R & Hc & Hr & Hd1 & Hd2 & E1).
  destruct (config_rep_count _ _ _ R) as (Ea & _). rewrite Ea in Hid.
  destruct (evacceptor_memory_safe conf acs pcs c id lo junk es hc (hr ∪ h) R Hid Hes F Hc Hd1)
    as (v0 & ids & v & out & E2 & E3 & E4 & E5).
  exists v0, ids, v, out, hr. rewrite (cmd_bind_run _ _ _ _ _ E1). done.
Qed.

(** C13: a proposer program never fails, and its memory is safe from the
configuration file to the end but for one object.  On any file that the reader
accepts, that names an acceptor and has an entry for the proposer, a program
that reads it, starts the node, handles any messages (acknowledgements name
acceptors of the configuration, accept acknowledgements with ballots of the
proposer are votes), timeouts and
events of its connections in any order, within the bounds below, and frees the
node, returns without a fault (nothing is used after it was freed or freed
twice, no access is out of bounds, no assertion fails, no loop runs on), and
sends what the value model sends, to each acceptor.  It leaves the strings of
the globals and those that string options replaced, and the timer, which is
still running and whose callback holds a pointer to the freed node. *)
Theorem proposer_program_leaks_timer file g p cfg conf pid t0 evs (hg h : heap block) :
  read_config (Some file) p = Ret (cfg, conf) → 1 ≤ acceptors_count conf →
  0 ≤ pid < proposers_count conf → 0 ≤ proposer_preexec_window cfg → Z.of_nat (length evs) < 2 ^ 28 →
  Forall (event_ok (acceptors_count conf) pid t0) (handled evs) →
  Z.of_nat (length (handled evs)) * (3 + 2 * proposer_preexec_window cfg) < 2 ^ 26 →
  holds (at_globals g p) hg → hg ##ₘ h →
  ∃ p0 p1 out o tv hr, evproposer_init_conf cfg conf pid true (λ i, i) = Ret (Some p0) ∧
    run_node cfg (handled evs) p0 = Ret (p1, out) ∧ o.*2 = out.*2 ∧
    c_proposer_main (Some file) g pid true evs (hg ∪ h) = Ret (Some o, <[tv := BTimer true]> (hr ∪ h)) ∧
    (hr ∪ h) !! tv = None ∧ hr ##ₘ h ∧ holds (at_rest g cfg (config_drops file p)) hr.
Proof.
  intros E Hn Hid HW Hev F HK Hg Hd.
  pose proof (c_program_run file g p (λ cfg c, c_evproposer_lifetime cfg c pid true evs) hg h Hg Hd) as H.
  rewrite E in H. destruct H as (acs & pcs & c & hc & hr & R & Hc & Hr & Hd1 & Hd2 & E1).
  destruct (config_rep_count _ _ _ R) as (Ea & Ep & La & Lp). rewrite Ea in Hn F. rewrite Ep in Hid.
  destruct (evproposer_leaks_timer cfg c conf acs pcs pid t0 evs hc (hr ∪ h) R)
    as (p0 & p1 & out & o & tv & E2 & E3 & E4 & E5 & E6);
    [unfold MAX_ADDR, MAX_N_OF_PROPOSERS in *; lia..|done|done|done|done|].
  exists p0, p1, out, o, tv, hr. do 3 (split; [done|]). split; [by rewrite -E4 -E1|done].
Qed.

(** ** Examples *)

(** The file of [demo_entries], read with small windows. *)
Definition start_config : paxos_config :=
  PaxosConfig PAXOS_LOG_INFO 4 1 1 1 0 0 "/tmp/acceptor" "acc.bdb" 0.
Definition start_file : bytes := Eval vm_compute in print_config demo_entries.
Definition started_config : paxos_config :=
  PaxosConfig 3 4 1 1 1 0 1073741824 "/var/my acceptor" "acc.bdb" 0.
Definition started_conf : config :=
  Config 1 3 (localhost 5550 :: replicate 9 no_address)
    (localhost 8800 :: localhost 8801 :: localhost 8802 :: replicate 7 no_address).

Lemma start_read : read_config (Some start_file) start_config = Ret (started_config, started_conf).
Proof. vm_compute. reflexivity. Qed.

Lemma start_drops : config_drops start_file start_config = ["/tmp/acceptor"]%string.
Proof. vm_compute. reflexivity. Qed.

Definition start_rest : mprop := at_rest 10%positive started_config ["/tmp/acceptor"]%string.

Lemma learner_program_safe_witness :
  ∃ hr, c_learner_main (Some start_file) 10%positive demo_events (globals_heap start_config) =
    Ret ([Delivery [x42] 1 12 2; Delivery [x41] 2 103 3], hr) ∧ holds start_rest hr.
Proof.
  destruct (learner_program_safe start_file 10%positive start_config started_config started_conf demo_events
    (globals_heap start_config) ∅) as (l0 & l & ds & hr & E0 & E & H & _ & Hr).
  - exact start_read.
  - by vm_compute.
  - split; vm_compute; congruence.
  - exact demo_events_ok.
  - apply globals_heap_ok.
  - apply map_disjoint_empty_r.
  - exists hr. rewrite start_drops in Hr. split; [|exact Hr]. rewrite !(right_id_L ∅ (∪)) in H.
    rewrite H. f_equal. f_equal. vm_compute in E0. injection E0 as <-.
    apply (f_equal (from_ret (l, []))) in E. vm_compute in E. by injection E as _ <-.
Defined.

Lemma acceptor_program_safe_witness :
  ∃ out hr, c_acceptor_main (Some start_file) 10%positive 1 true (λ _, zero_record) demo_aevents
      (globals_heap start_config) = Ret (Some out, hr) ∧
    out.*2 = demo_answers ∧ holds start_rest hr.
Proof.
  destruct (acceptor_program_safe start_file 10%positive start_config started_config started_conf 1 1
    (λ _, zero_record) demo_aevents (globals_heap start_config) ∅)
    as (v0 & ids & v & out & hr & E0 & Hl & E & H & _ & Hr).
  - exact start_read.
  - split; vm_compute; congruence.
  - by vm_compute.
  - exact demo_aevents_ok.
  - apply globals_heap_ok.
  - apply map_disjoint_empty_r.
  - exists out, hr. rewrite start_drops in Hr. rewrite !(right_id_L ∅ (∪)) in H.
    split; [exact H|]. split; [|exact Hr].
    do 10 (destruct ids as [|? ids]; [discriminate Hl|]). destruct ids; [|discriminate Hl].
    unfold evacceptor_init_conf in E0. cbn -[storage_mem_open] in E0. injection E0 as <-.
    apply (f_equal (λ r, (from_ret (v, []) r).2.*2)) in E. symmetry in E. etransitivity; [exact E|].
    vm_compute. reflexivity.
Defined.

Lemma proposer_program_leaks_timer_witness :
  ∃ o tv hr, c_proposer_main (Some start_file) 10%positive 0 true demo_pevents (globals_heap start_config) =
    Ret (Some o, <[tv := BTimer true]> hr) ∧ o.*2 = demo_sent ∧ hr !! tv = None ∧ holds start_rest hr.
Proof.
  destruct (proposer_program_leaks_timer start_file 10%positive start_config started_config started_conf 0 0
    demo_pevents (globals_heap start_config) ∅)
    as (p0 & p1 & out & o & tv & hr & E0 & E & Eo & H & Htv & _ & Hr).
  - exact start_read.
  - by vm_compute.
  - split; vm_compute; congruence.
  - vm_compute. congruence.
  - by vm_compute.
  - exact demo_pevents_ok.
  - by vm_compute.
  - apply globals_heap_ok.
  - apply map_disjoint_empty_r.
  - exists o, tv, hr. rewrite start_drops in Hr. rewrite !(right_id_L ∅ (∪)) in H.
    rewrite !(right_id_L ∅ (∪)) in Htv. split; [exact H|]. split; [|split; [exact Htv|exact Hr]]. rewrite Eo.
    vm_compute in E0. injection E0 as <-. apply (f_equal (from_ret (p1, []))) in E. vm_compute in E.
    by injection E as _ <-.
Defined.
