(* ===== verification/EvCluster.v ===== *)
(** * A running cluster, from the configuration file to the delivery callbacks

The nodes of [EvAcceptor], [EvProposer] and [EvLearner] put together: an
[event] is one callback of one node's event loop (a message that arrives, a
timer, the first run of phase 1, a connection that comes or goes) or a
client's submission, [handle] runs it
with the handlers of the C files, and what a node sends is added to the
messages in flight, each of which may arrive any number of times, in any
order, or never.  A learner node keeps the log of what its callback was given.
[cl_rel] relates a cluster to a state of [System]; the theorem at the end is
the contract of the library as an application sees it. *)

From S2P Require Import Config.
From S2P Require Import Prelude Carray Quorum Messages Storage StorageMem Acceptor.
From S2P Require Import Proposer ProposerRun Learner Synod System SystemRuns Wire Net.
From S2P Require Import EvAcceptor EvProposer EvLearner Startup.
#[local] Open Scope Z_scope.

Section cluster.
Context {S : Type} `{SS : StorageSpec S}.

(** A learner and everything its callback was given so far. *)
Record lnode : Type := LNode {
  ln_learner : evlearner;
  ln_log : list delivery;
}.

Record cluster : Type := Cluster {
  c_acceptors : gmap Z (evacceptor S);
  c_proposers : gmap Z evproposer;
  c_learners : gmap Z lnode;
  c_net : list message;
}.

Definition put_acceptor (id : Z) (a : evacceptor S) (out : sends) (c : cluster) : cluster :=
  Cluster (<[id := a]> (c_acceptors c)) (c_proposers c) (c_learners c) (map snd out ++ c_net c).
Definition put_proposer (id : Z) (p : evproposer) (out : sends) (c : cluster) : cluster :=
  Cluster (c_acceptors c) (<[id := p]> (c_proposers c)) (c_learners c) (map snd out ++ c_net c).
Definition put_learner (id : Z) (x : lnode) (c : cluster) : cluster :=
  Cluster (c_acceptors c) (c_proposers c) (<[id := x]> (c_learners c)) (c_net c).
Definition put_messages (out : list message) (c : cluster) : cluster :=
  Cluster (c_acceptors c) (c_proposers c) (c_learners c) (out ++ c_net c).

Inductive event : Type :=
  | Submit (value : bytes)
  | AcceptorMsg (id : Z) (from : bufferevent) (m : message)
  | AcceptorConn (id : Z) (e : TcpReceiver.event)
  | AcceptorRestart (id : Z) (a : evacceptor S)
  | ProposerMsg (id : Z) (t : timeval) (e : env) (m : message)
  | ProposerTimeout (id : Z) (t : timeval)
  | ProposerPreexec (id : Z) (e : env)
  | ProposerConn (id : Z) (e : TcpReceiver.event)
  | ProposerPeer (id : Z) (i : nat) (e : Peers.peer_event)
  | LearnerMsg (id : Z) (k : accept_ack)
  | LearnerHoles (id : Z)
  | LearnerPeer (id : Z) (i : nat) (e : Peers.peer_event).

(** The callback of [id], if there is such a node. *)
Definition at_node {X} (nodes : gmap Z X) (id : Z) (c : cluster) (f : X → res cluster) : res cluster :=
  match nodes !! id with Some x => f x | None => Ret c end.

Definition handle (cfg : paxos_config) (ev : event) (c : cluster) : res cluster :=
  match ev with
  | Submit value => Ret (put_messages [MSubmit value] c)
  | AcceptorMsg id from m => at_node (c_acceptors c) id c (λ a,
      '(a, out) ← EvAcceptor.handle_message from a m; Ret (put_acceptor id a out c))
  | AcceptorConn id e => at_node (c_acceptors c) id c (λ a,
      r ← TcpReceiver.step (EvAcceptor.receiver a) e;
      Ret (put_acceptor id (EvAcceptor (acceptor_id a) r (EvAcceptor.state a)) [] c))
  | AcceptorRestart id a => Ret (put_acceptor id a [] c)
  | ProposerMsg id t e m => at_node (c_proposers c) id c (λ p,
      '(p, out) ← EvProposer.handle_message t e p m; Ret (put_proposer id p out c))
  | ProposerTimeout id t => at_node (c_proposers c) id c (λ p,
      '(p, out) ← proposer_check_timeouts cfg t p; Ret (put_proposer id p out c))
  | ProposerPreexec id e => at_node (c_proposers c) id c (λ p,
      '(p, out) ← proposer_preexecute e p; Ret (put_proposer id p out c))
  | ProposerConn id e => at_node (c_proposers c) id c (λ p,
      r ← TcpReceiver.step (receiver p) e;
      Ret (put_proposer id (EvProposer (EvProposer.id p) (preexec_window p) r (EvProposer.state p)
                              (EvProposer.acceptors p) (tv p)) [] c))
  | ProposerPeer id i e => at_node (c_proposers c) id c (λ p,
      Ret (put_proposer id (EvProposer (EvProposer.id p) (preexec_window p) (receiver p)
             (EvProposer.state p) (Peers.peers_step (EvProposer.acceptors p) i e) (tv p)) [] c))
  | LearnerMsg id k => at_node (c_learners c) id c (λ x,
      '(l, ds) ← EvLearner.handle_message (ln_learner x) (MAcceptAck k);
      Ret (put_learner id (LNode l (ln_log x ++ ds)) c))
  | LearnerHoles id => at_node (c_learners c) id c (λ x,
      out ← learner_check_holes (ln_learner x); Ret (put_messages (map snd out) c))
  | LearnerPeer id i e => at_node (c_learners c) id c (λ x,
      let l := ln_learner x in
      Ret (put_learner id (LNode (EvLearner (state l) (Peers.peers_step (acceptors l) i e)) (ln_log x)) c))
  end.

(** The proposer has performed few enough operations for its counters. *)
Definition may_run (id : Z) (c : cluster) : Prop :=
  ∀ p, c_proposers c !! id = Some p → ∃ k0, in_budget k0 p.

(** What can happen at all: a message arrives only if it was sent, any number of
times, and a restarted acceptor has the records of the one that stopped. *)
Definition possible (ev : event) (c : cluster) : Prop :=
  match ev with
  | AcceptorMsg _ _ m | ProposerMsg _ _ _ m => m ∈ c_net c
  | AcceptorRestart id a' => ∃ a A A', c_acceptors c !! id = Some a ∧
      EvAcceptor.state a = Some A ∧ EvAcceptor.state a' = Some A' ∧
      ∀ h, store_rep id (store A) h → store_rep id (store A') h
  | LearnerMsg _ k => MAcceptAck k ∈ c_net c
  | _ => True
  end.

(** What is assumed beyond that, because the code does not see to it.  Clients
submit values of at least one byte ([empty_value_unsafe] is what an empty one
does). *)
Definition nonempty_values (ev : event) : Prop :=
  match ev with Submit value => value ≠ [] | _ => True end.

(** Learners are given votes only: an acknowledgement with two different ballots,
which an acceptor that has only promised sends in reply to a repeat request, is
kept from them ([learner_repeat_unsafe] is what it does). *)
Definition votes_only (ev : event) : Prop :=
  match ev with LearnerMsg _ k => aa_ballot k = aa_value_ballot k | _ => True end.

(** The counters of a proposer, and the [int] arithmetic of a learner on the
instance, do not overflow. *)
Definition counters_fit (cfg : paxos_config) (ev : event) (c : cluster) : Prop :=
  match ev with
  | ProposerMsg id _ _ _ | ProposerTimeout id _ | ProposerPreexec id _ => may_run id c
  | LearnerMsg _ k => aa_iid k + learner_instances cfg ≤ INT_MAX
  | _ => True
  end.

Definition enabled (cfg : paxos_config) (ev : event) (c : cluster) : Prop :=
  possible ev c ∧ nonempty_values ev ∧ votes_only ev ∧ counters_fit cfg ev c.

Definition cl_step (cfg : paxos_config) (c c' : cluster) : Prop :=
  ∃ ev, possible ev c ∧ nonempty_values ev ∧ votes_only ev ∧ counters_fit cfg ev c ∧
    handle cfg ev c = Ret c'.

Lemma cl_step_enabled cfg c c' :
  cl_step cfg c c' ↔ ∃ ev, enabled cfg ev c ∧ handle cfg ev c = Ret c'.
Proof.
  split; intros (ev & He); exists ev; [destruct He as (?&?&?&?&?)|destruct He as ((?&?&?&?)&?)]; by repeat split.
Qed.

(** A check that an event may happen, for concrete runs; [k0] bounds the
counters of the proposers. *)
Definition budget_check (k0 : nat) (id : Z) (c : cluster) : bool :=
  match c_proposers c !! id with
  | None => true
  | Some p =>
      let w := view (EvProposer.state p) in
      bool_decide (bounded (Z.of_nat k0) w) &&
      bool_decide (Z.of_nat (k0 + pending p + length (v_accept w) + 3) + Z.max 0 (preexec_window p) < 2 ^ 28)
  end.

Definition check (k0 : nat) (cfg : paxos_config) (ev : event) (c : cluster) : bool :=
  match ev with
  | Submit value => bool_decide (value ≠ [])
  | AcceptorMsg _ _ m => bool_decide (m ∈ c_net c)
  | AcceptorRestart _ _ => false
  | ProposerMsg id _ _ m => bool_decide (m ∈ c_net c) && budget_check k0 id c
  | ProposerTimeout id _ | ProposerPreexec id _ => budget_check k0 id c
  | LearnerMsg _ k => bool_decide (MAcceptAck k ∈ c_net c ∧ aa_ballot k = aa_value_ballot k ∧
      aa_iid k + learner_instances cfg ≤ INT_MAX)
  | _ => true
  end.

Fixpoint run_of (k0 : nat) (cfg : paxos_config) (evs : list event) (c : cluster) : res cluster :=
  match evs with
  | [] => Ret c
  | ev :: evs' => assert_that (check k0 cfg ev c) ;; c ← handle cfg ev c; run_of k0 cfg evs' c
  end.

Lemma budget_check_ok k0 id c : budget_check k0 id c = true → may_run id c.
Proof.
  unfold budget_check. intros Hb p Ep. rewrite Ep in Hb. apply andb_prop in Hb as [H1 H2].
  exists k0. split; by eapply bool_decide_eq_true.
Qed.

Lemma check_ok k0 cfg ev c : check k0 cfg ev c = true → enabled cfg ev c.
Proof.
  unfold enabled. destruct ev; simpl; rewrite ?andb_true_iff, ?bool_decide_eq_true; try done;
    intuition eauto using budget_check_ok.
Qed.

Lemma run_of_steps k0 cfg evs c c' : run_of k0 cfg evs c = Ret c' → rtc (cl_step cfg) c c'.
Proof.
  revert c. induction evs as [|ev evs IH]; intros c Hr; simpl in Hr.
  { injection Hr as <-. apply rtc_refl. }
  apply bind_inv in Hr as (u & Hc%assert_that_inv & Hr). apply bind_inv in Hr as (c1 & Hh & Hr).
  eapply rtc_l; [|by apply IH]. apply cl_step_enabled. exists ev. split; [by eapply check_ok|done].
Qed.

(** ** The invariant *)

Section invariant.
Context (n : Z) (cfg : paxos_config).
Hypothesis n_ok : 1 ≤ n ≤ INT_MAX.
Hypothesis window_ok : 0 < learner_instances cfg ≤ INT_MAX.

(** The log of a learner is what it delivered, from [start] on. *)
Record lnode_inv (G : accept_ack → Prop) (x : lnode) : Prop := {
  li_inv : evl_inv n (learner_instances cfg) G (ln_learner x);
  li_marks : marks INT_MAX (state (ln_learner x));
  li_log : ∃ start, delivered_from n G start (ln_log x) ∧
    (learner_catch_up cfg ≠ 0 → start = 1 ∧ l_late_start (state (ln_learner x)) = 0) ∧
    (l_late_start (state (ln_learner x)) = 0 →
       l_current_iid (state (ln_learner x)) = start + Z.of_nat (length (ln_log x))) ∧
    (l_late_start (state (ln_learner x)) ≠ 0 → ln_log x = []);
}.

Lemma lnode_inv_mono (G G' : accept_ack → Prop) x :
  (∀ k, G k → G' k) → lnode_inv G x → lnode_inv G' x.
Proof.
  intros HG [I M (start & D & HD)]. split; [by eapply evl_inv_mono|done|].
  exists start. split; [by eapply delivered_mono|done].
Qed.

(** One vote more. *)
Lemma lnode_inv_handle (G : accept_ack → Prop) x k l ds :
  (∀ a, G a → ack_ok n (learner_instances cfg) a) → lnode_inv G x → G k →
  learner_handle_accept_ack (ln_learner x) k = Ret (l, ds) → lnode_inv G (LNode l (ln_log x ++ ds)).
Proof using window_ok.
  intros HG [I M (start & D & Hcu & Hcur & Hlate)] Gk Hh. pose proof (HG k Gk) as [_ Hp Hr _].
  destruct (handle_accept_ack_ok n _ G HG (ln_learner x) k I Gk)
    as (l' & ds' & st & E & I' & _ & L0 & C & D' & Hst).
  rewrite Hh in E. injection E as <- <-. split; simpl; [done| |].
  - eapply handle_accept_ack_marks; [done|lia|done].
  - destruct (decide (l_late_start (state (ln_learner x)) = 0)) as [El|El].
    + specialize (Hst El). specialize (Hcur El). exists start. split; [|split; [|split; [|by rewrite L0]]].
      * apply delivered_app; [done|]. by rewrite <-Hcur, <-Hst.
      * intros ?. split; [|done]. by apply Hcu.
      * intros _. rewrite C, Hst, Hcur, length_app. lia.
    + rewrite (Hlate El) in *. exists st. split; [done|]. split; [|by split].
      intros Hc. by destruct (Hcu Hc).
Qed.

(** The cluster as a state of [System]: the same nodes; the messages in flight
are among those of the system, but for the requests to repeat an instance,
which the system answers at any time. *)
Record cl_rel (c : cluster) (s : system S) : Prop := {
  cr_reach : reachable n s;
  cr_acceptors : sys_acceptors s = omap EvAcceptor.state (c_acceptors c);
  cr_proposers : sys_proposers s = EvProposer.state <$> c_proposers c;
  cr_ids : ∀ id, is_Some (c_acceptors c !! id) → 0 ≤ id < n;
  cr_net : ∀ m, m ∈ c_net c →
    m ∈ sys_net s ∨ ∃ iid, m = MRepeatReq iid ∧ 0 < iid < UINT32_MOD;
  cr_submit : ∀ v, MSubmit v ∈ sys_net s → MSubmit v ∈ c_net c;
  cr_learners : ∀ id x, c_learners c !! id = Some x →
    lnode_inv (vote_of n (sys_net s) (learner_instances cfg)) x;
}.

Lemma reachable_trans (s s' : system S) : reachable n s → rtc sys_step s s' → reachable n s'.
Proof. intros (s0 & Hi & Hr) Hs. exists s0. split; [done|]. by etransitivity. Qed.

Lemma vote_of_mono M M' sz k : (∀ m, m ∈ M → m ∈ M') → vote_of n M sz k → vote_of n M' sz k.
Proof. intros HM (? & ?). split; [auto|done]. Qed.

(** A vote that is in flight comes from one of the acceptors. *)
Lemma cl_vote c s k :
  cl_rel c s → MAcceptAck k ∈ c_net c → aa_ballot k = aa_value_ballot k →
  aa_iid k + learner_instances cfg ≤ INT_MAX → vote_of n (sys_net s) (learner_instances cfg) k.
Proof using n_ok.
  intros [Hr Ha _ Hid Hn _ _] Hk Hb Hroom. destruct (Hn _ Hk) as [Hin|(? & ? & _)]; [|done].
  pose proof (sys_inv_reachable n n_ok s Hr) as I. destruct (iv_from _ _ I k Hin) as [A HA].
  destruct (sk_vote _ (iv_ok _ _ I) k Hin Hb) as [_ Hreq].
  destruct (sk_req _ (iv_ok _ _ I) _ Hreq) as ([? _] & _). split; [done|]. split; [done|].
  split; [|done]. apply Hid. rewrite Ha in HA. apply lookup_omap_Some in HA as (x & _ & ->). eauto.
Qed.

(** The system moves, and the learners know more. *)
Lemma cl_rel_move c s s' (c' : cluster) :
  cl_rel c s → rtc sys_step s s' →
  sys_acceptors s' = omap EvAcceptor.state (c_acceptors c') →
  sys_proposers s' = EvProposer.state <$> c_proposers c' →
  (∀ id, is_Some (c_acceptors c' !! id) → is_Some (c_acceptors c !! id)) →
  c_learners c' = c_learners c → (∀ m, m ∈ c_net c → m ∈ c_net c') →
  (∀ m, m ∈ c_net c' → m ∈ c_net c ∨ m ∈ sys_net s' ∨ ∃ iid, m = MRepeatReq iid ∧ 0 < iid < UINT32_MOD) →
  (∀ v, MSubmit v ∈ sys_net s' → MSubmit v ∈ sys_net s ∨ MSubmit v ∈ c_net c') → cl_rel c' s'.
Proof.
  intros [Hr Ha Hp Hid Hn Hs Hl] Hst Ha' Hp' Hid' El Hsub Hnew Hv.
  pose proof (sys_net_mono s s' Hst) as Hmono. split; [by eapply reachable_trans|done|done|auto|..].
  - intros m Hm. destruct (Hnew m Hm) as [H0|[H0|H0]]; [|by left|by right].
    destruct (Hn m H0); [left; auto|by right].
  - intros v Hin. destruct (Hv v Hin); auto.
  - intros id x Hx. rewrite El in Hx. eapply lnode_inv_mono, Hl, Hx.
    intros k. by apply vote_of_mono.
Qed.

Lemma sent_new (out : sends) (s : system S) (c : cluster) m :
  (∀ x, x ∈ out → x.2 ∈ sys_net s) → m ∈ map snd out ++ c_net c → m ∈ c_net c ∨ m ∈ sys_net s.
Proof. intros Ho [(x & -> & Hx)%list_elem_of_fmap|?]%elem_of_app; auto. Qed.

Lemma omap_insert_eq {A B} (f : A → option B) (m : gmap Z A) (m' : gmap Z B) i x :
  m' !! i = f x → (∀ j, j ≠ i → m' !! j = omap f m !! j) → m' = omap f (<[i := x]> m).
Proof.
  intros Hi Hj. apply map_eq. intros j. rewrite lookup_omap. destruct (decide (j = i)) as [->|Hne].
  - by rewrite lookup_insert_eq.
  - rewrite lookup_insert_ne, (Hj j Hne), lookup_omap by done. done.
Qed.

Lemma cl_acceptor_msg c s id from m a a' out :
  cl_rel c s → m ∈ c_net c → c_acceptors c !! id = Some a →
  EvAcceptor.handle_message from a m = Ret (a', out) → ∃ s', cl_rel (put_acceptor id a' out c) s'.
Proof using n_ok.
  intros R Hm Ea Hh. pose proof R as [Hr Ha Hp Hid Hn Hs Hl].
  assert (sys_acceptors s !! id = EvAcceptor.state a) as Hst by (by rewrite Ha, lookup_omap, Ea).
  destruct (evacceptor_step s id from a a' m out Hst) as (_ & s' & Hrun & H1 & H2 & H3 & H4 & H5).
  - destruct (Hn m Hm) as [?|(iid & -> & _)]; eauto.
  - intros iid ->. destruct (Hn _ Hm) as [Hin|(i & [= ->] & ?)]; [|done].
    by eapply sk_repeat in Hin; [|apply (iv_ok n), sys_inv_reachable].
  - done.
  - exists s'. apply (cl_rel_move c s); try done.
    + apply omap_insert_eq; [done|]. intros j Hj. by rewrite H4, Ha.
    + by rewrite H2.
    + intros j Hj. simpl in Hj. apply lookup_insert_is_Some' in Hj as [->|?]; [by eexists|done].
    + intros m' ?. apply elem_of_app. by right.
    + intros m' Hm'. destruct (sent_new out s' c m' H3 Hm'); auto.
    + intros v Hv. left. by apply H5.
Qed.

Lemma cl_proposer c s id p k0 p' o :
  cl_rel c s → c_proposers c !! id = Some p → in_budget k0 p →
  handles_event (λ m, m ∈ c_net c ∧ m ∈ sys_net s) p p' o →
  ∃ s', cl_rel (put_proposer id p' o c) s'.
Proof using n_ok.
  intros R Ep Hb Hh. pose proof R as [Hr Ha Hp _ _ _ _].
  destruct (evproposer_step n n_ok s id p k0 p' o) as (s' & Hrun & H1 & H2 & H3 & H4 & H5); [done|..].
  - by rewrite Hp, lookup_fmap, Ep.
  - done.
  - destruct Hh as [(t & e & m & [_ Hm] & Hh)|Hh]; [left; eauto|by right].
  - exists s'. apply (cl_rel_move c s); try done.
    + by rewrite H2.
    + simpl. apply map_eq. intros j. rewrite fmap_insert. destruct (decide (j = id)) as [->|Hne].
      * by rewrite lookup_insert_eq.
      * by rewrite lookup_insert_ne, H4, Hp.
    + intros m' ?. apply elem_of_app. by right.
    + intros m' Hm'. destruct (sent_new o s' c m' H3 Hm'); auto.
    + intros v Hv. left. by apply H5.
Qed.

(** A node whose protocol state stays the same: its connections changed. *)
Lemma cl_acceptor_same c s id a a' :
  cl_rel c s → c_acceptors c !! id = Some a → EvAcceptor.state a' = EvAcceptor.state a →
  cl_rel (put_acceptor id a' [] c) s.
Proof using Type.
  intros R Ea E. apply (cl_rel_move c s); try done; simpl; [|apply R| |auto..].
  - apply omap_insert_eq; rewrite (cr_acceptors _ _ R); [by rewrite lookup_omap, Ea|done].
  - intros j [->|?]%lookup_insert_is_Some'; [by eexists|done].
Qed.

Lemma cl_proposer_same c s id p p' :
  cl_rel c s → c_proposers c !! id = Some p → EvProposer.state p' = EvProposer.state p →
  cl_rel (put_proposer id p' [] c) s.
Proof using Type.
  intros R Ep E. apply (cl_rel_move c s); try done; simpl; [apply R| |auto..].
  rewrite fmap_insert, E, insert_id; [apply R|]. by rewrite lookup_fmap, Ep.
Qed.

Lemma cl_learner_same c s id x l :
  cl_rel c s → c_learners c !! id = Some x → state l = state (ln_learner x) →
  cl_rel (put_learner id (LNode l (ln_log x)) c) s.
Proof using Type.
  intros [Hr Ha Hp Hid Hn Hs Hl] Ex E. split; try done.
  intros id' x' Hx'. simpl in Hx'. apply lookup_insert_Some in Hx' as [[<- <-]|[_ Hx']]; [|eauto].
  destruct (Hl id x Ex) as [[Iw Is Ir Ii] M HD]. split; [split|..]; simpl; by rewrite E.
Qed.

(** A repeat request does nothing at a proposer. *)
Lemma cl_proposer_msg c s id t e m p p' o :
  cl_rel c s → c_proposers c !! id = Some p → may_run id c → m ∈ c_net c →
  EvProposer.handle_message t e p m = Ret (p', o) → ∃ s', cl_rel (put_proposer id p' o c) s'.
Proof using n_ok.
  intros R Ep Hb Hm Hh. destruct (Hb p Ep) as [k0 Hk].
  destruct (cr_net _ _ R m Hm) as [Hin|(iid & -> & _)].
  - eapply cl_proposer; [done..|]. left. eauto 10.
  - simpl in Hh. injection Hh as <- <-. exists s. unfold put_proposer.
    rewrite insert_id by done. by destruct c.
Qed.

Lemma cl_learner_msg c s id x k l ds :
  cl_rel c s → c_learners c !! id = Some x →
  vote_of n (sys_net s) (learner_instances cfg) k →
  learner_handle_accept_ack (ln_learner x) k = Ret (l, ds) →
  cl_rel (put_learner id (LNode l (ln_log x ++ ds)) c) s.
Proof using n_ok window_ok.
  intros [Hr Ha Hp Hid Hn Hs Hl] Ex Hk Hh. split; try done.
  intros id' x' Hx'. simpl in Hx'. apply lookup_insert_Some in Hx' as [[<- <-]|[_ Hx']]; [|eauto].
  eapply lnode_inv_handle; [|by eapply Hl|done|done].
  intros a. by apply vote_of_ack_ok, (iv_ok n), sys_inv_reachable.
Qed.

(** The learner's handler returns. *)
Lemma cl_learner_returns c s id k :
  cl_rel c s → MAcceptAck k ∈ c_net c → aa_ballot k = aa_value_ballot k →
  aa_iid k + learner_instances cfg ≤ INT_MAX → ∃ c', handle cfg (LearnerMsg id k) c = Ret c'.
Proof using n_ok.
  intros R Hk Hb Hroom. simpl. unfold at_node.
  destruct (c_learners c !! id) as [x|] eqn:Ex; [|by eexists].
  pose proof (cl_vote c s k R Hk Hb Hroom) as Gk. destruct (cr_learners _ _ R id x Ex) as [I _ _].
  destruct (handle_accept_ack_ok n (learner_instances cfg) (vote_of n (sys_net s) (learner_instances cfg)))
    with (l := ln_learner x) (aa := k) as (l' & ds & st & -> & _); [|done..|by eexists].
  intros a. by apply vote_of_ack_ok, (iv_ok n), sys_inv_reachable, R.
Qed.

Lemma cl_learner_holes c s id x out :
  cl_rel c s → c_learners c !! id = Some x → learner_check_holes (ln_learner x) = Ret out →
  cl_rel (put_messages (map snd out) c) s.
Proof using Type.
  intros R Ex Hh. destruct (cr_learners _ _ R id x Ex) as [[[w I] _ _ _] M _].
  assert (∀ m, m ∈ map snd out → ∃ iid, m = MRepeatReq iid ∧ 0 < iid < UINT32_MOD) as Hout.
  { intros m (y & -> & Hy)%list_elem_of_fmap. eapply check_holes_inv; [done| |done..]. by eapply lv_cur. }
  apply (cl_rel_move c s); try done; [apply R|apply R|..].
  - intros m ?. apply elem_of_app. by right.
  - intros m [?|?]%elem_of_app; auto.
  - auto.
Qed.

Lemma cl_restart c s id a A a' A' :
  cl_rel c s → c_acceptors c !! id = Some a → EvAcceptor.state a = Some A →
  EvAcceptor.state a' = Some A' → (∀ h, store_rep id (store A) h → store_rep id (store A') h) →
  ∃ s', cl_rel (put_acceptor id a' [] c) s'.
Proof using Type.
  intros R Ea EA EA' Hkeep. pose proof R as [Hr Ha Hp _ _ _ _].
  assert (sys_acceptors s !! id = Some A) as Hst by (by rewrite Ha, lookup_omap, Ea).
  exists (System (<[id := A']> (sys_acceptors s)) (sys_proposers s) (sys_net s)).
  apply (cl_rel_move c s); simpl; try done.
  - by apply rtc_once, (sys_restart s id A).
  - apply omap_insert_eq; [by rewrite lookup_insert_eq|].
    intros j Hj. by rewrite lookup_insert_ne, Ha.
  - intros j [->|?]%lookup_insert_is_Some'; [by eexists|done].
  - auto.
  - auto.
Qed.

Lemma cl_submit c s value : cl_rel c s → value ≠ [] → ∃ s', cl_rel (put_messages [MSubmit value] c) s'.
Proof using Type.
  intros R Hv. exists (System (sys_acceptors s) (sys_proposers s) (MSubmit value :: sys_net s)).
  apply (cl_rel_move c s); simpl; try done; [by apply rtc_once, sys_submit|apply R|apply R|..].
  - intros m ?. by right.
  - intros m [->|?]%elem_of_cons; [|by left]. right. left. by left.
  - intros v [->|?]%elem_of_cons; [|by left]. right. by left.
Qed.

Lemma at_node_inv {X} (nodes : gmap Z X) id c f c' (P : cluster → Prop) :
  at_node nodes id c f = Ret c' → P c → (∀ x, nodes !! id = Some x → f x = Ret c' → P c') → P c'.
Proof. unfold at_node. intros Hh Hc Hf. destruct (nodes !! id); [by eapply Hf|by injection Hh as <-]. Qed.

Lemma cl_rel_step c s c' : cl_rel c s → cl_step cfg c c' → ∃ s', cl_rel c' s'.
Proof using n_ok window_ok.
  intros R (ev & Hpos & Hne & Hvo & Hco & Hh).
  destruct ev as [v|id from m|id e|id a|id t e m|id t|id e|id e|id i e|id k|id|id i e]; simpl in Hpos, Hne, Hvo, Hco, Hh;
    try (eapply (at_node_inv _ _ _ _ _ (λ c', ∃ s', cl_rel c' s')); [exact Hh|by exists s|];
         clear Hh; intros x Ex Hh; try apply bind_inv in Hh).
  - injection Hh as <-. by eapply cl_submit.
  - destruct Hh as ([a' out] & Hh & [= <-]). by eapply cl_acceptor_msg.
  - destruct Hh as (r & _ & [= <-]). exists s. by eapply cl_acceptor_same.
  - injection Hh as <-. destruct Hpos as (a0 & A & A' & ? & ? & ? & ?). by eapply cl_restart.
  - destruct Hh as ([p' out] & Hh & [= <-]). by eapply cl_proposer_msg.
  - destruct Hh as ([p' out] & Hh & [= <-]), (Hco x Ex) as [k0 Hb].
    eapply cl_proposer; [done..|]. right. left. eauto.
  - destruct Hh as ([p' out] & Hh & [= <-]), (Hco x Ex) as [k0 Hb].
    eapply cl_proposer; [done..|]. right. right. eauto.
  - destruct Hh as (r & _ & [= <-]). exists s. by eapply cl_proposer_same.
  - injection Hh as <-. exists s. by eapply cl_proposer_same.
  - destruct Hh as ([l ds] & Hh & [= <-]).
    exists s. eapply cl_learner_msg; try done. by eapply cl_vote.
  - destruct Hh as (out & Hh & [= <-]). exists s. by eapply cl_learner_holes.
  - injection Hh as <-. exists s. by eapply cl_learner_same.
Qed.

Lemma cl_rel_run c s c' : cl_rel c s → rtc (cl_step cfg) c c' → ∃ s', cl_rel c' s'.
Proof using n_ok window_ok.
  intros R Hr. revert s R. induction Hr as [|c c1 c' H1 _ IH]; [eauto|].
  intros s R. destruct (cl_rel_step c s c1 R H1) as [s1 R1]. eauto.
Qed.

(** ** What the logs of two learners say *)

Lemma log_chosen c s id x d :
  cl_rel c s → c_learners c !! id = Some x → d ∈ ln_log x →
  ∃ b, sys_chosen n (sys_net s) (d_iid d) b (d_value d).
Proof using n_ok.
  intros R Ex Hd. destruct (cr_learners _ _ R id x Ex) as [_ _ (start & [_ Hcl] & _)].
  destruct (Hcl d Hd) as (v & Hv & Ed). pose proof Hv as (_ & Hi & _).
  exists (aa_ballot v). rewrite Ed at 2. simpl. eapply closed_chosen; [by apply sys_inv_reachable, R|exact Hv].
Qed.

End invariant.

(** ** From the configuration file *)

Context (es : list entry) (p : paxos_config).
Let file : option bytes := Some (print_config es).
Let n : Z := Z.of_nat (length (omap entry_acceptor es)).
Let cfg : paxos_config := foldl (flip entry_option) p es.

(** All nodes were started from the file, acceptors on empty storages, and
nothing was sent or delivered yet. *)
Record cl_start (c : cluster) : Prop := {
  cs_file : file_ok es;
  cs_window : 0 < learner_instances cfg ≤ INT_MAX;
  cs_nodes : started es p (c_acceptors c) (c_proposers c);
  cs_learners : ∀ id x, c_learners c !! id = Some x → ln_log x = [] ∧
    ∃ new_bev p', evlearner_init file p new_bev = Ret (p', ln_learner x);
  cs_net : c_net c = [];
}.

Lemma cl_start_rel c :
  cl_start c → 1 ≤ n ≤ INT_MAX ∧ cl_rel n cfg c (cluster_system (c_acceptors c) (c_proposers c)).
Proof.
  intros [Hf Hw Hn Hl Hnet]. pose proof (fo_acceptors _ Hf) as Hacs.
  assert (1 ≤ n ≤ INT_MAX) as n_ok by (unfold MAX_ADDR, INT_MAX in *; unfold n; lia).
  destruct (file_read es p Hf) as (cf & Ec & Rc). split; [done|]. split; simpl; try done.
  - eexists. split; [by apply (started_init es p)|apply rtc_refl].
  - intros id [a Ea]. destruct Hn as [Ha _]. destruct (Ha id a Ea) as (st & p' & _ & Hi).
    unfold evacceptor_init in Hi. rewrite Ec in Hi. simpl in Hi. apply bind_inv in Hi as (o & Hi & [= _ ->]).
    by destruct (evacceptor_init_inv cf _ _ id true (Some st) a Rc Hi).
  - rewrite Hnet. by intros m ?%not_elem_of_nil.
  - by intros v ?%not_elem_of_nil.
  - intros id x Hx. destruct (Hl id x Hx) as (Hlog & nb & p' & Hi). unfold evlearner_init in Hi.
    unfold file in Hi. rewrite Ec in Hi. simpl in Hi. apply bind_inv in Hi as (l & Hi & [= _ ->]).
    destruct (evlearner_init_ok cfg cf _ _ nb Rc n_ok Hw) as (l' & E & C & L & _ & _ & I).
    unfold cfg in E. rewrite Hi in E. injection E as <-. split; [apply I| |].
    + unfold evlearner_init_conf in Hi. apply bind_inv in Hi as (st & Hst & Hi). apply bind_inv in Hi as (ps & _ & [= <-]). simpl.
      by eapply learner_new_marks.
    + exists 1. rewrite Hlog. split; [apply delivered_nil|]. split; [auto|]. split; [|done].
      intros _. rewrite C. simpl. lia.
Qed.

(** ** Properties *)

(** C1: the library keeps its promise to applications, as long as clients submit
values that are not empty and learners are given votes only (no replies to
their repeat requests from acceptors that have only promised).  Under these two
conditions, and within the range of the counters, whatever clients submit to a
cluster started from one configuration file, whichever messages are lost,
duplicated or reordered, whichever connections break and whichever acceptors
restart on their storages, every learner hands its callback consecutive
instances, in order and without gaps or repetitions, from instance 1 on if
catch-up is on; the value it hands for an instance is the same as any other
learner's; it is a value that a client submitted; and the learner's handler
returns for every vote it is given.  [learner_repeat_unsafe] and
[empty_value_unsafe] show that neither condition can be dropped: the code does
not keep other replies from a learner, nor refuse empty values. *)
Theorem cluster_delivers c0 c :
  cl_start c0 → rtc (cl_step cfg) c0 c →
  (∀ id x, c_learners c !! id = Some x → ∃ start,
     d_iid <$> ln_log x = seqZ start (Z.of_nat (length (ln_log x))) ∧
     (learner_catch_up cfg ≠ 0 → start = 1)) ∧
  (∀ id x id' x' d d', c_learners c !! id = Some x → c_learners c !! id' = Some x' →
     d ∈ ln_log x → d' ∈ ln_log x' → d_iid d = d_iid d' → d_value d = d_value d') ∧
  (∀ id x d, c_learners c !! id = Some x → d ∈ ln_log x → MSubmit (d_value d) ∈ c_net c) ∧
  (∀ id k, MAcceptAck k ∈ c_net c → aa_ballot k = aa_value_ballot k →
     aa_iid k + learner_instances cfg ≤ INT_MAX → ∃ c', handle cfg (LearnerMsg id k) c = Ret c').
Proof.
  intros Hs Hr. destruct (cl_start_rel c0 Hs) as [n_ok R0]. pose proof (cs_window _ Hs) as Hw.
  destruct (cl_rel_run n cfg n_ok Hw _ _ _ R0 Hr) as [s R]. split; [|split; [|split]].
  - intros id x Hx. destruct (cr_learners _ _ _ _ R id x Hx) as [_ _ (start & [Hseq _] & Hcu & _)].
    exists start. split; [done|]. intros Hc. by apply Hcu.
  - intros id x id' x' d d' Hx Hx' Hd Hd' E.
    destruct (log_chosen n cfg n_ok c s id x d R Hx Hd) as [b C].
    destruct (log_chosen n cfg n_ok c s id' x' d' R Hx' Hd') as [b' C']. rewrite <-E in C'.
    by eapply (sys_agree n n_ok); [apply (sys_inv_reachable n n_ok), R|..].
  - intros id x d Hx Hd. destruct (log_chosen n cfg n_ok c s id x d R Hx Hd) as [b C].
    eapply cr_submit; [exact R|]. eapply (chosen_submitted n n_ok); [apply R|exact C].
  - intros id k Hk Hb Hroom. by eapply cl_learner_returns.
Qed.

End cluster.

(** ** A run: a value from its submission to the callbacks of two learners *)

(** Three in-memory acceptors, proposer 1 and two learners, started from the file
of [demo_entries] with small windows. *)
Definition small_config : paxos_config := PaxosConfig PAXOS_LOG_INFO 4 1 1 1 0 0 "" "" 0.
Definition small_options : paxos_config := foldl (flip entry_option) small_config demo_entries.

Definition small_proposer : evproposer :=
  EvProposer 1 1 (TcpReceiver.Receiver (TcpReceiver.set_sockaddr_in no_address)
                      (Carray 0 0 10 0 (replicate 10 None)))
    demo0 (foldl (λ ps i, Peers.peers_connect ps (localhost (8800 + i)) i) Peers.peers_new [0; 1; 2])
    (Timeval 1 0).

Definition small_learner : evlearner :=
  (from_ret (small_config, EvLearner (Learner 0 0 0 0 0 0 (Carray 0 0 0 0 [])) Peers.peers_new)
    (evlearner_init demo_file small_config (λ i, i))).2.

Definition run_start : cluster :=
  Cluster {[0 := demo_acceptor 0; 1 := demo_acceptor 1; 2 := demo_acceptor 2]} {[1 := small_proposer]}
    {[0 := LNode small_learner []; 1 := LNode small_learner []]} [].

Lemma small_acceptors_start :
  Forall (λ id, evacceptor_init demo_file small_config id true (Some (store (mem_acceptor id))) =
    Ret (small_options, Some (demo_acceptor id))) [0; 1; 2].
Proof. repeat (apply Forall_cons_2; [vm_compute; reflexivity|]). apply Forall_nil_2. Qed.

Lemma small_learner_start : evlearner_init demo_file small_config (λ i, i) = Ret (small_options, small_learner).
Proof. vm_compute. reflexivity. Qed.

Lemma run_start_ok : cl_start demo_entries small_config run_start.
Proof.
  split; [exact demo_file_ok|split; vm_compute; congruence| | |done].
  - split.
    + intros id x E. assert (x = demo_acceptor id ∧ id ∈ [0; 1; 2]) as [-> Hid].
      { simpl in E. apply lookup_insert_Some in E as [[<- <-]|[_ E]]; [split; [done|set_solver]|].
        apply lookup_insert_Some in E as [[<- <-]|[_ E]]; [split; [done|set_solver]|].
        apply lookup_singleton_Some in E as [<- <-]. split; [done|set_solver]. }
      exists (store (mem_acceptor id)). eexists. split; [apply mem_open_rep|].
      pose proof small_acceptors_start as HF. rewrite Forall_forall in HF. by apply HF.
    + intros id x E. simpl in E. apply lookup_singleton_Some in E as [<- <-]. exists (λ i, i). eexists.
      vm_compute. reflexivity.
  - intros id x E. assert (x = LNode small_learner []) as ->.
    { simpl in E. apply lookup_insert_Some in E as [[_ <-]|[_ E]]; [done|].
      by apply lookup_singleton_Some in E as [_ <-]. }
    split; [done|]. eexists _, _. exact small_learner_start.
Qed.

(** The learners connect to the acceptors; a value is submitted, prepared,
accepted by acceptors 0 and 1, and learned; learner 1 gets the votes in the
other order, one of them twice. *)
Definition run_events : list (event (S:=storage_mem)) :=
  [AcceptorConn 0 (TcpReceiver.Accept 5); AcceptorConn 1 (TcpReceiver.Accept 5);
   Submit [x41]; ProposerMsg 1 at_zero demo_env (MSubmit [x41]);
   AcceptorMsg 0 5 (MPrepareReq run_pr); AcceptorMsg 1 5 (MPrepareReq run_pr);
   ProposerMsg 1 at_zero demo_env (MPrepareAck (run_ack 0));
   ProposerMsg 1 at_zero demo_env (MPrepareAck (run_ack 1));
   AcceptorMsg 0 5 (MAcceptReq run_ar); AcceptorMsg 1 5 (MAcceptReq run_ar);
   LearnerMsg 0 (run_vote 0); LearnerMsg 0 (run_vote 1);
   LearnerMsg 1 (run_vote 1); LearnerMsg 1 (run_vote 1); LearnerMsg 1 (run_vote 0)].

Definition run_end : cluster := from_ret run_start (run_of 100 small_options run_events run_start).

Lemma run_logs : run_of 100 small_options run_events run_start = Ret run_end ∧
  (λ x, ln_log x) <$> c_learners run_end =
    {[0 := [Delivery [x41] 1 11 1]; 1 := [Delivery [x41] 1 11 1]]}.
Proof. split; vm_compute; reflexivity. Qed.

Lemma cluster_delivers_witness :
  ((λ x, ln_log x) <$> c_learners run_end =
     {[0 := [Delivery [x41] 1 11 1]; 1 := [Delivery [x41] 1 11 1]]}) ∧
  ∀ d d', d ∈ [Delivery [x41] 1 11 1] → d' ∈ [Delivery [x41] 1 11 1] →
    d_iid d = d_iid d' → d_value d = d_value d'.
Proof.
  split; [exact (proj2 run_logs)|]. intros d d' Hd Hd'.
  destruct (cluster_delivers demo_entries small_config run_start run_end run_start_ok
    (run_of_steps 100 small_options run_events run_start run_end (proj1 run_logs))) as (_ & Hag & _).
  destruct (c_learners run_end !! 0) as [x|] eqn:Ex; [|by vm_compute in Ex].
  destruct (c_learners run_end !! 1) as [x'|] eqn:Ex'; [|by vm_compute in Ex'].
  apply (Hag 0 x 1 x' d d' Ex Ex').
  - vm_compute in Ex. injection Ex as <-. exact Hd.
  - vm_compute in Ex'. injection Ex' as <-. exact Hd'.
Defined.
