(* ===== verification/ClusterRun.v ===== *)
(** * A cluster on the in-memory table keeps running

[EvCluster] says what a cluster delivers as far as its handlers return.  Here
they do return: a cluster of in-memory acceptors started from a configuration
file, whose connections keep the order of the messages, handles every message,
timer and connection event for as many events as the counters of the proposers
allow ([cluster_keeps_running]).  No assumption is made on the state of a node:
[cl_live] is kept by every event, and [ordered_inv] carries the histories of
[Ordered] through the run, so that the accept acknowledgements a proposer gets
are votes where it asserts so.

What is asked of the surroundings is [may_happen]: the order of requests on
connections, submitted values of 1 to 8160 bytes, instances of one window of the
tables, clocks within 2000 seconds, votes for the learners, acceptors that do not
restart.  The last lemma is what happens without the order: a refusal of an old
request, after a newer promise to the same proposer, fails an assertion. *)

From S2P Require Import MemConns MemEvAcceptor.
From S2P Require Import Config.
From S2P Require Import Prelude Carray Quorum Messages Storage StorageMem Acceptor.
From S2P Require Import Proposer ProposerRun Learner Synod System SystemRuns Wire SystemWire Net.
From S2P Require Import EvAcceptor EvProposer EvLearner Storages Startup EvCluster.
From S2P Require Import ProposerLife EvProposerRun Ordered.
#[local] Open Scope Z_scope.

(** ** Acceptors *)

(** What the table has room for. *)
Definition storable (lo : Z) (q : request) : Prop :=
  Storages.in_window lo (request_iid q) ∧
  match q with RAccept ar => mem_fits (ar_value ar) = true | _ => True end.

(** [anode_ok] of a node in a cluster: a message is handled. *)
Lemma acceptor_msg_live id lo M v from m :
  anode_ok id lo M v → (∀ q, request_of m = Some q → window_request lo q) → M ≤ 2 ^ 28 →
  ∃ v' out, EvAcceptor.handle_message from v m = Ret (v', out) ∧ anode_ok id lo M v'.
Proof.
  intros [Hr (A & h & HA & R & Hw)] Hq HM. destruct (request_of m) as [q|] eqn:Eq.
  - destruct (serve_window id lo A h q R Hw (Hq q eq_refl)) as (A' & r & h' & E & R' & Hw').
    pose proof Hr as (Hs & l & Rl & Hl).
    rewrite (handle_serves v A l from m q A' r HA Rl) by (done || unfold indexable; lia).
    eexists _, _. split; [done|]. split; [done|]. by exists A', h'.
  - rewrite unasked by done. eexists _, _. split; [done|]. split; [done|]. by exists A, h.
Qed.

(** ** Learners *)

Lemma repeat_loop_total k iid l addrs :
  Peers.peers_ok (acceptors l) addrs → ∃ out, repeat_loop k iid l = Ret out.
Proof.
  intros Hok. revert iid. induction k as [|k IH]; intros iid; simpl; [eauto|].
  rewrite (Peers.send_peers _ addrs) by done. destruct (IH (u32 (iid + 1))) as [out ->]. simpl. eauto.
Qed.

Lemma check_holes_total l addrs :
  Peers.peers_ok (acceptors l) addrs → ∃ out, learner_check_holes l = Ret out.
Proof.
  intros Hok. unfold learner_check_holes. destruct (learner_has_holes (state l)) as [[from to]|]; [|eauto].
  destruct (hole_range from to) as [f t]. by eapply repeat_loop_total.
Qed.

Lemma handle_ack_acceptors l aa l' ds :
  learner_handle_accept_ack l aa = Ret (l', ds) → acceptors l' = acceptors l.
Proof.
  unfold learner_handle_accept_ack, learner_deliver_next_closed. intros E.
  apply bind_inv in E as (st & _ & E). by apply bind_inv in E as ([st' ds'] & _ & [= <- _]).
Qed.

(** ** Proposers

The handlers leave the connections to clients alone. *)

Lemma accept_loop_receiver k q q' o :
  accept_loop k q = Ret (q', o) → EvProposer.receiver q' = EvProposer.receiver q.
Proof.
  revert q o. induction k as [|k IH]; intros q o E; simpl in E; [done|].
  apply bind_inv in E as ([st [ar|]] & _ & E); [|by injection E as <- _].
  apply bind_inv in E as (out & _ & E). apply bind_inv in E as ([q2 o2] & E2 & [= <- _]).
  by rewrite (IH _ _ E2).
Qed.

Lemma preexecute_loop_receiver e k i q q' o :
  preexecute_loop e k i q = Ret (q', o) → EvProposer.receiver q' = EvProposer.receiver q.
Proof.
  revert i q o. induction k as [|k IH]; intros i q o E; simpl in E; [by injection E as <- _|].
  apply bind_inv in E as ([st pr] & _ & E). apply bind_inv in E as (out & _ & E).
  apply bind_inv in E as ([q2 o2] & E2 & [= <- _]). by rewrite (IH _ _ _ E2).
Qed.

Lemma preexecute_receiver e q q' o :
  proposer_preexecute e q = Ret (q', o) → EvProposer.receiver q' = EvProposer.receiver q.
Proof.
  unfold proposer_preexecute. intros E. apply bind_inv in E as (c & _ & E).
  case_Z; [by injection E as <- _|by eapply preexecute_loop_receiver].
Qed.

Lemma try_accept_receiver e q q' o :
  try_accept e q = Ret (q', o) → EvProposer.receiver q' = EvProposer.receiver q.
Proof.
  unfold try_accept. intros E. apply bind_inv in E as ([q1 o1] & E1 & E).
  apply bind_inv in E as ([q2 o2] & E2 & [= <- _]).
  by rewrite (preexecute_receiver _ _ _ _ E2), (accept_loop_receiver _ _ _ _ E1).
Qed.

Lemma handle_message_receiver t e q m q' o :
  EvProposer.handle_message t e q m = Ret (q', o) → EvProposer.receiver q' = EvProposer.receiver q.
Proof.
  intros E. destruct m as [r|ack|r|ack|iid|v]; simpl in E; try (by injection E as <- _).
  - apply bind_inv in E as ([q1 o1] & E1 & E). apply bind_inv in E as ([q2 o2] & E2 & [= <- _]).
    rewrite (try_accept_receiver _ _ _ _ E2). unfold proposer_handle_prepare_ack in E1.
    apply bind_inv in E1 as ([st [pr|]] & _ & E1); [|by injection E1 as <- _].
    by apply bind_inv in E1 as (out & _ & [= <- _]).
  - apply bind_inv in E as ([q1 o1] & E1 & E). apply bind_inv in E as ([q2 o2] & E2 & [= <- _]).
    rewrite (try_accept_receiver _ _ _ _ E2). unfold proposer_handle_accept_ack in E1.
    apply bind_inv in E1 as ([st [pr|]] & _ & E1); [|by injection E1 as <- _].
    by apply bind_inv in E1 as (out & _ & [= <- _]).
  - apply bind_inv in E as (q1 & E1 & E). rewrite (try_accept_receiver _ _ _ _ E).
    by apply bind_inv in E1 as (st & _ & [= <-]).
Qed.

Lemma timeout_loops_receiver conf k :
  (∀ q it q' it' o, timeout_prepare_loop conf k q it = Ret (q', it', o) →
     EvProposer.receiver q' = EvProposer.receiver q) ∧
  (∀ q it q' it' o, timeout_accept_loop conf k q it = Ret (q', it', o) →
     EvProposer.receiver q' = EvProposer.receiver q).
Proof.
  induction k as [|k [IH1 IH2]]; [done|].
  split; intros q it q' it' o E; simpl in E;
    (apply bind_inv in E as ([[st it1] [r|]] & _ & E); [|by injection E as <- _ _]);
    apply bind_inv in E as (out & _ & E); apply bind_inv in E as ([[q2 it2] o2] & E2 & [= <- _ _]).
  - by rewrite (IH1 _ _ _ _ _ E2).
  - by rewrite (IH2 _ _ _ _ _ E2).
Qed.

Lemma check_timeouts_receiver conf t q q' o :
  proposer_check_timeouts conf t q = Ret (q', o) → EvProposer.receiver q' = EvProposer.receiver q.
Proof.
  unfold proposer_check_timeouts. intros E. apply bind_inv in E as ([[q1 it1] o1] & E1 & E).
  apply bind_inv in E as ([[q2 it2] o2] & E2 & [= <- _]).
  rewrite (proj2 (timeout_loops_receiver conf _) _ _ _ _ _ E2).
  apply (proj1 (timeout_loops_receiver conf _) _ _ _ _ _ E1).
Qed.

(** ** Events that may happen *)

Section run.
Context (es : list entry) (p : paxos_config) (lo t0 : Z).
Let file : option bytes := Some (print_config es).
Let acs : list address := omap entry_acceptor es.
Let n : Z := Z.of_nat (length acs).
Let cfg : paxos_config := foldl (flip entry_option) p es.
Let W : Z := proposer_preexec_window cfg.

(** Messages arrive if they were sent; the clocks stay within 2000 seconds of
[t0]; requests are for instances the tables have room for; an accept
acknowledgement with a ballot of the proposer it reaches is a vote; a learner
is given votes for instances its [int] arithmetic reaches.  An acceptor that
restarts has lost its table and is left out. *)
Definition allowed (ev : event (S:=storage_mem)) (c : cluster (S:=storage_mem)) : Prop :=
  match ev with
  | Submit value => value ≠ []
  | AcceptorMsg _ _ m => m ∈ c_net c ∧ ∀ q, request_of m = Some q → storable lo q
  | AcceptorRestart _ _ => False
  | ProposerMsg id t e m => m ∈ c_net c ∧ in_window t0 t ∧ (∀ i, in_window t0 (now e i)) ∧
      ∀ k, m = MAcceptAck k → vote_for id k
  | ProposerTimeout _ t => in_window t0 t
  | ProposerPreexec _ e => ∀ i, in_window t0 (now e i)
  | LearnerMsg _ k => MAcceptAck k ∈ c_net c ∧ aa_ballot k = aa_value_ballot k ∧
      aa_iid k + learner_instances cfg ≤ INT_MAX
  | _ => True
  end.

(** What one event adds to the counters of a proposer at most. *)
Definition step_cost : Z := 3 + 2 * W.

(** Every node is in order; [K] bounds the counters of its proposers and the
connections. *)
Record cl_live (K : Z) (c : cluster (S:=storage_mem)) : Prop := {
  cv_acceptors : ∀ id v, c_acceptors c !! id = Some v → anode_ok id lo K v;
  cv_proposers : ∀ id q, c_proposers c !! id = Some q →
    steady n id t0 W acs K q ∧ receiver_ok K (EvProposer.receiver q);
  cv_learners : ∀ id x, c_learners c !! id = Some x → Peers.peers_ok (acceptors (ln_learner x)) acs;
}.

Lemma anode_ok_mono id M M' v : anode_ok id lo M v → M ≤ M' → anode_ok id lo M' v.
Proof using Type. intros [Hr Hst] HM. split; [|done]. by eapply receiver_ok_mono. Qed.

Lemma live_mono K K' c : cl_live K c → K ≤ K' → cl_live K' c.
Proof using Type.
  intros [Ha Hp Hl] HK. split; [|intros id q Hq; destruct (Hp id q Hq); split|done].
  - intros id v Hv. by eapply anode_ok_mono; [apply Ha|].
  - by eapply steady_mono.
  - by eapply receiver_ok_mono.
Qed.

Lemma live_put_acceptor K c id v out :
  cl_live K c → anode_ok id lo K v → cl_live K (put_acceptor id v out c).
Proof using Type.
  intros [Ha Hp Hl] Hv. split; simpl; [|done..].
  intros id' v' [[<- <-]|[_ Hv']]%lookup_insert_Some; auto.
Qed.

Lemma live_put_proposer K c id q out :
  cl_live K c → steady n id t0 W acs K q → receiver_ok K (EvProposer.receiver q) →
  cl_live K (put_proposer id q out c).
Proof using Type.
  intros [Ha Hp Hl] Hq Hr. split; simpl; [done| |done].
  intros id' q' [[<- <-]|[_ Hq']]%lookup_insert_Some; auto.
Qed.

Lemma live_put_learner K c id x :
  cl_live K c → Peers.peers_ok (acceptors (ln_learner x)) acs → cl_live K (put_learner id x c).
Proof using Type.
  intros [Ha Hp Hl] Hx. split; simpl; [done..|].
  intros id' x' [[<- <-]|[_ Hx']]%lookup_insert_Some; eauto.
Qed.

Lemma live_put_messages K c out : cl_live K c → cl_live K (put_messages out c).
Proof using Type. by intros [Ha Hp Hl]. Qed.

Lemma at_node_live {X} K c (nodes : gmap Z X) id f :
  cl_live K c → (∀ x, nodes !! id = Some x → ∃ c', f x = Ret c' ∧ cl_live K c') →
  ∃ c', at_node nodes id c f = Ret c' ∧ cl_live K c'.
Proof using Type. intros Hc Hf. unfold at_node. destruct (nodes !! id) as [x|]; eauto. Qed.

Section step.
Context (c : cluster (S:=storage_mem)) (s : system storage_mem) (K : Z).
Hypothesis n_ok : 1 ≤ n ≤ INT_MAX.
Hypothesis window_ok : 0 < learner_instances cfg ≤ INT_MAX.
Hypothesis W_pos : 0 ≤ W.
Hypothesis K_pos : 0 ≤ K.
Hypothesis K_small : 3 * (K + step_cost) < 2 ^ 26.
Hypothesis R : cl_rel n cfg c s.
Hypothesis L : cl_live K c.

Lemma cl_request m q : m ∈ c_net c → request_of m = Some q → request_ok q.
Proof using n_ok R.
  intros Hm Hq. pose proof (sys_inv_reachable n n_ok s (cr_reach _ _ _ _ R)) as I.
  destruct (cr_net _ _ _ _ R m Hm) as [Hin|(iid & -> & Hi)]; [|by injection Hq as <-].
  destruct m as [r|k|r|k|iid|v]; try done; injection Hq as <-; unfold request_ok, is_u32; simpl.
  - destruct (sk_prep _ (iv_ok _ _ I) r Hin). lia.
  - destruct (sk_req _ (iv_ok _ _ I) r Hin) as (? & ? & _). lia.
  - by apply (sk_repeat _ (iv_ok _ _ I)) in Hin.
Qed.

Lemma cl_ack_wf m id :
  m ∈ c_net c → (∀ k, m = MAcceptAck k → vote_for id k) → ack_wf n id m.
Proof using n_ok R.
  intros Hm Hv. pose proof (cr_reach _ _ _ _ R) as Hr.
  assert (∀ a, is_Some (sys_acceptors s !! a) → 0 ≤ a < n) as Hids.
  { intros a [A HA]. rewrite (cr_acceptors _ _ _ _ R) in HA. apply (cr_ids _ _ _ _ R).
    apply lookup_omap_Some in HA as (x & _ & ->). by eexists. }
  destruct (cr_net _ _ _ _ R m Hm) as [Hin|(iid & -> & _)]; [|done].
  destruct m as [r|k|r|k|iid|v]; try done; simpl.
  - apply Hids. by apply (reachable_promises n n_ok s Hr).
  - split; [|by apply Hv]. apply Hids. by apply (iv_from _ _ (sys_inv_reachable n n_ok s Hr)).
Qed.

Lemma live_may_run id : may_run id c.
Proof using W_pos K_small L K_pos.
  intros q Hq. destruct (cv_proposers _ _ L id q Hq) as [HS _].
  eapply steady_budget; [exact W_pos| |exact HS]. unfold step_cost in K_small. lia.
Qed.

(** What is allowed is enabled in the sense of [EvCluster]. *)
Lemma allowed_enabled ev : allowed ev c → enabled cfg ev c.
Proof using W_pos K_small L K_pos.
  pose proof live_may_run as Hrun. clear n_ok window_ok R. unfold enabled.
  destruct ev; simpl; try done; intuition auto.
Qed.

(** Every event that is allowed is handled, and leaves every node in order. *)
Lemma live_step ev : allowed ev c → ∃ c', handle cfg ev c = Ret c' ∧ cl_live (K + step_cost) c'.
Proof using n_ok window_ok W_pos K_small L K_pos R.
  assert (0 ≤ step_cost ∧ K + 1 ≤ K + step_cost ∧ K + 2 * W ≤ K + step_cost) as (HC & HC1 & HC2)
    by (unfold step_cost; lia).
  assert (cl_live (K + step_cost) c) as L' by (eapply live_mono; [exact L|lia]).
  assert (K < 2 ^ 26 ∧ K + 3 + 2 * W < 2 ^ 26 ∧ K + 2 * W < 2 ^ 28 ∧ K < 2 ^ 28) as (HK1 & HK2 & HK3 & HK4)
    by (unfold step_cost in *; lia).
  destruct ev as [v|id from m|id e|id a|id t e m|id t|id e|id e|id i e|id k|id|id i e]; simpl.
  - intros _. eexists. split; [done|]. by apply live_put_messages.
  - intros [Hm Hq]. apply at_node_live; [done|]. intros v Hv.
    destruct (acceptor_msg_live id lo K v from m (cv_acceptors _ _ L id v Hv)) as (v' & out & -> & Hok); [|lia|].
    + intros q Eq. split; [by eapply cl_request|]. by apply Hq.
    + simpl. eexists. split; [done|]. apply live_put_acceptor; [done|]. eapply anode_ok_mono; [exact Hok|lia].
  - intros _. apply at_node_live; [done|]. intros v Hv. destruct (cv_acceptors _ _ L id v Hv) as [Hr Hst].
    destruct (receiver_ok_step K _ e ltac:(lia) Hr) as (r' & -> & Hr'). simpl. eexists. split; [done|].
    apply live_put_acceptor; [done|]. split; [|done]. eapply receiver_ok_mono; [exact Hr'|lia].
  - done.
  - intros (Hm & Ht & He & Hv). apply at_node_live; [done|]. intros q Hq.
    destruct (cv_proposers _ _ L id q Hq) as [HS Hr].
    destruct (handle_message_steady n id t0 W acs W_pos t e m K q) as (q' & o & E & HS');
      [|lia|exact HS|].
    { split; [done|]. split; [done|]. by apply cl_ack_wf. }
    rewrite E. simpl. eexists. split; [done|]. apply live_put_proposer; [done| |].
    + unfold step_cost. by rewrite Z.add_assoc.
    + rewrite (handle_message_receiver _ _ _ _ _ _ E). eapply receiver_ok_mono; [exact Hr|lia].
  - intros Ht. apply at_node_live; [done|]. intros q Hq. destruct (cv_proposers _ _ L id q Hq) as [HS Hr].
    destruct (check_timeouts_steady cfg n id t0 W acs t K q Ht ltac:(lia) HS) as (q' & o & E & HS').
    rewrite E. simpl. eexists. split; [done|]. apply live_put_proposer; [done| |].
    + eapply steady_mono; [exact HS'|lia].
    + rewrite (check_timeouts_receiver _ _ _ _ _ E). eapply receiver_ok_mono; [exact Hr|lia].
  - intros He. apply at_node_live; [done|]. intros q Hq. destruct (cv_proposers _ _ L id q Hq) as [HS Hr].
    destruct (preexecute_steady n id t0 W acs W_pos e K q He ltac:(lia) HS) as (q' & o & E & HS').
    rewrite E. simpl. eexists. split; [done|]. apply live_put_proposer; [done| |].
    + eapply steady_mono; [exact HS'|lia].
    + rewrite (preexecute_receiver _ _ _ _ E). eapply receiver_ok_mono; [exact Hr|lia].
  - intros _. apply at_node_live; [done|]. intros q Hq. destruct (cv_proposers _ _ L id q Hq) as [HS Hr].
    destruct (receiver_ok_step K _ e ltac:(lia) Hr) as (r' & -> & Hr'). simpl. eexists. split; [done|].
    apply live_put_proposer; [done| |]; simpl.
    + destruct HS as [(k & vs & ps & acs' & H & ? & ?) ? ?]. split; [|done..].
      exists k, vs, ps, acs'. split; [done|]. lia.
    + eapply receiver_ok_mono; [exact Hr'|lia].
  - intros _. apply at_node_live; [done|]. intros q Hq. destruct (cv_proposers _ _ L id q Hq) as [HS Hr].
    eexists. split; [done|]. apply live_put_proposer; [done| |]; simpl.
    + destruct HS as [(k & vs & ps & acs' & H & ? & ?) ? ?]. split; [|by apply Peers.peers_step_ok|done].
      exists k, vs, ps, acs'. split; [done|]. lia.
    + eapply receiver_ok_mono; [exact Hr|lia].
  - intros (Hk & Hb & Hroom). destruct (cl_learner_returns n cfg n_ok c s id k R Hk Hb Hroom) as [c' E].
    exists c'. split; [exact E|]. simpl in E. unfold at_node in E.
    destruct (c_learners c !! id) as [x|] eqn:Ex; [|by injection E as <-].
    apply bind_inv in E as ([l ds] & El & [= <-]). apply live_put_learner; [done|]. simpl.
    rewrite (handle_ack_acceptors _ _ _ _ El). by apply (cv_learners _ _ L id).
  - intros _. apply at_node_live; [done|]. intros x Ex.
    destruct (check_holes_total _ _ (cv_learners _ _ L id x Ex)) as [out ->]. simpl. eexists. split; [done|].
    by apply live_put_messages.
  - intros _. apply at_node_live; [done|]. intros x Ex. eexists. split; [done|].
    apply live_put_learner; [done|]. simpl. apply Peers.peers_step_ok. by apply (cv_learners _ _ L id).
Qed.

End step.

(** ** From the configuration file *)

Lemma start_live c : cl_start es p c → 0 ≤ W → cl_live 0 c.
Proof using Type.
  intros Hs HW. destruct (cl_start_rel es p c Hs) as [n_ok _]. fold acs in n_ok. fold n in n_ok.
  destruct Hs as [Hf Hw [Ha Hp] Hl _]. destruct (file_read es p Hf) as (cf & Ec & Rc).
  fold cfg in Ec. fold acs in Rc. split.
  - intros id v Hv. destruct (Ha id v Hv) as (st & p' & Hst & Hi). unfold evacceptor_init in Hi.
    rewrite Ec in Hi. simpl in Hi. apply bind_inv in Hi as (o & Hi & [= _ ->]).
    destruct (evacceptor_init_inv cf _ _ id true (Some st) v Rc Hi) as [Hid Est].
    unfold evacceptor_init_conf in Hi. destruct (_ || _); [done|].
    apply bind_inv in Hi as (a & _ & Hi). apply bind_inv in Hi as (r & Er & [= <-]).
    destruct (receiver_new a) as (r' & Er' & Hr). rewrite Er in Er'. injection Er' as <-.
    split; [exact Hr|]. exists (Acceptor st), ∅. split; [exact Est|]. split; [exact Hst|].
    intros iid [? Hx]. by rewrite lookup_empty in Hx.
  - intros id q Hq. destruct (Hp id q Hq) as (nb & p' & Hi). unfold evproposer_init in Hi.
    rewrite Ec in Hi. simpl in Hi. apply bind_inv in Hi as (o & Hi & [= _ ->]).
    destruct (evproposer_init_inv _ cf _ _ id true nb q Rc Hi) as [Hid _].
    destruct (evproposer_init_ok cfg cf acs _ id nb Rc) as (q' & Hi' & En & Hpe & HWq); [|exact Hid|].
    { exact (proj2 (fo_acceptors _ Hf)). }
    rewrite Hi in Hi'. injection Hi' as <-. split.
    + fold n in En. fold cfg in HWq. fold W in HWq. rewrite <-HWq. by apply new_steady.
    + unfold evproposer_init_conf in Hi. destruct (_ || _); [done|].
      apply bind_inv in Hi as (a & _ & Hi). apply bind_inv in Hi as (r & Er & Hi).
      apply bind_inv in Hi as (ps & _ & Hi). apply bind_inv in Hi as (st & _ & [= <-]). simpl.
      destruct (receiver_new a) as (r' & Er' & Hr). rewrite Er in Er'. by injection Er' as <-.
  - intros id x Hx. destruct (Hl id x Hx) as (_ & nb & p' & Hi). unfold evlearner_init in Hi.
    rewrite Ec in Hi. simpl in Hi. apply bind_inv in Hi as (l & Hi & [= _ ->]).
    destruct (evlearner_init_ok cfg cf acs _ nb Rc) as (l' & El & _ & _ & Hok & _); [exact n_ok|exact Hw|].
    rewrite Hi in El. by injection El as ->.
Qed.

(** One allowed event: it is a step of [EvCluster], and every node stays in order. *)
Lemma allowed_step c K s ev :
  1 ≤ n ≤ INT_MAX → 0 < learner_instances cfg ≤ INT_MAX → 0 ≤ W → 0 ≤ K → 3 * (K + step_cost) < 2 ^ 26 →
  cl_rel n cfg c s → cl_live K c → allowed ev c →
  ∃ c' s', handle cfg ev c = Ret c' ∧ cl_step cfg c c' ∧ cl_rel n cfg c' s' ∧ cl_live (K + step_cost) c'.
Proof using Type.
  intros Hn Hw HW HK HKs R L Ha. destruct (live_step c s K Hn Hw HW HK HKs R L ev Ha) as (c' & E & L').
  assert (cl_step cfg c c') as Hst.
  { apply cl_step_enabled. exists ev. split; [|done]. by apply (allowed_enabled c K). }
  destruct (cl_rel_step n cfg Hn Hw c s c' R Hst) as [s' R']. by exists c', s'.
Qed.

(** ** Ordered runs

Connections keep the order of what is sent on them.  [owner aid from] is the
proposer at the other end of connection [from] of acceptor [aid], if there is
one; the others are those of learners.  A trace is the list of events so far,
newest first, each with what the node sent. *)

Context (owner : Z → bufferevent → option Z).

Definition trace : Type := list (event (S:=storage_mem) * sends).

Definition node_sends (ev : event (S:=storage_mem)) (c : cluster (S:=storage_mem)) : sends :=
  match ev with
  | AcceptorMsg id from m =>
      match c_acceptors c !! id with
      | Some a => (from_ret (a, []) (EvAcceptor.handle_message from a m)).2
      | None => []
      end
  | ProposerMsg id t e m =>
      match c_proposers c !! id with
      | Some q => (from_ret (q, []) (EvProposer.handle_message t e q m)).2
      | None => []
      end
  | ProposerTimeout id t =>
      match c_proposers c !! id with
      | Some q => (from_ret (q, []) (proposer_check_timeouts cfg t q)).2
      | None => []
      end
  | ProposerPreexec id e =>
      match c_proposers c !! id with
      | Some q => (from_ret (q, []) (proposer_preexecute e q)).2
      | None => []
      end
  | _ => []
  end.

Definition proposer_of (ev : event (S:=storage_mem)) : option Z :=
  match ev with
  | ProposerMsg id _ _ _ | ProposerTimeout id _ | ProposerPreexec id _ => Some id
  | _ => None
  end.

Definition heard_by (ev : event (S:=storage_mem)) (aid : Z) : option (bufferevent * message) :=
  match ev with
  | AcceptorMsg id from m => if decide (id = aid) then Some (from, m) else None
  | _ => None
  end.

(** What proposer [pid] sent, newest first; what acceptor [aid] received, newest
first, with the connection, and what it sent. *)
Definition sent_by (tr : trace) (pid : Z) : list message :=
  x ← tr; if decide (proposer_of x.1 = Some pid) then reverse (snd <$> x.2) else [].

Definition heard (tr : trace) (aid : Z) : list (bufferevent * message) :=
  omap (λ x, heard_by x.1 aid) tr.

Definition said (tr : trace) (aid : Z) : sends :=
  x ← tr; match heard_by x.1 aid with Some _ => x.2 | None => [] end.

Definition mine (aid pid : Z) (from : bufferevent) : Prop := owner aid from = Some pid.

#[local] Instance mine_dec aid pid from : Decision (mine aid pid from).
Proof using Type. unfold mine. apply _. Defined.

(** The network.  A message arrives only if it was sent.  A connection belongs to
one peer for good.  The requests that reach
an acceptor on the connections of a proposer are some of those it sent, in that
order; on other connections only repeat requests come.  An answer reaches a
proposer only if an acceptor sent it on a connection of that proposer, then any
number of times and in any order.  Nothing is said of what else is lost or
delayed.  An acceptor that restarts has lost its table, and is left out. *)
Definition arrives (tr : trace) (ev : event (S:=storage_mem)) (c : cluster (S:=storage_mem)) : Prop :=
  match ev with
  | AcceptorMsg aid from m => m ∈ c_net c ∧
      match owner aid from with
      | Some pid => asked (mine aid pid) ((from, m) :: heard tr aid) `sublist_of` sent_by tr pid
      | None => ∃ iid, m = MRepeatReq iid
      end
  | AcceptorRestart _ _ => False
  | ProposerMsg id _ _ m => m ∈ c_net c ∧
      ∀ k, m = MAcceptAck k → ∃ aid from, owner aid from = Some id ∧ (from, m) ∈ said tr aid
  | LearnerMsg _ k => MAcceptAck k ∈ c_net c
  | _ => True
  end.

(** Clients submit values of 1 to 8160 bytes, what the record buffers hold. *)
Definition small_values (ev : event (S:=storage_mem)) : Prop :=
  match ev with Submit value => value ≠ [] ∧ value_size value ≤ 8160 | _ => True end.

(** Acceptors are asked for instances of one window of [MAX_RECORDS]. *)
Definition in_table (ev : event (S:=storage_mem)) : Prop :=
  match ev with
  | AcceptorMsg _ _ m => ∀ q, request_of m = Some q → Storages.in_window lo (request_iid q)
  | _ => True
  end.

(** The clocks of proposers stay within 2000 seconds of [t0]. *)
Definition on_time (ev : event (S:=storage_mem)) : Prop :=
  match ev with
  | ProposerMsg _ t e _ => in_window t0 t ∧ ∀ i, in_window t0 (now e i)
  | ProposerTimeout _ t => in_window t0 t
  | ProposerPreexec _ e => ∀ i, in_window t0 (now e i)
  | _ => True
  end.

(** Learners are given votes, for instances their [int] arithmetic reaches. *)
Definition learnable (ev : event (S:=storage_mem)) : Prop :=
  match ev with
  | LearnerMsg _ k => aa_ballot k = aa_value_ballot k ∧ aa_iid k + learner_instances cfg ≤ INT_MAX
  | _ => True
  end.

Definition may_happen (tr : trace) (ev : event (S:=storage_mem)) (c : cluster (S:=storage_mem)) : Prop :=
  arrives tr ev c ∧ small_values ev ∧ in_table ev ∧ on_time ev ∧ learnable ev.

Inductive ordered_run (c0 : cluster (S:=storage_mem)) : trace → cluster (S:=storage_mem) → Prop :=
  | or_start : ordered_run c0 [] c0
  | or_step tr c ev c' :
      ordered_run c0 tr c → may_happen tr ev c → handle cfg ev c = Ret c' →
      ordered_run c0 ((ev, node_sends ev c) :: tr) c'.

(** The trace of some events and the cluster after them, for concrete runs. *)
Fixpoint trace_of (evs : list (event (S:=storage_mem))) (tr : trace) (c : cluster (S:=storage_mem))
    : res (trace * cluster (S:=storage_mem)) :=
  match evs with
  | [] => Ret (tr, c)
  | ev :: evs' => c' ← handle cfg ev c; trace_of evs' ((ev, node_sends ev c) :: tr) c'
  end.

Fixpoint all_happen (c0 : cluster (S:=storage_mem)) (evs : list (event (S:=storage_mem)))
    (tr : trace) (c : cluster (S:=storage_mem)) : Prop :=
  match evs with
  | [] => True
  | ev :: evs' => may_happen tr ev c ∧
      all_happen c0 evs' ((ev, node_sends ev c) :: tr) (from_ret c0 (handle cfg ev c))
  end.

Lemma trace_of_run c0 evs tr c tr' c' :
  ordered_run c0 tr c → all_happen c0 evs tr c → trace_of evs tr c = Ret (tr', c') → ordered_run c0 tr' c'.
Proof using Type.
  revert tr c. induction evs as [|ev evs IH]; intros tr c Hr Ha E; simpl in E; [by injection E as <- <-|].
  apply bind_inv in E as (c1 & Hh & E). destruct Ha as [Hev Ha]. rewrite Hh in Ha.
  eapply IH; [|exact Ha|exact E]. by apply or_step.
Qed.

(** *** One more event *)

Lemma sent_by_cons ev o tr pid :
  sent_by ((ev, o) :: tr) pid =
    (if decide (proposer_of ev = Some pid) then reverse (snd <$> o) else []) ++ sent_by tr pid.
Proof using Type. done. Qed.

Lemma heard_cons ev o tr aid :
  heard ((ev, o) :: tr) aid = from_option (.:: heard tr aid) (heard tr aid) (heard_by ev aid).
Proof using Type. unfold heard. simpl. by destruct (heard_by ev aid). Qed.

Lemma said_cons ev o tr aid :
  said ((ev, o) :: tr) aid = (if heard_by ev aid then o else []) ++ said tr aid.
Proof using Type. unfold said. simpl. by destruct (heard_by ev aid). Qed.

(** The requests of a proposer are its own and in order; what an acceptor got on
the connections of one is part of them; its answers there are votes. *)
Record ordered_inv (tr : trace) (c : cluster (S:=storage_mem)) : Prop := {
  ov_order : ∀ pid, in_order (sent_by tr pid) ∧ Forall (owned pid) (sent_by tr pid);
  ov_sent : ∀ pid q, c_proposers c !! pid = Some q → order_ok (sent_by tr pid) (view (EvProposer.state q));
  ov_asked : ∀ aid pid, asked (mine aid pid) (heard tr aid) `sublist_of` sent_by tr pid;
  ov_inputs : ∀ aid pid, inputs_ok (mine aid pid) pid (heard tr aid);
  ov_acceptors : ∀ aid a pid, c_acceptors c !! aid = Some a →
    answers_ok aid (mine aid pid) pid (heard tr aid) (said tr aid) a;
  ov_votes : ∀ aid pid from k, mine aid pid from → (from, MAcceptAck k) ∈ said tr aid → vote_for pid k;
  ov_submits : ∀ v, MSubmit v ∈ c_net c → mem_fits v = true;
}.

Lemma no_node_sends ev c pid :
  proposer_of ev = Some pid → c_proposers c !! pid = None → node_sends ev c = [].
Proof using Type. destruct ev; try done; simpl; intros [= ->] ->; done. Qed.

(** An event of which no acceptor and no proposer hears. *)
Lemma ordered_quiet tr c ev c' :
  ordered_inv tr c → proposer_of ev = None → (∀ aid, heard_by ev aid = None) →
  (∀ aid a', c_acceptors c' !! aid = Some a' →
     ∃ a, c_acceptors c !! aid = Some a ∧ EvAcceptor.state a' = EvAcceptor.state a) →
  (∀ pid q', c_proposers c' !! pid = Some q' →
     ∃ q, c_proposers c !! pid = Some q ∧ EvProposer.state q' = EvProposer.state q) →
  (∀ v, MSubmit v ∈ c_net c' → mem_fits v = true) →
  ordered_inv ((ev, node_sends ev c) :: tr) c'.
Proof using Type.
  intros [Ho Hs Ha Hi Hac Hv _] Hp Hh Hc Hq Hn.
  assert (∀ pid, sent_by ((ev, node_sends ev c) :: tr) pid = sent_by tr pid) as E1
    by (intros pid; by rewrite sent_by_cons, Hp).
  assert (∀ aid, heard ((ev, node_sends ev c) :: tr) aid = heard tr aid) as E2
    by (intros aid; by rewrite heard_cons, Hh).
  assert (∀ aid, said ((ev, node_sends ev c) :: tr) aid = said tr aid) as E3
    by (intros aid; by rewrite said_cons, Hh).
  split; intros *; rewrite ?E1, ?E2, ?E3; auto.
  - intros (q' & Hq' & ->)%Hq. by apply Hs.
  - intros (a' & Ha' & E)%Hc. destruct (Hac aid a' pid Ha') as [H1 H2]. split; [by rewrite E|done].
  - apply Hv.
Qed.

(** An event of proposer [pid] that sends [o]. *)
Lemma ordered_proposer tr c ev pid q k0 q' o :
  ordered_inv tr c → proposer_of ev = Some pid → (∀ aid, heard_by ev aid = None) →
  c_proposers c !! pid = Some q → pinv n (EvProposer.state q) → p_id (EvProposer.state q) = pid →
  in_budget k0 q → handles_event any_msg q q' o →
  ordered_inv ((ev, o) :: tr) (put_proposer pid q' o c).
Proof using Type.
  intros [Ho Hs Ha Hi Hac Hv Hn] Hp Hh Hq I Hid Hb He.
  destruct (event_does n any_msg k0 q q' o I Hb He) as (N & D & HN).
  destruct (does_ordered _ n N q o q' k0 _ I (proj1 Hb) HN (Hs pid q Hq) D) as [O F]. rewrite Hid in F.
  assert (∀ aid, heard ((ev, o) :: tr) aid = heard tr aid) as E2 by (intros aid; by rewrite heard_cons, Hh).
  assert (∀ aid, said ((ev, o) :: tr) aid = said tr aid) as E3 by (intros aid; by rewrite said_cons, Hh).
  assert (∀ j, j ≠ pid → sent_by ((ev, o) :: tr) j = sent_by tr j) as E1.
  { intros j Hj. rewrite sent_by_cons, decide_False by congruence. done. }
  assert (sent_by ((ev, o) :: tr) pid = reverse (snd <$> o) ++ sent_by tr pid) as Epid.
  { by rewrite sent_by_cons, decide_True. }
  split; intros *; rewrite ?E2, ?E3; auto; cbn [c_acceptors c_proposers c_net put_proposer].
  - destruct (decide (pid0 = pid)) as [->|Hj]; [|by rewrite E1]. rewrite Epid. split; [apply O|].
    apply Forall_app. split; [by apply Forall_reverse|apply Ho].
  - intros [[<- <-]|[Hne Hq']]%lookup_insert_Some; [by rewrite Epid|]. rewrite E1 by done. by apply Hs.
  - destruct (decide (pid0 = pid)) as [->|Hj]; [|by rewrite E1]. rewrite Epid. by apply sublist_inserts_l.
  - apply Hv.
  - intros [Hin|?]%elem_of_app; [|auto]. rewrite Forall_forall in F. by apply F in Hin.
Qed.

Lemma acceptor_no_submit from (a : evacceptor storage_mem) m a' out v :
  EvAcceptor.handle_message from a m = Ret (a', out) → MSubmit v ∉ snd <$> out.
Proof using Type.
  intros Hh ([c' m'] & E & Hx)%list_elem_of_fmap. simpl in E. subst m'. destruct m; simpl in Hh; try (injection Hh as <- <-; by apply not_elem_of_nil in Hx).
  - unfold handle_prepare_req in Hh. destruct (EvAcceptor.state a); [|done]. inv_res.
    by apply list_elem_of_singleton in Hx.
  - unfold handle_accept_req in Hh. destruct (EvAcceptor.state a); [|done]. inv_res.
    revert Hh. case_Z; intros Hh; inv_res.
    + by eapply send_each_inv in Hx; [|eassumption].
    + by apply list_elem_of_singleton in Hx.
  - unfold handle_repeat_req in Hh. destruct (EvAcceptor.state a); [|done]. inv_res.
    destruct o; inv_res; [by apply list_elem_of_singleton in Hx|by apply not_elem_of_nil in Hx].
Qed.

Lemma holes_no_submit l out v : learner_check_holes l = Ret out → MSubmit v ∉ snd <$> out.
Proof using Type.
  unfold learner_check_holes. destruct (learner_has_holes _) as [[from to]|]; [|by intros [= <-] ?%not_elem_of_nil].
  destruct (hole_range from to) as [f t]. generalize (Z.to_nat (t - f)) as k. intros k. revert f out.
  induction k as [|k IH]; intros f out; simpl; [by intros [= <-] ?%not_elem_of_nil|].
  intros E. apply bind_inv in E as (o & E1 & E). apply bind_inv in E as (o2 & E2 & [= <-]).
  rewrite fmap_app. intros [(x & E & Hx)%list_elem_of_fmap|Hx]%elem_of_app.
  - by rewrite (send_each_inv _ _ _ _ _ E1 Hx) in E.
  - by apply IH in E2.
Qed.

(** A request reaches acceptor [aid]. *)
Lemma arrives_inputs tr c aid from m :
  ordered_inv tr c → arrives tr (AcceptorMsg aid from m) c →
  (∀ iid, m = MRepeatReq iid → 0 < iid < UINT32_MOD) → ∀ pid,
  inputs_ok (mine aid pid) pid ((from, m) :: heard tr aid) ∧
  asked (mine aid pid) ((from, m) :: heard tr aid) `sublist_of` sent_by tr pid.
Proof using Type.
  intros [Ho Hs Ha Hi Hac Hv Hn] [_ Harr] Hr pid. split.
  - intros c' m' [[= -> ->]|Hin]%elem_of_cons; [|by apply Hi].
    unfold mine in *. destruct (owner aid from) as [j|] eqn:Eo.
    + assert (owned j m) as Hj.
      { destruct (Ho j) as [_ HF]. rewrite Forall_forall in HF. apply HF. eapply elem_of_sublist; [|exact Harr].
        rewrite asked_cons, decide_True by done. by left. }
      split; [intros [= ->]; done|]. intros Hne. assert (j ≠ pid) by congruence.
      destruct m; simpl in *; try done; by exists j.
    + split; [done|]. intros _. destruct Harr as [iid ->]. simpl. by apply Hr.
  - destruct (decide (mine aid pid from)) as [Hm|Hm].
    + unfold mine in Hm. by rewrite Hm in Harr.
    + rewrite asked_cons, decide_False by done. apply Ha.
Qed.

(** A message for acceptor [aid], if there is one. *)
Lemma ordered_acceptor tr c aid from m c' :
  ordered_inv tr c → arrives tr (AcceptorMsg aid from m) c →
  (∀ iid, m = MRepeatReq iid → 0 < iid < UINT32_MOD) →
  handle cfg (AcceptorMsg aid from m) c = Ret c' →
  ordered_inv ((AcceptorMsg aid from m, node_sends (AcceptorMsg aid from m) c) :: tr) c'.
Proof using Type.
  intros V Harr Hr Hh. set (ev := AcceptorMsg aid from m). set (o := node_sends ev c).
  pose proof (arrives_inputs tr c aid from m V Harr Hr) as Hin. destruct V as [Ho Hs Ha Hi Hac Hv Hn].
  assert (∀ pid, sent_by ((ev, o) :: tr) pid = sent_by tr pid) as E1 by (intros pid; by rewrite sent_by_cons).
  assert (heard ((ev, o) :: tr) aid = (from, m) :: heard tr aid) as E2
    by (rewrite heard_cons; simpl; by rewrite decide_True).
  assert (said ((ev, o) :: tr) aid = o ++ said tr aid) as E3
    by (rewrite said_cons; simpl; by rewrite decide_True).
  assert (∀ j, j ≠ aid → heard ((ev, o) :: tr) j = heard tr j) as E4
    by (intros j Hj; rewrite heard_cons; simpl; by rewrite decide_False by done).
  assert (∀ j, j ≠ aid → said ((ev, o) :: tr) j = said tr j) as E5
    by (intros j Hj; rewrite said_cons; simpl; by rewrite decide_False by done).
  simpl in Hh. unfold at_node in Hh. destruct (c_acceptors c !! aid) as [a|] eqn:Ea.
  - apply bind_inv in Hh as ([a' out] & Hh & [= <-]).
    assert (o = out) as Eo by (unfold o; simpl; by rewrite Ea, Hh). clearbody o. subst out.
    assert (∀ pid, answers_ok aid (mine aid pid) pid ((from, m) :: heard tr aid) (o ++ said tr aid) a') as HA.
    { intros pid. destruct (Hin pid) as [H1 H2].
      by eapply message_answers; [exact H1|eapply in_order_sublist; [exact H2|apply Ho]|by apply Hac|exact Hh]. }
    split; intros *; rewrite ?E1; auto; cbn [c_acceptors c_proposers c_net put_acceptor].
    + destruct (decide (aid0 = aid)) as [->|Hj]; [rewrite E2; apply Hin|by rewrite E4].
    + destruct (decide (aid0 = aid)) as [->|Hj]; [rewrite E2; apply Hin|by rewrite E4].
    + intros [[<- <-]|[Hne Ha']]%lookup_insert_Some; [by rewrite E2, E3|]. rewrite E4, E5 by done. by apply Hac.
    + destruct (decide (aid0 = aid)) as [->|Hj]; [|rewrite E5 by done; apply Hv]. rewrite E3.
      intros Hm Hk. destruct (HA pid) as [_ Hout]. by eapply Hout.
    + intros [Hsub|?]%elem_of_app; [|auto]. by eapply acceptor_no_submit in Hsub.
  - injection Hh as <-. assert (o = []) as Eo by (unfold o; simpl; by rewrite Ea). clearbody o. subst o.
    split; intros *; rewrite ?E1; auto.
    + destruct (decide (aid0 = aid)) as [->|Hj]; [rewrite E2; apply Hin|by rewrite E4].
    + destruct (decide (aid0 = aid)) as [->|Hj]; [rewrite E2; apply Hin|by rewrite E4].
    + intros Ha'. assert (aid0 ≠ aid) by congruence. rewrite E4, E5 by done. by apply Hac.
    + destruct (decide (aid0 = aid)) as [->|Hj]; [rewrite E3; apply Hv|rewrite E5 by done; apply Hv].
Qed.

Lemma steady_pinv K id q :
  steady n id t0 W acs K q → pinv n (EvProposer.state q) ∧ p_id (EvProposer.state q) = id.
Proof using Type.
  intros [(k & vs & ps & xs & H & _) _ _]. destruct H as [I Hid _ _ _ _]. split; [|done].
  by destruct (pinv_intro _ _ _ _ _ I).
Qed.

(** An event of a proposer, if there is one. *)
Lemma ordered_proposer_event tr c K ev pid c' :
  ordered_inv tr c → cl_live K c → may_run pid c → proposer_of ev = Some pid →
  handle cfg ev c = Ret c' → ordered_inv ((ev, node_sends ev c) :: tr) c'.
Proof using Type.
  intros V L Hrun Hp Hh. destruct (c_proposers c !! pid) as [q|] eqn:Eq.
  - destruct (steady_pinv K pid q) as [I Hid]; [by apply (cv_proposers _ _ L)|].
    destruct (Hrun q Eq) as [k0 Hb].
    assert (∃ q' o, handles_event any_msg q q' o ∧ node_sends ev c = o ∧ c' = put_proposer pid q' o c)
      as (q' & o & He & Eo & ->).
    { destruct ev; try done; simpl in Hp; injection Hp as ->; simpl in Hh |- *; unfold at_node in Hh;
        rewrite Eq in Hh |- *; apply bind_inv in Hh as ([q' o] & Hq & [= <-]); rewrite Hq;
        exists q', o; (split; [unfold handles_event|done]).
      - left. exists t, e, m. done.
      - right. left. by exists cfg, t.
      - right. right. by exists e. }
    rewrite Eo. by eapply ordered_proposer; [exact V|exact Hp|by destruct ev|..|exact Hb|exact He].
  - assert (c' = c) as ->.
    { destruct ev; try done; simpl in Hp; injection Hp as ->; simpl in Hh; unfold at_node in Hh;
        rewrite Eq in Hh; by injection Hh. }
    rewrite (no_node_sends ev c pid Hp Eq). destruct V as [Ho Hs Ha Hi Hac Hv Hn].
    assert (∀ j, sent_by ((ev, []) :: tr) j = sent_by tr j) as E1
      by (intros j; rewrite sent_by_cons; by case_decide).
    assert (∀ aid, heard ((ev, []) :: tr) aid = heard tr aid) as E2
      by (intros aid; rewrite heard_cons; by destruct ev).
    assert (∀ aid, said ((ev, []) :: tr) aid = said tr aid) as E3
      by (intros aid; rewrite said_cons; by destruct ev).
    split; intros *; rewrite ?E1, ?E2, ?E3; auto. apply Hv.
Qed.

Lemma cl_repeat c s iid :
  1 ≤ n ≤ INT_MAX → cl_rel n cfg c s → MRepeatReq iid ∈ c_net c → 0 < iid < UINT32_MOD.
Proof using Type.
  intros Hn R Hm. destruct (cr_net _ _ _ _ R _ Hm) as [Hin|(i & [= ->] & ?)]; [|done].
  pose proof (sys_inv_reachable n Hn s (cr_reach _ _ _ _ R)) as I. by apply (sk_repeat _ (iv_ok _ _ I)) in Hin.
Qed.

(** The other events leave the states of acceptors and proposers as they are. *)
Definition same_states (c c' : cluster (S:=storage_mem)) : Prop :=
  (∀ aid a', c_acceptors c' !! aid = Some a' →
     ∃ a, c_acceptors c !! aid = Some a ∧ EvAcceptor.state a' = EvAcceptor.state a) ∧
  (∀ pid q', c_proposers c' !! pid = Some q' →
     ∃ q, c_proposers c !! pid = Some q ∧ EvProposer.state q' = EvProposer.state q).

Lemma same_nodes c c' :
  c_acceptors c' = c_acceptors c → c_proposers c' = c_proposers c → same_states c c'.
Proof using Type. intros E1 E2. split; rewrite ?E1, ?E2; eauto. Qed.

Lemma same_put_acceptor id a a' c :
  c_acceptors c !! id = Some a → EvAcceptor.state a' = EvAcceptor.state a →
  same_states c (put_acceptor id a' [] c).
Proof using Type. intros Ha E. split; simpl; [|eauto]. intros j x [[<- <-]|[_ Hx]]%lookup_insert_Some; eauto. Qed.

Lemma same_put_proposer id q q' c :
  c_proposers c !! id = Some q → EvProposer.state q' = EvProposer.state q →
  same_states c (put_proposer id q' [] c).
Proof using Type. intros Hq E. split; simpl; [eauto|]. intros j x [[<- <-]|[_ Hx]]%lookup_insert_Some; eauto. Qed.

Lemma quiet_handle tr ev c c' :
  proposer_of ev = None → arrives tr ev c → (∀ id from m, ev ≠ AcceptorMsg id from m) →
  handle cfg ev c = Ret c' →
  same_states c c' ∧ ∀ v, MSubmit v ∈ c_net c' → MSubmit v ∈ c_net c ∨ ev = Submit v.
Proof using Type.
  intros Hp Harr Hno Hh. destruct ev; try done; simpl in Hh; unfold at_node in Hh;
    try (destruct (_ !! id) eqn:Ex; [|injection Hh as <-; split; [by apply same_nodes|by left]]).
  - injection Hh as <-. split; [by apply same_nodes|]. intros v [[= ->]|?]%elem_of_cons; auto.
  - by destruct (Hno id from m).
  - apply bind_inv in Hh as (r & _ & [= <-]). split; [by eapply same_put_acceptor|by left].
  - apply bind_inv in Hh as (r & _ & [= <-]). split; [by eapply same_put_proposer|by left].
  - injection Hh as <-. split; [by eapply same_put_proposer|by left].
  - apply bind_inv in Hh as ([l2 ds] & _ & [= <-]). split; [by apply same_nodes|by left].
  - apply bind_inv in Hh as (out & Ho & [= <-]). split; [by apply same_nodes|].
    intros v [Hv|?]%elem_of_app; [|by left]. by eapply holes_no_submit in Hv.
  - injection Hh as <-. split; [by apply same_nodes|by left].
Qed.

Lemma ordered_step tr c s K ev c' :
  1 ≤ n ≤ INT_MAX → cl_rel n cfg c s → cl_live K c → (∀ id, may_run id c) → ordered_inv tr c →
  may_happen tr ev c → handle cfg ev c = Ret c' → ordered_inv ((ev, node_sends ev c) :: tr) c'.
Proof using Type.
  intros Hn R L Hrun V (Harr & Hval & _) Hh. destruct (proposer_of ev) as [pid|] eqn:Ep.
  { by eapply ordered_proposer_event. }
  assert ((∃ aid from m, ev = AcceptorMsg aid from m) ∨ (∀ aid from m, ev ≠ AcceptorMsg aid from m))
    as [(aid & from & m & ->)|Hno] by (destruct ev; eauto).
  { eapply ordered_acceptor; try done. intros iid ->. eapply cl_repeat; [done..|apply Harr]. }
  destruct (quiet_handle tr ev c c' Ep Harr Hno Hh) as [[H1 H2] H3].
  apply ordered_quiet; try done.
  - intros aid. destruct ev; try done. by destruct (Hno id from m).
  - intros v Hv. apply H3 in Hv as [Hv| ->]; [by apply (ov_submits _ _ V)|]. destruct Hval as [_ Hv].
    unfold mem_fits, MAX_SIZE_RECORD, sizeof_accept_ack. apply Z.leb_le. lia.
Qed.

(** What may happen in an ordered run is allowed: the accept acknowledgements are
votes, and the values fit. *)
Lemma may_happen_allowed tr c s ev :
  1 ≤ n ≤ INT_MAX → cl_rel n cfg c s → ordered_inv tr c → may_happen tr ev c → allowed ev c.
Proof using Type.
  intros Hn R V (Harr & Hval & Hwin & Ht & Hl).
  destruct ev; simpl in *; try done; try (intuition done).
  - split; [apply Harr|]. intros q Hq. split; [by apply Hwin|]. destruct q as [pr|ar|iid]; try done.
    assert (m = MAcceptReq ar) as -> by (destruct m; simpl in Hq; congruence).
    destruct (cr_net _ _ _ _ R _ (proj1 Harr)) as [Hin|(i & ? & _)]; [|done].
    pose proof (sys_inv_reachable n Hn s (cr_reach _ _ _ _ R)) as I.
    destruct (sk_req _ (iv_ok _ _ I) ar Hin) as (_ & _ & Hsub).
    apply (ov_submits _ _ V). by apply (cr_submit _ _ _ _ R).
  - destruct Harr as [Hm Hk], Ht as [Ht He]. repeat split; try done; try apply Ht; try apply He.
    intros k ->. destruct (Hk k eq_refl) as (aid & from & Ho & Hs). by eapply (ov_votes _ _ V).
Qed.

Lemma start_ordered c : cl_start es p c → ordered_inv [] c.
Proof using Type.
  intros Hs. destruct (cl_start_rel es p c Hs) as [n_ok _]. fold acs in n_ok. fold n in n_ok.
  destruct Hs as [Hf Hw [Ha Hp] Hl Hnet]. destruct (file_read es p Hf) as (cf & Ec & Rc).
  fold cfg in Ec. fold acs in Rc. split.
  - intros pid. split; [constructor|done].
  - intros pid q Hq. destruct (Hp pid q Hq) as (nb & p' & Hi). unfold evproposer_init in Hi.
    rewrite Ec in Hi. simpl in Hi. apply bind_inv in Hi as (o & Hi & [= _ ->]).
    destruct (evproposer_init_inv _ cf _ _ pid true nb q Rc Hi) as [Hid Hnew].
    by apply (order_ok_new pid n).
  - done.
  - intros aid pid x m Hin. by apply not_elem_of_nil in Hin.
  - intros aid v pid Hv. destruct (Ha aid v Hv) as (st & p' & Hst & Hi). unfold evacceptor_init in Hi.
    rewrite Ec in Hi. simpl in Hi. apply bind_inv in Hi as (o & Hi & [= _ ->]).
    destruct (evacceptor_init_inv cf _ _ aid true (Some st) v Rc Hi) as [Hid Est].
    split; [|by intros x k _ Hk; apply not_elem_of_nil in Hk]. exists (Acceptor st), ∅. split; [exact Est|].
    split; [exact Hst|]. split; [by intros i r Hr; rewrite lookup_empty in Hr|].
    by intros i r Hr; rewrite lookup_empty in Hr.
  - intros aid pid from k _ Hk. by apply not_elem_of_nil in Hk.
  - rewrite Hnet. by intros v Hv; apply not_elem_of_nil in Hv.
Qed.

(** Every ordered run is one of [EvCluster], in which every node is in order. *)
Lemma run_live c0 tr c :
  cl_start es p c0 → 0 ≤ W → ordered_run c0 tr c →
  3 * (Z.of_nat (S (length tr)) * step_cost) < 2 ^ 26 →
  rtc (cl_step cfg) c0 c ∧ ordered_inv tr c ∧ (∃ s, cl_rel n cfg c s) ∧
  cl_live (Z.of_nat (length tr) * step_cost) c.
Proof using Type.
  intros Hs HW Hr Hk. destruct (cl_start_rel es p c0 Hs) as [n_ok R0]. pose proof (cs_window _ _ _ Hs) as Hw.
  fold acs in n_ok, R0. fold n in n_ok, R0. fold cfg in R0, Hw.
  assert (0 ≤ step_cost) as Hcost by (unfold step_cost; lia).
  induction Hr as [|tr c ev c' Hr IH Hev Hh].
  { split; [apply rtc_refl|]. split; [by apply start_ordered|]. split; [by eexists|by apply start_live]. }
  simpl length in Hk |- *. rewrite (Nat2Z.inj_succ (S (length tr))), Z.mul_succ_l in Hk.
  destruct IH as (Hc & V & [s R] & L); [lia|].
  set (K := Z.of_nat (length tr) * step_cost) in *.
  assert (0 ≤ K) as HK by (apply Z.mul_nonneg_nonneg; lia).
  rewrite Nat2Z.inj_succ, Z.mul_succ_l in Hk |- *. fold K in Hk |- *.
  assert (3 * (K + step_cost) < 2 ^ 26) as HKs by lia.
  destruct (allowed_step c K s ev n_ok Hw HW HK HKs R L) as (c2 & s2 & E & Hst & R2 & L2).
  { by eapply may_happen_allowed. }
  rewrite Hh in E. injection E as <-. split; [by eapply rtc_r|].
  split; [|split; [by eexists|exact L2]]. eapply ordered_step; [done|exact R|exact L| |done..].
  intros id. by eapply (live_may_run c K).
Qed.

(** ** Properties *)

(** C2: a cluster on connections that keep the order keeps running.  From a start
of in-memory acceptors, proposers and learners on one configuration file, whatever
messages are lost, however answers are delayed, duplicated or reordered, whichever
connections come, break and are made again and whichever timers fire, every event
that may happen next is handled: no assertion fails, no access is out of bounds, no
arithmetic overflows, no loop runs on.  What may happen ([may_happen]) is:
- the requests of a proposer reach an acceptor in the order in which it sent them,
  some of them missing, on connections that are its own, and an accept
  acknowledgement reaches a proposer only from one of its connections ([arrives]);
  an acceptor does not restart, since its table would be lost;
- clients submit values of 1 to 8160 bytes ([small_values]);
- acceptors are asked for instances of one window of [MAX_RECORDS] ([in_table]);
- the clocks of proposers stay within 2000 seconds of [t0] ([on_time]);
- learners get acknowledgements that are votes, for instances their [int]
  arithmetic reaches ([learnable]).
That the acknowledgements a proposer gets are votes where it asserts so is derived
from the order, not assumed; over a network that reorders requests the assertion
fails ([stale_refusal_aborts]).  The run has at most about
2^26 / (9 + 6 * preexec_window) events, within which the counters of the proposers
cannot overflow.  Every such run is one that [cluster_delivers] speaks of. *)
Theorem cluster_keeps_running c0 tr c :
  cl_start es p c0 → 0 ≤ W → ordered_run c0 tr c →
  3 * (Z.of_nat (S (length tr)) * step_cost) < 2 ^ 26 →
  rtc (cl_step cfg) c0 c ∧ ∀ ev, may_happen tr ev c → ∃ c', handle cfg ev c = Ret c'.
Proof using Type.
  intros Hs HW Hr Hk. destruct (run_live c0 tr c Hs HW Hr Hk) as (Hc & V & [s R] & L). split; [done|].
  intros ev Hev. destruct (cl_start_rel es p c0 Hs) as [n_ok _].
  assert (0 ≤ step_cost) by (unfold step_cost; lia). rewrite Nat2Z.inj_succ, Z.mul_succ_l in Hk.
  assert (0 ≤ Z.of_nat (length tr) * step_cost) as HK by (apply Z.mul_nonneg_nonneg; lia).
  destruct (allowed_step c _ s ev n_ok (cs_window _ _ _ Hs) HW HK Hk R L) as (c' & s' & E & _).
  { by eapply may_happen_allowed. }
  by exists c'.
Qed.

End run.

(** ** Examples *)

(** Connection 5 of every acceptor is that of proposer 1. *)
Definition demo_owner (aid : Z) (from : bufferevent) : option Z :=
  if from =? 5 then Some 1 else None.

(** The first events of [run_events]: up to the first vote. *)
Definition first_events : list (event (S:=storage_mem)) := take 9 run_events.
Definition first_run : trace * cluster :=
  from_ret ([], run_start) (trace_of demo_entries small_config first_events [] run_start).

Lemma demo_env_window i : in_window 0 (now demo_env i).
Proof. split; simpl; lia. Qed.

Ltac in_net := apply (bool_decide_unpack _); vm_compute; reflexivity.

Ltac in_sent := vm_compute; repeat first [apply sublist_skip|apply sublist_cons|apply sublist_nil].

Ltac happens :=
  repeat lazymatch goal with
  | |- may_happen _ _ _ _ _ _ _ _ => unfold may_happen, arrives, small_values, in_table, on_time, learnable
  | |- _ ∧ _ => split
  | |- True => exact I
  | |- in_window _ (now demo_env _) => apply demo_env_window
  | |- _ `sublist_of` _ => in_sent
  | |- match demo_owner _ _ with _ => _ end => cbn [demo_owner Z.eqb Pos.eqb]
  | |- ∀ i : Z, in_window _ _ => intros ?
  | |- ∀ k, _ = MAcceptAck k → _ => by intros ? [=]
  | |- ∀ q, request_of _ = Some q → _ => intros ? [= <-]
  | |- _ ∈ _ => in_net
  | |- _ => by vm_compute
  end.

Lemma first_happen : all_happen demo_entries small_config 1 0 demo_owner run_start first_events [] run_start.
Proof.
  do 9 (split; [happens|]). exact I.
Qed.

Lemma first_run_ok : ordered_run demo_entries small_config 1 0 demo_owner run_start first_run.1 first_run.2.
Proof.
  eapply trace_of_run; [apply or_start|exact first_happen|]. vm_compute. reflexivity.
Qed.

Lemma cluster_keeps_running_witness :
  rtc (cl_step small_options) run_start first_run.2 ∧
  ∃ c', handle small_options (ProposerMsg 1 at_zero demo_env (MAcceptAck (run_vote 0))) first_run.2 = Ret c'.
Proof.
  destruct (cluster_keeps_running demo_entries small_config 1 0 demo_owner run_start first_run.1 first_run.2
    run_start_ok) as [H1 H2].
  - vm_compute. congruence.
  - exact first_run_ok.
  - by vm_compute.
  - split; [exact H1|]. apply H2. unfold may_happen, arrives. split; [|happens].
    split; [in_net|]. intros k [= <-]. exists 0, 5. split; [done|]. in_net.
Defined.

(** Proposer 1 has to try again because of proposer 2; the request of its first
try reaches acceptor 0 after that of its second. *)
Definition second_proposer : evproposer :=
  EvProposer 2 1 (TcpReceiver.Receiver (TcpReceiver.set_sockaddr_in no_address)
                      (Carray 0 0 10 0 (replicate 10 None)))
    (from_ret demo0 (proposer_new 2 3)) (EvProposer.acceptors small_proposer) (Timeval 1 0).

Definition duel_start : cluster :=
  Cluster (c_acceptors run_start) {[1 := small_proposer; 2 := second_proposer]} ∅ [].

Lemma duel_start_ok : cl_start demo_entries small_config duel_start.
Proof.
  destruct run_start_ok as [Hf Hw [Ha Hp] _ _]. split; [exact Hf|exact Hw| |done|done].
  split; [exact Ha|]. intros id x E. simpl in E.
  apply lookup_insert_Some in E as [[<- <-]|[_ E]]; [by apply (Hp 1 small_proposer)|].
  apply lookup_singleton_Some in E as [<- <-]. exists (λ i, i). eexists. vm_compute. reflexivity.
Qed.

(** What acceptor 0 answers to the old request: its promise to the new one. *)
Definition stale_refusal : accept_ack := AcceptAck 0 1 21 0 0 [].

Definition duel_events : list (event (S:=storage_mem)) :=
  let to_1 m := ProposerMsg 1 at_zero demo_env m in
  [Submit [x41]; Submit [x42]; to_1 (MSubmit [x41]); ProposerMsg 2 at_zero demo_env (MSubmit [x42]);
   AcceptorMsg 0 5 (MPrepareReq run_pr); AcceptorMsg 1 5 (MPrepareReq run_pr);
   to_1 (MPrepareAck (run_ack 0)); to_1 (MPrepareAck (run_ack 1));
   AcceptorMsg 1 5 (MPrepareReq (PrepareReq 1 12)); AcceptorMsg 1 5 (MAcceptReq run_ar);
   to_1 (MAcceptAck (AcceptAck 1 1 12 0 0 []));
   AcceptorMsg 0 5 (MPrepareReq (PrepareReq 1 21)); AcceptorMsg 1 5 (MPrepareReq (PrepareReq 1 21));
   to_1 (MPrepareAck (PrepareAck 0 1 21 0 [])); to_1 (MPrepareAck (PrepareAck 1 1 21 0 []));
   AcceptorMsg 0 5 (MAcceptReq run_ar)].

Definition duel_end : cluster := from_ret duel_start (run_of 100 small_options duel_events duel_start).

Lemma duel_run : run_of 100 small_options duel_events duel_start = Ret duel_end.
Proof. vm_compute. reflexivity. Qed.

(** Without the order a proposer may fail: over a network that reorders its
requests, the refusal of an old one carries its own newer ballot, and the
assertion that such an acknowledgement is a vote fails.  A connection keeps the
order of the requests, and the answer goes to the connection of the request, so
the code relies on that. *)
Lemma stale_refusal_aborts :
  rtc (cl_step small_options) duel_start duel_end ∧ MAcceptAck stale_refusal ∈ c_net duel_end ∧
  ¬ vote_for 1 stale_refusal ∧
  handle small_options (ProposerMsg 1 at_zero demo_env (MAcceptAck stale_refusal)) duel_end =
    Fault AssertFailed.
Proof.
  split; [by eapply run_of_steps, duel_run|]. split; [in_net|]. split; [|vm_compute; reflexivity].
  intros H. by specialize (H eq_refl).
Qed.
