(* ===== verification/Samples.v ===== *)
(** * The sample programs (src/sample)

Each [main] as a function of its arguments: [return n] is [Ret n], [exit(n)] a
fault.  [files] are the contents of the files by name, the event loop of
libevent is the argument [dispatch] (the handlers it runs until it is
interrupted), and what the programs print is left out, except for the values
the learner prints. *)

From S2P Require Import Config.
From S2P Require Import Prelude Carray Quorum Messages Storage StorageMem Acceptor.
From S2P Require Import Proposer Learner Wire Net EvAcceptor EvProposer EvLearner.
#[local] Open Scope Z_scope.

(** [atoi] is [(int)strtol(s, NULL, 10)]. *)
Definition atoi (s : bytes) : Z :=
  match strtol (c_str s) with Some (n, _) => to_int n | None => 0 end.

(** The command line: as many arguments as the program asks for, or [usage]. *)
Definition args (argc usage : Z) (argv : list bytes) : res unit :=
  if Z.of_nat (length argv) =? argc then Ret tt else Fault (Exit usage).

(** ** acceptor.c *)

Section acceptor.
Context {S : Type} `{Storage S}.
Variable files : bytes → option bytes.
Variable cfg : paxos_config.
Variable bound : bool.
Variable storage_open : Z → option S.
Variable storage_close : S → Z.
Variable dispatch : evacceptor S → res (evacceptor S).

Definition acceptor_main (argv : list bytes) : res Z :=
  args 3 0 argv ;;
  id_arg ← arr_get argv 1;
  file ← arr_get argv 2;
  let id := atoi id_arg in
  '(_, acc) ← evacceptor_init (files file) cfg id bound (storage_open id);
  match acc with
  | None => Ret 0
  | Some acc => acc ← dispatch acc; evacceptor_free storage_close acc ;; Ret 1
  end.

End acceptor.

(** ** proposer.c *)

Section proposer.
Variable files : bytes → option bytes.
Variable cfg : paxos_config.
Variable bound : bool.
Variable new_bev : Z → bufferevent.
Variable dispatch : evproposer → res evproposer.

Definition proposer_main (argv : list bytes) : res Z :=
  args 3 1 argv ;;
  id_arg ← arr_get argv 1;
  file ← arr_get argv 2;
  '(_, prop) ← evproposer_init (files file) cfg (atoi id_arg) bound new_bev;
  match prop with
  | None => Fault (Exit 1)
  | Some prop => prop ← dispatch prop; evproposer_free prop ;; Ret 0
  end.

End proposer.

(** ** learner.c *)

(** What is printed for a delivery; [%s] reads up to a NUL, and there may be none
in the value. *)
Definition deliver (d : delivery) : res (list bytes) :=
  let v := c_str (d_value d) in
  if (length v <? length (d_value d))%nat then
    Ret [text "Paxos instance " ++ print_int (d_iid d) ++ text " closed by ballot " ++ print_int (d_ballot d);
         v]
  else Fault OutOfBounds.

Section learner.
Variable files : bytes → option bytes.
Variable cfg : paxos_config.
Variable new_bev : Z → bufferevent.
Variable dispatch : evlearner → res evlearner.

(** [evlearner_init] never returns NULL: [read_config] exits instead. *)
Definition learner_main (argv : list bytes) : res Z :=
  args 2 1 argv ;;
  file ← arr_get argv 1;
  '(_, lea) ← evlearner_init (files file) cfg new_bev;
  lea ← dispatch lea;
  evlearner_free lea ;;
  Ret 0.

End learner.

(** ** client.c and bakclient.c *)

(** The new connection, unless [bufferevent_socket_connect] fails. *)
Definition connect_to_proposer (new_bev : bufferevent) (connected : bool) : option bufferevent :=
  if connected then Some new_bev else None.

(** The value the two clients submit, with its NUL. *)
Definition client_value : bytes := text "hello" ++ [x00].
Definition bakclient_value : bytes := text "hello!" ++ [x00].

(** One turn of the endless loop: [paxos_submit], [rate] times. *)
Definition client_round (value : bytes) (rate : Z) (bev : option bufferevent) : res sends :=
  for_to rate (λ _ out, b ← deref bev; Ret (out ++ [(b, MSubmit value)])) [].

(** [main] up to [rounds] turns of its loop; [parse] is
[evutil_parse_sockaddr_port(...) != -1]. *)
Definition client_main (value : bytes) (parse : bytes → bool) (new_bev : bufferevent)
    (connected : bool) (rounds : nat) (argv : list bytes) : res sends :=
  args 3 1 argv ;;
  address ← arr_get argv 1;
  rate_arg ← arr_get argv 2;
  if parse address then
    let rate := atoi rate_arg in
    let bev := connect_to_proposer new_bev connected in
    for_to (Z.of_nat rounds) (λ _ out, out' ← client_round value rate bev; Ret (out ++ out')) []
  else Fault (Exit 1).

(** bakclient.c is client.c with another value. *)
Definition bakclient_main := client_main bakclient_value.

(** ** What the clients send *)

Lemma client_round_ok value rate b :
  client_round value rate (Some b) = Ret (replicate (Z.to_nat rate) (b, MSubmit value)).
Proof.
  unfold client_round, for_to. generalize (Z.to_nat rate) as k. intros k.
  enough (∀ i out, for_range k i (λ _ out, b0 ← deref (Some b); Ret (out ++ [(b0, MSubmit value)])) out =
    Ret (out ++ replicate k (b, MSubmit value))) as H by apply H.
  induction k as [|k IH]; intros i out; simpl; [by rewrite app_nil_r|].
  by rewrite IH, <-app_assoc.
Qed.

(** After [rounds] turns a connected client has submitted its value [rounds *
rate] times on its connection. *)
Lemma client_submits value parse b rounds prog addr rate_arg :
  parse addr = true →
  client_main value parse b true rounds [prog; addr; rate_arg] =
    Ret (replicate (rounds * Z.to_nat (atoi rate_arg)) (b, MSubmit value)).
Proof.
  intros Hp. unfold client_main. simpl. rewrite Hp, client_round_ok. unfold for_to. rewrite Nat2Z.id.
  generalize (Z.to_nat (atoi rate_arg)) as r. intros r.
  enough (∀ i out, for_range rounds i (λ _ out, out' ← Ret (replicate r (b, MSubmit value));
      Ret (out ++ out')) out = Ret (out ++ replicate (rounds * r) (b, MSubmit value))) as H by apply H.
  induction rounds as [|k IH]; intros i out; simpl; [by rewrite app_nil_r|].
  by rewrite IH, <-app_assoc, replicate_add.
Qed.

(** A client without a connection dereferences a null pointer. *)
Lemma client_unconnected value parse b rounds prog addr rate_arg :
  parse addr = true → 0 < atoi rate_arg →
  client_main value parse b false (S rounds) [prog; addr; rate_arg] = Fault NullDeref.
Proof.
  intros Hp Hr. unfold client_main. simpl. rewrite Hp. unfold for_to. rewrite Nat2Z.id. simpl.
  unfold client_round, for_to. destruct (Z.to_nat (atoi rate_arg)) eqn:E; [lia|done].
Qed.

(** What the learner prints for the client's value. *)
Lemma learner_prints_hello iid b prop :
  ∃ line, deliver (Delivery client_value iid b prop) = Ret [line; text "hello"].
Proof. by eexists. Qed.
