(* ===== verification/EchoServer.v ===== *)
(** * The echo server (src/test.c)

A program of its own that sends back what it receives.  libevent calls the
callbacks: [event] is what may happen to the server, [step] what it then does.
[evbuffer_add_buffer] is libevent's, with its documented behaviour: it moves
all that one buffer holds to the end of the other.  [echo_returns] says that
each client gets back what it sent, in order, however the bytes arrive and
whenever they are written. *)

From S2P Require Import Config.
From S2P Require Import Prelude Messages Wire Net Samples.
#[local] Open Scope Z_scope.

Class EvbufferMove (B : Type) : Type := {
  evbuffer_add_buffer : B → B → B * B;   (** destination and source *)
  evbuffer_new : B;
}.

Class EvbufferMoveSpec (B : Type) `{EvbufferSpec B, EvbufferMove B} : Prop := {
  add_buffer_spec dst src :
    evb_content (evbuffer_add_buffer dst src).1 = evb_content dst ++ evb_content src ∧
    evb_content (evbuffer_add_buffer dst src).2 = [];
  new_spec : evb_content evbuffer_new = [];
}.

Section server.
Context {B : Type} `{Evbuffer B, EvbufferMove B}.

(** A connection, and the server: its connections, and whether its event loop
runs. *)
Record conn : Type := Conn { input : B; output : B }.
Record server : Type := Server { conns : gmap bufferevent conn; running : bool }.

Definition echo_read_cb (x : conn) : conn :=
  let '(out, inp) := evbuffer_add_buffer (output x) (input x) in Conn inp out.

(** [error] and [eof] are the bits of [events]. *)
Definition echo_event_cb (bev : bufferevent) (error eof : bool) (s : server) : server :=
  if eof || error then Server (delete bev (conns s)) (running s) else s.

(** [bev] is the new connection. *)
Definition accept_conn_cb (bev : bufferevent) (s : server) : server :=
  Server (<[bev := Conn evbuffer_new evbuffer_new]> (conns s)) (running s).

(** The event loop ends. *)
Definition accept_error_cb (s : server) : server := Server (conns s) false.

Definition echo_port (argv : list bytes) : res Z :=
  if 1 <? Z.of_nat (length argv) then a ← arr_get argv 1; Ret (atoi a) else Ret 9876.

(** What [main] returns before it starts its event loop, or the address it listens
on; [based] and [bound] say whether libevent could make the event base and the
listener. *)
Definition echo_setup (based bound : bool) (argv : list bytes) : res (Z + sockaddr_in) :=
  port ← echo_port argv;
  if (port <=? 0) || (65535 <? port) then Ret (inl 1)
  else if negb based then Ret (inl 1)
  else if negb bound then Ret (inl 1)
  else Ret (inr (Sockaddr INADDR_ANY (htons port))).

(** ** What may happen *)

Inductive event : Type :=
  | Connect (bev : bufferevent)
  | Data (bev : bufferevent) (bs : bytes)         (** bytes arrive *)
  | Written (bev : bufferevent) (k : nat)         (** at most [k] bytes are sent *)
  | Status (bev : bufferevent) (error eof : bool)
  | ListenerError.

Definition put (bev : bufferevent) (x : conn) (s : server) : server :=
  Server (<[bev := x]> (conns s)) (running s).

(** One event, and what is sent on which connection. *)
Definition step (s : server) (e : event) : server * list (bufferevent * bytes) :=
  if running s then
    match e with
    | Connect bev => (accept_conn_cb bev s, [])
    | Data bev bs =>
        match conns s !! bev with
        | Some x => (put bev (echo_read_cb (Conn (evbuffer_add (input x) bs) (output x))) s, [])
        | None => (s, [])
        end
    | Written bev k =>
        match conns s !! bev with
        | Some x =>
            let '(bs, out) := evbuffer_remove (output x) (Z.of_nat k) in
            (put bev (Conn (input x) out) s, [(bev, bs)])
        | None => (s, [])
        end
    | Status bev error eof => (echo_event_cb bev error eof s, [])
    | ListenerError => (accept_error_cb s, [])
    end
  else (s, []).

Fixpoint run (s : server) (es : list event) : server * list (bufferevent * bytes) :=
  match es with
  | [] => (s, [])
  | e :: es' =>
      let '(s, o) := step s e in let '(s, o') := run s es' in (s, o ++ o')
  end.

(** What a client sent to [bev], and got from it. *)
Definition received (bev : bufferevent) (es : list event) : bytes :=
  e ← es; match e with Data b bs => if decide (b = bev) then bs else [] | _ => [] end.
Definition sent (bev : bufferevent) (out : list (bufferevent * bytes)) : bytes :=
  x ← out; if decide (x.1 = bev) then x.2 else [].

(** ** It echoes *)

Section echo.
Context `{ES : !EvbufferSpec B, MS : !EvbufferMoveSpec B}.

(** [bev] has [todo] still to send, and nothing unread. *)
Definition holds (bev : bufferevent) (todo : bytes) (s : server) : Prop :=
  ∃ x, conns s !! bev = Some x ∧ evb_content (output x) = todo ∧ evb_content (input x) = [].

Definition closed (bev : bufferevent) (s : server) : Prop := conns s !! bev = None ∨ running s = false.

Lemma read_cb_holds x bs :
  evb_content (input x) = [] →
  let y := echo_read_cb (Conn (evbuffer_add (input x) bs) (output x)) in
  evb_content (output y) = evb_content (output x) ++ bs ∧ evb_content (input y) = [].
Proof using MS.
  intros E. unfold echo_read_cb. simpl.
  destruct (add_buffer_spec (output x) (evbuffer_add (input x) bs)) as [H1 H2].
  destruct (evbuffer_add_buffer _ _) as [o i]. simpl in *. by rewrite H1, H2, add_spec, E.
Qed.

(** One event: what is sent and left is what was left and came in. *)
Lemma step_holds bev todo s e s' o :
  holds bev todo s → e ≠ Connect bev → step s e = (s', o) →
  (closed bev s' ∧ ∃ rest, todo ++ received bev [e] = sent bev o ++ rest) ∨
  (running s' = true ∧ ∃ todo', holds bev todo' s' ∧ todo ++ received bev [e] = sent bev o ++ todo').
Proof using MS.
  intros (x & Ex & Eo & Ei) Hne Hs. unfold step in Hs.
  destruct (running s) eqn:Er; [|injection Hs as <- <-; left; split; [by right|by eexists]].
  assert (running s = true → ∀ t, received bev [e] = [] → sent bev t = [] →
    running s' = true → conns s' !! bev = Some x → o = t →
    running s' = true ∧ ∃ todo', holds bev todo' s' ∧ todo ++ received bev [e] = sent bev o ++ todo') as Hsame.
  { intros _ t -> Ht Hr Hx ->. split; [done|]. exists todo. rewrite Ht, app_nil_r. split; [by exists x|done]. }
  destruct e as [b|b bs|b k|b error eof|].
  - injection Hs as <- <-. right. apply (Hsame Er []); simpl; [done..| |done].
    by rewrite lookup_insert_ne by congruence.
  - destruct (decide (b = bev)) as [->|Hb].
    + rewrite Ex in Hs. injection Hs as <- <-. right. split; [done|].
      destruct (read_cb_holds x bs Ei) as [H1 H2]. exists (todo ++ bs). split.
      * eexists. split; [apply lookup_insert_eq|]. rewrite H1, Eo. done.
      * unfold received. simpl. rewrite decide_True by done. by rewrite app_nil_r.
    + right. assert (received bev [Data b bs] = []) as Hr by (unfold received; simpl; by rewrite decide_False).
      destruct (conns s !! b); injection Hs as <- <-; apply (Hsame Er []); simpl; try done.
      by rewrite lookup_insert_ne by done.
  - destruct (decide (b = bev)) as [->|Hb].
    + rewrite Ex in Hs. destruct (remove_spec (output x) (Z.of_nat k) ltac:(lia)) as [H1 H2].
      destruct (evbuffer_remove (output x) (Z.of_nat k)) as [bs out]. simpl in H1, H2.
      injection Hs as <- <-. right. split; [done|]. exists (drop k todo). rewrite Nat2Z.id, Eo in *. split.
      * eexists. split; [apply lookup_insert_eq|done].
      * unfold received, sent. simpl. rewrite decide_True by done. rewrite !app_nil_r, H1. by rewrite take_drop.
    + right. destruct (conns s !! b); [destruct (evbuffer_remove _ _) as [bs out]|];
        injection Hs as <- <-; (eapply (Hsame Er); [done| |done| |done]); simpl; try done;
        [unfold sent; simpl; by rewrite decide_False|by rewrite lookup_insert_ne by done].
  - injection Hs as <- <-.
    assert (conns (echo_event_cb b error eof s) !! bev = None ∨
      conns (echo_event_cb b error eof s) !! bev = Some x) as [Hn|Hx].
    { unfold echo_event_cb. destruct (eof || error); [|by right]. simpl.
      destruct (decide (b = bev)) as [->|]; [left; apply lookup_delete_eq|right; by rewrite lookup_delete_ne]. }
    + left. split; [by left|by eexists].
    + right. apply (Hsame Er []); try done. unfold echo_event_cb. by destruct (eof || error).
  - injection Hs as <- <-. left. split; [by right|by eexists].
Qed.

Lemma received_cons bev e es : received bev (e :: es) = received bev [e] ++ received bev es.
Proof. unfold received. simpl. by rewrite app_nil_r. Qed.

Lemma sent_app bev o o' : sent bev (o ++ o') = sent bev o ++ sent bev o'.
Proof. unfold sent. by rewrite bind_app. Qed.

(** Nothing is sent on a closed connection. *)
Lemma closed_run bev s es s' o :
  closed bev s → Connect bev ∉ es → run s es = (s', o) → closed bev s' ∧ sent bev o = [].
Proof.
  revert s o. induction es as [|e es IH]; intros s o Hc Hes Hr; simpl in Hr; [by injection Hr as <- <-|].
  apply not_elem_of_cons in Hes as [Hne Hes]. destruct (step s e) as [s1 o1] eqn:E1.
  destruct (run s1 es) as [s2 o2] eqn:E2. injection Hr as <- <-.
  assert (closed bev s1 ∧ sent bev o1 = []) as [Hc1 Ho1].
  { unfold step in E1. destruct (running s) eqn:Er; [|by injection E1 as <- <-].
    destruct Hc as [Hc|Hc]; [|congruence].
    assert (∀ b x t, conns s !! b = Some x → closed bev (put b t s)) as Hput.
    { intros b x t Hx. left. simpl. rewrite lookup_insert_ne by congruence. done. }
    destruct e as [b|b bs|b k|b error eof|].
    - injection E1 as <- <-. split; [|done]. left. simpl. by rewrite lookup_insert_ne by congruence.
    - destruct (conns s !! b) as [x|] eqn:Ex; injection E1 as <- <-; (split; [|done]); [eauto|by left].
    - destruct (conns s !! b) as [x|] eqn:Ex; [|injection E1 as <- <-; split; [by left|done]].
      destruct (evbuffer_remove _ _) as [bs out]. injection E1 as <- <-. split; [eauto|].
      unfold sent. simpl. rewrite decide_False by congruence. done.
    - injection E1 as <- <-. split; [|done]. unfold echo_event_cb. destruct (eof || error); [|by left].
      left. simpl. rewrite lookup_delete. by case_decide.
    - injection E1 as <- <-. split; [by right|done]. }
  destruct (IH s1 o2 Hc1 Hes E2) as [Hc2 Ho2]. by rewrite sent_app, Ho1, Ho2.
Qed.

Lemma run_holds bev todo s es s' o :
  holds bev todo s → Connect bev ∉ es → run s es = (s', o) →
  ∃ rest, todo ++ received bev es = sent bev o ++ rest ∧ (¬ closed bev s' → holds bev rest s').
Proof using MS.
  revert todo s o. induction es as [|e es IH]; intros todo s o Hh Hes Hr; simpl in Hr.
  { injection Hr as <- <-. exists todo. split; [by rewrite app_nil_r|done]. }
  apply not_elem_of_cons in Hes as [Hne Hes]. destruct (step s e) as [s1 o1] eqn:E1.
  destruct (run s1 es) as [s2 o2] eqn:E2. injection Hr as <- <-.
  rewrite received_cons, app_assoc, sent_app.
  destruct (step_holds bev todo s e s1 o1 Hh (not_eq_sym Hne) E1) as [(Hc & rest & ->)|(_ & todo' & Hh1 & ->)].
  - destruct (closed_run bev s1 es s2 o2 Hc Hes E2) as [Hc2 ->]. exists (rest ++ received bev es).
    rewrite app_nil_r, app_assoc. split; [done|]. intros Hn. by destruct Hn.
  - destruct (IH todo' s1 o2 Hh1 Hes E2) as (rest & Hrest & Hend). exists rest.
    split; [|done]. by rewrite <-!app_assoc, Hrest.
Qed.

(** From the moment it connects, a client is sent back a prefix of what it has
sent, and as long as it is connected the rest is waiting to be sent: nothing is
lost, changed, reordered or given to another client. *)
Lemma echo_returns bev s es s' out :
  Connect bev ∉ es → run (accept_conn_cb bev s) es = (s', out) →
  ∃ rest, received bev es = sent bev out ++ rest ∧
    (running s' = true → ∀ x, conns s' !! bev = Some x → evb_content (output x) = rest).
Proof using MS.
  intros Hes Hr. destruct (run_holds bev [] (accept_conn_cb bev s) es s' out) as (rest & Hrest & Hend);
    [|done..|].
  - eexists. split; [apply lookup_insert_eq|]. simpl. by rewrite new_spec.
  - exists rest. split; [done|]. intros Hrun x Ex. destruct Hend as (y & Ey & Eo & _); [|by simplify_eq].
    intros [Hc|Hc]; congruence.
Qed.

End echo.
End server.

(** Buffers as lists of bytes meet the contract. *)
#[export] Instance bytes_move : EvbufferMove bytes :=
  {| evbuffer_add_buffer dst src := (dst ++ src, []); evbuffer_new := [] |}.
#[export] Instance bytes_move_spec : EvbufferMoveSpec bytes.
Proof. by split. Qed.

(** Two clients whose bytes and writes are interleaved; one hangs up. *)
Example echo_run :
  run (Server ∅ true) [Connect 3; Data 3 (text "he"); Connect 4; Written 3 1; Data 4 (text "x");
    Data 3 (text "y"); Written 4 8; Written 3 8; Status 4 false true; Data 4 (text "z"); Written 4 8] =
  (Server {[3 := Conn [] []]} true, [(3, text "h"); (4, text "x"); (3, text "ey")]).
Proof. vm_compute. reflexivity. Qed.

(** The port: the default one, or a number between 1 and 65535. *)
Lemma echo_setup_port based bound argv port :
  echo_port argv = Ret port → ¬ 0 < port ≤ 65535 → echo_setup based bound argv = Ret (inl 1).
Proof. intros Hp Hn. unfold echo_setup. rewrite Hp. simpl. repeat case_Z; simpl; try done. lia. Qed.

Example echo_default prog : echo_setup true true [prog] = Ret (inr (Sockaddr INADDR_ANY 37926)).
Proof. reflexivity. Qed.
Example echo_bad_port : echo_setup true true [text "echo"; text "70000"] = Ret (inl 1).
Proof. vm_compute. reflexivity. Qed.
